(* ===== verification/_CoqProject ===== *)
-Q . S2P
Prelude.v
Text.v
ToolFlags.v
BookTypes.v
LevelMap.v
Engine.v
L1Policy.v
L2Policy.v
L2Refinement.v
L3Policy.v
L3Refinement.v
L3Ready.v
KrakenChecksum.v
KrakenL3Policy.v
FixMessage.v
FixRoundTrip.v
FixSound.v
FixFramer.v
FixGroup.v
FixTime.v
FixSession.v
FixLink.v
Feed.v
Ring.v
Journal.v
JournalProofs.v
JournalCrash.v
JournalSlice.v
SliceProofs.v
JournalThread.v
CaptureSession.v
ThreadProofs.v
SessionProofs.v
JournalNames.v
Scale.v
ScaleExact.v
DeribitWire.v
DeribitRoundTrip.v
KrakenWire.v
BookAdapter.v
AdapterProofs.v
AdapterReady.v
BookService.v
ServiceProofs.v
KrakenSigning.v
KrakenRequests.v
JournalDump.v
DumpProofs.v
JournalReplay.v
ReplayProofs.v
ReplayTool.v
ClientBase.v
FixClient.v
Logging.v
FixFuzz.v
FixClientSpec.v
FixClientProofs.v
FixClientLive.v
FixClientSecret.v
Config.v
ConfigProofs.v
ConfigSafety.v
Selection.v
SelectionProofs.v
KrakenRest.v
KrakenRestProofs.v
BookWiring.v
FatalProofs.v
KrakenClient.v
KrakenPace.v
KrakenAccounts.v
KrakenSecret.v
KrakenClassify.v
KrakenSubscribe.v
Capture.v
Process.v
ProcessProofs.v
