(* ===== verification/Prelude.v ===== *)
(** * Order books and market-data capture for a crypto feed handler

    The program ([src/src/]) captures market data from Kraken (JSON over
    WebSocket) and Deribit (FIX over TCP), journals every frame, and keeps order
    books up to date from the same frames, live or from a replayed journal.
    Three libraries make it up: [order_book] (books and the engine around them),
    [feed_handler] (FIX, sessions, frames, journals, rings) and [book_adapter]
    (frames to books, and the thread that runs them).

    ** How the parts interact

    A connection thread frames and checks the bytes it receives (FIX: the
    framer, then the parser, then the session's sequence check), stamps each
    message into a [CaptureFrame] and hands it to its sinks: the journal, and a
    ring in front of the book thread. The book thread pops the rings, tells the
    adapter about frames a ring refused and hands it the rest; the adapter
    parses a frame into snapshots and updates and applies them to the book of
    their symbol; a book is a policy (L1, L2, L3, Kraken L3) inside the engine,
    which owns its readiness.

    ** Files

    Shared:
    - [Prelude]: machine integers, bytes, [expected], stateful code that may
      throw ([exec], [wp]), list lemmas. An execution C++ gives no meaning
      (signed overflow, a failed assert, a dereferenced end) is [Undef].
    - [Text]: [std::to_string] and [std::from_chars] on integers, string order,
      searching. [ToolFlags]: [book_adapter/tools/cli_flag_parsing.h],
      [std::stoull] and [std::stoi].

    Books ([src/src/order_book/]):
    - [BookTypes]: [types.h], [book_view.h]. [LevelMap]: [std::map] of levels.
    - [Engine]: [engine.h], [concepts.h]; the readiness machine, and the class
      [PolicyContract] a policy must satisfy for the engine's guarantees.
    - [L1Policy], [L2Policy], [L2Refinement]: [l1_policy.h], [l2_policy.h].
    - [L3Policy], [L3Refinement], [L3Ready]: [l3_policy.h]. A book stands for
      the list of its orders in arrival order; every operation is shown to do to
      the book what the reference functions do to that list.
    - [KrakenChecksum], [KrakenL3Policy]: [kraken_checksum.cpp],
      [kraken_l3_policy.h]. [KrakenWire]: [kraken_l3_wire.h].
    - [JournalDump], [DumpProofs]: [tools/kraken_journal_dump.cpp]; a frame is a
      record, and [dumped] is the history a list of frames tells.
    - [Scale], [ScaleExact]: [instrument_scale.h] and [ParseDecimal], on
      binary64 numbers rounded to nearest even.

    Feed ([src/src/feed_handler/]):
    - [FixMessage] and its theorems [FixRoundTrip], [FixSound], [FixFramer],
      [FixGroup]: [fix/fix_message.{h,cpp}]. [FixFuzz]: the harness
      [fix/fuzz/fix_framer_fuzzer.cpp].
    - [FixTime], [FixSession], [FixLink]: [deribit/deribit_fix_session.{h,cpp}].
    - [Feed]: [message_sink.{h,cpp}], [feed_event.h].
    - [Ring]: [spsc_ring.h].
    - [Journal], [JournalProofs], [JournalCrash]: [journal_format],
      [journal_writer], [journal_reader]. [JournalSlice], [SliceProofs]:
      [book_adapter/tools/journal_slice.cpp], the tool that cuts a test journal.
    - [JournalThread], [CaptureSession] and their theorems [ThreadProofs],
      [SessionProofs], [JournalNames]: [journal_thread.{h,cpp}],
      [capture_session.{h,cpp}]. A turn of the journal thread is one step
      between any two calls of the connection thread. [FatalProofs]: a failed
      journal sets the latch its client reads.
    - [ClientBase]: [staleness_watchdog.h], [stop_signal.h], [symbols.h], the
      line format of [logging.h], and the monad of a client's thread.
    - [Logging]: [logging.cpp]. Threads that log are a step relation over the
      mutex and the bytes the terminal has taken.
    - [FixClient]: [deribit/deribit_fix_client.{h,cpp}], the connection thread;
      what the outside answers to its [n]-th question is an argument, its deeds
      are a trace. [FixClientSpec] says what a connection owes, and
      [FixClientProofs], [FixClientLive] and [FixClientSecret] prove it.
    - [KrakenSigning], [KrakenRequests]: [kraken/kraken_signing.{h,cpp}].
    - [KrakenRest], [KrakenRestProofs]: [kraken/kraken_rest_client.{h,cpp}].
    - [KrakenClient]: [kraken/kraken_ws_client.{h,cpp}]. The WebSocket library
      calls back, so a run is a list of events; between any two steps of a
      handler the watchdog, the journal thread, a stop request and another
      connection's token call may act. [KrakenAccounts] says what a connection
      owes and proves it, [KrakenPace], [KrakenSecret], [KrakenSubscribe] and
      [KrakenClassify] the rest.
    - [Capture]: [capture_connection.h], [client_capture.h], [capture_set.cpp],
      [deribit/deribit_capture.cpp], [kraken/kraken_capture.cpp]. What a
      connection asks of its client is the class [CaptureClient] with its laws.
    - [Process], [ProcessProofs]: [feed_handler_main.cpp], [runner.{h,cpp}] and
      the order of starting in [capture_set.cpp]; between any two steps of the
      main thread the threads of the connections and of the books do as they
      like.
    - [Config], [ConfigProofs], [ConfigSafety]:
      [config/feed_handler_config.{h,cpp}], [exchange_traits.h], the endpoint
      headers and the session of [client_capture.h]. A TOML document is a tree;
      [valid_config] says what a configuration promises without the parser.
    - [Selection], [SelectionProofs]: [selection.{h,cpp}], [credentials.{h,cpp}].

    Frames to books ([src/src/book_adapter/]):
    - [DeribitWire], [DeribitRoundTrip]: [deribit_fix_book_wire.{h,cpp}].
    - [BookAdapter], [AdapterProofs], [AdapterReady]: [book_adapter.{h,cpp}].
    - [BookService], [ServiceProofs]: [book_service.{h,cpp}], [ring_sink.h].
    - [JournalReplay], [ReplayProofs]: [journal_replay.{h,cpp}]. [ReplayTool]:
      the report's text and [tools/journal_replay.cpp].
    - [BookWiring]: [book_wiring.{h,cpp}].

    ** What the theorems show

    - Books: the L2 and L3 policies refine a map of prices and a list of
      arrivals ([ApplyUpdates_refines], [L3Policy_ApplyBatch_refines],
      [L3Policy_ApplySnapshot_refines], [L3_queries_from_arrivals],
      [L2Levels_Best_extreme], [L1Policy_Apply_correct]); a [Ready] book is not
      crossed and within its depth ([L2_ready_uncrossed], [L3_ready_uncrossed],
      [KrakenL3_ready_uncrossed]); gaps and divergence are noticed
      ([L2_ready_chained], [L2_gap_stops_the_book],
      [KrakenL3Policy_ApplyBatch_checked], [AddsInArrivalOrder_correct],
      [Crc32_detects_byte_change]).
    - FIX: build and parse are inverse ([ParseMessage_BuildMessage]), nothing
      corrupt is accepted ([ParseMessage_sound]), parsing ends
      ([ParseMessage_terminates], and with the framer [harness_returns]), framing does not depend on the reads
      ([Framer_chunking], [Framer_delivers]), groups are read whole
      ([ReadGroup_reads]), two sessions stay in sequence over any stream
      ([fix_link_in_sequence], [unbroken_iff_consecutive]).
    - The Deribit client: every connection is captured and answered as it should
      be ([client_accounts]), a stop request ends it with everything closed
      ([stop_ends_client]), and its secret shows in no log and no journal
      ([secret_unobservable]).
    - The Kraken client: every event of its library is accounted for
      ([kraken_accounts]); setups, each a signed call, keep their distance
      ([kraken_setup_pace]); credentials and tokens show in no log and no journal
      ([kraken_secret_unobservable]); the subscription is the JSON it means to be
      ([subscribe_message_is_json]); the order of keys does not matter
      ([ClassifyMessage_any_order]).
    - The process: it starts exactly when all it needs is there
      ([startup_spec]); connections and books are started, stopped and joined in
      one order, each once, and the exit code tells how the run ended
      ([main_runs_its_plan]).
    - Journals survive crashes and full disks ([journal_crash_safe]), hold what
      the session told its sinks, written inline or by the journal thread
      ([capture_agrees]), and do not overwrite each other
      ([JournalFileName_ordered]). A slice of one is clean or absent whatever the
      input ([slice_clean_or_absent]) and holds what was asked for
      ([slice_tool_correct]).
    - The other tools: a dump shows the book of one instrument as it was after
      each message ([dump_faithful]); a replay throws nothing and ends in the
      status that says how far it came ([replay_tool_outcome]).
    - Log lines stay whole however threads are scheduled ([log_lines_whole]).
    - Kraken requests: nonces increase over restarts and crashes
      ([nonces_strictly_increase]); the signed body says exactly what it was
      built from ([EncodePostData_decodes]).
    - Configuration: what is accepted is valid ([LoadConfigFile_valid]) and every
      valid configuration is accepted as it stands ([ParseConfig_config_toml]);
      no two connects share a journal ([journals_distinct]); a pasted credential
      is not repeated ([pasted_credential_not_echoed]); the command line, the
      selection and the credentials do what they say
      ([ParseCommandLine_spelled], [SelectConnections_spec],
      [ResolveCredentials_spec]); instruments are found under any spelling
      ([FindAssetPair_any_spelling]) and give books their scale
      ([ResolveBookSettings_spec]).
    - Frames to books: decimals become exact ticks ([decimal_ticks_exact],
      [ToPrice_FromPrice]), a message is read exactly ([deribit_levels_exact])
      and whole or not at all ([deribit_whole_message]); the adapter never
      throws ([adapter_never_throws]), touches only what a frame concerns
      ([frame_isolation]), never trusts a book that missed something
      ([resync_needs_snapshot]) and shows no crossed Deribit book as [Ready]
      ([deribit_ready_uncrossed]); the ring and the book thread deliver the feed
      with its losses marked where they happened ([service_delivers]); replaying
      the journals of a connection leaves the books the live adapter had
      ([replay_rebuilds_live]).

    ** Bounds

    Loops that are not structural take fuel: the length of the input plus one
    for the parser, the framer and the journal reader, shown to be enough
    ([ParseMessage_terminates], [Framer_chunking], [journal_crash_safe]), and for
    the tools' loops over a journal ([slice_tool_correct], [dump_faithful]); one
    more pass than there are queued events for [Poll] and the stopping book
    thread, shown to be enough in [service_delivers]; as many turns of the
    journal thread as events are queued while a session waits for it, shown to
    be enough in [capture_agrees]; as much as one likes for the loops of the
    Deribit client, whose end depends on the outside: [client_accounts] and
    [secret_unobservable] hold for any fuel, and [stop_ends_client] shows that
    there is enough. The polls of the process take fuel too: a run that has used
    it up has seen neither a failure nor a stop request ([main_runs_its_plan]).
    A run of the Kraken client needs none, its events being a list; a wait that
    is not over is [Unfinished]. Quantities are bounded so
    that their sums fit 64 bits where the theorems speak of L3 books; prices and
    sizes by [2 ^ 50] units where they cross binary64.

    ** Parameters

    What is not in the repository is an argument: zlib's [crc32], OpenSSL's
    digest, MAC and Base64, the random source, the JSON libraries (classes [Json] and
    [OnDemand]), the TOML parser, the HTTP client, the environment, the
    JSON printer, the lock-free queue (class [ReaderWriterQueue] with its documented laws),
    [std::hash], [std::llround] outside [long long], clock readings, and how
    many bytes a stream accepts.

    ** Not modelled

    Starting and joining [std::thread]s beyond a flag, and the second signal's
    [_exit], which are the operating system's; the declarations in the headers
    that only repeat what the definitions say; and the Python viewer of the
    dumps, which renders what [JournalDump] describes. *)

From stdpp Require Export base list gmap strings fin_maps sorting.
From Stdlib Require Export ZArith Lia.
From Stdlib Require Import Ascii.
Open Scope Z_scope.

(** ** Machine integers

    Integers are [Z]; a [w]-bit unsigned result is reduced by [wrap w], and a
    signed 64-bit result is checked with [in_i64] where C++ leaves overflow
    undefined. *)

Definition wrap (w z : Z) : Z := z mod 2 ^ w.
Definition u64_max : Z := 2 ^ 64 - 1.
Definition i64_max : Z := 2 ^ 63 - 1.
Definition i64_min : Z := - 2 ^ 63.
Definition in_i64 (z : Z) : bool := (i64_min <=? z) && (z <=? i64_max).

(** [++counter] on a [std::uint64_t]. *)
Definition incr64 (n : Z) : Z := wrap 64 (n + 1).

Lemma incr64_small n : 0 <= n < u64_max → incr64 n = n + 1.
Proof. unfold incr64, wrap, u64_max. intros. apply Z.mod_small. lia. Qed.

(** ** Bytes

    A [char], [unsigned char] or [std::byte] is an [ascii]; a string, a view
    or a span of bytes is a [list ascii]. *)

Abbreviation byte := ascii (only parsing).
Abbreviation bytes := (list ascii) (only parsing).

Definition byte_val (c : byte) : Z := Z.of_N (N_of_ascii c).
Definition byte_of (z : Z) : byte := ascii_of_N (Z.to_N (z mod 256)).
Definition B (s : string) : bytes := String.list_ascii_of_string s.

Declare Scope model_scope.
Delimit Scope model_scope with model.

(** ** Results

    [expected E A] is [std::expected<A, E>]: a value or the error. *)

Inductive expected (E A : Type) : Type :=
| Expected (a : A)
| Unexpected (e : E).
Arguments Expected {E A} a.
Arguments Unexpected {E A} e.

Definition expected_bind {E A C} (r : expected E A) (k : A → expected E C) : expected E C :=
  match r with
  | Expected a => k a
  | Unexpected e => Unexpected e
  end.

Notation "'let?' x := c 'in' k" := (expected_bind c (λ x, k))
  (at level 10, x pattern, c at level 200, k at level 200) : model_scope.

(** ** Stateful code that may throw

    [exec S A] is a member function of an object in state [S]: it returns the
    state it leaves behind and either a value, an exception, or the mark that
    C++ gives the execution no meaning. The state is kept on every path, since
    a throw does not roll the object back. *)

Inductive cpp_exception : Type :=
| ExnOutOfRange
| ExnRuntimeError
| ExnJson.

Inductive undefined : Type :=
| SignedOverflow
| EndDereference
| AssertFailed.

Inductive outcome (A : Type) : Type :=
| Done (a : A)
| Throws (e : cpp_exception)
| Undef (u : undefined).
Arguments Done {A} a.
Arguments Throws {A} e.
Arguments Undef {A} u.

Definition outcome_bind {A C} (r : outcome A) (k : A → outcome C) : outcome C :=
  match r with
  | Done a => k a
  | Throws e => Throws e
  | Undef u => Undef u
  end.

Notation "'do!' x := r 'in' k" := (outcome_bind r (λ x, k))
  (at level 10, x pattern, r at level 200, k at level 200) : model_scope.

Definition exec (S A : Type) : Type := S → S * outcome A.

Definition exec_ret {S A} (a : A) : exec S A := λ s, (s, Done a).
Definition exec_get {S} : exec S S := λ s, (s, Done s).
Definition exec_put {S} (s : S) : exec S unit := λ _, (s, Done tt).
Definition exec_lift {S A} (r : outcome A) : exec S A := λ s, (s, r).
Definition exec_bind {S A C} (m : exec S A) (k : A → exec S C) : exec S C := λ s,
  match m s with
  | (s', Done a) => k a s'
  | (s', Throws e) => (s', Throws e)
  | (s', Undef u) => (s', Undef u)
  end.

Notation "'let!' x := m 'in' k" := (exec_bind m (λ x, k))
  (at level 10, x pattern, m at level 200, k at level 200) : model_scope.
Notation "'run!' m ;; k" := (exec_bind m (λ _, k))
  (at level 10, m at level 99, k at level 200) : model_scope.
Open Scope model_scope.

(** A loop over a range that runs [f] on every element, in order. *)
Fixpoint exec_each {S A} (f : A → exec S unit) (l : list A) : exec S unit :=
  match l with
  | [] => exec_ret tt
  | x :: l => run! f x ;; exec_each f l
  end.

(** Equations of the monad, pointwise. *)
Lemma exec_bind_assoc {S A C D} (m : exec S A) (k : A → exec S C) (k' : C → exec S D) s :
  exec_bind (exec_bind m k) k' s = exec_bind m (λ x, exec_bind (k x) k') s.
Proof. unfold exec_bind. by destruct (m s) as [s' []]. Qed.

Lemma exec_bind_ext {S A C} (m m' : exec S A) (k k' : A → exec S C) s :
  m s = m' s → (∀ a s', k a s' = k' a s') → exec_bind m k s = exec_bind m' k' s.
Proof. unfold exec_bind. intros -> Hk. by destruct (m' s) as [s' []]. Qed.

Lemma exec_each_bind {S A} (f : A → exec S unit) l1 l2 s :
  exec_each f (l1 ++ l2) s = (run! exec_each f l1 ;; exec_each f l2) s.
Proof.
  revert s. induction l1 as [|x l1 IH]; intros s; [done|]. simpl.
  rewrite exec_bind_assoc. apply exec_bind_ext; [done|]. intros [] s'. apply IH.
Qed.

Lemma exec_each_app {S A} (f : A → exec S unit) l1 l2 s s' :
  exec_each f l1 s = (s', Done tt) → exec_each f (l1 ++ l2) s = exec_each f l2 s'.
Proof. intros H. rewrite exec_each_bind. unfold exec_bind. by rewrite H. Qed.

(** Signed 64-bit addition: overflow has no meaning. *)
Definition add_i64 (a b : Z) : outcome Z :=
  if in_i64 (a + b) then Done (a + b) else Undef SignedOverflow.

(** ** Total-correctness triples for [exec]

    [wp m s Q]: run on [s], [m] neither throws nor leaves the defined
    executions, and its result and final state satisfy [Q]. *)

Definition wp {S A} (m : exec S A) (s : S) (Q : A → S → Prop) : Prop :=
  match m s with
  | (s', Done a) => Q a s'
  | _ => False
  end.

Section wp.
Context {S : Type}.

Lemma wp_ret {A} (a : A) (s : S) Q : Q a s → wp (exec_ret a) s Q.
Proof. done. Qed.

Lemma wp_get (s : S) (Q : S → S → Prop) : Q s s → wp exec_get s Q.
Proof. done. Qed.

Lemma wp_put (s s' : S) Q : Q tt s' → wp (exec_put s') s Q.
Proof. done. Qed.

Lemma wp_lift {A} (r : outcome A) (a : A) (s : S) (Q : A → S → Prop) :
  r = Done a → Q a s → wp (exec_lift r) s Q.
Proof. intros ->. done. Qed.

Lemma wp_bind {A C} (m : exec S A) (k : A → exec S C) s Q :
  wp m s (λ a s', wp (k a) s' Q) → wp (exec_bind m k) s Q.
Proof. unfold wp, exec_bind. by destruct (m s) as [s' []]. Qed.

Lemma wp_mono {A} (m : exec S A) s (Q Q' : A → S → Prop) :
  wp m s Q → (∀ a s', Q a s' → Q' a s') → wp m s Q'.
Proof. unfold wp. destruct (m s) as [s' []]; naive_solver. Qed.

(** The shape a total run has. *)
Lemma wp_run {A} (m : exec S A) s Q :
  wp m s Q ↔ ∃ s' a, m s = (s', Done a) ∧ Q a s'.
Proof. unfold wp. destruct (m s) as [s' []]; naive_solver. Qed.

(** A loop keeps an invariant indexed by what it has processed. *)
Lemma wp_each {A} (f : A → exec S unit) (I : list A → S → Prop) l done s :
  I done s →
  (∀ d x rest s, l = d ++ x :: rest → I (done ++ d) s →
     wp (f x) s (λ _ s', I (done ++ d ++ [x]) s')) →
  wp (exec_each f l) s (λ _ s', I (done ++ l) s').
Proof.
  revert done s. induction l as [|x l IH]; intros done s HI Hf; simpl.
  { apply wp_ret. by rewrite app_nil_r. }
  apply wp_bind. eapply wp_mono; [apply (Hf [] x l s); [done|by rewrite app_nil_r]|].
  intros [] s' HI'. simpl in HI'.
  replace (done ++ x :: l) with ((done ++ [x]) ++ l) by (by rewrite <-app_assoc).
  apply IH; [done|]. intros d y rest s'' -> HId.
  rewrite <-!app_assoc in HId |- *. apply (Hf (x :: d) y rest s''); done.
Qed.
End wp.

(** The same as [wp_each] when the invariant does not depend on the position. *)
Lemma wp_each_inv {S A} (f : A → exec S unit) (I : S → Prop) (l : list A) s :
  I s → (∀ x s, x ∈ l → I s → wp (f x) s (λ _ s', I s')) →
  wp (exec_each f l) s (λ _ s', I s').
Proof.
  intros HI Hf. apply (wp_each f (λ _, I) l []); [done|].
  intros d x rest s' -> HI'. apply Hf; [set_solver|done].
Qed.

Create HintDb wp.
#[export] Hint Resolve wp_ret wp_get wp_put : wp.

(** Splits a [wp] goal along the program's binds. *)
Ltac wp_step :=
  first
    [ apply wp_bind
    | apply wp_ret
    | apply wp_get
    | apply wp_put ].
Ltac wp_steps := repeat (wp_step; cbv beta).

(** ** Lists *)

Lemma list_filter_ext_in {A} (P Q : A → Prop) `{∀ x, Decision (P x), ∀ x, Decision (Q x)}
    (l : list A) :
  (∀ x, x ∈ l → P x ↔ Q x) → filter P l = filter Q l.
Proof.
  induction l as [|x l IH]; intros Hl; [done|].
  rewrite !filter_cons, IH by set_solver. apply decide_ext, Hl. set_solver.
Qed.

Lemma list_filter_all {A} (P : A → Prop) `{∀ x, Decision (P x)} (l : list A) :
  (∀ x, x ∈ l → P x) → filter P l = l.
Proof.
  induction l as [|x l IH]; intros Hl; [done|].
  rewrite filter_cons_True, IH by set_solver. done.
Qed.

Lemma list_filter_none {A} (P : A → Prop) `{∀ x, Decision (P x)} (l : list A) :
  (∀ x, x ∈ l → ¬ P x) → filter P l = [].
Proof.
  induction l as [|x l IH]; intros Hl; [done|].
  rewrite filter_cons_False by (apply Hl; set_solver). apply IH. set_solver.
Qed.

Lemma elem_of_list_fmap_fst {A} (k : Z) (arr : list (Z * A)) :
  k ∈ arr.*1 ↔ ∃ v, (k, v) ∈ arr.
Proof.
  rewrite list_elem_of_fmap. split; [intros ([k' v] & -> & H); by exists v|].
  intros [v H]. by exists (k, v).
Qed.

Lemma NoDup_fst_unique {A} (k : Z) (v1 v2 : A) (arr : list (Z * A)) :
  NoDup arr.*1 → (k, v1) ∈ arr → (k, v2) ∈ arr → v1 = v2.
Proof.
  intros Hnd H1 H2. apply (elem_of_list_to_map (M:=gmap Z)) in H1, H2; [|done..]. congruence.
Qed.

Lemma NoDup_fmap_filter {A B} (f : A → B) (P : A → Prop) `{∀ x, Decision (P x)} (l : list A) :
  NoDup (f <$> l) → NoDup (f <$> filter P l).
Proof. intros H'. eapply sublist_NoDup; [exact H'|]. apply fmap_sublist, sublist_filter. Qed.

