(* ===== verification/Text.v ===== *)
(** * Decimal text and byte order

    [std::to_string], [std::from_chars] on decimal integers and the order of
    [std::string], as the sources use them. *)

From S2P Require Import Prelude.
From Stdlib Require Import Ascii.

(** ** Digits *)

Definition digit (n : Z) : byte := byte_of (48 + n).
Definition is_digit (c : byte) : bool := (48 <=? byte_val c) && (byte_val c <=? 57).
Definition digit_val (c : byte) : Z := byte_val c - 48.

(** The decimal digits of a non-negative number below [10 ^ fuel]. *)
Fixpoint digits (fuel : nat) (n : Z) : bytes :=
  match fuel with
  | O => []
  | S fuel => if n <? 10 then [digit n] else digits fuel (n / 10) ++ [digit (n mod 10)]
  end.

(** [std::to_string] of an integer of at most 64 bits. *)
Definition to_string (n : Z) : bytes :=
  if n <? 0 then B "-" ++ digits 20 (- n) else digits 20 n.

(** The value of a run of digits, read left to right from [acc]. *)
Definition digits_val_from (acc : Z) (l : bytes) : Z :=
  foldl (λ acc c, acc * 10 + digit_val c) acc l.
Definition digits_val (l : bytes) : Z := digits_val_from 0 l.

(** The longest prefix of digits, and what follows it. *)
Fixpoint span_digits (l : bytes) : bytes * bytes :=
  match l with
  | [] => ([], [])
  | c :: l' => if is_digit c then (c :: (span_digits l').1, (span_digits l').2) else ([], l)
  end.

(** [std::from_chars] for a decimal integer of the range [lo..hi]: the value
    and the unread rest. A minus sign is read only when [lo] is negative;
    [None] stands for [invalid_argument] and [result_out_of_range]. *)
Definition from_chars (lo hi : Z) (l : bytes) : option (Z * bytes) :=
  let '(neg, l') := match l with
                    | c :: l' => if (lo <? 0) && (byte_val c =? 45) then (true, l') else (false, l)
                    | [] => (false, l)
                    end in
  let '(ds, rest) := span_digits l' in
  let v := if neg : bool then - digits_val ds else digits_val ds in
  if decide (ds = []) then None
  else if (lo <=? v) && (v <=? hi) then Some (v, rest) else None.

(** ** The order of [std::string] *)

Fixpoint bytes_lt (a b : bytes) : bool :=
  match a, b with
  | _, [] => false
  | [], _ :: _ => true
  | x :: a, y :: b =>
      (byte_val x <? byte_val y) || ((byte_val x =? byte_val y) && bytes_lt a b)
  end.

(** ** Searching *)

(** [starts_with] *)
Definition starts_with (prefix text : bytes) : bool :=
  bool_decide (take (length prefix) text = prefix).

(** [text.find(pattern)]: what is before the first occurrence and what is after
    it. *)
Fixpoint find_split (pattern text : bytes) : option (bytes * bytes) :=
  if starts_with pattern text then Some ([], drop (length pattern) text)
  else
    match text with
    | [] => None
    | c :: text =>
        match find_split pattern text with
        | Some (before, after) => Some (c :: before, after)
        | None => None
        end
    end.

(** ** Facts *)

Lemma starts_with_spec prefix text : starts_with prefix text = true ↔ ∃ rest, text = prefix ++ rest.
Proof.
  unfold starts_with. rewrite bool_decide_eq_true. split.
  - intros H. exists (drop (length prefix) text). rewrite <-H at 1. by rewrite take_drop.
  - intros [rest ->]. by rewrite take_app_length.
Qed.

Lemma starts_with_drop prefix text :
  starts_with prefix text = true → text = prefix ++ drop (length prefix) text.
Proof. intros [rest ->]%starts_with_spec. by rewrite drop_app_length. Qed.

(** The search finds the pattern exactly when it is there. *)
Lemma find_split_Some pattern text before after :
  find_split pattern text = Some (before, after) → text = before ++ pattern ++ after.
Proof.
  revert before. induction text as [|c text IH]; intros before; cbn [find_split].
  all: destruct (starts_with pattern _) eqn:Hs.
  1, 3: intros [= <- <-]; by apply starts_with_drop.
  - done.
  - destruct (find_split pattern text) as [[b a]|]; [|done]. intros [= <- <-]. cbn [app]. f_equal.
    by apply IH.
Qed.

Lemma find_split_None pattern text :
  find_split pattern text = None → ∀ before after, text ≠ before ++ pattern ++ after.
Proof.
  induction text as [|c text IH]; cbn [find_split].
  all: destruct (starts_with pattern _) eqn:Hs; [done|].
  all: intros H [|x before] after Heq; cbn [app] in Heq.
  1, 3: by rewrite (proj2 (starts_with_spec pattern _)) in Hs; [|eauto].
  - done.
  - injection Heq as -> Heq. destruct (find_split pattern text) as [[? ?]|]; [done|].
    by eapply IH.
Qed.

Lemma byte_val_range c : 0 <= byte_val c < 256.
Proof. unfold byte_val. pose proof (N_ascii_bounded c). lia. Qed.

Lemma byte_val_of z : 0 <= z < 256 → byte_val (byte_of z) = z.
Proof.
  intros Hz. unfold byte_val, byte_of. rewrite Z.mod_small by done.
  rewrite N_ascii_embedding by lia. lia.
Qed.

Lemma byte_of_val c : byte_of (byte_val c) = c.
Proof.
  unfold byte_of, byte_val. pose proof (N_ascii_bounded c).
  rewrite Z.mod_small, N2Z.id by lia. apply ascii_N_embedding.
Qed.

Lemma byte_val_inj a b : byte_val a = byte_val b → a = b.
Proof. intros H. by rewrite <-(byte_of_val a), <-(byte_of_val b), H. Qed.

Lemma digit_is_digit n : 0 <= n < 10 → is_digit (digit n) = true.
Proof. intros. unfold is_digit, digit. rewrite byte_val_of by lia. lia. Qed.

Lemma digit_val_digit n : 0 <= n < 10 → digit_val (digit n) = n.
Proof. intros. unfold digit_val, digit. rewrite byte_val_of by lia. lia. Qed.

Lemma digits_val_from_app acc a b :
  digits_val_from acc (a ++ b) = digits_val_from (digits_val_from acc a) b.
Proof. unfold digits_val_from. by rewrite foldl_app. Qed.

Lemma digits_all_digits fuel n :
  0 <= n → Forall (λ c, is_digit c = true) (digits fuel n).
Proof.
  revert n. induction fuel as [|fuel IH]; intros n Hn; simpl; [constructor|].
  destruct (Z.ltb_spec n 10).
  - constructor; [apply digit_is_digit; lia|constructor].
  - apply Forall_app. split; [apply IH, Z.div_pos; lia|].
    constructor; [|constructor]. apply digit_is_digit, Z.mod_pos_bound. lia.
Qed.

Lemma digits_nonempty fuel n : fuel ≠ 0%nat → digits fuel n ≠ [].
Proof.
  destruct fuel as [|fuel]; [done|]. intros _. simpl. destruct (_ <? _); [done|].
  intros Hnil. by apply (f_equal length) in Hnil; rewrite length_app in Hnil; simpl in Hnil; lia.
Qed.

(** Printing then reading a number gives it back. *)
Lemma digits_val_digits fuel n :
  0 <= n < 10 ^ Z.of_nat fuel → digits_val (digits fuel n) = n.
Proof.
  revert n. induction fuel as [|fuel IH]; intros n Hn; [simpl in *; cbn; lia|].
  rewrite Nat2Z.inj_succ, Z.pow_succ_r in Hn by lia. simpl.
  destruct (Z.ltb_spec n 10) as [Hlt|Hge].
  - cbn. rewrite digit_val_digit; lia.
  - unfold digits_val in *. rewrite digits_val_from_app, IH.
    + cbn. rewrite digit_val_digit by (apply Z.mod_pos_bound; lia).
      rewrite Z.mul_comm. symmetry. apply Z.div_mod. lia.
    + split; [apply Z.div_pos; lia|]. apply Z.div_lt_upper_bound; lia.
Qed.

Lemma span_digits_app ds rest :
  Forall (λ c, is_digit c = true) ds →
  (match rest with [] => True | c :: _ => is_digit c = false end) →
  span_digits (ds ++ rest) = (ds, rest).
Proof.
  induction 1 as [|c ds Hc _ IH]; intros Hrest; simpl.
  - destruct rest as [|c rest]; [done|]. simpl. by rewrite Hrest.
  - rewrite Hc, IH by done. done.
Qed.

(** [from_chars] reads back what [to_string] printed. *)
Lemma from_chars_to_string lo hi n rest :
  0 <= n < 10 ^ 20 → lo <= n <= hi →
  (match rest with [] => True | c :: _ => is_digit c = false end) →
  from_chars lo hi (to_string n ++ rest) = Some (n, rest).
Proof.
  intros Hn Hr Hrest. unfold to_string. rewrite (proj2 (Z.ltb_ge n 0)) by lia.
  pose proof (digits_all_digits 20 n ltac:(lia)) as Hall.
  pose proof (digits_nonempty 20 n ltac:(done)) as Hne.
  pose proof (digits_val_digits 20 n Hn) as Hval.
  pose proof (span_digits_app _ rest Hall Hrest) as Hspan.
  unfold from_chars. destruct (digits 20 n) as [|c ds] eqn:Hd; [done|].
  assert (byte_val c ≠ 45) as Hc.
  { apply Forall_inv in Hall. unfold is_digit in Hall. lia. }
  cbn [app]. rewrite (proj2 (Z.eqb_neq _ _) Hc), andb_false_r.
  cbn [app] in Hspan. rewrite Hspan, Hval, decide_False by done.
  replace ((lo <=? n) && (n <=? hi)) with true by lia. done.
Qed.
