(* ===== verification/ToolFlags.v ===== *)
(** * Numbers on the command line of the offline tools:
      [book_adapter/tools/cli_flag_parsing.h]

    [std::stoull] and [std::stoi] as the tools call them, and the helper that
    wants the whole text read. *)

From S2P Require Import Prelude Text.

(** [std::isspace] of the C locale. *)
Definition is_space (c : byte) : bool :=
  ((9 <=? byte_val c) && (byte_val c <=? 13)) || (byte_val c =? 32).

Fixpoint skip_space (l : bytes) : bytes :=
  match l with
  | c :: l' => if is_space c then skip_space l' else l
  | [] => []
  end.

(** What [strtol] and [strtoull] read in base ten: blanks, a sign and digits.
    The sign, the number and the rest; nothing without a digit. *)
Definition scan_integer (text : bytes) : option (bool * Z * bytes) :=
  let text := skip_space text in
  let '(negative, text) :=
    match text with
    | c :: l => if byte_val c =? 45 then (true, l)
                else if byte_val c =? 43 then (false, l) else (false, text)
    | [] => (false, [])
    end in
  let '(ds, rest) := span_digits text in
  if decide (ds = []) then None else Some (negative, digits_val ds, rest).

(** [std::stoull(text, &consumed)]: the number and [consumed], or nothing when
    it throws. A minus sign negates modulo [2 ^ 64]. *)
Definition stoull (text : bytes) : option (Z * nat) :=
  match scan_integer text with
  | Some (negative, n, rest) =>
      if n <=? u64_max
      then Some (if negative : bool then wrap 64 (- n) else n, (length text - length rest)%nat)
      else None
  | None => None
  end.

Definition i32_min : Z := - 2 ^ 31.
Definition i32_max : Z := 2 ^ 31 - 1.

(** [std::stoi(text, &consumed)] *)
Definition stoi (text : bytes) : option (Z * nat) :=
  match scan_integer text with
  | Some (negative, n, rest) =>
      let value := if negative : bool then - n else n in
      if (i32_min <=? value) && (value <=? i32_max)
      then Some (value, (length text - length rest)%nat)
      else None
  | None => None
  end.

(** [ParseFlagValue<T>]; [sto] is the [std::sto*] of [T]. *)
Definition ParseFlagValue (sto : bytes → option (Z * nat)) (flag text : bytes)
  : expected bytes Z :=
  let message := B "invalid value for " ++ flag ++ B ": " ++ text in
  match sto text with
  | None => Unexpected message
  | Some (value, consumed) =>
      if negb (consumed =? length text)%nat then Unexpected message else Expected value
  end.

(** What a tool's [main] leaves: its exit status, what it printed, and the file
    it wrote to, [None] when there is none. *)
Record tool_run := mkToolRun {
  tr_exit : Z;
  tr_stdout : bytes;
  tr_stderr : bytes;
  tr_output : option bytes;
}.

(** A number written out in full is read back. *)
Lemma scan_integer_to_string n :
  0 <= n < 10 ^ 20 → scan_integer (to_string n) = Some (false, n, []).
Proof.
  intros Hn. unfold to_string. rewrite (proj2 (Z.ltb_ge n 0)) by lia.
  pose proof (digits_all_digits 20 n ltac:(lia)) as Hall.
  pose proof (digits_nonempty 20 n ltac:(done)) as Hne.
  pose proof (digits_val_digits 20 n Hn) as Hval.
  pose proof (span_digits_app _ [] Hall I) as Hspan. rewrite app_nil_r in Hspan.
  unfold scan_integer. destruct (digits 20 n) as [|c ds] eqn:Hd; [done|].
  apply Forall_inv in Hall. unfold is_digit in Hall. cbn [skip_space].
  replace (is_space c) with false by (unfold is_space; lia).
  rewrite (proj2 (Z.eqb_neq _ 45)), (proj2 (Z.eqb_neq _ 43)) by lia.
  by rewrite Hspan, decide_False, Hval.
Qed.

Lemma ParseFlagValue_stoull flag n :
  0 <= n <= u64_max → ParseFlagValue stoull flag (to_string n) = Expected n.
Proof.
  unfold u64_max. intros Hn. unfold ParseFlagValue, stoull.
  rewrite scan_integer_to_string by lia. unfold u64_max. rewrite (proj2 (Z.leb_le _ _)) by lia.
  cbn [length]. by rewrite Nat.sub_0_r, Nat.eqb_refl.
Qed.

Lemma ParseFlagValue_stoi flag n :
  0 <= n <= i32_max → ParseFlagValue stoi flag (to_string n) = Expected n.
Proof.
  unfold i32_max. intros Hn. unfold ParseFlagValue, stoi, i32_min, i32_max.
  rewrite scan_integer_to_string by lia. cbn zeta.
  replace (_ && _) with true by lia. cbn [length]. by rewrite Nat.sub_0_r, Nat.eqb_refl.
Qed.

(** A value that is accepted was read to its last byte. *)
Lemma ParseFlagValue_whole sto flag text n :
  ParseFlagValue sto flag text = Expected n → sto text = Some (n, length text).
Proof.
  unfold ParseFlagValue. destruct (sto text) as [[v k]|]; [|done].
  destruct (Nat.eqb_spec k (length text)) as [->|]; [|done]. by intros [= ->].
Qed.

(** An accepted [int] is in the range of an [int]. *)
Lemma stoi_range text n k : stoi text = Some (n, k) → i32_min <= n <= i32_max.
Proof.
  unfold stoi. destruct (scan_integer text) as [[[neg v] rest]|]; [|done]. cbn zeta.
  destruct (_ && _) eqn:Hr; [|done]. intros [= <- _]. lia.
Qed.
