(* ===== verification/BookTypes.v ===== *)
(** * Vocabulary of the books: [order_book/types.h] and [order_book/book_view.h]

    Prices, order ids and quantities are integers; only quantities are added.
    The enumerations keep the source's constructors, with decidable equality. *)

From S2P Require Import Prelude.

Inductive Side : Type := kBid | kAsk.

Inductive IntegrityIssue : Type :=
| kGap
| kChecksumMismatch
| kCrossedBook
| kUnknownOrder
| kUnknownLevel.

Inductive Readiness : Type := kUninitialized | kReady | kDesynced.

Inductive OrderEventKind : Type := kAdded | kModified | kDeleted.

#[export] Instance Side_eq_dec : EqDecision Side.
Proof. solve_decision. Defined.
#[export] Instance IntegrityIssue_eq_dec : EqDecision IntegrityIssue.
Proof. solve_decision. Defined.
#[export] Instance Readiness_eq_dec : EqDecision Readiness.
Proof. solve_decision. Defined.
#[export] Instance OrderEventKind_eq_dec : EqDecision OrderEventKind.
Proof. solve_decision. Defined.

(** [Price], [OrderId] and [Quantity] wrap one integer each. *)
Abbreviation Price := Z (only parsing).
Abbreviation OrderId := Z (only parsing).
Abbreviation Quantity := Z (only parsing).

(** [Quantity::IsZero]. *)
Definition IsZero (q : Quantity) : bool := q =? 0.

(** [Quantity::operator+=]: signed 64-bit, no meaning on overflow. *)
Definition quantity_add (a b : Quantity) : outcome Quantity := add_i64 a b.

(** The first issue of a message is kept. *)
Definition ReportIssue (slot : option IntegrityIssue) (issue : IntegrityIssue)
  : option IntegrityIssue :=
  match slot with
  | Some i => Some i
  | None => Some issue
  end.

Record LevelChange := mkLevelChange {
  lc_side : Side;
  lc_price : Price;
  lc_quantity : option Quantity;
}.

Record OrderEvent := mkOrderEvent {
  oe_kind : OrderEventKind;
  oe_order_id : OrderId;
  oe_side : Side;
  oe_price : Price;
  oe_quantity : Quantity;
}.

Record BookEntry := mkBookEntry {
  be_price : Price;
  be_quantity : Quantity;
}.

#[export] Instance LevelChange_eq_dec : EqDecision LevelChange.
Proof. solve_decision. Defined.
#[export] Instance OrderEvent_eq_dec : EqDecision OrderEvent.
Proof. solve_decision. Defined.
#[export] Instance BookEntry_eq_dec : EqDecision BookEntry.
Proof. solve_decision. Defined.

Record BookView := mkBookView {
  bv_bids : list BookEntry;
  bv_asks : list BookEntry;
}.

Definition Entries (view : BookView) (side : Side) : list BookEntry :=
  match side with kBid => bv_bids view | kAsk => bv_asks view end.

Definition IsCrossed (best_bid best_ask : option BookEntry) : bool :=
  match best_bid, best_ask with
  | Some bid, Some ask => be_price ask <=? be_price bid
  | _, _ => false
  end.

(** ** Facts used by every policy *)

Lemma ReportIssue_is_Some slot issue : is_Some (ReportIssue slot issue).
Proof. destruct slot; simpl; eauto. Qed.

Lemma ReportIssue_Some i issue : ReportIssue (Some i) issue = Some i.
Proof. done. Qed.

Lemma IsCrossed_false_iff best_bid best_ask :
  IsCrossed best_bid best_ask = false ↔
  ∀ b a, best_bid = Some b → best_ask = Some a → be_price b < be_price a.
Proof.
  destruct best_bid as [b|], best_ask as [a|]; simpl; split; try naive_solver.
  - intros H%Z.leb_gt ?? [= <-] [= <-]. lia.
  - intros H. apply Z.leb_gt. by apply H.
Qed.
