(* ===== verification/LevelMap.v ===== *)
(** * [LevelMap]: the [std::map] that holds one side of a book

    [types.h] declares [LevelMap<Key, Value, Cmp>] as [std::map]. The model is
    the in-order list of its entries, with [find], [insert_or_assign], [erase],
    [operator[]], [begin], [size] and prefix iteration driven by the comparator,
    as the tree does. [lm_map] is the abstract finite map the list denotes. *)

From S2P Require Import Prelude BookTypes.

(** [Cmp]: [std::greater<>] for bids and [std::less<>] for asks. *)
Definition level_before (side : Side) (a b : Price) : bool :=
  match side with
  | kBid => b <? a
  | kAsk => a <? b
  end.

(** What [std::map] requires of its comparator, with the totality that integer
    keys add. *)
Class StrictTotalOrder (before : Z → Z → bool) : Prop := {
  before_irrefl k : before k k = false;
  before_trans a b c : before a b = true → before b c = true → before a c = true;
  before_total a b : before a b = false → before b a = false → a = b;
}.

#[export] Instance level_before_order side : StrictTotalOrder (level_before side).
Proof. destruct side; split; simpl; intros; lia. Qed.

Section level_map.
Context {V : Type}.
Variable before : Z → Z → bool.
Implicit Types (m : list (Z * V)) (k : Z) (v : V).

Fixpoint lm_find k m : option V :=
  match m with
  | [] => None
  | (k', v') :: m' =>
      if before k' k then lm_find k m' else if before k k' then None else Some v'
  end.

Fixpoint lm_insert k v m : list (Z * V) :=
  match m with
  | [] => [(k, v)]
  | (k', v') :: m' =>
      if before k' k then (k', v') :: lm_insert k v m'
      else if before k k' then (k, v) :: m
      else (k, v) :: m'
  end.

Fixpoint lm_erase k m : list (Z * V) :=
  match m with
  | [] => []
  | (k', v') :: m' =>
      if before k' k then (k', v') :: lm_erase k m'
      else if before k k' then m
      else m'
  end.

(** [begin()], dereferenced when the map is not empty. *)
Definition lm_begin m : option (Z * V) := head m.

(** The keys strictly increase in the comparator's order. *)
Definition lm_sorted m : Prop :=
  StronglySorted (λ x y : Z * V, before x.1 y.1 = true) m.

(** The finite map a sorted list denotes. *)
Definition lm_map m : gmap Z V := list_to_map m.
#[local] Arguments lm_map : simpl never.

Context `{!StrictTotalOrder before}.

Lemma before_asym a b : before a b = true → before b a = false.
Proof.
  intros H. destruct (before b a) eqn:E; [|done].
  pose proof (before_trans _ _ _ H E) as Ht. by rewrite before_irrefl in Ht.
Qed.

Lemma lm_sorted_cons x m :
  lm_sorted (x :: m) ↔ lm_sorted m ∧ ∀ y, y ∈ m → before x.1 y.1 = true.
Proof.
  unfold lm_sorted. split.
  - intros [? Hx]%StronglySorted_inv. by rewrite Forall_forall in Hx.
  - intros [? ?]. constructor; [done|]. by apply Forall_forall.
Qed.

Lemma lm_sorted_NoDup m : lm_sorted m → NoDup m.*1.
Proof.
  induction m as [|[k v] m IH]; [constructor|].
  intros [Hs Hlt]%lm_sorted_cons. simpl. constructor; [|by apply IH].
  intros ([k' v'] & -> & Hin)%list_elem_of_fmap.
  specialize (Hlt _ Hin). simpl in Hlt. by rewrite before_irrefl in Hlt.
Qed.

Lemma lm_map_cons k v m : lm_map ((k, v) :: m) = <[k:=v]> (lm_map m).
Proof. done. Qed.

Lemma lm_map_after k m :
  (∀ y, y ∈ m → before k y.1 = true) → lm_map m !! k = None.
Proof.
  intros Hlt. apply not_elem_of_list_to_map_1.
  intros (y & -> & Hin)%list_elem_of_fmap.
  specialize (Hlt _ Hin). by rewrite before_irrefl in Hlt.
Qed.

(** Every key of the tail comes after a key that comes before the head. *)
Lemma lm_before_tail k k' v' m :
  lm_sorted ((k', v') :: m) → before k k' = true →
  ∀ y, y ∈ (k', v') :: m → before k y.1 = true.
Proof.
  intros [_ Hlt]%lm_sorted_cons Hk y [->|Hin]%elem_of_cons; [done|].
  by eapply before_trans, Hlt.
Qed.

Lemma lm_find_spec k m : lm_sorted m → lm_find k m = lm_map m !! k.
Proof.
  induction m as [|[k' v'] m IH]; intros Hs; [done|].
  pose proof Hs as [Hs' Hlt]%lm_sorted_cons. simpl in Hlt |- *.
  destruct (before k' k) eqn:E1.
  - assert (k' ≠ k) by (intros ->; by rewrite before_irrefl in E1).
    rewrite lm_map_cons, lookup_insert_ne by done. by apply IH.
  - destruct (before k k') eqn:E2.
    + symmetry. apply lm_map_after. by eapply lm_before_tail.
    + rewrite (before_total _ _ E1 E2), lm_map_cons. by rewrite lookup_insert_eq.
Qed.

Lemma elem_of_lm_insert k v m y :
  y ∈ lm_insert k v m → y = (k, v) ∨ y ∈ m.
Proof.
  induction m as [|[k' v'] m IH]; simpl; [set_solver|].
  destruct (before k' k), (before k k'); intros; decompose_list_elem_of; set_solver.
Qed.

Lemma elem_of_lm_erase k m y : y ∈ lm_erase k m → y ∈ m.
Proof.
  induction m as [|[k' v'] m IH]; simpl; [done|].
  destruct (before k' k), (before k k'); intros; decompose_list_elem_of; set_solver.
Qed.

Lemma lm_insert_sorted k v m : lm_sorted m → lm_sorted (lm_insert k v m).
Proof.
  induction m as [|[k' v'] m IH]; intros Hs.
  { apply lm_sorted_cons. split; [constructor|]. set_solver. }
  pose proof Hs as [Hs' Hlt]%lm_sorted_cons. simpl in Hlt |- *.
  destruct (before k' k) eqn:E1; [|destruct (before k k') eqn:E2].
  - apply lm_sorted_cons. split; [by apply IH|].
    intros y [->|Hin]%elem_of_lm_insert; [done|by apply Hlt].
  - apply lm_sorted_cons. split; [done|]. by eapply lm_before_tail.
  - apply lm_sorted_cons. split; [done|]. simpl.
    by rewrite <-(before_total _ _ E1 E2).
Qed.

Lemma lm_erase_sorted k m : lm_sorted m → lm_sorted (lm_erase k m).
Proof.
  induction m as [|[k' v'] m IH]; intros Hs; [done|].
  pose proof Hs as [Hs' Hlt]%lm_sorted_cons. simpl in Hlt |- *.
  destruct (before k' k) eqn:E1; [|destruct (before k k') eqn:E2]; [|done..].
  apply lm_sorted_cons. split; [by apply IH|].
  intros y Hin%elem_of_lm_erase. by apply Hlt.
Qed.

(** [insert_or_assign] is insertion in the abstract map, [erase] is deletion. *)
Lemma lm_insert_map k v m : lm_sorted m → lm_map (lm_insert k v m) = <[k:=v]> (lm_map m).
Proof.
  induction m as [|[k' v'] m IH]; intros Hs; [done|].
  pose proof Hs as [Hs' Hlt]%lm_sorted_cons. simpl.
  destruct (before k' k) eqn:E1; [|destruct (before k k') eqn:E2]; [|done|].
  - assert (k' ≠ k) by (intros ->; by rewrite before_irrefl in E1).
    rewrite !lm_map_cons, IH by done. by apply insert_insert_ne.
  - rewrite !lm_map_cons, (before_total _ _ E1 E2). by rewrite insert_insert_eq.
Qed.

Lemma lm_erase_map k m : lm_sorted m → lm_map (lm_erase k m) = delete k (lm_map m).
Proof.
  induction m as [|[k' v'] m IH]; intros Hs; [by unfold lm_map; simpl; rewrite delete_empty|].
  pose proof Hs as [Hs' Hlt]%lm_sorted_cons. simpl in Hlt |- *.
  destruct (before k' k) eqn:E1; [|destruct (before k k') eqn:E2].
  - assert (k' ≠ k) by (intros ->; by rewrite before_irrefl in E1).
    rewrite !lm_map_cons, IH by done. by rewrite delete_insert_ne.
  - symmetry. apply delete_id, lm_map_after. by eapply lm_before_tail.
  - rewrite (before_total _ _ E1 E2) in *. rewrite lm_map_cons, delete_insert_id; [done|].
    by apply lm_map_after.
Qed.

Lemma lm_elem_of k v m : lm_sorted m → (k, v) ∈ m ↔ lm_map m !! k = Some v.
Proof. intros Hs. apply elem_of_list_to_map. by apply lm_sorted_NoDup. Qed.

(** [begin()] is the first key of the abstract map in the comparator's order. *)
Lemma lm_begin_first k v m :
  lm_sorted m → lm_begin m = Some (k, v) →
  lm_map m !! k = Some v ∧
  ∀ k' v', lm_map m !! k' = Some v' → k' = k ∨ before k k' = true.
Proof.
  destruct m as [|[k0 v0] m]; simpl; [done|]. intros Hs [= -> ->].
  split; [by rewrite lm_map_cons, lookup_insert_eq|]. intros k' v' Hk'%lm_elem_of; [|done].
  apply lm_sorted_cons in Hs as [_ Hlt].
  apply elem_of_cons in Hk' as [[= -> ->]|Hin]; [by left|right]. by apply (Hlt _ Hin).
Qed.

Lemma lm_begin_None m : lm_sorted m → lm_begin m = None ↔ lm_map m = ∅.
Proof.
  destruct m as [|[k v] m]; simpl; [done|]. intros _. split; [done|].
  rewrite lm_map_cons. intros H. by apply insert_non_empty in H.
Qed.

Lemma lm_sorted_app m1 m2 : lm_sorted (m1 ++ m2) → lm_sorted m1 ∧ lm_sorted m2.
Proof.
  induction m1 as [|x m1 IH]; simpl; [split; [constructor|done]|].
  intros [Hs Hlt]%lm_sorted_cons. destruct (IH Hs) as [H1 H2]. split; [|done].
  apply lm_sorted_cons. set_solver.
Qed.

Lemma lm_take_sorted n m : lm_sorted m → lm_sorted (take n m).
Proof. intros H. rewrite <-(take_drop n m) in H. by apply lm_sorted_app in H as [? _]. Qed.

(** A comparator's order determines the list from the map it denotes. *)
Lemma lm_map_inj m1 m2 : lm_sorted m1 → lm_sorted m2 → lm_map m1 = lm_map m2 → m1 = m2.
Proof.
  revert m2. induction m1 as [|[k1 v1] m1 IH]; intros m2 Hs1 Hs2 Heq.
  { destruct m2 as [|[k2 v2] m2]; [done|].
    by destruct (insert_non_empty (lm_map m2) k2 v2 (eq_sym Heq)). }
  destruct m2 as [|[k2 v2] m2]; [by destruct (insert_non_empty (lm_map m1) k1 v1 Heq)|].
  destruct (lm_begin_first k1 v1 _ Hs1 eq_refl) as [Hk1 Hmin1].
  destruct (lm_begin_first k2 v2 _ Hs2 eq_refl) as [Hk2 Hmin2].
  rewrite Heq in Hk1. rewrite <-Heq in Hk2.
  assert (k1 = k2) as ->.
  { destruct (Hmin1 _ _ Hk2) as [?|Hb1]; [done|]. destruct (Hmin2 _ _ Hk1) as [?|Hb2]; [done|].
    apply before_asym in Hb1. congruence. }
  rewrite lm_map_cons, lookup_insert_eq in Hk1. injection Hk1 as ->.
  f_equal. apply lm_sorted_cons in Hs1 as [Hs1 Hlt1], Hs2 as [Hs2 Hlt2].
  apply IH; [done..|]. rewrite !lm_map_cons in Heq.
  apply (f_equal (delete k2)) in Heq.
  by rewrite !delete_insert_id in Heq by by apply lm_map_after.
Qed.
End level_map.

Arguments lm_begin {V} m.
#[global] Arguments lm_map : simpl never.

Create HintDb level_map.
#[export] Hint Resolve level_before_order : level_map.
#[export] Hint Extern 1 (lm_sorted _ (lm_insert _ _ _ _)) => apply lm_insert_sorted : level_map.
#[export] Hint Extern 1 (lm_sorted _ (lm_erase _ _ _)) => apply lm_erase_sorted : level_map.
#[export] Hint Extern 1 (lm_sorted _ (take _ _)) => apply lm_take_sorted : level_map.
#[export] Hint Extern 1 (lm_sorted _ []) => constructor : level_map.
