(* ===== verification/Engine.v ===== *)
(** * The engine every granularity plugs into: [order_book/engine.h]

    [OrderBook] owns the readiness state machine and turns the change set a
    policy returns into listener calls. The listener is an observer, so it is
    modelled by the sequence of calls made on it, [ob_calls]; which optional
    hooks it implements is a [ListenerHooks] record, and which members a change
    set has is a [ChangeSetShape] instance, the counterparts of the
    [if constexpr (requires ...)] tests. A policy call is an [exec] on the
    policy's state: it may throw, and then nothing after it runs. *)

From S2P Require Import Prelude BookTypes.

(** ** Listener calls and change-set shapes *)

Inductive Notification : Type :=
| OnTopOfBookChanged (side : Side) (best : option BookEntry)
| OnLevelChanged (side : Side) (price : Price) (quantity : Quantity)
| OnLevelDeleted (side : Side) (price : Price)
| OnOrderAdded (order_id : OrderId) (side : Side) (price : Price) (quantity : Quantity)
| OnOrderModified (order_id : OrderId) (quantity : Quantity)
| OnOrderDeleted (order_id : OrderId)
| OnIntegrityCheckFailed (issue : IntegrityIssue).

#[export] Instance Notification_eq_dec : EqDecision Notification.
Proof. solve_decision. Defined.

(** The optional listener concepts of [concepts.h] a listener satisfies. *)
Record ListenerHooks := {
  LevelListener : bool;
  OrderListener : bool;
  IntegrityListener : bool;
}.

(** The members a change set has; [None] is a member it lacks. *)
Class ChangeSetShape (CS : Type) := {
  cs_top_of_book_changed : CS → option (bool * bool);
  cs_level_changes : CS → option (list LevelChange);
  cs_order_events : CS → option (list OrderEvent);
  cs_integrity_issue : CS → option (option IntegrityIssue);
}.

(** The issue a change set reports, whether or not its type has the member. *)
Definition reported_issue `{ChangeSetShape CS} (cs : CS) : option IntegrityIssue :=
  mjoin (cs_integrity_issue cs).

(** [NoMatchingPolicy::MatchingEnabled]. *)
Definition NoMatching_MatchingEnabled : bool := false.

Section engine.
Context {P CS : Type} `{!ChangeSetShape CS}.
Variable hooks : ListenerHooks.
Variable policy_Best : P → Side → outcome (option BookEntry).

Record OrderBook := mkOrderBook {
  ob_policy : P;
  ob_readiness : Readiness;
  ob_calls : list Notification;
}.

(** The constructor. *)
Definition new_OrderBook (policy : P) : OrderBook := mkOrderBook policy kUninitialized [].

Definition set_readiness (r : Readiness) (b : OrderBook) : OrderBook :=
  mkOrderBook (ob_policy b) r (ob_calls b).

Definition IsReady (b : OrderBook) : bool := bool_decide (ob_readiness b = kReady).

Definition Best (b : OrderBook) (side : Side) : outcome (option BookEntry) :=
  policy_Best (ob_policy b) side.

(** A member function of [policy_], run inside the engine. *)
Definition on_policy {A} (m : exec P A) : exec OrderBook A := λ b,
  let '(p, r) := m (ob_policy b) in (mkOrderBook p (ob_readiness b) (ob_calls b), r).

(** One call on the listener. *)
Definition call (n : Notification) : exec OrderBook unit := λ b,
  (mkOrderBook (ob_policy b) (ob_readiness b) (ob_calls b ++ [n]), Done tt).

Definition ApplyReadinessTransition (cs : CS) : exec OrderBook unit := λ b,
  match cs_integrity_issue cs with
  | Some (Some _) => (set_readiness kDesynced b, Done tt)
  | _ => (b, Done tt)
  end.

Definition notify_top (side : Side) : exec OrderBook unit :=
  let! b := exec_get in
  let! best := exec_lift (Best b side) in
  call (OnTopOfBookChanged side best).

Definition notify_level (change : LevelChange) : exec OrderBook unit :=
  match lc_quantity change with
  | Some q => call (OnLevelChanged (lc_side change) (lc_price change) q)
  | None => call (OnLevelDeleted (lc_side change) (lc_price change))
  end.

Definition notify_order (event : OrderEvent) : exec OrderBook unit :=
  match oe_kind event with
  | kAdded =>
      call (OnOrderAdded (oe_order_id event) (oe_side event) (oe_price event) (oe_quantity event))
  | kModified => call (OnOrderModified (oe_order_id event) (oe_quantity event))
  | kDeleted => call (OnOrderDeleted (oe_order_id event))
  end.

Definition Notify (cs : CS) : exec OrderBook unit :=
  run! match cs_top_of_book_changed cs with
       | Some (bid, ask) =>
           run! (if bid : bool then notify_top kBid else exec_ret tt) ;;
           (if ask : bool then notify_top kAsk else exec_ret tt)
       | None => exec_ret tt
       end ;;
  run! match LevelListener hooks, cs_level_changes cs with
       | true, Some changes => exec_each notify_level changes
       | _, _ => exec_ret tt
       end ;;
  run! match OrderListener hooks, cs_order_events cs with
       | true, Some events => exec_each notify_order events
       | _, _ => exec_ret tt
       end ;;
  match IntegrityListener hooks, cs_integrity_issue cs with
  | true, Some (Some issue) => call (OnIntegrityCheckFailed issue)
  | _, _ => exec_ret tt
  end.

(** [OrderBook::ApplySnapshot]; [policy_ApplySnapshot] is the policy's call on
    the same arguments. *)
Definition ApplySnapshot (policy_ApplySnapshot : exec P CS) : exec OrderBook unit :=
  let! cs := on_policy policy_ApplySnapshot in
  run! (λ b, (set_readiness kReady b, Done tt)) ;;
  run! ApplyReadinessTransition cs ;;
  Notify cs.

(** [OrderBook::Apply]: a defined no-op unless [Ready]. *)
Definition Apply (policy_Apply : exec P CS) : exec OrderBook unit :=
  let! b := exec_get in
  if bool_decide (ob_readiness b ≠ kReady) then exec_ret tt
  else
    let! cs := on_policy policy_Apply in
    run! ApplyReadinessTransition cs ;;
    Notify cs.

(** [OrderBook::ApplyBatch]: the same guard, one exchange message at a time. *)
Definition ApplyBatch (policy_ApplyBatch : exec P CS) : exec OrderBook unit :=
  let! b := exec_get in
  if bool_decide (ob_readiness b ≠ kReady) then exec_ret tt
  else
    let! cs := on_policy policy_ApplyBatch in
    run! ApplyReadinessTransition cs ;;
    Notify cs.

End engine.

Arguments OrderBook : clear implicits.
Arguments mkOrderBook {P}.

(** ** What the engine does with one message *)

Section engine_facts.
Context {P CS : Type} `{!ChangeSetShape CS}.
Variable hooks : ListenerHooks.
Variable policy_Best : P → Side → outcome (option BookEntry).

(** The calls [Notify] makes, given what [Best] answers. *)
Definition level_notification (change : LevelChange) : Notification :=
  match lc_quantity change with
  | Some q => OnLevelChanged (lc_side change) (lc_price change) q
  | None => OnLevelDeleted (lc_side change) (lc_price change)
  end.

Definition order_notification (event : OrderEvent) : Notification :=
  match oe_kind event with
  | kAdded => OnOrderAdded (oe_order_id event) (oe_side event) (oe_price event) (oe_quantity event)
  | kModified => OnOrderModified (oe_order_id event) (oe_quantity event)
  | kDeleted => OnOrderDeleted (oe_order_id event)
  end.

Definition notifications (best : Side → option BookEntry) (cs : CS) : list Notification :=
  match cs_top_of_book_changed cs with
  | Some (bid, ask) =>
      (if bid : bool then [OnTopOfBookChanged kBid (best kBid)] else []) ++
      (if ask : bool then [OnTopOfBookChanged kAsk (best kAsk)] else [])
  | None => []
  end ++
  (if LevelListener hooks then level_notification <$> default [] (cs_level_changes cs) else []) ++
  (if OrderListener hooks then order_notification <$> default [] (cs_order_events cs) else []) ++
  match IntegrityListener hooks, reported_issue cs with
  | true, Some issue => [OnIntegrityCheckFailed issue]
  | _, _ => []
  end.

(** The readiness a snapshot or a batch leaves. *)
Definition readiness_after (r : Readiness) (cs : CS) : Readiness :=
  match reported_issue cs with Some _ => kDesynced | None => r end.

Lemma exec_each_call {A} (f : A → exec (OrderBook P) unit) (g : A → Notification) l (p : P) r calls :
  (∀ x b, f x b = call (g x) b) →
  exec_each f l (mkOrderBook p r calls) = (mkOrderBook p r (calls ++ (g <$> l)), Done tt).
Proof.
  intros Hf. revert calls. induction l as [|x l IH]; intros calls; simpl.
  { by rewrite app_nil_r. }
  unfold exec_bind. rewrite Hf. simpl. rewrite IH. by rewrite <-app_assoc.
Qed.

Lemma notify_top_run (p : P) r calls side best :
  policy_Best p side = Done best →
  notify_top policy_Best side (mkOrderBook p r calls) =
    (mkOrderBook p r (calls ++ [OnTopOfBookChanged side best]), Done tt).
Proof. intros H. unfold notify_top, exec_bind, exec_lift, Best. simpl. by rewrite H. Qed.

Lemma ApplyReadinessTransition_run (cs : CS) (p : P) r calls :
  ApplyReadinessTransition cs (mkOrderBook p r calls) =
    (mkOrderBook p (readiness_after r cs) calls, Done tt).
Proof.
  unfold ApplyReadinessTransition, readiness_after, reported_issue.
  by destruct (cs_integrity_issue cs) as [[]|].
Qed.

Lemma Notify_run (cs : CS) (p : P) r calls (best : Side → option BookEntry) :
  (∀ side, policy_Best p side = Done (best side)) →
  Notify hooks policy_Best cs (mkOrderBook p r calls) =
    (mkOrderBook p r (calls ++ notifications best cs), Done tt).
Proof.
  intros Hbest. unfold Notify, notifications, reported_issue.
  destruct (cs_top_of_book_changed cs) as [[[] []]|];
    unfold exec_bind; simpl; rewrite ?(notify_top_run _ _ _ _ _ (Hbest _)); simpl;
    rewrite ?(notify_top_run _ _ _ _ _ (Hbest _)); simpl;
    destruct (LevelListener hooks), (cs_level_changes cs); simpl;
    rewrite ?(exec_each_call notify_level level_notification)
      by (intros [? ? []] ?; reflexivity);
    destruct (OrderListener hooks), (cs_order_events cs); simpl;
    rewrite ?(exec_each_call notify_order order_notification)
      by (intros [[] ? ? ? ?] ?; reflexivity);
    destruct (IntegrityListener hooks), (cs_integrity_issue cs) as [[]|]; simpl;
    unfold call; simpl; rewrite <-?app_assoc, ?app_nil_r; simpl; done.
Qed.

(** One snapshot: the policy's new state, [Ready] or [Desynced], the calls. *)
Lemma ApplySnapshot_run m b p' cs best :
  m (ob_policy b) = (p', Done cs) →
  (∀ side, policy_Best p' side = Done (best side)) →
  ApplySnapshot hooks policy_Best m b =
    (mkOrderBook p' (readiness_after kReady cs) (ob_calls b ++ notifications best cs), Done tt).
Proof.
  intros Hm Hbest. unfold ApplySnapshot, exec_bind, on_policy. rewrite Hm. simpl.
  unfold set_readiness. simpl. rewrite ApplyReadinessTransition_run. by apply Notify_run.
Qed.

(** One batch on a [Ready] book. *)
Lemma ApplyBatch_run m b p' cs best :
  ob_readiness b = kReady →
  m (ob_policy b) = (p', Done cs) →
  (∀ side, policy_Best p' side = Done (best side)) →
  ApplyBatch hooks policy_Best m b =
    (mkOrderBook p' (readiness_after kReady cs) (ob_calls b ++ notifications best cs), Done tt).
Proof.
  intros Hr Hm Hbest. unfold ApplyBatch, exec_bind. simpl.
  rewrite bool_decide_eq_false_2 by auto. unfold on_policy. rewrite Hm, Hr. simpl.
  rewrite ApplyReadinessTransition_run. by apply Notify_run.
Qed.

Lemma ApplyBatch_not_ready m b :
  ob_readiness b ≠ kReady → ApplyBatch hooks policy_Best m b = (b, Done tt).
Proof.
  intros Hr. unfold ApplyBatch, exec_bind. simpl. by rewrite bool_decide_eq_true_2.
Qed.

Lemma Apply_ApplyBatch m b : Apply hooks policy_Best m b = ApplyBatch hooks policy_Best m b.
Proof. done. Qed.
End engine_facts.

(** ** The readiness state machine

    What a policy promises the engine: its calls keep an invariant under which
    [Best] answers, never throw, and a change set without an issue leaves the
    policy in a [policy_good] state. Which calls are allowed may depend on the
    state they are made in. *)

Class PolicyContract {P CS : Type} `{!ChangeSetShape CS}
    (policy_Best : P → Side → outcome (option BookEntry))
    (snapshot_call batch_call : P → exec P CS → Prop)
    (policy_inv policy_good : P → Prop) : Prop := {
  contract_best p side : policy_inv p → ∃ best, policy_Best p side = Done best;
  contract_snapshot m p : snapshot_call p m → policy_inv p →
    wp m p (λ cs p', policy_inv p' ∧ (reported_issue cs = None → policy_good p'));
  contract_batch m p : batch_call p m → policy_inv p →
    wp m p (λ cs p', policy_inv p' ∧ (reported_issue cs = None → policy_good p'));
}.

Inductive engine_step {P CS : Type} `{!ChangeSetShape CS} (hooks : ListenerHooks)
    (policy_Best : P → Side → outcome (option BookEntry))
    (snapshot_call batch_call : P → exec P CS → Prop) : OrderBook P → OrderBook P → Prop :=
| step_snapshot m b b' r :
    snapshot_call (ob_policy b) m → ApplySnapshot hooks policy_Best m b = (b', r) →
    engine_step hooks policy_Best snapshot_call batch_call b b'
| step_apply m b b' r :
    batch_call (ob_policy b) m → Apply hooks policy_Best m b = (b', r) →
    engine_step hooks policy_Best snapshot_call batch_call b b'
| step_batch m b b' r :
    batch_call (ob_policy b) m → ApplyBatch hooks policy_Best m b = (b', r) →
    engine_step hooks policy_Best snapshot_call batch_call b b'.

Section contract.
Context `{HC : PolicyContract P CS policy_Best snapshot_call batch_call policy_inv policy_good}.
Variable hooks : ListenerHooks.

Lemma contract_best_fun p : policy_inv p →
  ∃ best : Side → option BookEntry, ∀ side, policy_Best p side = Done (best side).
Proof.
  intros Hp. destruct (contract_best p kBid Hp) as [bid Hbid].
  destruct (contract_best p kAsk Hp) as [ask Hask].
  exists (λ side, match side with kBid => bid | kAsk => ask end). by intros [].
Qed.

(** A message never throws out of the engine, and its readiness and calls are
    those of its change set. *)
Lemma contract_snapshot_run m b :
  snapshot_call (ob_policy b) m → policy_inv (ob_policy b) →
  ∃ p' cs best,
    policy_inv p' ∧ (reported_issue cs = None → policy_good p') ∧
    m (ob_policy b) = (p', Done cs) ∧
    ApplySnapshot hooks policy_Best m b =
      (mkOrderBook p' (readiness_after kReady cs)
         (ob_calls b ++ notifications hooks best cs), Done tt).
Proof.
  intros Hm Hp. destruct (proj1 (wp_run _ _ _) (contract_snapshot _ _ Hm Hp))
    as (p' & cs & Hrun & Hp' & Hgood).
  destruct (contract_best_fun _ Hp') as [best Hbest].
  exists p', cs, best. split_and!; [done..|]. by apply ApplySnapshot_run.
Qed.

Lemma contract_batch_run m b :
  batch_call (ob_policy b) m → policy_inv (ob_policy b) → ob_readiness b = kReady →
  ∃ p' cs best,
    policy_inv p' ∧ (reported_issue cs = None → policy_good p') ∧
    m (ob_policy b) = (p', Done cs) ∧
    ApplyBatch hooks policy_Best m b =
      (mkOrderBook p' (readiness_after kReady cs)
         (ob_calls b ++ notifications hooks best cs), Done tt).
Proof.
  intros Hm Hp Hr. destruct (proj1 (wp_run _ _ _) (contract_batch _ _ Hm Hp))
    as (p' & cs & Hrun & Hp' & Hgood).
  destruct (contract_best_fun _ Hp') as [best Hbest].
  exists p', cs, best. split_and!; [done..|]. by apply ApplyBatch_run.
Qed.

Definition engine_inv (b : OrderBook P) : Prop :=
  policy_inv (ob_policy b) ∧ (ob_readiness b = kReady → policy_good (ob_policy b)).

Lemma readiness_after_ready (cs : CS) :
  readiness_after kReady cs = kReady ↔ reported_issue cs = None.
Proof. unfold readiness_after. by destruct (reported_issue cs). Qed.

Lemma engine_inv_batch m b b' r :
  batch_call (ob_policy b) m → ApplyBatch hooks policy_Best m b = (b', r) → engine_inv b → engine_inv b'.
Proof.
  intros Hm Hrun [Hp Hg]. destruct (decide (ob_readiness b = kReady)) as [Hr|Hr].
  - destruct (contract_batch_run m b Hm Hp Hr) as (p' & cs & best & Hp' & Hg' & _ & Heq).
    rewrite Heq in Hrun. injection Hrun as <- _. split; simpl; [done|].
    rewrite readiness_after_ready. done.
  - rewrite ApplyBatch_not_ready in Hrun by done. by injection Hrun as <- _.
Qed.

Lemma engine_inv_step b b' :
  engine_step hooks policy_Best snapshot_call batch_call b b' → engine_inv b → engine_inv b'.
Proof.
  intros [m b1 b2 r Hm Hrun|m b1 b2 r Hm Hrun|m b1 b2 r Hm Hrun] Hinv.
  - destruct Hinv as [Hp Hg].
    destruct (contract_snapshot_run m b1 Hm Hp) as (p' & cs & best & Hp' & Hg' & _ & Heq).
    rewrite Heq in Hrun. injection Hrun as <- _. split; simpl; [done|].
    rewrite readiness_after_ready. done.
  - by eapply engine_inv_batch.
  - by eapply engine_inv_batch.
Qed.

(** Every book the engine can reach keeps its policy's invariant, and is
    [Ready] only in a state whose last message reported no issue. *)
Lemma engine_inv_reachable p0 b :
  policy_inv p0 →
  rtc (engine_step hooks policy_Best snapshot_call batch_call) (new_OrderBook p0) b →
  engine_inv b.
Proof.
  intros Hp0 Hsteps.
  assert (engine_inv (new_OrderBook p0)) as Hinit by (split; [done|discriminate]).
  induction Hsteps as [|x y z Hstep _ IH]; [done|]. eauto using engine_inv_step.
Qed.
End contract.
