(* ===== verification/L1Policy.v ===== *)
(** * The L1 book: [order_book/l1_policy.h]

    The state is the best entry of each side. A zero quantity on the wire means
    "no level", and never reaches the stored state. *)

From S2P Require Import Prelude BookTypes Engine.

Record L1Update := mkL1Update {
  l1u_side : Side;
  l1u_price : Price;
  l1u_quantity : Quantity;
}.

Record L1Snapshot := mkL1Snapshot {
  l1s_bid : option BookEntry;
  l1s_ask : option BookEntry;
}.

Record L1ChangeSet := mkL1ChangeSet {
  l1_bid_top_of_book_changed : bool;
  l1_ask_top_of_book_changed : bool;
}.

#[export] Instance L1ChangeSet_shape : ChangeSetShape L1ChangeSet := {
  cs_top_of_book_changed cs :=
    Some (l1_bid_top_of_book_changed cs, l1_ask_top_of_book_changed cs);
  cs_level_changes _ := None;
  cs_order_events _ := None;
  cs_integrity_issue _ := None;
}.

Record L1Policy := mkL1Policy {
  l1_bid : option BookEntry;
  l1_ask : option BookEntry;
}.

Definition L1Policy_init : L1Policy := mkL1Policy None None.

Definition L1Policy_Best (p : L1Policy) (side : Side) : outcome (option BookEntry) :=
  Done (match side with kBid => l1_bid p | kAsk => l1_ask p end).

Definition L1Policy_ApplySnapshot (snapshot : L1Snapshot) : exec L1Policy L1ChangeSet := λ _,
  (mkL1Policy (l1s_bid snapshot) (l1s_ask snapshot), Done (mkL1ChangeSet true true)).

(** The value the wire update stands for. *)
Definition l1_new_value (update : L1Update) : option BookEntry :=
  if IsZero (l1u_quantity update) then None
  else Some (mkBookEntry (l1u_price update) (l1u_quantity update)).

Definition L1Policy_Apply (update : L1Update) : exec L1Policy L1ChangeSet := λ p,
  let slot := match l1u_side update with kBid => l1_bid p | kAsk => l1_ask p end in
  let new_value := l1_new_value update in
  if bool_decide (slot ≠ new_value) then
    match l1u_side update with
    | kBid => (mkL1Policy new_value (l1_ask p), Done (mkL1ChangeSet true false))
    | kAsk => (mkL1Policy (l1_bid p) new_value, Done (mkL1ChangeSet false true))
    end
  else (p, Done (mkL1ChangeSet false false)).

(** ** Properties *)

Definition l1_best (p : L1Policy) (side : Side) : option BookEntry :=
  match side with kBid => l1_bid p | kAsk => l1_ask p end.

(** No entry of quantity zero is ever stored. *)
Definition l1_inv (p : L1Policy) : Prop :=
  ∀ side entry, l1_best p side = Some entry → be_quantity entry ≠ 0.

Lemma l1_new_value_nonzero update entry :
  l1_new_value update = Some entry → be_quantity entry ≠ 0.
Proof. unfold l1_new_value, IsZero. case (Z.eqb_spec (l1u_quantity update) 0); naive_solver. Qed.

(** An update sets its own side to the value it stands for, leaves the other
    side alone, flags a side exactly when its best entry changed, and keeps the
    no-zero invariant. *)
Theorem L1Policy_Apply_correct p update :
  ∃ p' cs, L1Policy_Apply update p = (p', Done cs) ∧
    (∀ side, l1_best p' side =
       if decide (side = l1u_side update) then l1_new_value update else l1_best p side) ∧
    l1_bid_top_of_book_changed cs = bool_decide (l1_best p kBid ≠ l1_best p' kBid) ∧
    l1_ask_top_of_book_changed cs = bool_decide (l1_best p kAsk ≠ l1_best p' kAsk) ∧
    (l1_inv p → l1_inv p').
Proof.
  unfold L1Policy_Apply. destruct p as [bid ask].
  assert (∀ (o : option BookEntry), bool_decide (o ≠ o) = false) as Hrefl
    by (intros; apply bool_decide_eq_false_2; auto).
  destruct (l1u_side update) eqn:Hside; simpl; case_bool_decide as Hch; simpl.
  all: eexists _, _; split; [reflexivity|].
  all: rewrite ?Hrefl; split; [intros []; simpl; try done; naive_solver|].
  all: split; [simpl; symmetry; first [done | by apply bool_decide_eq_true_2 | apply Hrefl]|].
  all: split; [simpl; symmetry; first [done | by apply bool_decide_eq_true_2 | apply Hrefl]|].
  all: intros Hinv; try done.
  all: intros [] entry He; simpl in He.
  all: first [by apply (l1_new_value_nonzero update) | by apply (Hinv kBid) | by apply (Hinv kAsk)].
Qed.
