(* ===== verification/L2Policy.v ===== *)
(** * The L2 books: [order_book/l2_policy.h]

    [L2Levels] holds aggregated quantities per price on each side.
    [L2Policy] adds the [change_id] sequence check, [UnsequencedL2Policy] has
    none. [asserts] says whether [assert] is compiled in (a Debug build): the
    duplicate-[New] assertion is the only execution of this component without a
    result. *)

From S2P Require Import Prelude BookTypes LevelMap Engine.

Inductive L2Operation : Type := kNew | kChange | kDelete.

#[export] Instance L2Operation_eq_dec : EqDecision L2Operation.
Proof. solve_decision. Defined.

Record L2Update := mkL2Update {
  l2u_side : Side;
  l2u_price : Price;
  l2u_quantity : Quantity;
  l2u_operation : L2Operation;
}.

Record ChangeIdMeta := mkChangeIdMeta {
  cim_change_id : Z;
  cim_prev_change_id : Z;
}.

Record L2Snapshot := mkL2Snapshot {
  l2s_levels : list L2Update;
  l2s_change_id : Z;
}.

Record UnsequencedL2Snapshot := mkUnsequencedL2Snapshot {
  ul2s_levels : list L2Update;
}.

Record L2ChangeSet := mkL2ChangeSet {
  l2_bid_top_of_book_changed : bool;
  l2_ask_top_of_book_changed : bool;
  l2_level_changes : list LevelChange;
  l2_integrity_issue : option IntegrityIssue;
}.

#[export] Instance L2ChangeSet_shape : ChangeSetShape L2ChangeSet := {
  cs_top_of_book_changed cs :=
    Some (l2_bid_top_of_book_changed cs, l2_ask_top_of_book_changed cs);
  cs_level_changes cs := Some (l2_level_changes cs);
  cs_order_events _ := None;
  cs_integrity_issue cs := Some (l2_integrity_issue cs);
}.

Definition L2ChangeSet_init : L2ChangeSet := mkL2ChangeSet false false [] None.

Definition l2_push_change (change : LevelChange) (cs : L2ChangeSet) : L2ChangeSet :=
  mkL2ChangeSet (l2_bid_top_of_book_changed cs) (l2_ask_top_of_book_changed cs)
    (l2_level_changes cs ++ [change]) (l2_integrity_issue cs).

Definition l2_report (issue : IntegrityIssue) (cs : L2ChangeSet) : L2ChangeSet :=
  mkL2ChangeSet (l2_bid_top_of_book_changed cs) (l2_ask_top_of_book_changed cs)
    (l2_level_changes cs) (ReportIssue (l2_integrity_issue cs) issue).

Definition l2_set_tops (bid ask : bool) (cs : L2ChangeSet) : L2ChangeSet :=
  mkL2ChangeSet bid ask (l2_level_changes cs) (l2_integrity_issue cs).

(** ** [L2Levels] *)

Record L2Levels := mkL2Levels {
  l2_bids : list (Price * Quantity);
  l2_asks : list (Price * Quantity);
}.

Definition L2Levels_init : L2Levels := mkL2Levels [] [].

Definition l2_side (lv : L2Levels) (side : Side) : list (Price * Quantity) :=
  match side with kBid => l2_bids lv | kAsk => l2_asks lv end.

Definition l2_set_side (side : Side) (m : list (Price * Quantity)) (lv : L2Levels) : L2Levels :=
  match side with
  | kBid => mkL2Levels m (l2_asks lv)
  | kAsk => mkL2Levels (l2_bids lv) m
  end.

Definition L2_BestOf (m : list (Price * Quantity)) : option BookEntry :=
  match lm_begin m with
  | None => None
  | Some (price, quantity) => Some (mkBookEntry price quantity)
  end.

Definition L2Levels_Best (lv : L2Levels) (side : Side) : option BookEntry :=
  match side with
  | kBid => L2_BestOf (l2_bids lv)
  | kAsk => L2_BestOf (l2_asks lv)
  end.

(** The body of [ReplaceWith]'s loop. *)
Definition ReplaceWith_level (st : L2Levels * L2ChangeSet) (level : L2Update)
  : L2Levels * L2ChangeSet :=
  let '(lv, cs) := st in
  if bool_decide (l2u_operation level = kDelete) then (lv, cs)
  else
    let side := l2u_side level in
    (l2_set_side side
       (lm_insert (level_before side) (l2u_price level) (l2u_quantity level) (l2_side lv side)) lv,
     l2_push_change (mkLevelChange side (l2u_price level) (Some (l2u_quantity level))) cs).

Definition ReplaceWith (levels : list L2Update) : L2Levels * L2ChangeSet :=
  let '(lv, cs) := foldl ReplaceWith_level (L2Levels_init, L2ChangeSet_init) levels in
  let cs := l2_set_tops true true cs in
  if IsCrossed (L2Levels_Best lv kBid) (L2Levels_Best lv kAsk)
  then (lv, l2_report kCrossedBook cs) else (lv, cs).

Section asserts.
Variable asserts : bool.

Definition ApplyOne (side : Side) (update : L2Update) (m : list (Price * Quantity))
    (cs : L2ChangeSet) : outcome (list (Price * Quantity) * L2ChangeSet) :=
  let before := level_before side in
  let price := l2u_price update in
  if bool_decide (l2u_operation update = kDelete) then
    match lm_find before price m with
    | None => Done (m, l2_report kUnknownLevel cs)
    | Some _ => Done (lm_erase before price m, l2_push_change (mkLevelChange side price None) cs)
    end
  else
    let already_tracked := bool_decide (is_Some (lm_find before price m)) in
    if bool_decide (l2u_operation update = kChange) && negb already_tracked then
      Done (m, l2_report kUnknownLevel cs)
    else if asserts && (bool_decide (l2u_operation update = kNew) && already_tracked) then
      Undef AssertFailed
    else
      Done (lm_insert before price (l2u_quantity update) m,
            l2_push_change (mkLevelChange side price (Some (l2u_quantity update))) cs).

Fixpoint ApplyUpdates_loop (updates : list L2Update) (lv : L2Levels) (cs : L2ChangeSet)
  : outcome (L2Levels * L2ChangeSet) :=
  match updates with
  | [] => Done (lv, cs)
  | update :: updates =>
      let side := l2u_side update in
      outcome_bind (ApplyOne side update (l2_side lv side) cs)
        (λ '(m, cs'), ApplyUpdates_loop updates (l2_set_side side m lv) cs')
  end.

Definition ApplyUpdates (updates : list L2Update) (lv : L2Levels)
  : outcome (L2Levels * L2ChangeSet) :=
  let old_best_bid := L2Levels_Best lv kBid in
  let old_best_ask := L2Levels_Best lv kAsk in
  outcome_bind (ApplyUpdates_loop updates lv L2ChangeSet_init) (λ '(lv', cs),
    let new_best_bid := L2Levels_Best lv' kBid in
    let new_best_ask := L2Levels_Best lv' kAsk in
    let cs := l2_set_tops (bool_decide (old_best_bid ≠ new_best_bid))
                (bool_decide (old_best_ask ≠ new_best_ask)) cs in
    if IsCrossed new_best_bid new_best_ask
    then Done (lv', l2_report kCrossedBook cs) else Done (lv', cs)).

(** ** The two policies *)

Record L2Policy := mkL2Policy {
  l2_levels : L2Levels;
  l2_last_change_id : Z;
}.

Definition L2Policy_init : L2Policy := mkL2Policy L2Levels_init 0.

Definition L2Policy_Best (p : L2Policy) (side : Side) : outcome (option BookEntry) :=
  Done (L2Levels_Best (l2_levels p) side).

Definition L2Policy_ApplySnapshot (snapshot : L2Snapshot) : exec L2Policy L2ChangeSet := λ p,
  let '(lv, cs) := ReplaceWith (l2s_levels snapshot) in
  (mkL2Policy lv (l2s_change_id snapshot), Done cs).

Definition L2Policy_ApplyBatch (updates : list L2Update) (meta : ChangeIdMeta)
  : exec L2Policy L2ChangeSet := λ p,
  if bool_decide (cim_prev_change_id meta ≠ l2_last_change_id p) then
    (p, Done (mkL2ChangeSet false false [] (Some kGap)))
  else
    match ApplyUpdates updates (l2_levels p) with
    | Done (lv, cs) => (mkL2Policy lv (cim_change_id meta), Done cs)
    | Throws e => (p, Throws e)
    | Undef u => (p, Undef u)
    end.

Definition UnsequencedL2Policy : Type := L2Levels.

Definition UnsequencedL2Policy_Best (p : UnsequencedL2Policy) (side : Side)
  : outcome (option BookEntry) := Done (L2Levels_Best p side).

Definition UnsequencedL2Policy_ApplySnapshot (snapshot : UnsequencedL2Snapshot)
  : exec UnsequencedL2Policy L2ChangeSet := λ p,
  let '(lv, cs) := ReplaceWith (ul2s_levels snapshot) in (lv, Done cs).

Definition UnsequencedL2Policy_ApplyBatch (updates : list L2Update)
  : exec UnsequencedL2Policy L2ChangeSet := λ p,
  match ApplyUpdates updates p with
  | Done (lv, cs) => (lv, Done cs)
  | Throws e => (p, Throws e)
  | Undef u => (p, Undef u)
  end.
End asserts.
