(* ===== verification/L2Refinement.v ===== *)
(** * The L2 books against their abstract specification

    A book is, abstractly, one finite map from price to quantity per side; an
    update inserts, replaces or deletes one key. This file shows that
    [L2Policy.v] implements it, that [Best] is the extreme price of the map, and
    that a book the engine calls [Ready] is never crossed. *)

From S2P Require Import Prelude BookTypes LevelMap Engine L2Policy.

(** ** The specification *)

Record SpecBook := mkSpecBook {
  spec_bids : gmap Z Z;
  spec_asks : gmap Z Z;
}.

Definition spec_side (b : SpecBook) (side : Side) : gmap Z Z :=
  match side with kBid => spec_bids b | kAsk => spec_asks b end.

Definition spec_set_side (side : Side) (g : gmap Z Z) (b : SpecBook) : SpecBook :=
  match side with
  | kBid => mkSpecBook g (spec_asks b)
  | kAsk => mkSpecBook (spec_bids b) g
  end.

(** A [Change] or [Delete] of a price that is not tracked. *)
Definition spec_unknown (u : L2Update) (b : SpecBook) : bool :=
  bool_decide (l2u_operation u ≠ kNew ∧ spec_side b (l2u_side u) !! l2u_price u = None).

(** A [New] of a price that is tracked. *)
Definition spec_duplicate (u : L2Update) (b : SpecBook) : bool :=
  bool_decide (l2u_operation u = kNew ∧ is_Some (spec_side b (l2u_side u) !! l2u_price u)).

Definition spec_apply (b : SpecBook) (u : L2Update) : SpecBook :=
  let side := l2u_side u in
  let g := spec_side b side in
  if spec_unknown u b then b
  else spec_set_side side
    (match l2u_operation u with
     | kDelete => delete (l2u_price u) g
     | _ => <[l2u_price u := l2u_quantity u]> g
     end) b.

(** The level changes an update announces, and the issue it reports. *)
Definition spec_change (u : L2Update) : LevelChange :=
  mkLevelChange (l2u_side u) (l2u_price u)
    (match l2u_operation u with kDelete => None | _ => Some (l2u_quantity u) end).

Fixpoint spec_changes (us : list L2Update) (b : SpecBook) : list LevelChange :=
  match us with
  | [] => []
  | u :: us => (if spec_unknown u b then [] else [spec_change u]) ++ spec_changes us (spec_apply b u)
  end.

Fixpoint spec_any_unknown (us : list L2Update) (b : SpecBook) : bool :=
  match us with
  | [] => false
  | u :: us => spec_unknown u b || spec_any_unknown us (spec_apply b u)
  end.

Fixpoint spec_any_duplicate (us : list L2Update) (b : SpecBook) : bool :=
  match us with
  | [] => false
  | u :: us => spec_duplicate u b || spec_any_duplicate us (spec_apply b u)
  end.

Definition spec_crossed (b : SpecBook) : Prop :=
  ∃ pb qb pa qa, spec_bids b !! pb = Some qb ∧ spec_asks b !! pa = Some qa ∧ pa <= pb.

(** The best entry of a side: its extreme price, or nothing. *)
Definition spec_best (side : Side) (g : gmap Z Z) (best : option BookEntry) : Prop :=
  match best with
  | None => g = ∅
  | Some e => g !! be_price e = Some (be_quantity e) ∧
      ∀ p q, g !! p = Some q → p = be_price e ∨ level_before side (be_price e) p = true
  end.

(** ** The abstraction of the stored levels *)

Definition l2_sorted (lv : L2Levels) : Prop :=
  ∀ side, lm_sorted (level_before side) (l2_side lv side).

Definition l2_abs (lv : L2Levels) : SpecBook :=
  mkSpecBook (lm_map (l2_bids lv)) (lm_map (l2_asks lv)).

Lemma spec_side_abs lv side : spec_side (l2_abs lv) side = lm_map (l2_side lv side).
Proof. by destruct side. Qed.

Lemma l2_abs_set_side lv side m :
  l2_abs (l2_set_side side m lv) = spec_set_side side (lm_map m) (l2_abs lv).
Proof. by destruct side. Qed.

Lemma l2_sorted_set_side lv side m :
  l2_sorted lv → lm_sorted (level_before side) m → l2_sorted (l2_set_side side m lv).
Proof. intros Hlv Hm s. destruct side, s; simpl; try done; apply (Hlv _). Qed.

Lemma spec_set_side_same b side : spec_set_side side (spec_side b side) b = b.
Proof. by destruct b, side. Qed.

Lemma l2_set_side_same lv side : l2_set_side side (l2_side lv side) lv = lv.
Proof. by destruct lv, side. Qed.

Lemma l2_sorted_init : l2_sorted L2Levels_init.
Proof. intros []; constructor. Qed.

#[export] Hint Resolve l2_sorted_init l2_sorted_set_side : level_map.

(** ** One update *)

Section asserts.
Variable asserts : bool.

(** [ApplyOne] on the update's own side. *)
Lemma ApplyOne_spec u lv cs :
  l2_sorted lv →
  let side := l2u_side u in
  let b := l2_abs lv in
  ApplyOne asserts side u (l2_side lv side) cs =
    if asserts && spec_duplicate u b then Undef AssertFailed
    else if spec_unknown u b then Done (l2_side lv side, l2_report kUnknownLevel cs)
    else Done (match l2u_operation u with
               | kDelete => lm_erase (level_before side) (l2u_price u) (l2_side lv side)
               | _ => lm_insert (level_before side) (l2u_price u) (l2u_quantity u) (l2_side lv side)
               end, l2_push_change (spec_change u) cs).
Proof.
  intros Hs. unfold ApplyOne, spec_unknown, spec_duplicate, spec_change. cbv zeta.
  rewrite spec_side_abs, <-(lm_find_spec (level_before (l2u_side u))) by apply Hs.
  destruct (lm_find (level_before (l2u_side u)) (l2u_price u) (l2_side lv (l2u_side u)));
    destruct (l2u_operation u), asserts; repeat case_bool_decide; simpl; naive_solver.
Qed.

Lemma ApplyOne_level u lv m cs cs' :
  l2_sorted lv → ApplyOne asserts (l2u_side u) u (l2_side lv (l2u_side u)) cs = Done (m, cs') →
  let lv' := l2_set_side (l2u_side u) m lv in
  l2_sorted lv' ∧ l2_abs lv' = spec_apply (l2_abs lv) u ∧
  l2_level_changes cs' = l2_level_changes cs ++
    (if spec_unknown u (l2_abs lv) then [] else [spec_change u]) ∧
  l2_integrity_issue cs' =
    (if spec_unknown u (l2_abs lv) then ReportIssue (l2_integrity_issue cs) kUnknownLevel
     else l2_integrity_issue cs).
Proof.
  intros Hs. rewrite ApplyOne_spec by done. cbv zeta. unfold spec_apply.
  destruct (asserts && _); [done|]. rewrite l2_abs_set_side, spec_side_abs.
  pose proof (Hs (l2u_side u)) as Hside.
  destruct (spec_unknown u (l2_abs lv)); intros [= <- <-]; simpl.
  - rewrite l2_set_side_same, app_nil_r, <-spec_side_abs, spec_set_side_same. auto.
  - split; [destruct (l2u_operation u); auto with level_map|]. split; [|done].
    destruct (l2u_operation u); by rewrite ?(lm_insert_map (level_before _)),
      ?(lm_erase_map (level_before _)) by done.
Qed.

(** ** The loop and the message *)

(** A loop that finishes agrees with the specification run on the same updates. *)
Lemma ApplyUpdates_loop_spec us lv cs lv' cs' :
  l2_sorted lv → ApplyUpdates_loop asserts us lv cs = Done (lv', cs') →
  l2_sorted lv' ∧ l2_abs lv' = foldl spec_apply (l2_abs lv) us ∧
  l2_level_changes cs' = l2_level_changes cs ++ spec_changes us (l2_abs lv) ∧
  l2_integrity_issue cs' =
    (if spec_any_unknown us (l2_abs lv) then ReportIssue (l2_integrity_issue cs) kUnknownLevel
     else l2_integrity_issue cs).
Proof.
  revert lv cs. induction us as [|u us IH]; intros lv cs Hs; simpl.
  { intros [= <- <-]. by rewrite app_nil_r. }
  destruct (ApplyOne asserts (l2u_side u) u (l2_side lv (l2u_side u)) cs) as [[m cs1]|e|e] eqn:E;
    simpl; [|done..].
  destruct (ApplyOne_level _ _ _ _ _ Hs E) as (Hs1 & Habs & Hch & Hiss). intros Hrun.
  destruct (IH _ _ Hs1 Hrun) as (Hs' & Habs' & Hch' & Hiss').
  rewrite Habs in Habs', Hch', Hiss'. split_and!; [done..| |].
  - by rewrite Hch', Hch, <-app_assoc.
  - rewrite Hiss', Hiss. destruct (spec_unknown u (l2_abs lv)), (spec_any_unknown us _),
      (l2_integrity_issue cs); done.
Qed.

(** The loop finishes unless assertions are on and a [New] hits a tracked price. *)
Lemma ApplyUpdates_loop_runs us lv cs :
  l2_sorted lv →
  if asserts && spec_any_duplicate us (l2_abs lv)
  then ApplyUpdates_loop asserts us lv cs = Undef AssertFailed
  else ∃ lv' cs', ApplyUpdates_loop asserts us lv cs = Done (lv', cs').
Proof.
  revert lv cs. induction us as [|u us IH]; intros lv cs Hs; simpl.
  { rewrite andb_false_r. eauto. }
  pose proof (ApplyOne_spec u lv cs Hs) as Hone. simpl in Hone.
  rewrite andb_orb_distrib_r.
  destruct (asserts && spec_duplicate u (l2_abs lv)); simpl; [by rewrite Hone|].
  destruct (ApplyOne _ _ _ _ _) as [[m cs1]|e|e] eqn:E; [|by destruct (spec_unknown _ _)..].
  destruct (ApplyOne_level _ _ _ _ _ Hs E) as (Hs1 & Habs & _ & _); simpl.
  specialize (IH _ cs1 Hs1). by rewrite Habs in IH.
Qed.

(** ** Best prices *)

Lemma L2_BestOf_spec side m :
  lm_sorted (level_before side) m → spec_best side (lm_map m) (L2_BestOf m).
Proof.
  intros Hs. unfold L2_BestOf, spec_best. destruct (lm_begin m) as [[p q]|] eqn:E; simpl.
  - by apply (lm_begin_first (level_before side)).
  - by apply (lm_begin_None (level_before side)).
Qed.

Lemma L2Levels_Best_side lv side : L2Levels_Best lv side = L2_BestOf (l2_side lv side).
Proof. by destruct side. Qed.

(** Crossed best entries are a crossed pair of levels, and conversely. *)
Lemma IsCrossed_spec lv :
  l2_sorted lv →
  IsCrossed (L2Levels_Best lv kBid) (L2Levels_Best lv kAsk) = true ↔ spec_crossed (l2_abs lv).
Proof.
  intros Hs. rewrite !L2Levels_Best_side.
  pose proof (L2_BestOf_spec kBid _ (Hs kBid)) as Hb.
  pose proof (L2_BestOf_spec kAsk _ (Hs kAsk)) as Ha.
  unfold spec_crossed. simpl in *.
  destruct (L2_BestOf (l2_bids lv)) as [b|]; destruct (L2_BestOf (l2_asks lv)) as [a|]; simpl in *.
  2-4: rewrite ?Hb, ?Ha; split; [done|intros (?&?&?&?&H1&H2&_)];
    by rewrite ?lookup_empty in H1, H2.
  destruct Hb as [Hb Hbmax], Ha as [Ha Hamin]. rewrite Z.leb_le. split.
  - intros. by exists (be_price b), (be_quantity b), (be_price a), (be_quantity a).
  - intros (pb & qb & pa & qa & Hpb & Hpa & Hle).
    destruct (Hbmax _ _ Hpb) as [->|H1], (Hamin _ _ Hpa) as [->|H2]; lia.
Qed.

(** What a finished message reports. *)
Definition spec_issue (us : list L2Update) (lv lv' : L2Levels) : option IntegrityIssue :=
  if spec_any_unknown us (l2_abs lv) then Some kUnknownLevel
  else if IsCrossed (L2Levels_Best lv' kBid) (L2Levels_Best lv' kAsk) then Some kCrossedBook
  else None.

Lemma ApplyUpdates_spec us lv :
  l2_sorted lv →
  if asserts && spec_any_duplicate us (l2_abs lv)
  then ApplyUpdates asserts us lv = Undef AssertFailed
  else ∃ lv' cs, ApplyUpdates asserts us lv = Done (lv', cs) ∧
    l2_sorted lv' ∧ l2_abs lv' = foldl spec_apply (l2_abs lv) us ∧
    l2_level_changes cs = spec_changes us (l2_abs lv) ∧
    l2_integrity_issue cs = spec_issue us lv lv' ∧
    l2_bid_top_of_book_changed cs = bool_decide (L2Levels_Best lv kBid ≠ L2Levels_Best lv' kBid) ∧
    l2_ask_top_of_book_changed cs = bool_decide (L2Levels_Best lv kAsk ≠ L2Levels_Best lv' kAsk).
Proof.
  intros Hs. unfold ApplyUpdates.
  pose proof (ApplyUpdates_loop_runs us lv L2ChangeSet_init Hs) as Hrun.
  destruct (asserts && _); [by rewrite Hrun|].
  destruct Hrun as (lv' & cs' & Hrun). rewrite Hrun. simpl.
  destruct (ApplyUpdates_loop_spec _ _ _ _ _ Hs Hrun) as (Hs' & Habs & Hch & Hiss).
  simpl in Hch, Hiss. unfold spec_issue.
  destruct (IsCrossed _ _) eqn:Hx; eexists _, _; (split; [reflexivity|]); simpl;
    rewrite Hiss, Hch, Hx; split_and!; try done; by destruct (spec_any_unknown _ _).
Qed.

(** ** Snapshots *)

(** What a snapshot denotes: its entries in order, [Delete] entries skipped. *)
Definition spec_snapshot (levels : list L2Update) : SpecBook :=
  foldl (λ b u, if bool_decide (l2u_operation u = kDelete) then b
                else spec_set_side (l2u_side u)
                       (<[l2u_price u := l2u_quantity u]> (spec_side b (l2u_side u))) b)
        (mkSpecBook ∅ ∅) levels.

Lemma ReplaceWith_loop_spec levels st :
  l2_sorted st.1 →
  l2_integrity_issue st.2 = None →
  l2_sorted (foldl ReplaceWith_level st levels).1 ∧
  l2_integrity_issue (foldl ReplaceWith_level st levels).2 = None ∧
  l2_abs (foldl ReplaceWith_level st levels).1 =
    foldl (λ b u, if bool_decide (l2u_operation u = kDelete) then b
                  else spec_set_side (l2u_side u)
                         (<[l2u_price u := l2u_quantity u]> (spec_side b (l2u_side u))) b)
          (l2_abs st.1) levels.
Proof.
  revert st. induction levels as [|u levels IH]; intros [lv cs] Hs Hi; simpl in *; [done|].
  destruct (bool_decide (l2u_operation u = kDelete)); [by apply IH|].
  destruct (IH (l2_set_side (l2u_side u)
      (lm_insert (level_before (l2u_side u)) (l2u_price u) (l2u_quantity u)
         (l2_side lv (l2u_side u))) lv,
    l2_push_change (mkLevelChange (l2u_side u) (l2u_price u) (Some (l2u_quantity u))) cs))
    as (? & ? & Habs); simpl; [auto with level_map|done|].
  split_and!; [done..|]. rewrite Habs. simpl.
  by rewrite l2_abs_set_side, (lm_insert_map (level_before _)), spec_side_abs by apply Hs.
Qed.

Lemma ReplaceWith_spec levels :
  ∃ lv cs, ReplaceWith levels = (lv, cs) ∧
    l2_sorted lv ∧ l2_abs lv = spec_snapshot levels ∧
    l2_bid_top_of_book_changed cs = true ∧ l2_ask_top_of_book_changed cs = true ∧
    l2_integrity_issue cs =
      (if IsCrossed (L2Levels_Best lv kBid) (L2Levels_Best lv kAsk) then Some kCrossedBook
       else None).
Proof.
  unfold ReplaceWith.
  destruct (ReplaceWith_loop_spec levels (L2Levels_init, L2ChangeSet_init))
    as (Hs & Hi & Habs); [apply l2_sorted_init|done|].
  destruct (foldl ReplaceWith_level _ levels) as [lv cs]. simpl in *.
  destruct (IsCrossed _ _) eqn:Hx; eexists _, _; (split; [reflexivity|]); simpl;
    rewrite Hi, Hx; done.
Qed.
End asserts.

(** ** Properties *)

(** C9: one message of updates, in any build: either the duplicate-New
    assertion fires, exactly when a New names a level already held and
    assertions are compiled in, or the levels become those of the reference
    map, every change is reported in order, and an issue is reported exactly
    when an update names an unknown level or the result is crossed. *)
Theorem ApplyUpdates_refines asserts us lv :
  l2_sorted lv →
  if asserts && spec_any_duplicate us (l2_abs lv)
  then ApplyUpdates asserts us lv = Undef AssertFailed
  else ∃ lv' cs, ApplyUpdates asserts us lv = Done (lv', cs) ∧
    l2_sorted lv' ∧ l2_abs lv' = foldl spec_apply (l2_abs lv) us ∧
    l2_level_changes cs = spec_changes us (l2_abs lv) ∧
    (l2_integrity_issue cs = None ↔
       spec_any_unknown us (l2_abs lv) = false ∧ ¬ spec_crossed (l2_abs lv')).
Proof.
  intros Hs. pose proof (ApplyUpdates_spec asserts us lv Hs) as H.
  destruct (asserts && _); [done|].
  destruct H as (lv' & cs & Hrun & Hs' & Habs & Hch & Hiss & _).
  exists lv', cs. split_and!; [done..|]. rewrite Hiss, <-IsCrossed_spec by done.
  unfold spec_issue. destruct (spec_any_unknown _ _), (IsCrossed _ _); naive_solver.
Qed.

Definition demo_levels : L2Levels := mkL2Levels [(100, 5); (99, 2)] [(101, 7)].
Definition demo_updates : list L2Update :=
  [mkL2Update kBid 100 0 kDelete; mkL2Update kAsk 102 3 kNew; mkL2Update kBid 99 4 kChange].

Lemma demo_levels_sorted : l2_sorted demo_levels.
Proof. intros []; repeat constructor. Qed.

Lemma ApplyUpdates_refines_witness :
  ∃ lv' cs, ApplyUpdates true demo_updates demo_levels = Done (lv', cs) ∧
    l2_sorted lv' ∧ l2_abs lv' = foldl spec_apply (l2_abs demo_levels) demo_updates ∧
    l2_level_changes cs = spec_changes demo_updates (l2_abs demo_levels) ∧
    (l2_integrity_issue cs = None ↔
       spec_any_unknown demo_updates (l2_abs demo_levels) = false ∧ ¬ spec_crossed (l2_abs lv')).
Proof. exact (ApplyUpdates_refines true demo_updates demo_levels demo_levels_sorted). Defined.

(** [Best] is the highest bid or the lowest ask of the levels held. *)
Theorem L2Levels_Best_extreme lv side :
  l2_sorted lv → spec_best side (spec_side (l2_abs lv) side) (L2Levels_Best lv side).
Proof.
  intros Hs. rewrite spec_side_abs, L2Levels_Best_side. apply L2_BestOf_spec, Hs.
Qed.

Lemma L2Levels_Best_extreme_witness :
  spec_best kBid (spec_side (l2_abs demo_levels) kBid) (Some (mkBookEntry 100 5)).
Proof. exact (L2Levels_Best_extreme demo_levels kBid demo_levels_sorted). Defined.

(** The calls the engine makes on each policy, in a build without assertions. *)
Definition l2_snapshot_call (_ : L2Policy) (m : exec L2Policy L2ChangeSet) : Prop :=
  ∃ snapshot, m = L2Policy_ApplySnapshot snapshot.
Definition l2_batch_call (_ : L2Policy) (m : exec L2Policy L2ChangeSet) : Prop :=
  ∃ updates meta, m = L2Policy_ApplyBatch false updates meta.
Definition ul2_snapshot_call (_ : UnsequencedL2Policy) (m : exec UnsequencedL2Policy L2ChangeSet) : Prop :=
  ∃ snapshot, m = UnsequencedL2Policy_ApplySnapshot snapshot.
Definition ul2_batch_call (_ : UnsequencedL2Policy) (m : exec UnsequencedL2Policy L2ChangeSet) : Prop :=
  ∃ updates, m = UnsequencedL2Policy_ApplyBatch false updates.

Definition l2_uncrossed (lv : L2Levels) : Prop := l2_sorted lv ∧ ¬ spec_crossed (l2_abs lv).

Lemma IsCrossed_uncrossed lv :
  l2_sorted lv → IsCrossed (L2Levels_Best lv kBid) (L2Levels_Best lv kAsk) = false →
  l2_uncrossed lv.
Proof. intros Hs Hx. split; [done|]. rewrite <-IsCrossed_spec by done. by rewrite Hx. Qed.

Lemma ReplaceWith_ok levels :
  ∃ lv cs, ReplaceWith levels = (lv, cs) ∧ l2_sorted lv ∧
    (reported_issue cs = None → l2_uncrossed lv).
Proof.
  destruct (ReplaceWith_spec levels) as (lv & cs & Heq & Hs & _ & _ & _ & Hi).
  exists lv, cs. split_and!; [done..|]. unfold reported_issue. simpl. rewrite Hi.
  destruct (IsCrossed _ _) eqn:Hx; [done|]. intros _. by apply IsCrossed_uncrossed.
Qed.

Lemma ApplyUpdates_ok us lv :
  l2_sorted lv → ∃ lv' cs, ApplyUpdates false us lv = Done (lv', cs) ∧ l2_sorted lv' ∧
    (reported_issue cs = None → l2_uncrossed lv').
Proof.
  intros Hs. destruct (ApplyUpdates_spec false us lv Hs) as (lv' & cs & Heq & Hs' & _ & _ & Hi & _).
  exists lv', cs. split_and!; [done..|]. unfold reported_issue, spec_issue in *. simpl. rewrite Hi.
  destruct (spec_any_unknown _ _); [done|]. destruct (IsCrossed _ _) eqn:Hx; [done|].
  intros _. by apply IsCrossed_uncrossed.
Qed.

#[export] Instance L2Policy_contract :
  PolicyContract L2Policy_Best l2_snapshot_call l2_batch_call
    (λ p, l2_sorted (l2_levels p)) (λ p, l2_uncrossed (l2_levels p)).
Proof.
  split.
  - intros p side _. by eexists.
  - intros m p [snapshot ->] _. unfold wp, L2Policy_ApplySnapshot.
    by destruct (ReplaceWith_ok (l2s_levels snapshot)) as (lv & cs & -> & ? & ?).
  - intros m p (us & meta & ->) Hs. unfold wp, L2Policy_ApplyBatch.
    case_bool_decide; [done|].
    by destruct (ApplyUpdates_ok us _ Hs) as (lv & cs & -> & ? & ?).
Qed.

#[export] Instance UnsequencedL2Policy_contract :
  PolicyContract UnsequencedL2Policy_Best ul2_snapshot_call ul2_batch_call l2_sorted l2_uncrossed.
Proof.
  split.
  - intros p side _. by eexists.
  - intros m p [snapshot ->] _. unfold wp, UnsequencedL2Policy_ApplySnapshot.
    by destruct (ReplaceWith_ok (ul2s_levels snapshot)) as (lv & cs & -> & ? & ?).
  - intros m p (us & ->) Hs. unfold wp, UnsequencedL2Policy_ApplyBatch.
    by destruct (ApplyUpdates_ok us _ Hs) as (lv & cs & -> & ? & ?).
Qed.

(** A [Ready] L2 book, whatever messages it was fed, is not crossed. *)
Theorem L2_ready_uncrossed hooks b :
  rtc (engine_step hooks L2Policy_Best l2_snapshot_call l2_batch_call)
    (new_OrderBook L2Policy_init) b →
  ob_readiness b = kReady → ¬ spec_crossed (l2_abs (l2_levels (ob_policy b))).
Proof.
  intros Hsteps Hr. eapply engine_inv_reachable in Hsteps as [_ Hg]; [|apply l2_sorted_init].
  by destruct (Hg Hr).
Qed.

Definition no_hooks : ListenerHooks := Build_ListenerHooks false false true.

Definition demo_l2_snapshot : L2Snapshot :=
  mkL2Snapshot [mkL2Update kBid 100 5 kNew; mkL2Update kAsk 101 7 kNew] 10.

Definition demo_l2_book : OrderBook L2Policy :=
  (ApplySnapshot no_hooks L2Policy_Best (L2Policy_ApplySnapshot demo_l2_snapshot)
     (new_OrderBook L2Policy_init)).1.

Lemma L2_ready_uncrossed_witness :
  ob_readiness demo_l2_book = kReady ∧
  ¬ spec_crossed (l2_abs (l2_levels (ob_policy demo_l2_book))).
Proof.
  split; [reflexivity|]. apply (L2_ready_uncrossed no_hooks); [|reflexivity].
  apply rtc_once, (step_snapshot _ _ _ _ (L2Policy_ApplySnapshot demo_l2_snapshot) _ _ (Done tt));
    [by eexists|reflexivity].
Defined.

(** ** Sequencing *)

(** Messages applied in order to one sequenced book. *)
Fixpoint run_batches (hooks : ListenerHooks) (msgs : list (list L2Update * ChangeIdMeta))
    (b : OrderBook L2Policy) : OrderBook L2Policy :=
  match msgs with
  | [] => b
  | (us, meta) :: msgs =>
      run_batches hooks msgs
        (ApplyBatch hooks L2Policy_Best (L2Policy_ApplyBatch false us meta) b).1
  end.

(** Each message names the one before it. *)
Fixpoint chained (last : Z) (metas : list ChangeIdMeta) : bool :=
  match metas with
  | [] => true
  | meta :: metas => (cim_prev_change_id meta =? last) && chained (cim_change_id meta) metas
  end.

Lemma run_batches_not_ready hooks msgs b :
  ob_readiness b ≠ kReady → run_batches hooks msgs b = b.
Proof.
  induction msgs as [|[us meta] msgs IH]; intros Hr; simpl; [done|].
  rewrite ApplyBatch_not_ready by done. by apply IH.
Qed.

Lemma L2_ApplyBatch_gap hooks us meta b :
  ob_readiness b = kReady → cim_prev_change_id meta ≠ l2_last_change_id (ob_policy b) →
  ApplyBatch hooks L2Policy_Best (L2Policy_ApplyBatch false us meta) b =
    (mkOrderBook (ob_policy b) kDesynced
       (ob_calls b ++ if IntegrityListener hooks then [OnIntegrityCheckFailed kGap] else []),
     Done tt).
Proof.
  intros Hr Hne.
  rewrite (ApplyBatch_run _ _ _ _ (ob_policy b) (mkL2ChangeSet false false [] (Some kGap))
    (L2Levels_Best (l2_levels (ob_policy b)))); [|done| |done].
  - unfold notifications, readiness_after, reported_issue. simpl.
    by destruct (LevelListener hooks), (OrderListener hooks), (IntegrityListener hooks).
  - unfold L2Policy_ApplyBatch. by rewrite bool_decide_eq_true_2.
Qed.

(** No gap goes unnoticed: a book still [Ready] after any messages has applied
    an unbroken chain of change ids. *)
Theorem L2_ready_chained hooks msgs b :
  l2_sorted (l2_levels (ob_policy b)) → ob_readiness b = kReady →
  ob_readiness (run_batches hooks msgs b) = kReady →
  chained (l2_last_change_id (ob_policy b)) msgs.*2 = true.
Proof.
  revert b. induction msgs as [|[us meta] msgs IH]; intros b Hs Hr Hend; simpl in *; [done|].
  destruct (Z.eqb_spec (cim_prev_change_id meta) (l2_last_change_id (ob_policy b))) as [Heq|Hne].
  - destruct (contract_batch_run hooks (L2Policy_ApplyBatch false us meta) b)
      as (p' & cs & best & Hp' & _ & Hm & Hrun); [by eexists _, _|done..|].
    rewrite Hrun in Hend. simpl in Hend.
    assert (l2_last_change_id p' = cim_change_id meta) as <-.
    { unfold L2Policy_ApplyBatch in Hm. rewrite bool_decide_eq_false_2 in Hm by auto.
      destruct (ApplyUpdates _ _ _) as [[]|?|?]; by simplify_eq. }
    set (b' := mkOrderBook p' _ _) in *.
    destruct (decide (ob_readiness b' = kReady)) as [Hr'|Hr']; [by apply (IH b')|].
    by rewrite run_batches_not_ready in Hend.
  - rewrite L2_ApplyBatch_gap in Hend by done. by rewrite run_batches_not_ready in Hend.
Qed.

Definition demo_l2_messages : list (list L2Update * ChangeIdMeta) :=
  [([mkL2Update kBid 99 3 kNew], mkChangeIdMeta 11 10);
   ([mkL2Update kAsk 101 0 kDelete; mkL2Update kAsk 102 4 kNew], mkChangeIdMeta 15 11)].

Lemma L2_ready_chained_witness :
  ob_readiness (run_batches no_hooks demo_l2_messages demo_l2_book) = kReady ∧
  chained 10 demo_l2_messages.*2 = true.
Proof.
  split; [by vm_compute|].
  apply (L2_ready_chained no_hooks demo_l2_messages demo_l2_book); [|by vm_compute..].
  intros []; vm_compute; repeat constructor.
Defined.

(** A gap leaves every level as it was, is reported, and the book applies
    nothing more until a snapshot. *)
Theorem L2_gap_stops_the_book hooks us meta msgs b :
  ob_readiness b = kReady → cim_prev_change_id meta ≠ l2_last_change_id (ob_policy b) →
  run_batches hooks ((us, meta) :: msgs) b =
    mkOrderBook (ob_policy b) kDesynced
      (ob_calls b ++ if IntegrityListener hooks then [OnIntegrityCheckFailed kGap] else []).
Proof.
  intros Hr Hne. simpl. rewrite L2_ApplyBatch_gap by done. simpl.
  by apply run_batches_not_ready.
Qed.

Lemma L2_gap_stops_the_book_witness :
  ob_readiness (run_batches no_hooks [([], mkChangeIdMeta 13 12)] demo_l2_book) = kDesynced.
Proof.
  rewrite (L2_gap_stops_the_book no_hooks [] (mkChangeIdMeta 13 12) [] demo_l2_book);
    [reflexivity|reflexivity|vm_compute; discriminate].
Defined.
