(* ===== verification/L3Policy.v ===== *)
(** * The L3 book: [order_book/l3_policy.h]

    Orders by id in [order_index_], and per side the order ids of every price
    level in arrival order. Member functions run on the policy and the change
    set they fill, [l3_frame]: a throw keeps what was already changed.
    [order_index_] is only ever accessed by key, so it is a [gmap]. *)

From S2P Require Import Prelude BookTypes LevelMap Engine.

Record L3Update := mkL3Update {
  l3u_event : OrderEventKind;
  l3u_order_id : OrderId;
  l3u_side : Side;
  l3u_price : Price;
  l3u_quantity : Quantity;
}.

Record L3Snapshot := mkL3Snapshot { l3s_orders : list L3Update }.

Record L3ChangeSet := mkL3ChangeSet {
  l3_bid_top_of_book_changed : bool;
  l3_ask_top_of_book_changed : bool;
  l3_level_changes : list LevelChange;
  l3_order_events : list OrderEvent;
  l3_integrity_issue : option IntegrityIssue;
}.

#[export] Instance L3ChangeSet_shape : ChangeSetShape L3ChangeSet := {
  cs_top_of_book_changed cs :=
    Some (l3_bid_top_of_book_changed cs, l3_ask_top_of_book_changed cs);
  cs_level_changes cs := Some (l3_level_changes cs);
  cs_order_events cs := Some (l3_order_events cs);
  cs_integrity_issue cs := Some (l3_integrity_issue cs);
}.

Definition L3ChangeSet_init : L3ChangeSet := mkL3ChangeSet false false [] [] None.

Definition l3_push_level (change : LevelChange) (cs : L3ChangeSet) : L3ChangeSet :=
  mkL3ChangeSet (l3_bid_top_of_book_changed cs) (l3_ask_top_of_book_changed cs)
    (l3_level_changes cs ++ [change]) (l3_order_events cs) (l3_integrity_issue cs).

Definition l3_push_event (event : OrderEvent) (cs : L3ChangeSet) : L3ChangeSet :=
  mkL3ChangeSet (l3_bid_top_of_book_changed cs) (l3_ask_top_of_book_changed cs)
    (l3_level_changes cs) (l3_order_events cs ++ [event]) (l3_integrity_issue cs).

Definition l3_report (issue : IntegrityIssue) (cs : L3ChangeSet) : L3ChangeSet :=
  mkL3ChangeSet (l3_bid_top_of_book_changed cs) (l3_ask_top_of_book_changed cs)
    (l3_level_changes cs) (l3_order_events cs) (ReportIssue (l3_integrity_issue cs) issue).

Definition l3_set_tops (bid ask : bool) (cs : L3ChangeSet) : L3ChangeSet :=
  mkL3ChangeSet bid ask (l3_level_changes cs) (l3_order_events cs) (l3_integrity_issue cs).

Record OrderRecord := mkOrderRecord {
  or_side : Side;
  or_price : Price;
  or_quantity : Quantity;
}.

#[export] Instance OrderRecord_eq_dec : EqDecision OrderRecord.
Proof. solve_decision. Defined.

Abbreviation order_levels := (list (Price * list OrderId)) (only parsing).

Record L3Policy := mkL3Policy {
  l3_max_depth : Z;
  l3_bid_levels : order_levels;
  l3_ask_levels : order_levels;
  l3_order_index : gmap OrderId OrderRecord;
}.

Definition kUnlimitedDepth : Z := u64_max.

(** The constructor. *)
Definition new_L3Policy (max_depth : Z) : L3Policy := mkL3Policy max_depth [] [] ∅.

Definition l3_side (p : L3Policy) (side : Side) : order_levels :=
  match side with kBid => l3_bid_levels p | kAsk => l3_ask_levels p end.

Definition l3_set_side (side : Side) (levels : order_levels) (p : L3Policy) : L3Policy :=
  match side with
  | kBid => mkL3Policy (l3_max_depth p) levels (l3_ask_levels p) (l3_order_index p)
  | kAsk => mkL3Policy (l3_max_depth p) (l3_bid_levels p) levels (l3_order_index p)
  end.

Definition l3_set_index (index : gmap OrderId OrderRecord) (p : L3Policy) : L3Policy :=
  mkL3Policy (l3_max_depth p) (l3_bid_levels p) (l3_ask_levels p) index.

(** ** Queries *)

(** [order_index_.at(order_id)]. *)
Definition index_at (index : gmap OrderId OrderRecord) (order_id : OrderId)
  : outcome OrderRecord :=
  match index !! order_id with
  | Some record => Done record
  | None => Throws ExnOutOfRange
  end.

Fixpoint LevelAggregate_loop (index : gmap OrderId OrderRecord) (order_ids : list OrderId)
    (total : Quantity) : outcome Quantity :=
  match order_ids with
  | [] => Done total
  | order_id :: order_ids =>
      outcome_bind (index_at index order_id) (λ record,
      outcome_bind (quantity_add total (or_quantity record)) (λ total',
      LevelAggregate_loop index order_ids total'))
  end.

Definition LevelAggregate (index : gmap OrderId OrderRecord) (order_ids : list OrderId)
  : outcome Quantity := LevelAggregate_loop index order_ids 0.

Definition L3_BestOf (index : gmap OrderId OrderRecord) (levels : order_levels)
  : outcome (option BookEntry) :=
  match lm_begin levels with
  | None => Done None
  | Some (price, order_ids) =>
      outcome_bind (LevelAggregate index order_ids) (λ quantity,
      Done (Some (mkBookEntry price quantity)))
  end.

Definition L3Policy_Best (p : L3Policy) (side : Side) : outcome (option BookEntry) :=
  match side with
  | kBid => L3_BestOf (l3_order_index p) (l3_bid_levels p)
  | kAsk => L3_BestOf (l3_order_index p) (l3_ask_levels p)
  end.

(** The inner loop of [EntriesOf]: one level's orders. *)
Fixpoint level_entries (index : gmap OrderId OrderRecord) (price : Price)
    (order_ids : list OrderId) : outcome (list BookEntry) :=
  match order_ids with
  | [] => Done []
  | order_id :: order_ids =>
      outcome_bind (index_at index order_id) (λ record,
      outcome_bind (level_entries index price order_ids) (λ entries,
      Done (mkBookEntry price (or_quantity record) :: entries)))
  end.

(** [EntriesOf] from the [level_count]-th level on. *)
Fixpoint EntriesOf (index : gmap OrderId OrderRecord) (levels : order_levels)
    (level_count max_levels : Z) : outcome (list BookEntry) :=
  match levels with
  | [] => Done []
  | (price, order_ids) :: levels =>
      if level_count =? max_levels then Done []
      else
        outcome_bind (level_entries index price order_ids) (λ entries,
        outcome_bind (EntriesOf index levels (level_count + 1) max_levels) (λ rest,
        Done (entries ++ rest)))
  end.

Definition GetBookView (p : L3Policy) (max_levels : Z) : outcome BookView :=
  outcome_bind (EntriesOf (l3_order_index p) (l3_bid_levels p) 0 max_levels) (λ bids,
  outcome_bind (EntriesOf (l3_order_index p) (l3_ask_levels p) 0 max_levels) (λ asks,
  Done (mkBookView bids asks))).

(** [Levels]: full per-level detail, best to worst. *)
Definition Levels (p : L3Policy) (side : Side) : list (Price * list OrderId) := l3_side p side.

Definition OrderQuantity (p : L3Policy) (order_id : OrderId) : option Quantity :=
  or_quantity <$> l3_order_index p !! order_id.

(** ** Changing one order *)

Record l3_frame := mkL3Frame {
  fr_policy : L3Policy;
  fr_cs : L3ChangeSet;
}.

Definition on_cs (f : L3ChangeSet → L3ChangeSet) : exec l3_frame unit := λ fr,
  (mkL3Frame (fr_policy fr) (f (fr_cs fr)), Done tt).

Definition on_book (f : L3Policy → L3Policy) : exec l3_frame unit := λ fr,
  (mkL3Frame (f (fr_policy fr)) (fr_cs fr), Done tt).

Definition get_book : exec l3_frame L3Policy := λ fr, (fr, Done (fr_policy fr)).

Definition RemoveOrderFromLevel (side : Side) (price : Price) (order_id : OrderId)
  : exec l3_frame unit :=
  let! p := get_book in
  match lm_find (level_before side) price (l3_side p side) with
  | None => exec_lift (Undef EndDereference)
  | Some order_ids =>
      let order_ids' := filter (λ id, id ≠ order_id) order_ids in
      run! on_book (λ p, l3_set_side side
             (lm_insert (level_before side) price order_ids' (l3_side p side)) p) ;;
      run! on_cs (l3_push_event (mkOrderEvent kDeleted order_id side price 0)) ;;
      if decide (order_ids' = []) then
        run! on_book (λ p, l3_set_side side
               (lm_erase (level_before side) price (l3_side p side)) p) ;;
        on_cs (l3_push_level (mkLevelChange side price None))
      else
        let! p' := get_book in
        let! quantity := exec_lift (LevelAggregate (l3_order_index p') order_ids') in
        on_cs (l3_push_level (mkLevelChange side price (Some quantity)))
  end.

Definition AddOrderToLevel (update : L3Update) : exec l3_frame unit :=
  let side := l3u_side update in
  let price := l3u_price update in
  let! p := get_book in
  let order_ids :=
    default [] (lm_find (level_before side) price (l3_side p side)) ++ [l3u_order_id update] in
  run! on_book (λ p, l3_set_side side
         (lm_insert (level_before side) price order_ids (l3_side p side)) p) ;;
  run! on_cs (l3_push_event
         (mkOrderEvent kAdded (l3u_order_id update) side price (l3u_quantity update))) ;;
  let! p' := get_book in
  let! quantity := exec_lift (LevelAggregate (l3_order_index p') order_ids) in
  on_cs (l3_push_level (mkLevelChange side price (Some quantity))).

Definition AddOrder (update : L3Update) : exec l3_frame unit :=
  let! p := get_book in
  run! match l3_order_index p !! l3u_order_id update with
       | Some existing =>
           run! on_book (λ p, l3_set_index
                  (delete (l3u_order_id update) (l3_order_index p)) p) ;;
           RemoveOrderFromLevel (or_side existing) (or_price existing) (l3u_order_id update)
       | None => exec_ret tt
       end ;;
  run! on_book (λ p, l3_set_index
         (<[l3u_order_id update :=
             mkOrderRecord (l3u_side update) (l3u_price update) (l3u_quantity update)]>
            (l3_order_index p)) p) ;;
  AddOrderToLevel update.

(** [levels.at(price)]. *)
Definition levels_at (side : Side) (price : Price) (p : L3Policy) : outcome (list OrderId) :=
  match lm_find (level_before side) price (l3_side p side) with
  | Some order_ids => Done order_ids
  | None => Throws ExnOutOfRange
  end.

Definition ModifyOrder (update : L3Update) : exec l3_frame unit :=
  let! p := get_book in
  match l3_order_index p !! l3u_order_id update with
  | None => on_cs (l3_report kUnknownOrder)
  | Some record =>
      let side := or_side record in
      let price := or_price record in
      run! on_book (λ p, l3_set_index
             (<[l3u_order_id update := mkOrderRecord side price (l3u_quantity update)]>
                (l3_order_index p)) p) ;;
      run! on_cs (l3_push_event
             (mkOrderEvent kModified (l3u_order_id update) side price (l3u_quantity update))) ;;
      let! p' := get_book in
      let! order_ids := exec_lift (levels_at side price p') in
      let! quantity := exec_lift (LevelAggregate (l3_order_index p') order_ids) in
      on_cs (l3_push_level (mkLevelChange side price (Some quantity)))
  end.

Definition DeleteOrder (update : L3Update) : exec l3_frame unit :=
  let! p := get_book in
  match l3_order_index p !! l3u_order_id update with
  | None => on_cs (l3_report kUnknownOrder)
  | Some record =>
      run! on_book (λ p, l3_set_index
             (delete (l3u_order_id update) (l3_order_index p)) p) ;;
      RemoveOrderFromLevel (or_side record) (or_price record) (l3u_order_id update)
  end.

(** ** Depth *)

(** [order_index_.erase] of every order of the dropped levels. *)
Definition erase_orders (levels : order_levels) (index : gmap OrderId OrderRecord)
  : gmap OrderId OrderRecord :=
  foldl (λ index level, foldl (λ index order_id, delete order_id index) index level.2)
    index levels.

Definition TruncateToDepth (side : Side) (p : L3Policy) : L3Policy :=
  let levels := l3_side p side in
  if Z.of_nat (length levels) <=? l3_max_depth p then p
  else
    let cutoff := Z.to_nat (l3_max_depth p) in
    l3_set_side side (take cutoff levels)
      (l3_set_index (erase_orders (drop cutoff levels) (l3_order_index p)) p).

(** ** Snapshots and batches *)

Definition L3_crossed_check : exec l3_frame unit :=
  let! p := get_book in
  let! best_bid := exec_lift (L3Policy_Best p kBid) in
  let! best_ask := exec_lift (L3Policy_Best p kAsk) in
  if IsCrossed best_bid best_ask then on_cs (l3_report kCrossedBook) else exec_ret tt.

Definition L3Policy_ApplySnapshot_body (snapshot : L3Snapshot) : exec l3_frame unit :=
  run! on_book (λ p, mkL3Policy (l3_max_depth p) [] [] ∅) ;;
  run! exec_each AddOrder (l3s_orders snapshot) ;;
  run! on_book (TruncateToDepth kBid) ;;
  run! on_book (TruncateToDepth kAsk) ;;
  run! on_cs (l3_set_tops true true) ;;
  L3_crossed_check.

Definition apply_update (update : L3Update) : exec l3_frame unit :=
  match l3u_event update with
  | kAdded => AddOrder update
  | kModified => ModifyOrder update
  | kDeleted => DeleteOrder update
  end.

Definition L3Policy_ApplyBatch_body (updates : list L3Update) : exec l3_frame unit :=
  let! p := get_book in
  let! old_best_bid := exec_lift (L3Policy_Best p kBid) in
  let! old_best_ask := exec_lift (L3Policy_Best p kAsk) in
  run! exec_each apply_update updates ;;
  run! on_book (TruncateToDepth kBid) ;;
  run! on_book (TruncateToDepth kAsk) ;;
  let! p' := get_book in
  let! new_best_bid := exec_lift (L3Policy_Best p' kBid) in
  let! new_best_ask := exec_lift (L3Policy_Best p' kAsk) in
  run! on_cs (l3_set_tops (bool_decide (old_best_bid ≠ new_best_bid))
                (bool_decide (old_best_ask ≠ new_best_ask))) ;;
  if IsCrossed new_best_bid new_best_ask then on_cs (l3_report kCrossedBook) else exec_ret tt.

(** Runs a body on a fresh change set and returns it. *)
Definition with_change_set (body : exec l3_frame unit) : exec L3Policy L3ChangeSet := λ p,
  match body (mkL3Frame p L3ChangeSet_init) with
  | (fr, Done _) => (fr_policy fr, Done (fr_cs fr))
  | (fr, Throws e) => (fr_policy fr, Throws e)
  | (fr, Undef u) => (fr_policy fr, Undef u)
  end.

Definition L3Policy_ApplySnapshot (snapshot : L3Snapshot) : exec L3Policy L3ChangeSet :=
  with_change_set (L3Policy_ApplySnapshot_body snapshot).

Definition L3Policy_ApplyBatch (updates : list L3Update) : exec L3Policy L3ChangeSet :=
  with_change_set (L3Policy_ApplyBatch_body updates).
