(* ===== verification/L3Refinement.v ===== *)
(** * The L3 book against an arrival-ordered list of orders

    Abstractly an L3 book is the list of resting orders in arrival order. An
    [Added] appends (after dropping a stale copy of the same id), a [Modified]
    rewrites one quantity in place, a [Deleted] removes. [l3_rel] says that the
    index, the per-level queues and the level order of a stored book are those
    of such a list; every operation is shown to keep the relation, hence never
    to throw, and to compute what the list says. *)

From S2P Require Import Prelude BookTypes LevelMap Engine L3Policy.

(** ** The specification *)

Abbreviation arrivals := (list (OrderId * OrderRecord)) (only parsing).

Definition l3_delete (id : OrderId) (arr : arrivals) : arrivals := filter (λ x, x.1 ≠ id) arr.

Definition l3_add (u : L3Update) (arr : arrivals) : arrivals :=
  l3_delete (l3u_order_id u) arr ++
  [(l3u_order_id u, mkOrderRecord (l3u_side u) (l3u_price u) (l3u_quantity u))].

Definition set_quantity (q : Quantity) (r : OrderRecord) : OrderRecord :=
  mkOrderRecord (or_side r) (or_price r) q.

Definition l3_modify (id : OrderId) (q : Quantity) (arr : arrivals) : arrivals :=
  (λ x, if decide (x.1 = id) then (x.1, set_quantity q x.2) else x) <$> arr.

Definition l3_apply (arr : arrivals) (u : L3Update) : arrivals :=
  match l3u_event u with
  | kAdded => l3_add u arr
  | kModified => l3_modify (l3u_order_id u) (l3u_quantity u) arr
  | kDeleted => l3_delete (l3u_order_id u) arr
  end.

(** The orders resting at one price, and their total. *)
Definition at_level (s : Side) (pr : Price) (x : OrderId * OrderRecord) : Prop :=
  or_side x.2 = s ∧ or_price x.2 = pr.
#[export] Instance at_level_dec s pr x : Decision (at_level s pr x).
Proof. unfold at_level. apply _. Defined.

Definition orders_at (s : Side) (pr : Price) (arr : arrivals) : arrivals :=
  filter (at_level s pr) arr.

Definition total (arr : arrivals) : Z := foldr (λ x acc, or_quantity x.2 + acc) 0 arr.
Definition exposure (arr : arrivals) : Z := foldr (λ x acc, Z.abs (or_quantity x.2) + acc) 0 arr.
Definition updates_exposure (us : list L3Update) : Z :=
  foldr (λ u acc, Z.abs (l3u_quantity u) + acc) 0 us.

(** The distinct prices of a side, best first. *)
Definition side_levels (s : Side) (arr : arrivals) : list (Price * unit) :=
  foldr (λ x m, if decide (or_side x.2 = s) then lm_insert (level_before s) (or_price x.2) tt m
                else m) [] arr.
Definition side_prices (s : Side) (arr : arrivals) : list Price := (side_levels s arr).*1.

(** The orders of the [depth] best prices of a side. *)
Definition l3_truncate (depth : Z) (s : Side) (arr : arrivals) : arrivals :=
  if Z.of_nat (length (side_prices s arr)) <=? depth then arr
  else filter (λ x, or_side x.2 = s →
                    or_price x.2 ∈ take (Z.to_nat depth) (side_prices s arr)) arr.

(** ** The relation *)

Definition queue (p : L3Policy) (s : Side) (pr : Price) : list OrderId :=
  default [] (lm_map (l3_side p s) !! pr).

Record l3_queues (p : L3Policy) (arr : arrivals) : Prop := {
  queues_sorted s : lm_sorted (level_before s) (l3_side p s);
  queues_nonempty s pr : lm_map (l3_side p s) !! pr ≠ Some [];
  queues_orders s pr : queue p s pr = (orders_at s pr arr).*1;
}.

Record l3_rel (p : L3Policy) (arr : arrivals) : Prop := {
  rel_queues : l3_queues p arr;
  rel_NoDup : NoDup arr.*1;
  rel_index : l3_order_index p = list_to_map arr;
}.

(** ** List facts *)

Lemma exposure_nonneg arr : 0 <= exposure arr.
Proof. induction arr; simpl; lia. Qed.

Lemma updates_exposure_nonneg us : 0 <= updates_exposure us.
Proof. induction us; simpl; lia. Qed.

Lemma exposure_app a1 a2 : exposure (a1 ++ a2) = exposure a1 + exposure a2.
Proof. induction a1; simpl; lia. Qed.

Lemma exposure_filter (P : OrderId * OrderRecord → Prop) `{∀ x, Decision (P x)} arr :
  exposure (filter P arr) <= exposure arr.
Proof.
  induction arr as [|x arr IH]; [done|]. rewrite filter_cons. case_decide; simpl; lia.
Qed.

Lemma l3_delete_lookup id arr :
  list_to_map (l3_delete id arr) = delete id (list_to_map arr : gmap OrderId OrderRecord).
Proof.
  induction arr as [|[k r] arr IH]; [simpl; by rewrite delete_empty|].
  unfold l3_delete in *. rewrite filter_cons. simpl. case_decide as Hk; simpl; rewrite IH.
  - by rewrite delete_insert_ne by done.
  - subst k. by rewrite delete_insert_eq.
Qed.

Lemma l3_modify_fst id q arr : (l3_modify id q arr).*1 = arr.*1.
Proof. unfold l3_modify. rewrite <-list_fmap_compose. apply list_fmap_ext. intros. simpl. by case_decide. Qed.

Lemma l3_modify_lookup id q r arr :
  NoDup arr.*1 → (id, r) ∈ arr →
  list_to_map (l3_modify id q arr) =
    <[id := set_quantity q r]> (list_to_map arr : gmap OrderId OrderRecord).
Proof.
  intros Hnd Hin. apply map_eq. intros k. apply option_eq. intros v.
  rewrite <-elem_of_list_to_map by (by rewrite l3_modify_fst).
  rewrite lookup_insert. unfold l3_modify. rewrite list_elem_of_fmap. case_decide as Hk.
  - subst k. split.
    + intros ([k' r'] & Heq & Hin'). simpl in Heq. case_decide; simplify_eq.
      by rewrite (NoDup_fst_unique _ _ _ _ Hnd Hin Hin').
    + intros [= <-]. exists (id, r). simpl. by case_decide.
  - rewrite <-elem_of_list_to_map by done. split.
    + intros ([k' r'] & Heq & Hin'). simpl in Heq. by case_decide; simplify_eq.
    + intros Hin'. exists (k, v). simpl. by case_decide.
Qed.

(** ** Levels and queues *)

Lemma queue_set_index p idx s pr : queue (l3_set_index idx p) s pr = queue p s pr.
Proof. by destruct s. Qed.

Lemma l3_side_set_index p idx s : l3_side (l3_set_index idx p) s = l3_side p s.
Proof. by destruct s. Qed.

Lemma l3_side_set_side p side levels s :
  l3_side (l3_set_side side levels p) s = if decide (s = side) then levels else l3_side p s.
Proof. by destruct side, s. Qed.

Lemma l3_index_set_side p side levels :
  l3_order_index (l3_set_side side levels p) = l3_order_index p.
Proof. by destruct side. Qed.

(** A level's queue, replaced or erased. *)
Lemma queue_insert p side pr ids s pr' :
  lm_sorted (level_before side) (l3_side p side) →
  queue (l3_set_side side (lm_insert (level_before side) pr ids (l3_side p side)) p) s pr' =
    if decide (s = side ∧ pr' = pr) then ids else queue p s pr'.
Proof.
  intros Hs. unfold queue. rewrite l3_side_set_side.
  destruct (decide (s = side)) as [->|Hne]; [|case_decide; naive_solver].
  rewrite (lm_insert_map (level_before side)) by done.
  rewrite lookup_insert. repeat case_decide; naive_solver.
Qed.

Lemma queue_erase p side pr s pr' :
  lm_sorted (level_before side) (l3_side p side) →
  queue (l3_set_side side (lm_erase (level_before side) pr (l3_side p side)) p) s pr' =
    if decide (s = side ∧ pr' = pr) then [] else queue p s pr'.
Proof.
  intros Hs. unfold queue. rewrite l3_side_set_side.
  destruct (decide (s = side)) as [->|Hne]; [|case_decide; naive_solver].
  rewrite (lm_erase_map (level_before side)) by done.
  rewrite lookup_delete. repeat case_decide; naive_solver.
Qed.

Lemma queues_find p arr s pr :
  l3_queues p arr →
  lm_find (level_before s) pr (l3_side p s) =
    if decide (queue p s pr = []) then None else Some (queue p s pr).
Proof.
  intros Hq. rewrite lm_find_spec by (apply _ || apply Hq).
  pose proof (queues_nonempty _ _ Hq s pr) as Hne. unfold queue.
  destruct (lm_map (l3_side p s) !! pr) as [ids|]; simpl; repeat case_decide; naive_solver.
Qed.

(** Two books with the same sides and orders. *)
Lemma queues_set_index p arr idx : l3_queues p arr → l3_queues (l3_set_index idx p) arr.
Proof.
  intros [Hs Hne Ho]. split; intros s; [| |intros pr; rewrite queue_set_index; apply Ho];
    rewrite l3_side_set_index; [apply Hs|apply Hne].
Qed.

(** Writing a non-empty queue at one level, or erasing a level. *)
Lemma queues_insert p arr arr' side pr ids :
  l3_queues p arr → ids ≠ [] → ids = (orders_at side pr arr').*1 →
  (∀ s pr', ¬ (s = side ∧ pr' = pr) → orders_at s pr' arr' = orders_at s pr' arr) →
  l3_queues (l3_set_side side (lm_insert (level_before side) pr ids (l3_side p side)) p) arr'.
Proof.
  intros [Hs Hne Ho] Hids Heq Hoth. split; intros s.
  - rewrite l3_side_set_side. case_decide; [subst s; auto with level_map|done].
  - intros pr'. rewrite l3_side_set_side. destruct (decide (s = side)) as [->|]; [|done].
    rewrite (lm_insert_map (level_before side)), lookup_insert by done.
    case_decide; [naive_solver|done].
  - intros pr'. rewrite queue_insert by done. case_decide as Hd.
    + destruct Hd as [-> ->]. done.
    + by rewrite Hoth.
Qed.

Lemma queues_erase p arr arr' side pr :
  l3_queues p arr → orders_at side pr arr' = [] →
  (∀ s pr', ¬ (s = side ∧ pr' = pr) → orders_at s pr' arr' = orders_at s pr' arr) →
  l3_queues (l3_set_side side (lm_erase (level_before side) pr (l3_side p side)) p) arr'.
Proof.
  intros [Hs Hne Ho] Heq Hoth. split; intros s.
  - rewrite l3_side_set_side. case_decide; [subst s; auto with level_map|done].
  - intros pr'. rewrite l3_side_set_side. destruct (decide (s = side)) as [->|]; [|done].
    rewrite (lm_erase_map (level_before side)), lookup_delete by done.
    case_decide; [naive_solver|done].
  - intros pr'. rewrite queue_erase by done. case_decide as Hd.
    + destruct Hd as [-> ->]. by rewrite Heq.
    + by rewrite Hoth.
Qed.

(** Deleting an order touches only its own level. *)
Lemma orders_at_delete s pr id arr :
  orders_at s pr (l3_delete id arr) = l3_delete id (orders_at s pr arr).
Proof.
  unfold orders_at, l3_delete. rewrite !list_filter_filter.
  apply list_filter_iff. naive_solver.
Qed.

Lemma orders_at_delete_other s pr id r arr :
  NoDup arr.*1 → (id, r) ∈ arr → ¬ (s = or_side r ∧ pr = or_price r) →
  orders_at s pr (l3_delete id arr) = orders_at s pr arr.
Proof.
  intros Hnd Hin Hne. rewrite orders_at_delete. apply list_filter_all. intros [id' r'] Hin' ?.
  simpl in *. subst id'. apply list_elem_of_filter in Hin' as [[Hs Hp] Hin'].
  rewrite (NoDup_fst_unique _ _ _ _ Hnd Hin Hin') in Hne. simpl in *. naive_solver.
Qed.

Lemma l3_delete_fst id arr : (l3_delete id arr).*1 = filter (λ k, k ≠ id) arr.*1.
Proof.
  induction arr as [|[k r] arr IH]; [done|]. unfold l3_delete in *.
  rewrite fmap_cons. destruct (decide (k = id)) as [->|Hk].
  - by rewrite !filter_cons_False, IH by naive_solver.
  - by rewrite !filter_cons_True, fmap_cons, IH by naive_solver.
Qed.

Lemma l3_delete_NoDup id arr : NoDup arr.*1 → NoDup (l3_delete id arr).*1.
Proof. apply NoDup_fmap_filter. Qed.

Lemma l3_delete_notin id arr : id ∉ (l3_delete id arr).*1.
Proof. rewrite l3_delete_fst. intros H%list_elem_of_filter. naive_solver. Qed.

Lemma l3_delete_id id arr : id ∉ arr.*1 → l3_delete id arr = arr.
Proof.
  intros H. apply list_filter_all. intros [k r] Hin Hk. simpl in Hk. subst k.
  apply H, elem_of_list_fmap_fst. eauto.
Qed.

(** ** Aggregates *)

Lemma exposure_total arr : - exposure arr <= total arr <= exposure arr.
Proof. induction arr; simpl; lia. Qed.

(** The sum over any run of indexed orders, while it fits. *)
Lemma LevelAggregate_loop_total idx xs acc :
  (∀ x, x ∈ xs → idx !! x.1 = Some x.2) →
  Z.abs acc + exposure xs <= i64_max →
  LevelAggregate_loop idx xs.*1 acc = Done (acc + total xs).
Proof.
  revert acc. induction xs as [|[id r] xs IH]; intros acc Hin Hb; simpl in *.
  { f_equal. lia. }
  pose proof (exposure_nonneg xs).
  unfold index_at. assert (idx !! id = Some r) as -> by (apply (Hin (id, r)); set_solver). simpl.
  unfold quantity_add, add_i64. replace (in_i64 _) with true; simpl.
  - rewrite IH; [f_equal; lia|set_solver|lia].
  - symmetry. unfold in_i64, i64_min, i64_max in *. lia.
Qed.

Lemma index_elem arr id r :
  NoDup arr.*1 → (id, r) ∈ arr ↔ (list_to_map arr : gmap OrderId OrderRecord) !! id = Some r.
Proof. intros. by apply elem_of_list_to_map. Qed.

(** [LevelAggregate] of a level is the total of its orders. *)
Lemma LevelAggregate_total arr idx s pr :
  NoDup arr.*1 → idx = list_to_map arr → exposure arr <= i64_max →
  LevelAggregate idx (orders_at s pr arr).*1 = Done (total (orders_at s pr arr)).
Proof.
  intros Hnd -> Hb. unfold LevelAggregate.
  rewrite LevelAggregate_loop_total; [f_equal; lia| |].
  - intros [id r] [_ Hin]%list_elem_of_filter. by apply index_elem.
  - pose proof (exposure_filter (at_level s pr) arr). simpl. unfold orders_at. lia.
Qed.

(** ** One order *)

(** The frame's book stands for [arr], and its change set is [cs]. *)
Definition frame_is (arr : arrivals) (cs : L3ChangeSet) (fr : l3_frame) : Prop :=
  l3_rel (fr_policy fr) arr ∧ fr_cs fr = cs.

Definition level_change (s : Side) (pr : Price) (arr : arrivals) : LevelChange :=
  mkLevelChange s pr
    (if decide (orders_at s pr arr = []) then None else Some (total (orders_at s pr arr))).

(** [TruncateToDepth] and the queries leave the depth alone, and so does every
    change. *)
Definition same_depth (fr fr' : l3_frame) : Prop :=
  l3_max_depth (fr_policy fr') = l3_max_depth (fr_policy fr).

Lemma l3_depth_set_side side levels p : l3_max_depth (l3_set_side side levels p) = l3_max_depth p.
Proof. by destruct side. Qed.

(** Removing an indexed order whose index entry is already erased. *)
Lemma RemoveOrderFromLevel_wp p arr cs id r :
  l3_queues p arr → NoDup arr.*1 → (id, r) ∈ arr → exposure arr <= i64_max →
  l3_order_index p = list_to_map (l3_delete id arr) →
  wp (RemoveOrderFromLevel (or_side r) (or_price r) id) (mkL3Frame p cs) (λ _ fr,
    frame_is (l3_delete id arr)
      (l3_push_level (level_change (or_side r) (or_price r) (l3_delete id arr))
         (l3_push_event (mkOrderEvent kDeleted id (or_side r) (or_price r) 0) cs)) fr ∧
    same_depth (mkL3Frame p cs) fr).
Proof.
  intros Hq Hnd Hin Hb Hidx. destruct r as [s pr q]. simpl.
  pose proof (queues_sorted _ _ Hq s) as Hs.
  assert (id ∈ queue p s pr) as Hid.
  { rewrite (queues_orders _ _ Hq). apply elem_of_list_fmap_fst.
    exists (mkOrderRecord s pr q). by apply list_elem_of_filter. }
  assert (filter (λ k, k ≠ id) (queue p s pr) = (orders_at s pr (l3_delete id arr)).*1) as Hrest.
  { by rewrite (queues_orders _ _ Hq), orders_at_delete, l3_delete_fst. }
  assert (∀ s' pr', ¬ (s' = s ∧ pr' = pr) →
    orders_at s' pr' (l3_delete id arr) = orders_at s' pr' arr) as Hoth.
  { intros. by eapply orders_at_delete_other. }
  assert (NoDup (l3_delete id arr).*1) by by apply l3_delete_NoDup.
  unfold RemoveOrderFromLevel, wp, exec_bind, get_book. simpl.
  rewrite (queues_find _ _ _ _ Hq). case_decide as Hnil; [by rewrite Hnil in Hid; set_solver|].
  rewrite Hrest. unfold level_change, same_depth. simpl.
  destruct (orders_at s pr (l3_delete id arr)) as [|x xs] eqn:Hat; simpl.
  - rewrite ?decide_True by done. unfold frame_is. simpl. rewrite !l3_depth_set_side.
    split; [|done]. split; [|done]. split; [|done|by rewrite !l3_index_set_side].
    rewrite l3_side_set_side, decide_True by done.
    replace (lm_erase _ _ _) with (lm_erase (level_before s) pr (l3_side p s)).
    2:{ apply (lm_map_inj (level_before s)); [auto with level_map..|].
        rewrite !(lm_erase_map (level_before s)), (lm_insert_map (level_before s))
          by auto with level_map. by rewrite delete_insert_eq. }
    replace (l3_set_side s (lm_erase _ _ _) (l3_set_side s _ p))
      with (l3_set_side s (lm_erase (level_before s) pr (l3_side p s)) p) by by destruct s.
    by apply (queues_erase p arr).
  - rewrite ?decide_False by done. unfold exec_lift. simpl. rewrite l3_index_set_side, Hidx.
    rewrite <-fmap_cons, <-Hat. pose proof (exposure_filter (λ x, x.1 ≠ id) arr).
    rewrite (LevelAggregate_total (l3_delete id arr)) by (try done; unfold l3_delete; lia).
    simpl. unfold frame_is. simpl. rewrite l3_depth_set_side, Hat.
    split; [|done]. split; [|done]. split; [|done|by rewrite l3_index_set_side].
    apply (queues_insert p arr); [done| |by rewrite Hat|done]. by rewrite fmap_cons.
Qed.

(** Appending an order whose id rests nowhere and is already indexed. *)
Lemma orders_at_snoc s pr arr x :
  orders_at s pr (arr ++ [x]) = orders_at s pr arr ++ (if decide (at_level s pr x) then [x] else []).
Proof. unfold orders_at. rewrite filter_app, filter_cons. simpl. by case_decide. Qed.

Lemma AddOrderToLevel_wp p arr cs u :
  let x := (l3u_order_id u, mkOrderRecord (l3u_side u) (l3u_price u) (l3u_quantity u)) in
  l3_queues p arr → NoDup (arr ++ [x]).*1 → exposure (arr ++ [x]) <= i64_max →
  l3_order_index p = list_to_map (arr ++ [x]) →
  wp (AddOrderToLevel u) (mkL3Frame p cs) (λ _ fr,
    frame_is (arr ++ [x])
      (l3_push_level (level_change (l3u_side u) (l3u_price u) (arr ++ [x]))
         (l3_push_event (mkOrderEvent kAdded (l3u_order_id u) (l3u_side u) (l3u_price u)
                           (l3u_quantity u)) cs)) fr ∧
    same_depth (mkL3Frame p cs) fr).
Proof.
  intros x Hq Hnd Hb Hidx. set (s := l3u_side u) in *. set (pr := l3u_price u) in *.
  assert (orders_at s pr (arr ++ [x]) = orders_at s pr arr ++ [x]) as Hat.
  { by rewrite orders_at_snoc, decide_True. }
  assert (default [] (lm_find (level_before s) pr (l3_side p s)) ++ [l3u_order_id u] =
          (orders_at s pr (arr ++ [x])).*1) as Hids.
  { rewrite Hat, fmap_app, <-(queues_orders _ _ Hq), (queues_find _ _ _ _ Hq).
    case_decide as Hnil; simpl; by rewrite ?Hnil. }
  unfold AddOrderToLevel, wp, exec_bind, get_book. simpl. fold s pr. rewrite Hids.
  unfold exec_lift. rewrite l3_index_set_side, Hidx.
  rewrite (LevelAggregate_total (arr ++ [x])) by done. simpl.
  unfold frame_is, same_depth, level_change. simpl. rewrite l3_depth_set_side.
  split; [|done]. split.
  - split; [|done|by rewrite l3_index_set_side].
    apply (queues_insert p arr); [done| |done|].
    + rewrite Hat, fmap_app. by destruct (orders_at s pr arr).*1.
    + intros s' pr' Hne. rewrite orders_at_snoc, decide_False, app_nil_r; [done|].
      intros [H1 H2]. simpl in *. naive_solver.
  - by rewrite decide_False by (rewrite Hat; by destruct (orders_at s pr arr)).
Qed.

(** What one update announces. *)
Definition find_order (id : OrderId) (arr : arrivals) : option OrderRecord :=
  (list_to_map arr : gmap OrderId OrderRecord) !! id.

Definition announce_delete (id : OrderId) (r : OrderRecord) (arr : arrivals)
    (cs : L3ChangeSet) : L3ChangeSet :=
  l3_push_level (level_change (or_side r) (or_price r) (l3_delete id arr))
    (l3_push_event (mkOrderEvent kDeleted id (or_side r) (or_price r) 0) cs).

Definition announce (u : L3Update) (arr : arrivals) (cs : L3ChangeSet) : L3ChangeSet :=
  let id := l3u_order_id u in
  match l3u_event u, find_order id arr with
  | kAdded, found =>
      l3_push_level (level_change (l3u_side u) (l3u_price u) (l3_add u arr))
        (l3_push_event (mkOrderEvent kAdded id (l3u_side u) (l3u_price u) (l3u_quantity u))
           (match found with Some r => announce_delete id r arr cs | None => cs end))
  | kModified, Some r =>
      l3_push_level (level_change (or_side r) (or_price r) (l3_modify id (l3u_quantity u) arr))
        (l3_push_event (mkOrderEvent kModified id (or_side r) (or_price r) (l3u_quantity u)) cs)
  | kDeleted, Some r => announce_delete id r arr cs
  | _, None => l3_report kUnknownOrder cs
  end.

Lemma find_order_Some id r arr : NoDup arr.*1 → find_order id arr = Some r ↔ (id, r) ∈ arr.
Proof. intros. symmetry. by apply index_elem. Qed.

Lemma find_order_None id arr : find_order id arr = None ↔ id ∉ arr.*1.
Proof.
  unfold find_order. split; [apply not_elem_of_list_to_map_2|apply not_elem_of_list_to_map_1].
Qed.

Lemma find_order_index p arr id : l3_rel p arr → l3_order_index p !! id = find_order id arr.
Proof. intros H. by rewrite (rel_index _ _ H). Qed.

Lemma exposure_delete id arr : exposure (l3_delete id arr) <= exposure arr.
Proof. apply exposure_filter. Qed.

Lemma DeleteOrder_wp p arr cs u :
  l3_rel p arr → exposure arr <= i64_max →
  wp (DeleteOrder u) (mkL3Frame p cs) (λ _ fr,
    frame_is (l3_delete (l3u_order_id u) arr)
      (match find_order (l3u_order_id u) arr with
       | Some r => announce_delete (l3u_order_id u) r arr cs
       | None => l3_report kUnknownOrder cs
       end) fr ∧ same_depth (mkL3Frame p cs) fr).
Proof.
  intros Hrel Hb. unfold DeleteOrder. apply wp_bind. unfold wp at 1. simpl.
  rewrite (find_order_index _ _ _ Hrel).
  destruct (find_order (l3u_order_id u) arr) as [r|] eqn:Hf.
  - apply find_order_Some in Hf; [|apply Hrel]. apply wp_bind. unfold wp at 1. simpl.
    eapply wp_mono; [apply (RemoveOrderFromLevel_wp _ arr)|]; try apply Hrel; try done.
    + apply queues_set_index, Hrel.
    + simpl. by rewrite (rel_index _ _ Hrel), l3_delete_lookup.
  - apply find_order_None in Hf. unfold wp, frame_is. simpl. by rewrite l3_delete_id.
Qed.

(** The stale copy an [Added] drops first. *)
Lemma drop_stale_wp p arr cs id :
  l3_rel p arr → exposure arr <= i64_max →
  wp (match l3_order_index p !! id with
      | Some existing =>
          run! on_book (λ p, l3_set_index (delete id (l3_order_index p)) p) ;;
          RemoveOrderFromLevel (or_side existing) (or_price existing) id
      | None => exec_ret tt
      end) (mkL3Frame p cs) (λ _ fr,
    frame_is (l3_delete id arr)
      (match find_order id arr with Some r => announce_delete id r arr cs | None => cs end) fr ∧
    same_depth (mkL3Frame p cs) fr).
Proof.
  intros Hrel Hb. rewrite (find_order_index _ _ _ Hrel).
  destruct (find_order id arr) as [r|] eqn:Hf.
  - apply find_order_Some in Hf; [|apply Hrel]. apply wp_bind. unfold wp at 1. simpl.
    eapply wp_mono; [apply (RemoveOrderFromLevel_wp _ arr)|]; try apply Hrel; try done.
    + apply queues_set_index, Hrel.
    + simpl. by rewrite (rel_index _ _ Hrel), l3_delete_lookup.
  - apply find_order_None in Hf. unfold wp, frame_is. simpl. by rewrite l3_delete_id.
Qed.

Lemma l3_add_NoDup u arr : NoDup arr.*1 → NoDup (l3_add u arr).*1.
Proof.
  intros H. unfold l3_add. rewrite fmap_app. apply NoDup_app. split_and!.
  - by apply l3_delete_NoDup.
  - intros id Hin. simpl. intros ->%list_elem_of_singleton. by apply l3_delete_notin in Hin.
  - apply NoDup_singleton.
Qed.

Lemma l3_add_exposure u arr : exposure (l3_add u arr) <= exposure arr + Z.abs (l3u_quantity u).
Proof.
  unfold l3_add. rewrite exposure_app. simpl. pose proof (exposure_delete (l3u_order_id u) arr). lia.
Qed.

Lemma AddOrder_wp p arr cs u :
  l3_rel p arr → exposure arr + Z.abs (l3u_quantity u) <= i64_max →
  wp (AddOrder u) (mkL3Frame p cs) (λ _ fr,
    frame_is (l3_add u arr)
      (l3_push_level (level_change (l3u_side u) (l3u_price u) (l3_add u arr))
        (l3_push_event
           (mkOrderEvent kAdded (l3u_order_id u) (l3u_side u) (l3u_price u) (l3u_quantity u))
           (match find_order (l3u_order_id u) arr with
            | Some r => announce_delete (l3u_order_id u) r arr cs
            | None => cs end))) fr ∧ same_depth (mkL3Frame p cs) fr).
Proof.
  intros Hrel Hb. pose proof (l3_add_exposure u arr).
  unfold AddOrder. apply wp_bind. unfold wp at 1. simpl. apply wp_bind.
  eapply wp_mono; [apply (drop_stale_wp _ arr cs); [done|lia]|].
  intros _ [p1 cs1] [[Hrel1 Hcs1] Hd1]. simpl in Hcs1, Hrel1. subst cs1. apply wp_bind.
  unfold wp at 1. simpl. unfold l3_add in *.
  eapply wp_mono; [apply (AddOrderToLevel_wp _ (l3_delete (l3u_order_id u) arr))|].
  - apply queues_set_index, Hrel1.
  - apply (l3_add_NoDup u), Hrel.
  - lia.
  - simpl. rewrite list_to_map_snoc by apply l3_delete_notin. by rewrite (rel_index _ _ Hrel1).
  - intros _ fr [Hfr Hd2]. split; [done|]. unfold same_depth in *. simpl in *. congruence.
Qed.

(** A modification moves no order. *)
Lemma orders_at_modify s pr id q arr :
  orders_at s pr (l3_modify id q arr) = l3_modify id q (orders_at s pr arr).
Proof.
  induction arr as [|[k r] arr IH]; [done|]. unfold orders_at, l3_modify in *.
  rewrite fmap_cons, !filter_cons.
  assert (at_level s pr (if decide ((k, r).1 = id)
                         then ((k, r).1, set_quantity q (k, r).2) else (k, r))
          ↔ at_level s pr (k, r)) as Hat by (simpl; by case_decide).
  destruct (decide (at_level s pr (k, r))) as [Hd|Hd].
  - rewrite decide_True by tauto. by rewrite fmap_cons, IH.
  - rewrite decide_False by tauto. by rewrite IH.
Qed.

Lemma l3_modify_exposure id q arr :
  NoDup arr.*1 → exposure (l3_modify id q arr) <= exposure arr + Z.abs q.
Proof.
  induction arr as [|[k r] arr IH]; [simpl; lia|]. rewrite fmap_cons, NoDup_cons. simpl.
  intros [Hk Hnd]. case_decide as Heq; simpl.
  - subst k. replace (l3_modify id q arr) with arr; [lia|]. symmetry. unfold l3_modify.
    rewrite <-(list_fmap_id arr) at 2. apply list_fmap_ext. intros i [k r'] Hi%list_elem_of_lookup_2.
    simpl. case_decide; [|done]. subst. destruct Hk. apply elem_of_list_fmap_fst. eauto.
  - fold (l3_modify id q arr). specialize (IH Hnd). lia.
Qed.

Lemma queues_modify p arr id q : l3_queues p arr → l3_queues p (l3_modify id q arr).
Proof.
  intros [Hs Hne Ho]. split; [done..|]. intros s pr.
  by rewrite orders_at_modify, l3_modify_fst.
Qed.

Lemma l3_modify_id id q arr : id ∉ arr.*1 → l3_modify id q arr = arr.
Proof.
  intros Hid. unfold l3_modify. rewrite <-(list_fmap_id arr) at 2. apply list_fmap_ext.
  intros i [k r] Hi%list_elem_of_lookup_2. simpl. case_decide; [|done]. subst.
  destruct Hid. apply elem_of_list_fmap_fst. eauto.
Qed.

Lemma ModifyOrder_wp p arr cs u :
  l3_rel p arr → exposure arr + Z.abs (l3u_quantity u) <= i64_max →
  wp (ModifyOrder u) (mkL3Frame p cs) (λ _ fr,
    frame_is (l3_modify (l3u_order_id u) (l3u_quantity u) arr)
      (match find_order (l3u_order_id u) arr with
       | Some r =>
           l3_push_level (level_change (or_side r) (or_price r)
                            (l3_modify (l3u_order_id u) (l3u_quantity u) arr))
             (l3_push_event (mkOrderEvent kModified (l3u_order_id u) (or_side r) (or_price r)
                               (l3u_quantity u)) cs)
       | None => l3_report kUnknownOrder cs
       end) fr ∧ same_depth (mkL3Frame p cs) fr).
Proof.
  intros Hrel Hb. destruct u as [ev id us up q]. simpl in *. unfold ModifyOrder. simpl.
  pose proof (rel_NoDup _ _ Hrel) as Hnd. pose proof (l3_modify_exposure id q arr Hnd).
  unfold wp, exec_bind, get_book. simpl. rewrite (find_order_index _ _ _ Hrel).
  destruct (find_order id arr) as [r|] eqn:Hf.
  2:{ apply find_order_None in Hf. unfold frame_is. simpl. by rewrite l3_modify_id. }
  apply find_order_Some in Hf; [|done]. pose proof (queues_modify _ _ id q (rel_queues _ _ Hrel)) as Hq.
  assert (orders_at (or_side r) (or_price r) (l3_modify id q arr) ≠ []) as Hne.
  { rewrite orders_at_modify. intros Hnil%fmap_nil_inv.
    assert ((id, r) ∈ orders_at (or_side r) (or_price r) arr) as Hin by by apply list_elem_of_filter.
    rewrite Hnil in Hin. set_solver. }
  unfold levels_at, exec_lift. simpl. rewrite l3_side_set_index, (queues_find _ _ _ _ Hq), (queues_orders _ _ Hq).
  rewrite decide_False by (by intros ?%fmap_nil_inv). simpl.
  rewrite (LevelAggregate_total (l3_modify id q arr)).
  - unfold frame_is, level_change. simpl. rewrite decide_False by done.
    split; [|done]. split; [|done]. split.
    + by apply queues_set_index.
    + by rewrite l3_modify_fst.
    + simpl. by rewrite (l3_modify_lookup _ _ r), (rel_index _ _ Hrel).
  - by rewrite l3_modify_fst.
  - simpl. by rewrite (l3_modify_lookup _ _ r), (rel_index _ _ Hrel).
  - lia.
Qed.

(** ** A run of updates *)

Lemma l3_apply_exposure u arr :
  NoDup arr.*1 → exposure (l3_apply arr u) <= exposure arr + Z.abs (l3u_quantity u).
Proof.
  intros Hnd. unfold l3_apply. destruct (l3u_event u).
  - apply l3_add_exposure.
  - by apply l3_modify_exposure.
  - pose proof (exposure_delete (l3u_order_id u) arr). lia.
Qed.

Lemma apply_update_wp p arr cs u :
  l3_rel p arr → exposure arr + Z.abs (l3u_quantity u) <= i64_max →
  wp (apply_update u) (mkL3Frame p cs) (λ _ fr,
    frame_is (l3_apply arr u) (announce u arr cs) fr ∧ same_depth (mkL3Frame p cs) fr).
Proof.
  intros Hrel Hb. unfold apply_update, l3_apply, announce. destruct (l3u_event u).
  - eapply wp_mono; [by apply (AddOrder_wp _ arr)|]. intros ? fr. by destruct (find_order _ _).
  - by apply ModifyOrder_wp.
  - apply DeleteOrder_wp; [done|lia].
Qed.

(** The list and the change set after a run of updates. *)
Definition l3_applies (arr : arrivals) (us : list L3Update) : arrivals := foldl l3_apply arr us.

Fixpoint announces (us : list L3Update) (arr : arrivals) (cs : L3ChangeSet) : L3ChangeSet :=
  match us with
  | [] => cs
  | u :: us => announces us (l3_apply arr u) (announce u arr cs)
  end.

Lemma apply_updates_wp us p arr cs :
  l3_rel p arr → exposure arr + updates_exposure us <= i64_max →
  wp (exec_each apply_update us) (mkL3Frame p cs) (λ _ fr,
    frame_is (l3_applies arr us) (announces us arr cs) fr ∧
    exposure (l3_applies arr us) <= i64_max ∧ same_depth (mkL3Frame p cs) fr).
Proof.
  revert p arr cs. induction us as [|u us IH]; intros p arr cs Hrel Hb; simpl in *.
  { apply wp_ret. split_and!; [done|lia|done]. }
  pose proof (updates_exposure_nonneg us).
  apply wp_bind. eapply wp_mono; [apply (apply_update_wp _ arr); [done|lia]|].
  intros _ [p1 cs1] [[Hrel1 Hcs1] Hd1]. simpl in Hcs1, Hrel1. subst cs1.
  pose proof (l3_apply_exposure u arr (rel_NoDup _ _ Hrel)).
  eapply wp_mono; [apply IH; [done|lia]|]. intros _ fr (Hfr & Hex & Hd2).
  split_and!; [done..|]. unfold same_depth in *. simpl in *. congruence.
Qed.

(** ** Depth *)

Lemma side_levels_sorted s arr : lm_sorted (level_before s) (side_levels s arr).
Proof.
  induction arr as [|x arr IH]; simpl; [auto with level_map|].
  case_decide; [|done]. auto with level_map.
Qed.

Lemma side_levels_lookup s arr pr :
  lm_map (side_levels s arr) !! pr = if decide (orders_at s pr arr = []) then None else Some tt.
Proof.
  induction arr as [|x arr IH]; [done|]. simpl. unfold orders_at in *. rewrite filter_cons.
  destruct (decide (or_side x.2 = s)) as [Hs|Hs].
  - rewrite (lm_insert_map (level_before s)), lookup_insert by apply side_levels_sorted.
    destruct (decide (or_price x.2 = pr)) as [Hp|Hp].
    + by rewrite (decide_True (P:=at_level _ _ _)).
    + rewrite (decide_False (P:=at_level _ _ _)); [done|]. by intros [_ ?].
  - rewrite (decide_False (P:=at_level _ _ _)); [done|]. by intros [? _].
Qed.

Lemma lm_sorted_fmap {V W} (f : V → W) before (m : list (Z * V)) :
  lm_sorted before m → lm_sorted before (prod_map id f <$> m).
Proof.
  induction m as [|x m IH]; simpl; [constructor|]. intros [Hs Hlt]%lm_sorted_cons.
  apply lm_sorted_cons. split; [by apply IH|]. intros y (z & -> & Hz)%list_elem_of_fmap. by apply Hlt.
Qed.

(** The level keys of a stored side are the distinct prices of its orders. *)
Lemma rel_side_prices p arr s : l3_queues p arr → (l3_side p s).*1 = side_prices s arr.
Proof.
  intros Hq. unfold side_prices.
  replace (side_levels s arr) with (prod_map id (λ _, tt) <$> l3_side p s).
  { rewrite <-list_fmap_compose. by apply list_fmap_ext. }
  apply (lm_map_inj (level_before s)).
  - apply lm_sorted_fmap, Hq.
  - apply side_levels_sorted.
  - apply map_eq. intros pr. rewrite side_levels_lookup. unfold lm_map.
    rewrite list_to_map_fmap, lookup_fmap. fold (lm_map (l3_side p s)).
    pose proof (queues_nonempty _ _ Hq s pr) as Hne. pose proof (queues_orders _ _ Hq s pr) as Ho.
    unfold queue in Ho. destruct (lm_map (l3_side p s) !! pr) as [ids|]; simpl in *.
    + rewrite decide_False; [done|]. intros Hnil. rewrite Hnil in Ho. naive_solver.
    + rewrite decide_True; [done|]. by eapply fmap_nil_inv.
Qed.

Lemma lm_take_map {V} before `{!StrictTotalOrder before} n (m : list (Z * V)) k :
  lm_sorted before m →
  lm_map (take n m) !! k = if decide (k ∈ take n m.*1) then lm_map m !! k else None.
Proof.
  intros Hs. apply option_eq. intros v. rewrite <-(lm_elem_of before) by auto with level_map.
  case_decide as Hk.
  - rewrite <-(lm_elem_of before) by done. rewrite <-fmap_take in Hk.
    apply elem_of_list_fmap_fst in Hk as [v' Hv']. split; intros Hin.
    + by eapply elem_of_sublist, sublist_take.
    + assert ((k, v') ∈ m) as Hin' by (by eapply elem_of_sublist, sublist_take).
      by rewrite (NoDup_fst_unique _ _ _ _ (lm_sorted_NoDup _ _ Hs) Hin Hin').
  - split; [|done]. intros Hin. destruct Hk. rewrite <-fmap_take. apply elem_of_list_fmap_fst. eauto.
Qed.

Lemma erase_orders_lookup levels idx id :
  erase_orders levels idx !! id =
    if decide (id ∈ concat levels.*2) then None else idx !! id.
Proof.
  unfold erase_orders. revert idx. induction levels as [|[pr ids] levels IH]; intros idx; [done|].
  simpl. rewrite IH.
  assert (∀ (l : list OrderId) (idx : gmap OrderId OrderRecord),
    foldl (λ index order_id, delete order_id index) idx l !! id =
      if decide (id ∈ l) then None else idx !! id) as Hl.
  { clear. induction l as [|k l IH]; intros idx; simpl; [done|]. rewrite IH, lookup_delete.
    pose proof (elem_of_cons l id k). repeat case_decide; naive_solver. }
  rewrite Hl. pose proof (elem_of_app ids (concat levels.*2) id). repeat case_decide; naive_solver.
Qed.

Lemma orders_at_kept s (top : list Price) (arr : arrivals) s' pr :
  orders_at s' pr (filter (λ x, or_side x.2 = s → or_price x.2 ∈ top) arr) =
    if decide (s' = s → pr ∈ top) then orders_at s' pr arr else [].
Proof.
  unfold orders_at. rewrite list_filter_filter. case_decide as Hd.
  - apply list_filter_ext_in. intros x _. split; [naive_solver|]. intros [Hx1 Hx2].
    split; [done|]. naive_solver.
  - induction arr as [|x arr IH]; [done|]. rewrite filter_cons, decide_False; [done|].
    intros [[Hx1 Hx2] Hx]. naive_solver.
Qed.

(** The orders of the dropped levels are those beyond the depth. *)
Lemma dropped_orders p arr s n id r :
  l3_rel p arr → (id, r) ∈ arr →
  id ∈ concat (drop n (l3_side p s)).*2 ↔
    or_side r = s ∧ or_price r ∉ take n (side_prices s arr).
Proof.
  intros Hrel Hin. pose proof (rel_queues _ _ Hrel) as Hq. pose proof (queues_sorted _ _ Hq s) as Hs.
  assert (∀ pr ids, (pr, ids) ∈ l3_side p s → ids = (orders_at s pr arr).*1) as Hids.
  { intros pr ids H%(lm_elem_of (level_before s)); [|done].
    rewrite <-(queues_orders _ _ Hq). unfold queue. by rewrite H. }
  pose proof (lm_sorted_NoDup _ _ Hs) as Hnd.
  rewrite <-(rel_side_prices _ _ s Hq), <-fmap_take. split.
  - intros (ids & Hids1 & Hids2)%list_elem_of_In%in_concat. apply list_elem_of_In in Hids1, Hids2.
    apply list_elem_of_fmap in Hids1 as ([pr ids'] & -> & Hd). simpl in Hids2.
    rewrite (Hids pr ids') in Hids2 by (by eapply elem_of_sublist, sublist_drop).
    apply elem_of_list_fmap_fst in Hids2 as (r' & [[Hs' Hp'] Hin']%list_elem_of_filter).
    rewrite (NoDup_fst_unique _ _ _ _ (rel_NoDup _ _ Hrel) Hin Hin'). split; [done|].
    simpl in *. rewrite Hp'. intros Ht. rewrite <-(take_drop n (l3_side p s)), fmap_app in Hnd.
    apply NoDup_app in Hnd as (_ & Hdis & _). eapply Hdis; [done|].
    apply elem_of_list_fmap_fst. by exists ids'.
  - intros [Hside Hprice].
    assert (or_price r ∈ (l3_side p s).*1) as Hkey.
    { rewrite (rel_side_prices _ _ s Hq). unfold side_prices. apply elem_of_list_fmap_fst.
      exists tt. apply (lm_elem_of (level_before s)); [apply side_levels_sorted|].
      rewrite side_levels_lookup, decide_False; [done|]. intros Hnil.
      assert ((id, r) ∈ orders_at s (or_price r) arr) as H by by apply list_elem_of_filter.
      rewrite Hnil in H. set_solver. }
    rewrite <-(take_drop n (l3_side p s)), fmap_app, elem_of_app in Hkey.
    destruct Hkey as [Hkey|[ids Hids']%elem_of_list_fmap_fst]; [done|].
    apply list_elem_of_In, in_concat. exists ids. rewrite <-!list_elem_of_In. split.
    + apply list_elem_of_fmap. by exists (or_price r, ids).
    + rewrite (Hids (or_price r) ids) by (by eapply elem_of_sublist, sublist_drop).
      apply elem_of_list_fmap_fst. exists r. by apply list_elem_of_filter.
Qed.

Lemma l3_truncate_sublist d s arr : l3_truncate d s arr `sublist_of` arr.
Proof. unfold l3_truncate. destruct (_ <=? _); [done|]. apply sublist_filter. Qed.

Lemma queues_truncate p arr s n idx :
  l3_queues p arr →
  l3_queues (l3_set_side s (take n (l3_side p s)) (l3_set_index idx p))
    (filter (λ x, or_side x.2 = s → or_price x.2 ∈ take n (side_prices s arr)) arr).
Proof.
  intros Hq. pose proof (queues_sorted _ _ Hq s) as Hs. split; intros s'.
  - rewrite l3_side_set_side, l3_side_set_index.
    case_decide; [subst s'; auto with level_map|apply Hq].
  - intros pr. rewrite l3_side_set_side, l3_side_set_index. destruct (decide (s' = s)) as [->|].
    + rewrite (lm_take_map (level_before s)) by done. case_decide; [apply Hq|done].
    + apply Hq.
  - intros pr. rewrite orders_at_kept. unfold queue. rewrite l3_side_set_side, l3_side_set_index.
    rewrite <-(rel_side_prices _ _ s Hq). destruct (decide (s' = s)) as [->|Hne].
    + rewrite (lm_take_map (level_before s)) by done. pose proof (queues_orders _ _ Hq s pr).
      repeat case_decide; naive_solver.
    + rewrite decide_True by done. apply (queues_orders _ _ Hq).
Qed.

(** [TruncateToDepth] keeps exactly the orders of the best levels, in the
    queues and in the index alike. *)
Lemma TruncateToDepth_rel p arr s :
  l3_rel p arr → l3_rel (TruncateToDepth s p) (l3_truncate (l3_max_depth p) s arr).
Proof.
  intros Hrel. pose proof (rel_queues _ _ Hrel) as Hq. pose proof (rel_NoDup _ _ Hrel) as Hnd.
  unfold TruncateToDepth, l3_truncate.
  rewrite <-(length_fmap fst), (rel_side_prices _ _ s Hq). destruct (_ <=? _); [done|].
  set (n := Z.to_nat _). split.
  - by apply queues_truncate.
  - by apply NoDup_fmap_filter.
  - rewrite l3_index_set_side. simpl. apply map_eq. intros id. apply option_eq. intros r.
    rewrite erase_orders_lookup, (rel_index _ _ Hrel).
    rewrite <-index_elem by by apply NoDup_fmap_filter.
    rewrite list_elem_of_filter. simpl. case_decide as Hd.
    + split; [done|]. intros [Hk Hin]. apply (dropped_orders _ arr _ _ _ r) in Hd; naive_solver.
    + rewrite <-index_elem by done. split; [|naive_solver]. intros Hin. split; [|done].
      intros Hside. destruct (decide (or_price r ∈ take n (side_prices s arr))); [done|].
      destruct Hd. by eapply dropped_orders.
Qed.

(** ** Best *)

(** The best price of a side with the total resting there. *)
Definition l3_best (s : Side) (arr : arrivals) : option BookEntry :=
  match side_prices s arr with
  | [] => None
  | pr :: _ => Some (mkBookEntry pr (total (orders_at s pr arr)))
  end.

Lemma L3Policy_Best_spec p arr s :
  l3_rel p arr → exposure arr <= i64_max → L3Policy_Best p s = Done (l3_best s arr).
Proof.
  intros Hrel Hb. pose proof (rel_queues _ _ Hrel) as Hq.
  replace (L3Policy_Best p s) with (L3_BestOf (l3_order_index p) (l3_side p s)) by by destruct s.
  unfold L3_BestOf, l3_best. rewrite <-(rel_side_prices _ _ s Hq).
  pose proof (queues_sorted _ _ Hq s) as Hs. destruct (l3_side p s) as [|[pr ids] m] eqn:Hm; [done|].
  simpl. replace ids with (orders_at s pr arr).*1.
  { by rewrite (LevelAggregate_total arr) by (done || apply Hrel). }
  rewrite <-(queues_orders _ _ Hq). unfold queue. rewrite Hm.
  unfold lm_map. simpl. by rewrite lookup_insert_eq.
Qed.

(** Every order of a side is priced at its best or behind it. *)
Lemma l3_best_extreme s arr id r :
  (id, r) ∈ arr → or_side r = s →
  ∃ e, l3_best s arr = Some e ∧
    (or_price r = be_price e ∨ level_before s (be_price e) (or_price r) = true).
Proof.
  intros Hin Hs. unfold l3_best, side_prices.
  assert (lm_map (side_levels s arr) !! or_price r = Some tt) as Hlk.
  { rewrite side_levels_lookup, decide_False; [done|]. intros Hnil.
    assert ((id, r) ∈ orders_at s (or_price r) arr) as H by by apply list_elem_of_filter.
    rewrite Hnil in H. set_solver. }
  pose proof (side_levels_sorted s arr) as Hsort.
  destruct (side_levels s arr) as [|[pr []] m]; [done|]. simpl.
  eexists. split; [done|]. simpl. by eapply (lm_begin_first (level_before s)).
Qed.

Definition orders_uncrossed (p : L3Policy) : Prop :=
  ∀ id1 r1 id2 r2,
    l3_order_index p !! id1 = Some r1 → l3_order_index p !! id2 = Some r2 →
    or_side r1 = kBid → or_side r2 = kAsk → or_price r1 < or_price r2.

Lemma l3_best_uncrossed p arr :
  l3_rel p arr → IsCrossed (l3_best kBid arr) (l3_best kAsk arr) = false → orders_uncrossed p.
Proof.
  intros Hrel Hx id1 r1 id2 r2 H1 H2 Hb Ha.
  rewrite (rel_index _ _ Hrel) in H1, H2. apply index_elem in H1, H2; [|apply Hrel..].
  destruct (l3_best_extreme _ _ _ _ H1 Hb) as (b & Heq1 & Hle1).
  destruct (l3_best_extreme _ _ _ _ H2 Ha) as (a & Heq2 & Hle2).
  rewrite Heq1, Heq2 in Hx. unfold IsCrossed in Hx. simpl in *. lia.
Qed.

(** ** Snapshots and batches *)

Definition l3_truncates (d : Z) (arr : arrivals) : arrivals :=
  l3_truncate d kAsk (l3_truncate d kBid arr).

Definition truncated (p : L3Policy) : L3Policy := TruncateToDepth kAsk (TruncateToDepth kBid p).

Lemma TruncateToDepth_depth s p : l3_max_depth (TruncateToDepth s p) = l3_max_depth p.
Proof. unfold TruncateToDepth. destruct (_ <=? _); [done|]. by rewrite l3_depth_set_side. Qed.

Lemma truncated_rel p arr :
  l3_rel p arr → l3_rel (truncated p) (l3_truncates (l3_max_depth p) arr).
Proof.
  intros Hrel. unfold l3_truncates. rewrite <-(TruncateToDepth_depth kBid p) at 1.
  by apply TruncateToDepth_rel, TruncateToDepth_rel.
Qed.

Lemma TruncateToDepth_length p s s' :
  0 <= l3_max_depth p →
  Z.of_nat (length (l3_side (TruncateToDepth s p) s)) <= l3_max_depth p ∧
  (s' ≠ s → l3_side (TruncateToDepth s p) s' = l3_side p s').
Proof.
  intros Hd. unfold TruncateToDepth. destruct (Z.leb_spec (Z.of_nat (length (l3_side p s))) (l3_max_depth p)).
  - done.
  - rewrite !l3_side_set_side, l3_side_set_index, decide_True by done. split.
    + rewrite length_take. lia.
    + intros Hne. by rewrite decide_False.
Qed.

Lemma truncated_length p s :
  0 <= l3_max_depth p → Z.of_nat (length (l3_side (truncated p) s)) <= l3_max_depth p.
Proof.
  intros Hd. unfold truncated.
  destruct (TruncateToDepth_length p kBid kAsk Hd) as [Hbid _].
  rewrite <-(TruncateToDepth_depth kBid p) in Hd.
  destruct (TruncateToDepth_length _ kAsk kBid Hd) as [Hask Hother].
  rewrite TruncateToDepth_depth in Hask. destruct s; [|done]. by rewrite Hother.
Qed.

Lemma exposure_sublist l1 l2 : l1 `sublist_of` l2 → exposure l1 <= exposure l2.
Proof. induction 1; simpl; lia. Qed.

Lemma l3_truncates_exposure d arr : exposure (l3_truncates d arr) <= exposure arr.
Proof. apply exposure_sublist. etrans; apply l3_truncate_sublist. Qed.

(** What a message leaves behind: the orders within the depth, the tops that
    moved, and a crossed book reported. *)
Definition l3_finish (old new : arrivals) (tops : option (bool * bool)) (cs : L3ChangeSet)
  : L3ChangeSet :=
  let cs := match tops with
            | Some (bid, ask) => l3_set_tops bid ask cs
            | None => l3_set_tops (bool_decide (l3_best kBid old ≠ l3_best kBid new))
                                  (bool_decide (l3_best kAsk old ≠ l3_best kAsk new)) cs
            end in
  if IsCrossed (l3_best kBid new) (l3_best kAsk new) then l3_report kCrossedBook cs else cs.

Lemma with_change_set_wp (body : exec l3_frame unit) p Q :
  wp body (mkL3Frame p L3ChangeSet_init) (λ _ fr, Q (fr_cs fr) (fr_policy fr)) →
  wp (with_change_set body) p Q.
Proof. unfold wp, with_change_set. by destruct (body _) as [fr []]. Qed.

Lemma wp_get_book {A} p cs (k : L3Policy → exec l3_frame A) Q :
  wp (k p) (mkL3Frame p cs) Q → wp (let! p := get_book in k p) (mkL3Frame p cs) Q.
Proof. done. Qed.

Lemma wp_on_book {A} f p cs (k : exec l3_frame A) Q :
  wp k (mkL3Frame (f p) cs) Q → wp (run! on_book f ;; k) (mkL3Frame p cs) Q.
Proof. done. Qed.

Lemma wp_on_cs {A} f p cs (k : exec l3_frame A) Q :
  wp k (mkL3Frame p (f cs)) Q → wp (run! on_cs f ;; k) (mkL3Frame p cs) Q.
Proof. done. Qed.

Lemma wp_Best {A} p arr s cs (k : option BookEntry → exec l3_frame A) Q :
  l3_rel p arr → exposure arr <= i64_max →
  wp (k (l3_best s arr)) (mkL3Frame p cs) Q →
  wp (let! best := exec_lift (L3Policy_Best p s) in k best) (mkL3Frame p cs) Q.
Proof.
  intros Hrel Hb Hk. apply wp_bind. eapply wp_lift; [by apply (L3Policy_Best_spec _ arr)|done].
Qed.

#[local] Arguments L3Policy_Best : simpl never.

Lemma L3Policy_ApplyBatch_wp us p arr :
  l3_rel p arr → exposure arr + updates_exposure us <= i64_max → 0 <= l3_max_depth p →
  let new := l3_truncates (l3_max_depth p) (l3_applies arr us) in
  wp (L3Policy_ApplyBatch us) p (λ cs p',
    l3_rel p' new ∧ l3_max_depth p' = l3_max_depth p ∧
    (∀ s, Z.of_nat (length (l3_side p' s)) <= l3_max_depth p) ∧ exposure new <= i64_max ∧
    cs = l3_finish arr new None (announces us arr L3ChangeSet_init)).
Proof.
  intros Hrel Hb Hd new. apply with_change_set_wp. unfold L3Policy_ApplyBatch_body.
  pose proof (updates_exposure_nonneg us).
  apply wp_get_book.
  apply (wp_Best _ arr); [done|lia|]. apply (wp_Best _ arr); [done|lia|].
  apply wp_bind. eapply wp_mono; [by apply (apply_updates_wp us _ arr)|].
  intros _ [p1 cs1] ([Hrel1 Hcs1] & Hex1 & Hd1). unfold same_depth in Hd1. simpl in *. subst cs1.
  pose proof (truncated_rel _ _ Hrel1) as Hrel2. pose proof (truncated_length p1) as Hlen.
  pose proof (l3_truncates_exposure (l3_max_depth p) (l3_applies arr us)) as Hex2.
  rewrite Hd1 in Hrel2, Hlen. fold new in Hrel2, Hex2. apply wp_on_book, wp_on_book. fold (truncated p1). apply wp_get_book.
  apply (wp_Best _ new); [done|lia|]. apply (wp_Best _ new); [done|lia|].
  apply wp_on_cs.
  assert (l3_max_depth (truncated p1) = l3_max_depth p) as Hd2.
  { unfold truncated. by rewrite !TruncateToDepth_depth. }
  unfold l3_finish. destruct (IsCrossed _ _); unfold wp; simpl; split_and!; try done; auto with lia.
Qed.

(** A snapshot is a batch of additions to an empty book. *)
Definition as_added (u : L3Update) : L3Update :=
  mkL3Update kAdded (l3u_order_id u) (l3u_side u) (l3u_price u) (l3u_quantity u).

Lemma AddOrder_as_added us fr :
  exec_each AddOrder us fr = exec_each apply_update (as_added <$> us) fr.
Proof.
  revert fr. induction us as [|u us IH]; intros fr; [done|]. simpl. unfold exec_bind.
  replace (apply_update (as_added u) fr) with (AddOrder u fr) by by destruct u.
  destruct (AddOrder u fr) as [fr' []]; [apply IH|done..].
Qed.

Lemma l3_rel_empty d : l3_rel (new_L3Policy d) [].
Proof. split; [split; intros []|constructor|]; try done; constructor. Qed.

Lemma updates_exposure_as_added us : updates_exposure (as_added <$> us) = updates_exposure us.
Proof. induction us as [|u us IH]; [done|]. rewrite fmap_cons. simpl. by rewrite IH. Qed.

Lemma L3Policy_ApplySnapshot_wp snapshot p :
  updates_exposure (l3s_orders snapshot) <= i64_max → 0 <= l3_max_depth p →
  let us := as_added <$> l3s_orders snapshot in
  let new := l3_truncates (l3_max_depth p) (l3_applies [] us) in
  wp (L3Policy_ApplySnapshot snapshot) p (λ cs p',
    l3_rel p' new ∧ l3_max_depth p' = l3_max_depth p ∧
    (∀ s, Z.of_nat (length (l3_side p' s)) <= l3_max_depth p) ∧ exposure new <= i64_max ∧
    cs = l3_finish [] new (Some (true, true)) (announces us [] L3ChangeSet_init)).
Proof.
  intros Hb Hd us new. apply with_change_set_wp. unfold L3Policy_ApplySnapshot_body.
  apply wp_on_book. fold (new_L3Policy (l3_max_depth p)). apply wp_bind.
  unfold wp at 1. rewrite AddOrder_as_added. fold us.
  eapply wp_mono; [apply (apply_updates_wp us _ []); [apply l3_rel_empty|]|].
  { simpl. subst us. by rewrite updates_exposure_as_added. }
  intros _ [p1 cs1] ([Hrel1 Hcs1] & Hex1 & Hd1). unfold same_depth in Hd1. simpl in *. subst cs1.
  pose proof (truncated_rel _ _ Hrel1) as Hrel2. pose proof (truncated_length p1) as Hlen.
  pose proof (l3_truncates_exposure (l3_max_depth p) (l3_applies [] us)) as Hex2.
  rewrite Hd1 in Hrel2, Hlen. fold new in Hrel2, Hex2. apply wp_on_book, wp_on_book. fold (truncated p1). apply wp_on_cs.
  unfold L3_crossed_check. apply wp_get_book.
  apply (wp_Best _ new); [done|lia|]. apply (wp_Best _ new); [done|lia|].
  assert (l3_max_depth (truncated p1) = l3_max_depth p) as Hd2.
  { unfold truncated. by rewrite !TruncateToDepth_depth. }
  unfold l3_finish. destruct (IsCrossed _ _); unfold wp; simpl; split_and!; try done; auto with lia.
Qed.

(** ** The queries *)

(** The queues of a side, best price first. *)
Definition l3_ladder (s : Side) (arr : arrivals) : list (Price * list OrderId) :=
  (λ pr, (pr, (orders_at s pr arr).*1)) <$> side_prices s arr.

(** One entry per order of the [n] best prices, in price then arrival order. *)
Definition l3_view (s : Side) (n : Z) (arr : arrivals) : list BookEntry :=
  concat ((λ pr, (λ x, mkBookEntry pr (or_quantity x.2)) <$> orders_at s pr arr) <$>
            take (Z.to_nat n) (side_prices s arr)).

Lemma Levels_ladder p arr s : l3_queues p arr → Levels p s = l3_ladder s arr.
Proof.
  intros Hq. unfold Levels, l3_ladder. rewrite <-(rel_side_prices _ _ s Hq), <-list_fmap_compose.
  rewrite <-(list_fmap_id (l3_side p s)) at 1. apply list_fmap_ext.
  intros i [pr ids] Hi%list_elem_of_lookup_2. simpl. f_equal.
  apply (lm_elem_of (level_before s)) in Hi; [|apply Hq].
  rewrite <-(queues_orders _ _ Hq). unfold queue. by rewrite Hi.
Qed.

Lemma level_entries_spec idx pr (xs : arrivals) :
  (∀ x, x ∈ xs → idx !! x.1 = Some x.2) →
  level_entries idx pr xs.*1 = Done ((λ x, mkBookEntry pr (or_quantity x.2)) <$> xs).
Proof.
  induction xs as [|[id r] xs IH]; intros Hin; [done|]. simpl. unfold index_at.
  assert (idx !! id = Some r) as -> by (apply (Hin (id, r)); set_solver). simpl.
  unfold fmap in IH. rewrite IH by set_solver. done.
Qed.

Lemma EntriesOf_spec idx s arr prices count n :
  NoDup arr.*1 → idx = list_to_map arr → 0 <= count <= n →
  EntriesOf idx ((λ pr, (pr, (orders_at s pr arr).*1)) <$> prices) count n =
    Done (concat ((λ pr, (λ x, mkBookEntry pr (or_quantity x.2)) <$> orders_at s pr arr) <$>
                    take (Z.to_nat (n - count)) prices)).
Proof.
  intros Hnd ->. revert count. induction prices as [|pr prices IH]; intros count Hc.
  { by rewrite take_nil. }
  simpl. destruct (Z.eqb_spec count n) as [->|Hne]; [by rewrite Z.sub_diag|].
  rewrite level_entries_spec.
  2:{ intros [id r] [_ Hin]%list_elem_of_filter. by apply index_elem. }
  simpl. rewrite IH by lia.
  replace (Z.to_nat (n - count)) with (S (Z.to_nat (n - (count + 1)))) by lia. done.
Qed.

Lemma GetBookView_spec p arr n :
  l3_rel p arr → 0 <= n →
  GetBookView p n = Done (mkBookView (l3_view kBid n arr) (l3_view kAsk n arr)).
Proof.
  intros Hrel Hn. unfold GetBookView.
  pose proof (Levels_ladder p arr kBid (rel_queues _ _ Hrel)) as Hbid.
  pose proof (Levels_ladder p arr kAsk (rel_queues _ _ Hrel)) as Hask.
  unfold Levels, l3_ladder, l3_side in Hbid, Hask. rewrite Hbid, Hask.
  rewrite !(EntriesOf_spec _ _ arr) by (lia || apply Hrel). unfold l3_view.
  by rewrite !Z.sub_0_r.
Qed.

(** Every query of a book that stands for an arrival list answers from
    that list: [Best] is the best price with the total resting there, [Levels]
    the arrival queues best price first, [OrderQuantity] the order's quantity
    and [GetBookView] one entry per order of the requested levels. None of
    them throws or overflows. *)
Theorem L3_queries_from_arrivals p arr n :
  l3_rel p arr → exposure arr <= i64_max → 0 <= n →
  (∀ s, L3Policy_Best p s = Done (l3_best s arr)) ∧
  (∀ s, Levels p s = l3_ladder s arr) ∧
  (∀ id, OrderQuantity p id = or_quantity <$> find_order id arr) ∧
  GetBookView p n = Done (mkBookView (l3_view kBid n arr) (l3_view kAsk n arr)).
Proof.
  intros Hrel Hb Hn. split_and!.
  - intros s. by apply L3Policy_Best_spec.
  - intros s. apply Levels_ladder, Hrel.
  - intros id. unfold OrderQuantity. by rewrite (find_order_index _ _ _ Hrel).
  - by apply GetBookView_spec.
Qed.

(** A two-sided book to evaluate. *)
Definition demo_l3_orders : list L3Update :=
  [mkL3Update kAdded 1 kBid 100 5; mkL3Update kAdded 2 kAsk 103 4;
   mkL3Update kAdded 3 kBid 100 2; mkL3Update kAdded 4 kBid 99 9].

Definition demo_l3_book : L3Policy :=
  (L3Policy_ApplySnapshot (mkL3Snapshot demo_l3_orders) (new_L3Policy 2)).1.

Definition demo_l3_arrivals : arrivals := l3_applies [] demo_l3_orders.

Lemma demo_l3_rel : l3_rel demo_l3_book demo_l3_arrivals.
Proof.
  pose proof (L3Policy_ApplySnapshot_wp (mkL3Snapshot demo_l3_orders) (new_L3Policy 2)) as H.
  simpl in H. destruct (proj1 (wp_run _ _ _) (H ltac:(vm_compute; done) ltac:(lia)))
    as (p' & cs & Hrun & Hrel & _).
  unfold demo_l3_book. rewrite Hrun. exact Hrel.
Qed.

Lemma L3_queries_from_arrivals_witness :
  GetBookView demo_l3_book 1 =
    Done (mkBookView [mkBookEntry 100 5; mkBookEntry 100 2] [mkBookEntry 103 4]).
Proof.
  refine (proj2 (proj2 (proj2 (L3_queries_from_arrivals demo_l3_book demo_l3_arrivals 1
    demo_l3_rel _ _)))); vm_compute; discriminate.
Defined.

(** C7: a batch applied to a book that stands for an arrival list never
    throws while the quantities fit; it leaves the book of the list with every
    update applied and truncated to the depth, within the depth on both sides,
    and the change set announces each update in turn, the tops that moved, and
    a crossed book. *)
Theorem L3Policy_ApplyBatch_refines us p arr :
  l3_rel p arr → exposure arr + updates_exposure us <= i64_max → 0 <= l3_max_depth p →
  let new := l3_truncates (l3_max_depth p) (l3_applies arr us) in
  ∃ p' cs,
    L3Policy_ApplyBatch us p = (p', Done cs) ∧
    l3_rel p' new ∧
    (∀ s, Z.of_nat (length (Levels p' s)) <= l3_max_depth p) ∧
    cs = l3_finish arr new None (announces us arr L3ChangeSet_init).
Proof.
  intros Hrel Hb Hd new.
  destruct (proj1 (wp_run _ _ _) (L3Policy_ApplyBatch_wp us p arr Hrel Hb Hd))
    as (p' & cs & Hrun & Hrel' & _ & Hlen & _ & Hcs).
  by exists p', cs.
Qed.

Definition demo_l3_updates : list L3Update :=
  [mkL3Update kModified 3 kBid 0 1; mkL3Update kAdded 1 kBid 101 6; mkL3Update kDeleted 7 kAsk 0 0].

Lemma L3Policy_ApplyBatch_refines_witness :
  ∃ p' cs, L3Policy_ApplyBatch demo_l3_updates demo_l3_book = (p', Done cs) ∧
    Levels p' kBid = [(101, [1]); (100, [3])] ∧ l3_integrity_issue cs = Some kUnknownOrder.
Proof.
  destruct (L3Policy_ApplyBatch_refines demo_l3_updates demo_l3_book demo_l3_arrivals demo_l3_rel)
    as (p' & cs & Hrun & Hrel & _ & Hcs); [vm_compute; discriminate..|].
  exists p', cs. split; [exact Hrun|]. subst cs. split; [|by vm_compute].
  rewrite (Levels_ladder _ _ kBid (rel_queues _ _ Hrel)). by vm_compute.
Defined.

(** A snapshot replaces the whole book, whatever it held, by its orders in
    the order given, truncated to the depth. *)
Theorem L3Policy_ApplySnapshot_refines snapshot p :
  updates_exposure (l3s_orders snapshot) <= i64_max → 0 <= l3_max_depth p →
  let us := as_added <$> l3s_orders snapshot in
  let new := l3_truncates (l3_max_depth p) (l3_applies [] us) in
  ∃ p' cs,
    L3Policy_ApplySnapshot snapshot p = (p', Done cs) ∧
    l3_rel p' new ∧
    (∀ s, Z.of_nat (length (Levels p' s)) <= l3_max_depth p) ∧
    cs = l3_finish [] new (Some (true, true)) (announces us [] L3ChangeSet_init).
Proof.
  intros Hb Hd us new.
  destruct (proj1 (wp_run _ _ _) (L3Policy_ApplySnapshot_wp snapshot p Hb Hd))
    as (p' & cs & Hrun & Hrel' & _ & Hlen & _ & Hcs).
  by exists p', cs.
Qed.

Lemma L3Policy_ApplySnapshot_refines_witness :
  ∃ p' cs, L3Policy_ApplySnapshot (mkL3Snapshot demo_l3_orders) (new_L3Policy 1) = (p', Done cs) ∧
    Levels p' kBid = [(100, [1; 3])].
Proof.
  destruct (L3Policy_ApplySnapshot_refines (mkL3Snapshot demo_l3_orders) (new_L3Policy 1))
    as (p' & cs & Hrun & Hrel & _); [vm_compute; discriminate..|].
  exists p', cs. split; [exact Hrun|].
  rewrite (Levels_ladder _ _ kBid (rel_queues _ _ Hrel)). by vm_compute.
Defined.
