(* ===== verification/L3Ready.v ===== *)
(** * The L3 policy inside the engine

    The contract the engine asks of a policy, discharged for [L3Policy], and
    what it gives: a [Ready] book holds no bid at or above an ask and no more
    levels than its depth. *)

From S2P Require Import Prelude BookTypes LevelMap Engine L3Policy L3Refinement.

(** The quantities resting in a stored book, in absolute value. *)
Definition book_exposure (p : L3Policy) : Z := exposure (map_to_list (l3_order_index p)).

#[export] Instance exposure_perm : Proper ((≡ₚ) ==> (=)) exposure.
Proof. induction 1; simpl; lia. Qed.

Lemma book_exposure_rel p arr : l3_rel p arr → book_exposure p = exposure arr.
Proof.
  intros Hrel. unfold book_exposure. rewrite (rel_index _ _ Hrel).
  by rewrite map_to_list_to_map by apply Hrel.
Qed.

(** The calls the engine makes, while the quantities fit 64 bits. *)
Definition l3_snapshot_call (_ : L3Policy) (m : exec L3Policy L3ChangeSet) : Prop :=
  ∃ snapshot, m = L3Policy_ApplySnapshot snapshot ∧
    updates_exposure (l3s_orders snapshot) <= i64_max.
Definition l3_batch_call (p : L3Policy) (m : exec L3Policy L3ChangeSet) : Prop :=
  ∃ updates, m = L3Policy_ApplyBatch updates ∧
    book_exposure p + updates_exposure updates <= i64_max.

Definition within_depth (p : L3Policy) : Prop :=
  ∀ s, Z.of_nat (length (Levels p s)) <= l3_max_depth p.

(** A well-formed book: it stands for some arrival list, within its depth. *)
Definition l3_inv (p : L3Policy) : Prop :=
  0 <= l3_max_depth p ∧ within_depth p ∧ ∃ arr, l3_rel p arr ∧ exposure arr <= i64_max.

Lemma l3_inv_init d : 0 <= d → l3_inv (new_L3Policy d).
Proof.
  intros Hd. split_and!; [done|by intros []|]. exists []. split; [apply l3_rel_empty|done].
Qed.

Lemma ReportIssue_not_None slot issue : ReportIssue slot issue ≠ None.
Proof. by destruct slot. Qed.

(** A change set without an issue means the tops did not cross. *)
Lemma l3_finish_uncrossed old new tops cs p :
  l3_rel p new → l3_integrity_issue (l3_finish old new tops cs) = None → orders_uncrossed p.
Proof.
  intros Hrel Hi. apply (l3_best_uncrossed _ new); [done|].
  unfold l3_finish in Hi. destruct (IsCrossed _ _); [|done].
  simpl in Hi. by apply ReportIssue_not_None in Hi.
Qed.

Lemma L3_snapshot_contract snapshot p :
  updates_exposure (l3s_orders snapshot) <= i64_max → l3_inv p →
  wp (L3Policy_ApplySnapshot snapshot) p (λ cs p',
    l3_inv p' ∧ (reported_issue cs = None → orders_uncrossed p')).
Proof.
  intros Hb (Hd & _). eapply wp_mono; [by apply L3Policy_ApplySnapshot_wp|].
  intros cs p' (Hrel & Hdep & Hlen & Hex & ->). split.
  - split_and!; [by rewrite Hdep|intros s; by rewrite Hdep|eauto].
  - by apply l3_finish_uncrossed.
Qed.

Lemma L3_batch_contract updates p :
  book_exposure p + updates_exposure updates <= i64_max → l3_inv p →
  wp (L3Policy_ApplyBatch updates) p (λ cs p',
    l3_inv p' ∧ (reported_issue cs = None → orders_uncrossed p')).
Proof.
  intros Hb (Hd & _ & arr & Hrel & _). rewrite (book_exposure_rel _ _ Hrel) in Hb.
  eapply wp_mono; [by apply (L3Policy_ApplyBatch_wp _ _ arr)|].
  intros cs p' (Hrel' & Hdep & Hlen & Hex & ->). split.
  - split_and!; [by rewrite Hdep|intros s; by rewrite Hdep|eauto].
  - by apply l3_finish_uncrossed.
Qed.

#[export] Instance L3Policy_contract :
  PolicyContract L3Policy_Best l3_snapshot_call l3_batch_call l3_inv orders_uncrossed.
Proof.
  split.
  - intros p side (_ & _ & arr & Hrel & Hb). eexists. by apply (L3Policy_Best_spec _ arr).
  - intros m p (snapshot & -> & Hb). by apply L3_snapshot_contract.
  - intros m p (updates & -> & Hb). by apply L3_batch_contract.
Qed.

(** Whatever snapshots and batches an L3 book was fed, it never holds more
    levels than its depth, and while it is [Ready] every resting bid is priced
    below every resting ask. *)
Theorem L3_ready_uncrossed hooks d b :
  0 <= d →
  rtc (engine_step hooks L3Policy_Best l3_snapshot_call l3_batch_call)
    (new_OrderBook (new_L3Policy d)) b →
  within_depth (ob_policy b) ∧
  (ob_readiness b = kReady → orders_uncrossed (ob_policy b)).
Proof.
  intros Hd Hsteps. eapply engine_inv_reachable in Hsteps as [Hinv Hg]; [|by apply l3_inv_init].
  split; [apply Hinv|done].
Qed.

Definition all_hooks : ListenerHooks := Build_ListenerHooks true true true.

Definition demo_l3_engine : OrderBook L3Policy :=
  (ApplySnapshot all_hooks L3Policy_Best (L3Policy_ApplySnapshot (mkL3Snapshot demo_l3_orders))
     (new_OrderBook (new_L3Policy 2))).1.

Lemma L3_ready_uncrossed_witness :
  ob_readiness demo_l3_engine = kReady ∧
  within_depth (ob_policy demo_l3_engine) ∧ orders_uncrossed (ob_policy demo_l3_engine).
Proof.
  split; [by vm_compute|].
  destruct (L3_ready_uncrossed all_hooks 2 demo_l3_engine) as [H1 H2]; [lia| |].
  - apply rtc_once, (step_snapshot _ _ _ _
      (L3Policy_ApplySnapshot (mkL3Snapshot demo_l3_orders)) _ _ (Done tt)); [|by vm_compute].
    eexists. split; [reflexivity|]. vm_compute. discriminate.
  - split; [exact H1|]. apply H2. by vm_compute.
Defined.
