(* ===== verification/KrakenChecksum.v ===== *)
(** * Kraken's level3 checksum: [order_book/kraken_checksum.{h,cpp}]

    The bitwise CRC-32 and the text it is taken over. The facts shown of the
    CRC are those the book relies on: it is a 32-bit value, and two texts of
    equal length that differ in one byte never collide. *)

From S2P Require Import Prelude Text BookTypes.

Definition crc32_polynomial : Z := 0xEDB88320.

(** One turn of the inner loop. *)
Definition crc32_bit (crc : Z) : Z :=
  if Z.land crc 1 =? 0 then Z.shiftr crc 1 else Z.lxor (Z.shiftr crc 1) crc32_polynomial.

(** One turn of the outer loop: a byte is mixed in, then eight bits. *)
Definition crc32_byte (crc : Z) (c : byte) : Z :=
  Nat.iter 8 crc32_bit (Z.lxor crc (byte_val c)).

Definition Crc32 (data : bytes) : Z :=
  Z.lxor (foldl crc32_byte 0xFFFFFFFF data) 0xFFFFFFFF.

Definition kKrakenChecksumLevels : Z := 10.

(** The loop of [AppendTopLevels] from [levels_seen] levels on. *)
Fixpoint AppendTopLevels_loop (entries : list BookEntry) (levels_seen : Z)
    (current_price : option Price) (out : bytes) : bytes :=
  match entries with
  | [] => out
  | entry :: entries =>
      let append := out ++ to_string (be_price entry) ++ to_string (be_quantity entry) in
      if decide (current_price = Some (be_price entry))
      then AppendTopLevels_loop entries levels_seen current_price append
      else if kKrakenChecksumLevels <? levels_seen + 1 then out
      else AppendTopLevels_loop entries (levels_seen + 1) (Some (be_price entry)) append
  end.

Definition AppendTopLevels (out : bytes) (entries : list BookEntry) : bytes :=
  AppendTopLevels_loop entries 0 None out.

Definition KrakenL3Checksum (view : BookView) : Z :=
  Crc32 (AppendTopLevels (AppendTopLevels [] (Entries view kAsk)) (Entries view kBid)).

(** The check value of the CRC-32 of this kind. *)
Example Crc32_check : Crc32 (B "123456789") = 0xCBF43926.
Proof. by vm_compute. Qed.

(** ** The CRC register stays within 32 bits and each step is injective *)

Definition u32 (z : Z) : Prop := 0 <= z < 2 ^ 32.

Lemma u32_bits z : u32 z ↔ 0 <= z ∧ ∀ i, 32 <= i → Z.testbit z i = false.
Proof.
  unfold u32. split.
  - intros [H0 H1]. split; [done|]. intros i Hi.
    destruct (decide (z = 0)) as [->|]; [apply Z.bits_0|].
    apply Z.bits_above_log2; [done|]. apply Z.log2_lt_pow2 in H1; lia.
  - intros [H0 H]. split; [done|]. destruct (decide (z = 0)) as [->|]; [lia|].
    apply Z.log2_lt_pow2; [lia|]. destruct (Z.lt_ge_cases (Z.log2 z) 32); [done|].
    pose proof (H (Z.log2 z)) as Hb. rewrite Z.bit_log2 in Hb by lia. by discriminate Hb.
Qed.

Lemma u32_lxor a b : u32 a → u32 b → u32 (Z.lxor a b).
Proof.
  rewrite !u32_bits. intros [Ha1 Ha2] [Hb1 Hb2]. split.
  - apply Z.lxor_nonneg. lia.
  - intros i Hi. by rewrite Z.lxor_spec, Ha2, Hb2.
Qed.

Lemma u32_shiftr1 a : u32 a → 0 <= Z.shiftr a 1 < 2 ^ 31.
Proof.
  unfold u32. intros Ha. rewrite Z.shiftr_div_pow2 by lia. change (2 ^ 1) with 2.
  split; [apply Z.div_pos; lia|]. apply Z.div_lt_upper_bound; lia.
Qed.

Lemma crc32_bit_u32 crc : u32 crc → u32 (crc32_bit crc).
Proof.
  intros H. pose proof (u32_shiftr1 _ H). unfold crc32_bit.
  assert (u32 (Z.shiftr crc 1)) by (unfold u32; lia).
  destruct (_ =? 0); [done|]. apply u32_lxor; [done|]. unfold u32, crc32_polynomial. lia.
Qed.

(** The top bit of a shifted register tells whether the low bit was set. *)
Lemma crc32_bit_top crc : u32 crc → Z.testbit (crc32_bit crc) 31 = negb (Z.land crc 1 =? 0).
Proof.
  intros H. pose proof (u32_shiftr1 _ H) as Hs.
  assert (Z.testbit (Z.shiftr crc 1) 31 = false) as Ht.
  { rewrite Z.shiftr_spec by lia. apply u32_bits; [done|lia]. }
  unfold crc32_bit. destruct (_ =? 0); [done|].
  rewrite Z.lxor_spec, Ht. by vm_compute.
Qed.

Lemma crc32_bit_inj a b : u32 a → u32 b → crc32_bit a = crc32_bit b → a = b.
Proof.
  intros Ha Hb Heq. pose proof (crc32_bit_top _ Ha) as Hta. pose proof (crc32_bit_top _ Hb) as Htb.
  rewrite Heq, Htb in Hta. apply (f_equal negb) in Hta. rewrite !negb_involutive in Hta.
  assert (Z.shiftr a 1 = Z.shiftr b 1) as Hs.
  { unfold crc32_bit in Heq. rewrite Hta in Heq. destruct (Z.land a 1 =? 0); [done|].
    apply (f_equal (λ x, Z.lxor x crc32_polynomial)) in Heq.
    by rewrite !Z.lxor_assoc, !Z.lxor_nilpotent, !Z.lxor_0_r in Heq. }
  rewrite !Z.shiftr_div_pow2 in Hs by lia. change (2 ^ 1) with 2 in Hs.
  change 1 with (Z.ones 1) in Hta. rewrite !Z.land_ones in Hta by lia. change (2 ^ 1) with 2 in Hta.
  pose proof (Z.div_mod a 2 ltac:(lia)). pose proof (Z.div_mod b 2 ltac:(lia)).
  pose proof (Z.mod_pos_bound a 2 ltac:(lia)). pose proof (Z.mod_pos_bound b 2 ltac:(lia)).
  destruct (Z.eqb_spec (a mod 2) 0), (Z.eqb_spec (b mod 2) 0); lia || done.
Qed.

Lemma crc32_bits_u32 n crc : u32 crc → u32 (Nat.iter n crc32_bit crc).
Proof. intros H. induction n; simpl; [done|]. by apply crc32_bit_u32. Qed.

Lemma crc32_bits_inj n a b :
  u32 a → u32 b → Nat.iter n crc32_bit a = Nat.iter n crc32_bit b → a = b.
Proof.
  intros Ha Hb. induction n as [|n IH]; simpl; [done|]. intros Heq.
  apply IH, crc32_bit_inj; eauto using crc32_bits_u32.
Qed.

Lemma byte_u32 c : u32 (byte_val c).
Proof. pose proof (byte_val_range c). unfold u32. lia. Qed.

Lemma lxor_cancel_r a b c : Z.lxor a c = Z.lxor b c → a = b.
Proof.
  intros H. apply (f_equal (λ x, Z.lxor x c)) in H.
  by rewrite !Z.lxor_assoc, !Z.lxor_nilpotent, !Z.lxor_0_r in H.
Qed.

Lemma crc32_byte_u32 crc c : u32 crc → u32 (crc32_byte crc c).
Proof. intros H. apply crc32_bits_u32, u32_lxor; [done|apply byte_u32]. Qed.

Lemma crc32_byte_inj_crc a b c : u32 a → u32 b → crc32_byte a c = crc32_byte b c → a = b.
Proof.
  intros Ha Hb Heq. apply crc32_bits_inj in Heq; [|apply u32_lxor; [done|apply byte_u32]..].
  by eapply lxor_cancel_r.
Qed.

Lemma crc32_byte_inj_byte crc c d : u32 crc → crc32_byte crc c = crc32_byte crc d → c = d.
Proof.
  intros H Heq. apply crc32_bits_inj in Heq; [|apply u32_lxor; [done|apply byte_u32]..].
  rewrite !(Z.lxor_comm crc) in Heq. by apply byte_val_inj, (lxor_cancel_r _ _ crc).
Qed.

Lemma crc32_bytes_u32 l crc : u32 crc → u32 (foldl crc32_byte crc l).
Proof. revert crc. induction l; simpl; [done|]. eauto using crc32_byte_u32. Qed.

Lemma crc32_bytes_inj l a b :
  u32 a → u32 b → foldl crc32_byte a l = foldl crc32_byte b l → a = b.
Proof.
  revert a b. induction l as [|c l IH]; intros a b Ha Hb Heq; simpl in *; [done|].
  apply IH in Heq; eauto using crc32_byte_u32, crc32_byte_inj_crc.
Qed.

Lemma crc32_init_u32 : u32 0xFFFFFFFF.
Proof. unfold u32. lia. Qed.

(** [Crc32] is a 32-bit value that changes whenever a single byte of the
    text changes, so a checksum never hides a one-byte difference. *)
Theorem Crc32_detects_byte_change pre c d post :
  (0 <= Crc32 (pre ++ c :: post) < 2 ^ 32) ∧
  (Crc32 (pre ++ c :: post) = Crc32 (pre ++ d :: post) ↔ c = d).
Proof.
  pose proof crc32_init_u32. split.
  - apply u32_lxor; [|done]. by apply crc32_bytes_u32.
  - split; [|by intros ->]. unfold Crc32. rewrite !foldl_app. simpl. intros Heq%lxor_cancel_r.
    assert (u32 (foldl crc32_byte 0xFFFFFFFF pre)) by by apply crc32_bytes_u32.
    apply crc32_bytes_inj in Heq; eauto using crc32_byte_u32, crc32_byte_inj_byte.
Qed.
