(* ===== verification/KrakenL3Policy.v ===== *)
(** * Kraken's L3 policy: [order_book/kraken_l3_policy.h]

    The generic L3 book with two additions of Kraken's: the additions of one
    message are put in timestamp order among the positions they occupy, and
    every message's checksum is compared with the book's own. *)

From S2P Require Import Prelude Text BookTypes LevelMap Engine L3Policy L3Refinement L3Ready.
From S2P Require Import KrakenChecksum.

Record ChecksumMeta := mkChecksumMeta { checksum : Z }.

Record KrakenL3Update := mkKrakenL3Update {
  ku_update : L3Update;
  ku_timestamp : bytes;
}.

Definition is_added (e : KrakenL3Update) : Prop := l3u_event (ku_update e) = kAdded.
#[export] Instance is_added_dec e : Decision (is_added e).
Proof. unfold is_added. apply _. Defined.

(** [std::stable_sort] with the timestamp comparator: an entry goes behind
    every entry it is not earlier than. *)
Fixpoint insert_by_time (x : KrakenL3Update) (l : list KrakenL3Update) : list KrakenL3Update :=
  match l with
  | [] => [x]
  | y :: l' =>
      if bytes_lt (ku_timestamp x) (ku_timestamp y) then x :: l else y :: insert_by_time x l'
  end.

Definition stable_sort_by_time (l : list KrakenL3Update) : list KrakenL3Update :=
  foldl (λ acc x, insert_by_time x acc) [] l.

(** The second loop of [AddsInArrivalOrder]; [adds] is the range from
    [next_add] on. *)
Fixpoint place_adds (updates adds : list KrakenL3Update) : outcome (list L3Update) :=
  match updates with
  | [] => Done []
  | entry :: updates =>
      if decide (is_added entry) then
        match adds with
        | [] => Undef EndDereference
        | add :: adds =>
            outcome_bind (place_adds updates adds) (λ ordered, Done (ku_update add :: ordered))
        end
      else outcome_bind (place_adds updates adds) (λ ordered, Done (ku_update entry :: ordered))
  end.

Definition AddsInArrivalOrder (updates : list KrakenL3Update) : outcome (list L3Update) :=
  let adds := filter is_added updates in
  place_adds updates (stable_sort_by_time adds).

(** The policy is its [book_]. *)
Definition KrakenL3Policy : Type := L3Policy.
Definition new_KrakenL3Policy (subscribed_depth : Z) : KrakenL3Policy :=
  new_L3Policy subscribed_depth.
Definition KrakenL3Policy_Best (p : KrakenL3Policy) (side : Side) : outcome (option BookEntry) :=
  L3Policy_Best p side.
Definition Book (p : KrakenL3Policy) : L3Policy := p.

Definition VerifyChecksum (change_set : L3ChangeSet) (meta : ChecksumMeta)
  : exec KrakenL3Policy L3ChangeSet :=
  let! book := exec_get in
  let! view := exec_lift (GetBookView book kKrakenChecksumLevels) in
  exec_ret (if bool_decide (KrakenL3Checksum view ≠ checksum meta)
            then l3_report kChecksumMismatch change_set else change_set).

Definition KrakenL3Policy_ApplySnapshot (snapshot : L3Snapshot) (meta : ChecksumMeta)
  : exec KrakenL3Policy L3ChangeSet :=
  let! change_set := L3Policy_ApplySnapshot snapshot in
  VerifyChecksum change_set meta.

Definition KrakenL3Policy_ApplyBatch (updates : list KrakenL3Update) (meta : ChecksumMeta)
  : exec KrakenL3Policy L3ChangeSet :=
  let! ordered := exec_lift (AddsInArrivalOrder updates) in
  let! change_set := L3Policy_ApplyBatch ordered in
  VerifyChecksum change_set meta.

(** ** The order of timestamps *)

Lemma bytes_lt_irrefl a : bytes_lt a a = false.
Proof. induction a as [|x a IH]; simpl; [done|]. rewrite IH. lia. Qed.

Lemma bytes_lt_trans a b c : bytes_lt a b = true → bytes_lt b c = true → bytes_lt a c = true.
Proof.
  revert b c. induction a as [|x a IH]; intros [|y b] [|z c] H1 H2; simpl in *; try done.
  apply orb_true_iff in H1, H2. rewrite !andb_true_iff in H1, H2. apply orb_true_iff.
  rewrite andb_true_iff. destruct H1 as [H1|[H1 H1']], H2 as [H2|[H2 H2']].
  1-3: left; lia.
  right. split; [lia|]. eauto.
Qed.

Lemma bytes_lt_total a b : bytes_lt a b = false → bytes_lt b a = false → a = b.
Proof.
  revert b. induction a as [|x a IH]; intros [|y b] H1 H2; simpl in *; try done.
  apply orb_false_iff in H1 as [H1 H1'], H2 as [H2 H2'].
  assert (byte_val x = byte_val y) as Heq by lia.
  rewrite Heq, Z.eqb_refl in H1', H2'. simpl in *. f_equal; [by apply byte_val_inj|auto].
Qed.

Definition not_later (a b : KrakenL3Update) : Prop :=
  bytes_lt (ku_timestamp b) (ku_timestamp a) = false.

Lemma not_later_trans a b c : not_later a b → not_later b c → not_later a c.
Proof.
  unfold not_later. intros H1 H2. destruct (bytes_lt (ku_timestamp c) (ku_timestamp a)) eqn:Hca; [|done].
  destruct (bytes_lt (ku_timestamp c) (ku_timestamp b)) eqn:Hcb; [done|].
  destruct (bytes_lt (ku_timestamp b) (ku_timestamp c)) eqn:Hbc.
  - by rewrite (bytes_lt_trans _ _ _ Hbc Hca) in H1.
  - apply bytes_lt_total in Hbc; [|done]. congruence.
Qed.

(** ** The sort *)

Lemma insert_by_time_perm x l : insert_by_time x l ≡ₚ x :: l.
Proof.
  induction l as [|y l IH]; simpl; [done|]. destruct (bytes_lt _ _); [done|].
  rewrite IH. apply perm_swap.
Qed.

Lemma insert_by_time_sorted x l :
  StronglySorted not_later l → StronglySorted not_later (insert_by_time x l).
Proof.
  induction 1 as [|y l Hs IH Hall]; simpl; [repeat constructor|].
  destruct (bytes_lt _ _) eqn:Hlt.
  - assert (not_later x y) as Hxy.
    { unfold not_later. destruct (bytes_lt (ku_timestamp y) (ku_timestamp x)) eqn:H'; [|done].
      pose proof (bytes_lt_trans _ _ _ Hlt H') as Ht. by rewrite bytes_lt_irrefl in Ht. }
    constructor; [by constructor|]. constructor; [done|].
    eapply Forall_impl; [done|]. intros z Hz. by eapply not_later_trans.
  - constructor; [done|]. rewrite insert_by_time_perm. by constructor.
Qed.

(** Entries of one timestamp keep their order. *)
Definition at_time (t : bytes) (e : KrakenL3Update) : Prop := ku_timestamp e = t.
#[export] Instance at_time_dec t e : Decision (at_time t e).
Proof. unfold at_time. apply _. Defined.

Lemma insert_by_time_stable x l t :
  StronglySorted not_later l →
  filter (at_time t) (insert_by_time x l) = filter (at_time t) l ++ filter (at_time t) [x].
Proof.
  induction 1 as [|y l Hs IH Hall]; [done|]. cbn [insert_by_time].
  destruct (bytes_lt _ _) eqn:Hlt.
  - rewrite (filter_cons _ x (y :: l)), (filter_cons _ x []). case_decide as Hx; [|by rewrite app_nil_r].
    replace (filter (at_time t) (y :: l)) with (@nil KrakenL3Update); [done|]. symmetry.
    rewrite filter_cons, decide_False.
    + apply list_filter_none. intros z Hz Hzt. rewrite Forall_forall in Hall.
      apply Hall in Hz.
      unfold not_later, at_time in *. rewrite Hzt in Hz. rewrite Hx in Hlt. congruence.
    + unfold at_time in *. intros Hy. rewrite Hx, Hy, bytes_lt_irrefl in Hlt. done.
  - rewrite !(filter_cons _ y), IH. by case_decide.
Qed.

Lemma stable_sort_spec l :
  stable_sort_by_time l ≡ₚ l ∧ StronglySorted not_later (stable_sort_by_time l) ∧
  ∀ t, filter (at_time t) (stable_sort_by_time l) = filter (at_time t) l.
Proof.
  unfold stable_sort_by_time.
  assert (∀ acc, StronglySorted not_later acc →
    let out := foldl (λ acc x, insert_by_time x acc) acc l in
    out ≡ₚ acc ++ l ∧ StronglySorted not_later out ∧
    ∀ t, filter (at_time t) out = filter (at_time t) acc ++ filter (at_time t) l) as H.
  { induction l as [|x l IH]; intros acc Hs; simpl.
    { split_and!; [by rewrite app_nil_r|done|]. intros t. by rewrite app_nil_r. }
    destruct (IH _ (insert_by_time_sorted x acc Hs)) as (Hp & Hs' & Hf). split_and!.
    - rewrite Hp, insert_by_time_perm. simpl. apply Permutation_middle.
    - done.
    - intros t. rewrite Hf, insert_by_time_stable by done. rewrite <-app_assoc. f_equal.
      by rewrite <-filter_app. }
  destruct (H [] ltac:(constructor)) as (Hp & Hs & Hf). done.
Qed.

Definition l3_is_added (u : L3Update) : Prop := l3u_event u = kAdded.
#[export] Instance l3_is_added_dec u : Decision (l3_is_added u).
Proof. unfold l3_is_added. apply _. Defined.

Lemma place_adds_spec us adds :
  length adds = length (filter is_added us) → Forall is_added adds →
  ∃ out, place_adds us adds = Done out ∧ length out = length us ∧
    (∀ i e, us !! i = Some e → ¬ is_added e → out !! i = Some (ku_update e)) ∧
    filter l3_is_added out = ku_update <$> adds ∧
    out ≡ₚ ku_update <$> (adds ++ filter (λ e, ¬ is_added e) us).
Proof.
  revert adds. induction us as [|e us IH]; intros adds Hlen Hall.
  { destruct adds; [|done]. by exists []. }
  cbn [place_adds]. rewrite filter_cons in Hlen.
  rewrite (filter_cons (λ e, ¬ is_added e)). destruct (decide (is_added e)) as [He|He].
  - destruct adds as [|a adds]; [done|]. simpl in Hlen. apply Forall_cons in Hall as [Ha Hall].
    destruct (IH adds ltac:(lia) Hall) as (out & -> & Hl & Hn & Hf & Hp).
    exists (ku_update a :: out). simpl. split_and!; [done|lia| | |].
    + intros [|i] e' Hi He'; simpl in *; [naive_solver|eauto].
    + by rewrite filter_cons_True, Hf.
    + rewrite decide_False by tauto. by rewrite Hp.
  - destruct (IH adds Hlen Hall) as (out & -> & Hl & Hn & Hf & Hp).
    exists (ku_update e :: out). simpl. split_and!; [done|lia| | |].
    + intros [|i] e' Hi He'; simpl in *; [naive_solver|eauto].
    + by rewrite filter_cons_False, Hf.
    + rewrite decide_True by done. rewrite Hp, !fmap_app, fmap_cons. apply Permutation_middle.
Qed.

Lemma filter_complement_perm {A} (P : A → Prop) `{∀ x, Decision (P x)} (l : list A) :
  filter P l ++ filter (λ x, ¬ P x) l ≡ₚ l.
Proof.
  induction l as [|x l IH]; [done|]. rewrite !filter_cons. destruct (decide (P x)).
  - rewrite decide_False by tauto. simpl. by rewrite IH.
  - rewrite decide_True by done. rewrite <-Permutation_middle. by rewrite IH.
Qed.

Lemma AddsInArrivalOrder_placed us :
  ∃ out, AddsInArrivalOrder us = Done out ∧ length out = length us ∧
    (∀ i e, us !! i = Some e → ¬ is_added e → out !! i = Some (ku_update e)) ∧
    filter l3_is_added out = ku_update <$> stable_sort_by_time (filter is_added us) ∧
    out ≡ₚ ku_update <$> us.
Proof.
  destruct (stable_sort_spec (filter is_added us)) as (Hp & _ & _).
  destruct (place_adds_spec us (stable_sort_by_time (filter is_added us)))
    as (out & Hrun & Hl & Hn & Hf & Hperm).
  - by rewrite Hp.
  - rewrite Hp. apply Forall_forall. intros x. rewrite list_elem_of_filter. tauto.
  - exists out. split_and!; [done..|]. by rewrite Hperm, Hp, filter_complement_perm.
Qed.

(** Reordering one message never runs off the additions and loses nothing:
    every update that is not an addition keeps its position, and the additions
    among themselves come in timestamp order, those of equal timestamp in the
    order received. *)
Theorem AddsInArrivalOrder_correct us :
  ∃ out adds,
    AddsInArrivalOrder us = Done out ∧ out ≡ₚ ku_update <$> us ∧
    (∀ i e, us !! i = Some e → ¬ is_added e → out !! i = Some (ku_update e)) ∧
    filter l3_is_added out = ku_update <$> adds ∧
    StronglySorted not_later adds ∧
    (∀ t, filter (at_time t) adds = filter (at_time t) (filter is_added us)).
Proof.
  destruct (AddsInArrivalOrder_placed us) as (out & Hrun & _ & Hn & Hf & Hp).
  destruct (stable_sort_spec (filter is_added us)) as (_ & Hs & Ht).
  by exists out, (stable_sort_by_time (filter is_added us)).
Qed.

(** ** The checksum of a stored book *)

(** The text Kraken documents: the orders of the ten best levels of a side, in
    price then arrival order, each its price then its quantity. *)
Definition order_token (pr : Price) (x : OrderId * OrderRecord) : bytes :=
  to_string pr ++ to_string (or_quantity x.2).

Definition side_text (s : Side) (arr : list (OrderId * OrderRecord)) : bytes :=
  concat ((λ pr, concat (order_token pr <$> orders_at s pr arr)) <$> take 10 (side_prices s arr)).

Definition kraken_checksum_spec (arr : list (OrderId * OrderRecord)) : Z :=
  Crc32 (side_text kAsk arr ++ side_text kBid arr).

Definition entry_token (e : BookEntry) : bytes :=
  to_string (be_price e) ++ to_string (be_quantity e).

(** One level: its first entry counts it, the others are of the same price. *)
Lemma AppendTopLevels_level pr qs rest seen out :
  AppendTopLevels_loop ((mkBookEntry pr <$> qs) ++ rest) seen (Some pr) out =
    AppendTopLevels_loop rest seen (Some pr)
      (out ++ concat (entry_token <$> (mkBookEntry pr <$> qs))).
Proof.
  revert out. induction qs as [|q qs IH]; intros out; simpl; [by rewrite app_nil_r|].
  rewrite decide_True by done. rewrite IH. unfold entry_token at 2. simpl.
  by rewrite !app_assoc.
Qed.

Definition level_view (l : Price * list Quantity) : list BookEntry := mkBookEntry l.1 <$> l.2.

Lemma AppendTopLevels_levels (levels : list (Price * list Quantity)) seen current out :
  NoDup levels.*1 → Forall (λ l, l.2 ≠ []) levels →
  (match current with Some pr => pr ∉ levels.*1 | None => True end) →
  seen + Z.of_nat (length levels) <= kKrakenChecksumLevels →
  AppendTopLevels_loop (concat (level_view <$> levels)) seen current out =
    out ++ concat (entry_token <$> concat (level_view <$> levels)).
Proof.
  revert seen current out. induction levels as [|[pr [|q qs]] levels IH];
    intros seen current out Hnd Hne Hcur Hlen; simpl in *.
  { by rewrite app_nil_r. }
  { apply Forall_cons in Hne as [Hq _]. done. }
  apply NoDup_cons in Hnd as [Hpr Hnd]. apply Forall_cons in Hne as [_ Hne].
  rewrite decide_False by (destruct current; set_solver).
  rewrite (proj2 (Z.ltb_ge _ _)) by lia. rewrite AppendTopLevels_level.
  rewrite IH by (done || lia). rewrite fmap_app, concat_app. rewrite <-!app_assoc. f_equal.
  unfold entry_token at 3. simpl. by rewrite <-!app_assoc.
Qed.

(** The levels a view of ten levels shows. *)
Definition top_levels (s : Side) (arr : list (OrderId * OrderRecord))
  : list (Price * list Quantity) :=
  (λ pr, (pr, (λ x : OrderId * OrderRecord, or_quantity x.2) <$> orders_at s pr arr)) <$>
    take 10 (side_prices s arr).

Lemma l3_view_top_levels s arr : l3_view s 10 arr = concat (level_view <$> top_levels s arr).
Proof.
  unfold l3_view, top_levels. rewrite <-list_fmap_compose. f_equal.
  change (Z.to_nat 10) with 10%nat. apply list_fmap_ext. intros i pr _.
  unfold level_view. simpl. by rewrite <-list_fmap_compose.
Qed.

Lemma side_text_view s arr : side_text s arr = concat (entry_token <$> l3_view s 10 arr).
Proof.
  unfold side_text, l3_view. change (Z.to_nat 10) with 10%nat.
  induction (take 10 (side_prices s arr)) as [|pr prs IH]; [done|].
  rewrite !fmap_cons. cbn [concat]. rewrite fmap_app, concat_app, IH. f_equal. f_equal.
  rewrite <-list_fmap_compose. by apply list_fmap_ext.
Qed.

Lemma side_prices_orders s arr pr : pr ∈ side_prices s arr → orders_at s pr arr ≠ [].
Proof.
  unfold side_prices. intros [[] Hin]%elem_of_list_fmap_fst Hnil.
  apply (lm_elem_of (level_before s)) in Hin; [|apply side_levels_sorted].
  rewrite side_levels_lookup, decide_True in Hin; done.
Qed.

Lemma AppendTopLevels_view s arr out :
  AppendTopLevels out (l3_view s 10 arr) = out ++ side_text s arr.
Proof.
  rewrite side_text_view, l3_view_top_levels. apply AppendTopLevels_levels; [| |done|].
  - unfold top_levels. rewrite <-list_fmap_compose. unfold compose. simpl. rewrite list_fmap_id.
    eapply sublist_NoDup; [|apply sublist_take].
    eapply (lm_sorted_NoDup (level_before s)), side_levels_sorted.
  - apply Forall_fmap, Forall_forall. intros pr Hpr. simpl. intros Hnil%fmap_nil_inv.
    eapply side_prices_orders; [|done]. by eapply elem_of_sublist, sublist_take.
  - unfold top_levels, kKrakenChecksumLevels. rewrite length_fmap, length_take. lia.
Qed.

Lemma KrakenL3Checksum_rel p arr :
  l3_rel p arr →
  ∃ view, GetBookView p kKrakenChecksumLevels = Done view ∧
    KrakenL3Checksum view = kraken_checksum_spec arr.
Proof.
  intros Hrel. eexists. split; [by apply GetBookView_spec|].
  unfold KrakenL3Checksum, kraken_checksum_spec. simpl Entries.
  change kKrakenChecksumLevels with 10. by rewrite !AppendTopLevels_view.
Qed.

Lemma VerifyChecksum_wp p arr cs meta :
  l3_rel p arr →
  wp (VerifyChecksum cs meta) p (λ cs' p', p' = p ∧
    cs' = if bool_decide (kraken_checksum_spec arr = checksum meta) then cs
          else l3_report kChecksumMismatch cs).
Proof.
  intros Hrel. destruct (KrakenL3Checksum_rel _ _ Hrel) as (view & Hv & Hc).
  unfold VerifyChecksum, wp, exec_bind, exec_lift. simpl. rewrite Hv. simpl. split; [done|].
  rewrite Hc. repeat case_bool_decide; done.
Qed.

Lemma updates_exposure_perm us1 us2 :
  us1 ≡ₚ us2 → updates_exposure us1 = updates_exposure us2.
Proof. induction 1; simpl; lia. Qed.

(** ** Messages *)

Definition kraken_exposure (us : list KrakenL3Update) : Z := updates_exposure (ku_update <$> us).

(** C10: a message applied to a well-formed Kraken book never throws while the
    quantities fit; the book then stands for the arrival list with the
    reordered updates applied, and the change set carries no issue only if the
    checksum sent is the CRC of that list's ten best levels per side, asks
    first, orders in arrival order. *)
Theorem KrakenL3Policy_ApplyBatch_checked us meta p arr :
  l3_rel p arr → exposure arr + kraken_exposure us <= i64_max → 0 <= l3_max_depth p →
  ∃ out p' cs,
    AddsInArrivalOrder us = Done out ∧
    KrakenL3Policy_ApplyBatch us meta p = (p', Done cs) ∧
    let new := l3_truncates (l3_max_depth p) (l3_applies arr out) in
    l3_rel p' new ∧
    (l3_integrity_issue cs = None →
     kraken_checksum_spec new = checksum meta ∧ orders_uncrossed p').
Proof.
  intros Hrel Hb Hd. destruct (AddsInArrivalOrder_placed us) as (out & Hrun & _ & _ & _ & Hp).
  unfold kraken_exposure in Hb. rewrite <-(updates_exposure_perm _ _ Hp) in Hb.
  destruct (proj1 (wp_run _ _ _) (L3Policy_ApplyBatch_wp out p arr Hrel Hb Hd))
    as (p' & cs & Hrun' & Hrel' & _ & _ & _ & Hcs).
  destruct (proj1 (wp_run _ _ _) (VerifyChecksum_wp _ _ cs meta Hrel'))
    as (p2 & cs2 & Hrun2 & -> & Hcs2).
  exists out, p', cs2. split; [done|]. split.
  { unfold KrakenL3Policy_ApplyBatch, exec_bind, exec_lift. by rewrite Hrun, Hrun'. }
  split; [done|]. intros Hnone. case_bool_decide as Hc; subst cs2.
  - split; [done|]. subst cs. by eapply l3_finish_uncrossed.
  - by apply ReportIssue_not_None in Hnone.
Qed.

Definition demo_kraken_updates : list KrakenL3Update :=
  [mkKrakenL3Update (mkL3Update kAdded 11 kBid 101 6) (B "2026-01-01T00:00:02Z");
   mkKrakenL3Update (mkL3Update kDeleted 2 kAsk 103 0) (B "2026-01-01T00:00:02Z");
   mkKrakenL3Update (mkL3Update kAdded 12 kBid 101 3) (B "2026-01-01T00:00:01Z")].

Lemma KrakenL3Policy_ApplyBatch_checked_witness :
  ∃ p' cs, KrakenL3Policy_ApplyBatch demo_kraken_updates (mkChecksumMeta 0) demo_l3_book =
      (p', Done cs) ∧
    Levels p' kBid = [(101, [12; 11]); (100, [1; 3])] ∧
    AddsInArrivalOrder demo_kraken_updates =
      Done [mkL3Update kAdded 12 kBid 101 3; mkL3Update kDeleted 2 kAsk 103 0;
            mkL3Update kAdded 11 kBid 101 6].
Proof.
  destruct (KrakenL3Policy_ApplyBatch_checked demo_kraken_updates (mkChecksumMeta 0)
    demo_l3_book demo_l3_arrivals demo_l3_rel) as (out & p' & cs & Ho & Hrun & Hrel & _);
    [vm_compute; discriminate..|].
  exists p', cs. split; [exact Hrun|]. vm_compute in Ho. injection Ho as <-.
  split; [|by vm_compute].
  rewrite (Levels_ladder _ _ kBid (rel_queues _ _ Hrel)). by vm_compute.
Defined.

(** The calls the engine makes on Kraken's policy. *)
Definition kraken_snapshot_call (_ : KrakenL3Policy) (m : exec KrakenL3Policy L3ChangeSet) : Prop :=
  ∃ snapshot meta, m = KrakenL3Policy_ApplySnapshot snapshot meta ∧
    updates_exposure (l3s_orders snapshot) <= i64_max.
Definition kraken_batch_call (p : KrakenL3Policy) (m : exec KrakenL3Policy L3ChangeSet) : Prop :=
  ∃ updates meta, m = KrakenL3Policy_ApplyBatch updates meta ∧
    book_exposure p + kraken_exposure updates <= i64_max.

Lemma VerifyChecksum_contract p cs meta :
  l3_inv p → (reported_issue cs = None → orders_uncrossed p) →
  wp (VerifyChecksum cs meta) p (λ cs' p',
    l3_inv p' ∧ (reported_issue cs' = None → orders_uncrossed p')).
Proof.
  intros Hinv Hg. pose proof Hinv as (_ & _ & arr & Hrel & _).
  eapply wp_mono; [by apply (VerifyChecksum_wp _ arr)|]. intros cs' p' [-> ->]. split; [done|].
  case_bool_decide; [done|]. unfold reported_issue. simpl. by intros ?%ReportIssue_not_None.
Qed.

#[export] Instance KrakenL3Policy_contract :
  PolicyContract KrakenL3Policy_Best kraken_snapshot_call kraken_batch_call l3_inv
    orders_uncrossed.
Proof.
  split.
  - intros p side (_ & _ & arr & Hrel & Hb). eexists. by apply (L3Policy_Best_spec _ arr).
  - intros m p (snapshot & meta & -> & Hb) Hinv. apply wp_bind.
    eapply wp_mono; [by apply L3_snapshot_contract|]. intros cs p' [H1 H2].
    by apply VerifyChecksum_contract.
  - intros m p (us & meta & -> & Hb) Hinv.
    destruct (AddsInArrivalOrder_placed us) as (out & Hrun & _ & _ & _ & Hp).
    unfold kraken_exposure in Hb. rewrite <-(updates_exposure_perm _ _ Hp) in Hb.
    apply wp_bind. eapply wp_lift; [done|]. apply wp_bind.
    eapply wp_mono; [by apply L3_batch_contract|]. intros cs p' [H1 H2].
    by apply VerifyChecksum_contract.
Qed.

(** A Kraken book, whatever it was fed, stays within the subscribed depth
    and, while [Ready], is not crossed. *)
Theorem KrakenL3_ready_uncrossed hooks d b :
  0 <= d →
  rtc (engine_step hooks KrakenL3Policy_Best kraken_snapshot_call kraken_batch_call)
    (new_OrderBook (new_KrakenL3Policy d)) b →
  within_depth (Book (ob_policy b)) ∧
  (ob_readiness b = kReady → orders_uncrossed (Book (ob_policy b))).
Proof.
  intros Hd Hsteps. eapply engine_inv_reachable in Hsteps as [Hinv Hg]; [|by apply l3_inv_init].
  split; [apply Hinv|done].
Qed.

Definition demo_kraken_meta : ChecksumMeta :=
  mkChecksumMeta (kraken_checksum_spec demo_l3_arrivals).

Definition demo_kraken_engine : OrderBook KrakenL3Policy :=
  (ApplySnapshot all_hooks KrakenL3Policy_Best
     (KrakenL3Policy_ApplySnapshot (mkL3Snapshot demo_l3_orders) demo_kraken_meta)
     (new_OrderBook (new_KrakenL3Policy 2))).1.

Lemma KrakenL3_ready_uncrossed_witness :
  ob_readiness demo_kraken_engine = kReady ∧
  within_depth (Book (ob_policy demo_kraken_engine)) ∧
  orders_uncrossed (Book (ob_policy demo_kraken_engine)).
Proof.
  split; [by vm_compute|].
  destruct (KrakenL3_ready_uncrossed all_hooks 2 demo_kraken_engine) as [H1 H2]; [lia| |].
  - apply rtc_once, (step_snapshot _ _ _ _ (KrakenL3Policy_ApplySnapshot
      (mkL3Snapshot demo_l3_orders) demo_kraken_meta) _ _ (Done tt)); [|by vm_compute].
    eexists _, _. split; [reflexivity|]. vm_compute. discriminate.
  - split; [exact H1|]. apply H2. by vm_compute.
Defined.
