(* ===== verification/FixMessage.v ===== *)
(** * FIX wire mechanics: [feed_handler/fix/fix_message.{h,cpp}]

    Building a message with its envelope, parsing one back, reading a repeating
    group and framing a byte stream. A [std::string_view] is the list of bytes
    it views; offsets into it are kept as the code keeps them. *)

From S2P Require Import Prelude Text.

Definition kSoh : byte := byte_of 1.
Definition kEquals : byte := byte_of 61.
Definition kBeginString : bytes := B "FIX.4.4".
Definition kCheckSumFieldSize : nat := 7.
Definition kMaxBodyLength : Z := 2 ^ 20.
Definition kMaxBodyLengthDigits : nat := 10.
Definition kCheckSumDigits : nat := 3.

(** ** Tags and message types *)

Module tag.
Definition kBeginString : Z := 8.
Definition kBodyLength : Z := 9.
Definition kCheckSum : Z := 10.
Definition kMsgType : Z := 35.
Definition kMsgSeqNum : Z := 34.
Definition kSenderCompId : Z := 49.
Definition kTargetCompId : Z := 56.
Definition kSendingTime : Z := 52.
Definition kPossDupFlag : Z := 43.
Definition kTestReqId : Z := 112.
Definition kEncryptMethod : Z := 98.
Definition kHeartBtInt : Z := 108.
Definition kRawData : Z := 96.
Definition kUsername : Z := 553.
Definition kPassword : Z := 554.
Definition kText : Z := 58.
Definition kSymbol : Z := 55.
Definition kNoRelatedSym : Z := 146.
Definition kMdReqId : Z := 262.
Definition kSubscriptionRequestType : Z := 263.
Definition kMarketDepth : Z := 264.
Definition kNoMdEntryTypes : Z := 267.
Definition kNoMdEntries : Z := 268.
Definition kMdEntryType : Z := 269.
Definition kMdEntryPx : Z := 270.
Definition kMdEntrySize : Z := 271.
Definition kMdEntryDate : Z := 272.
Definition kMdUpdateAction : Z := 279.
End tag.

Module msg_type.
Definition kHeartbeat : bytes := B "0".
Definition kTestRequest : bytes := B "1".
Definition kResendRequest : bytes := B "2".
Definition kReject : bytes := B "3".
Definition kSequenceReset : bytes := B "4".
Definition kLogout : bytes := B "5".
Definition kLogon : bytes := B "A".
Definition kMarketDataRequest : bytes := B "V".
Definition kMarketDataRequestReject : bytes := B "Y".
Definition kMarketDataSnapshotFullRefresh : bytes := B "W".
Definition kMarketDataIncrementalRefresh : bytes := B "X".
End msg_type.

(** ** Fields *)

(** [Field] and [FieldView]: a tag and its value. *)
Record Field := mkField { f_tag : Z; f_value : bytes }.

#[export] Instance Field_eq_dec : EqDecision Field.
Proof. solve_decision. Defined.

Record SessionHeader := mkSessionHeader {
  sh_msg_type : bytes;
  sh_sender_comp_id : bytes;
  sh_target_comp_id : bytes;
  sh_msg_seq_num : Z;
  sh_sending_time : bytes;
}.

Definition int_min : Z := - 2 ^ 31.
Definition int_max : Z := 2 ^ 31 - 1.

Definition BeginStringPrefix : bytes := B "8=" ++ kBeginString ++ [kSoh].

Definition ChecksumField (digits : bytes) : bytes := B "10=" ++ digits ++ [kSoh].

Definition ToInt (value : bytes) : option Z :=
  match value with
  | [] => None
  | _ => match from_chars i64_min i64_max value with
         | Some (parsed, []) => Some parsed
         | _ => None
         end
  end.

Fixpoint FirstValue (fields : list Field) (tag_number : Z) : option bytes :=
  match fields with
  | [] => None
  | one :: fields => if f_tag one =? tag_number then Some (f_value one)
                     else FirstValue fields tag_number
  end.

(** [view.find(c)]. *)
Fixpoint find_byte (c : byte) (l : bytes) : option nat :=
  match l with
  | [] => None
  | x :: l => if decide (x = c) then Some 0%nat else S <$> find_byte c l
  end.

Record ScannedField := mkScannedField {
  sf_tag : Z;
  sf_value : bytes;
  sf_next : nat;
}.

Definition ScanField (raw : bytes) (offset : nat) : expected bytes ScannedField :=
  let rest := drop offset raw in
  match find_byte kEquals rest with
  | None => Unexpected (B "fix: field has no '=' separator")
  | Some equals =>
      if decide (equals = 0%nat) then Unexpected (B "fix: field has an empty tag")
      else if negb (forallb is_digit (take equals rest))
      then Unexpected (B "fix: field tag is not a number")
      else
        match from_chars int_min int_max (take equals rest) with
        | None => Unexpected (B "fix: field tag does not fit in an int")
        | Some (tag_number, _) =>
            let after := drop (S equals) rest in
            match find_byte kSoh after with
            | None => Unexpected (B "fix: field is not SOH-terminated")
            | Some terminator =>
                Expected (mkScannedField tag_number (take terminator after)
                            (offset + S equals + S terminator)%nat)
            end
        end
  end.

(** ** Building *)

(** The sum is an [unsigned], 32 bits. *)
Definition FormatChecksum (data : bytes) : bytes :=
  let sum := foldl (λ sum c, wrap 32 (sum + byte_val c)) 0 data mod 256 in
  [digit (sum / 100 mod 10); digit (sum / 10 mod 10); digit (sum mod 10)].

Definition render_field (one : Field) : bytes :=
  to_string (f_tag one) ++ [kEquals] ++ f_value one ++ [kSoh].

Definition render_body (fields : list Field) : bytes := concat (render_field <$> fields).

Definition BuildMessage (fields : list Field) : bytes :=
  let body := render_body fields in
  let message := BeginStringPrefix ++ B "9=" ++ to_string (Z.of_nat (length body)) ++ [kSoh] ++ body in
  message ++ ChecksumField (FormatChecksum message).

Definition header_fields (header : SessionHeader) : list Field :=
  [mkField tag.kMsgType (sh_msg_type header);
   mkField tag.kSenderCompId (sh_sender_comp_id header);
   mkField tag.kTargetCompId (sh_target_comp_id header);
   mkField tag.kMsgSeqNum (to_string (sh_msg_seq_num header));
   mkField tag.kSendingTime (sh_sending_time header)].

(** The overload that renders a session header first. *)
Definition BuildSessionMessage (header : SessionHeader) (body : list Field) : bytes :=
  BuildMessage (header_fields header ++ body).

(** ** Parsing *)

Record ParsedMessage := mkParsedMessage {
  pm_fields : list Field;
  pm_msg_type : bytes;
}.

Definition Fields (m : ParsedMessage) : list Field := pm_fields m.
Definition MsgType (m : ParsedMessage) : bytes := pm_msg_type m.

Definition BodyFields (m : ParsedMessage) : list Field :=
  if (length (pm_fields m) <=? 3)%nat then []
  else take (length (pm_fields m) - 3) (drop 2 (pm_fields m)).

Definition Get (m : ParsedMessage) (tag_number : Z) : option bytes :=
  FirstValue (pm_fields m) tag_number.

Definition GetInt (m : ParsedMessage) (tag_number : Z) : option Z :=
  match Get m tag_number with Some value => ToInt value | None => None end.

Definition Count (m : ParsedMessage) (tag_number : Z) : nat :=
  length (filter (λ one, f_tag one = tag_number) (pm_fields m)).

(** The locals of [ParseMessage]'s loop. *)
Record parse_state := mkParseState {
  ps_message : ParsedMessage;
  ps_offset : nat;
  ps_check_sum_offset : nat;
  ps_check_sum_value : bytes;
}.

Definition push_field (m : ParsedMessage) (tag : Z) (value : bytes) : ParsedMessage :=
  mkParsedMessage (pm_fields m ++ [mkField tag value]) (pm_msg_type m).

Definition set_msg_type (m : ParsedMessage) (value : bytes) : ParsedMessage :=
  mkParsedMessage (pm_fields m) value.

(** The loop that scans body fields up to the CheckSum. [fuel] bounds the turns;
    every field is at least two bytes long. *)
Fixpoint parse_fields (fuel : nat) (raw : bytes) (st : parse_state)
  : expected bytes parse_state :=
  match fuel with
  | O => Unexpected (B "model: out of fuel")
  | S fuel =>
      if (ps_offset st <? length raw)%nat then
        let? one := ScanField raw (ps_offset st) in
        let message := ps_message st in
        if sf_tag one =? tag.kCheckSum then
          Expected (mkParseState (push_field message (sf_tag one) (sf_value one))
                      (sf_next one) (ps_offset st) (sf_value one))
        else if bool_decide (length (pm_fields message) = 2%nat) && negb (sf_tag one =? tag.kMsgType)
        then Unexpected (B "fix: MsgType(35) is not the first body field")
        else
          let message := if sf_tag one =? tag.kMsgType then set_msg_type message (sf_value one)
                         else message in
          parse_fields fuel raw
            (mkParseState (push_field message (sf_tag one) (sf_value one)) (sf_next one)
               (ps_check_sum_offset st) (ps_check_sum_value st))
      else Expected st
  end.

(** The checks after the loop. *)
Definition check_envelope (raw : bytes) (body_start : nat) (declared_body_length : Z)
    (st : parse_state) : expected bytes ParsedMessage :=
  if decide (ps_check_sum_offset st = 0%nat)
  then Unexpected (B "fix: message has no CheckSum(10) field")
  else if bool_decide (ps_offset st ≠ length raw)
  then Unexpected (B "fix: trailing bytes after CheckSum(10)")
  else if decide (pm_msg_type (ps_message st) = [])
  then Unexpected (B "fix: message has no MsgType(35) field")
  else
    let actual_body_length := Z.of_nat (ps_check_sum_offset st) - Z.of_nat body_start in
    if negb (declared_body_length =? actual_body_length) then
      Unexpected (B "fix: BodyLength(9) says " ++ to_string declared_body_length ++
                  B " but the body is " ++ to_string actual_body_length ++ B " bytes")
    else if bool_decide (length (ps_check_sum_value st) ≠ kCheckSumDigits)
    then Unexpected (B "fix: CheckSum(10) is not exactly three digits")
    else
      let expected := FormatChecksum (take (ps_check_sum_offset st) raw) in
      if bool_decide (ps_check_sum_value st ≠ expected)
      then Unexpected (B "fix: CheckSum(10) mismatch, computed " ++ expected)
      else Expected (ps_message st).

Definition ParseMessage (raw : bytes) : expected bytes ParsedMessage :=
  let? begin_string := ScanField raw 0 in
  if negb (sf_tag begin_string =? tag.kBeginString)
  then Unexpected (B "fix: message does not start with BeginString(8)")
  else if bool_decide (sf_value begin_string ≠ kBeginString)
  then Unexpected (B "fix: unsupported BeginString, expected FIX.4.4")
  else
    let? body_length := ScanField raw (sf_next begin_string) in
    if negb (sf_tag body_length =? tag.kBodyLength)
    then Unexpected (B "fix: BodyLength(9) does not follow BeginString(8)")
    else
      match from_chars 0 u64_max (sf_value body_length) with
      | Some (declared_body_length, []) =>
          let message := mkParsedMessage
            [mkField (sf_tag begin_string) (sf_value begin_string);
             mkField (sf_tag body_length) (sf_value body_length)] [] in
          let body_start := sf_next body_length in
          let? st := parse_fields (S (length raw)) raw (mkParseState message body_start 0 []) in
          check_envelope raw body_start declared_body_length st
      | _ => Unexpected (B "fix: BodyLength(9) is not a number")
      end.

(** ** Repeating groups *)

(** [GroupEntry] is the list of its fields. *)
Record RepeatingGroup := mkRepeatingGroup {
  entries : list (list Field);
  declared_count : Z;
}.

Definition Truncated (g : RepeatingGroup) : bool := Z.of_nat (length (entries g)) <? declared_count g.

Definition GroupEntry_Get (entry : list Field) (tag_number : Z) : option bytes :=
  FirstValue entry tag_number.

Definition GroupEntry_GetInt (entry : list Field) (tag_number : Z) : option Z :=
  match GroupEntry_Get entry tag_number with Some value => ToInt value | None => None end.

(** [std::ranges::find_if] for a tag: the position of the first match. *)
Fixpoint find_tag (tag_number : Z) (fields : list Field) : option nat :=
  match fields with
  | [] => None
  | one :: fields =>
      if f_tag one =? tag_number then Some 0%nat else S <$> find_tag tag_number fields
  end.

Definition is_member (member_tags : list Z) (tag_number : Z) : bool :=
  bool_decide (tag_number ∈ member_tags).

(** The scan for the repetitions' starts; [rest] are the fields from [offset] on. *)
Fixpoint scan_entry_starts (member_tags : list Z) (delimiter declared : Z) (rest : list Field)
    (offset : nat) (entry_starts : list nat) : list nat * nat :=
  match rest with
  | [] => (entry_starts, offset)
  | one :: rest =>
      if negb (is_member member_tags (f_tag one)) then (entry_starts, offset)
      else if f_tag one =? delimiter then
        if Z.of_nat (length entry_starts) =? declared then (entry_starts, offset)
        else scan_entry_starts member_tags delimiter declared rest (S offset)
               (entry_starts ++ [offset])
      else scan_entry_starts member_tags delimiter declared rest (S offset) entry_starts
  end.

(** One span per start, up to the next start or [offset]. *)
Fixpoint cut_entries (fields : list Field) (entry_starts : list nat) (offset : nat)
  : list (list Field) :=
  match entry_starts with
  | [] => []
  | start :: entry_starts =>
      let stop := default offset (head entry_starts) in
      take (stop - start) (drop start fields) :: cut_entries fields entry_starts offset
  end.

Definition ReadGroup (message : ParsedMessage) (count_tag : Z) (member_tags : list Z)
  : expected bytes RepeatingGroup :=
  let fields := BodyFields message in
  match find_tag count_tag fields with
  | None => Unexpected (B "fix: message has no NumInGroup field " ++ to_string count_tag)
  | Some count_at =>
      match ToInt (default [] (f_value <$> fields !! count_at)) with
      | Some declared =>
          if declared <? 0 then
            Unexpected (B "fix: NumInGroup field " ++ to_string count_tag ++
                        B " is not a non-negative integer")
          else if declared =? 0 then Expected (mkRepeatingGroup [] declared)
          else
            let group_start := S count_at in
            match fields !! group_start with
            | None => Expected (mkRepeatingGroup [] declared)
            | Some first =>
                if negb (is_member member_tags (f_tag first))
                then Expected (mkRepeatingGroup [] declared)
                else
                  let '(entry_starts, offset) :=
                    scan_entry_starts member_tags (f_tag first) declared
                      (drop group_start fields) group_start [] in
                  Expected (mkRepeatingGroup (cut_entries fields entry_starts offset) declared)
            end
      | None =>
          Unexpected (B "fix: NumInGroup field " ++ to_string count_tag ++
                      B " is not a non-negative integer")
      end
  end.

(** ** Framing *)

Record Framer := mkFramer {
  fr_buffer : bytes;
  fr_error : bytes;
  fr_consumed : nat;
  fr_max_body_length : Z;
  fr_messages_framed : Z;
}.

Definition new_Framer (max_body_length : Z) : Framer := mkFramer [] [] 0 max_body_length 0.

Definition Good (f : Framer) : bool := bool_decide (fr_error f = []).
Definition BufferedBytes (f : Framer) : nat := (length (fr_buffer f) - fr_consumed f)%nat.
Definition MessagesFramed (f : Framer) : Z := fr_messages_framed f.

Definition Compact (f : Framer) : Framer :=
  if decide (fr_consumed f = 0%nat) then f
  else mkFramer (drop (fr_consumed f) (fr_buffer f)) (fr_error f) 0 (fr_max_body_length f)
         (fr_messages_framed f).

Definition Append (data : bytes) (f : Framer) : Framer :=
  let f := Compact f in
  mkFramer (fr_buffer f ++ data) (fr_error f) (fr_consumed f) (fr_max_body_length f)
    (fr_messages_framed f).

Definition Framer_Fail (reason : bytes) (f : Framer) : Framer :=
  mkFramer (fr_buffer f) (if decide (fr_error f = []) then reason else fr_error f)
    (fr_consumed f) (fr_max_body_length f) (fr_messages_framed f).

(** What the head of the unread bytes amounts to. *)
Inductive head_scan : Type :=
| NeedMore
| Malformed (reason : bytes)
| Framed (total : nat).

(** The BodyLength digits: [index] digits of the field are read, [body_length]
    is their value, [rest] are the bytes from there on. *)
Fixpoint scan_body_length (max_body_length : Z) (rest : bytes) (index : nat) (body_length : Z)
  : sum head_scan (nat * Z) :=
  match rest with
  | [] => inl NeedMore
  | c :: rest =>
      if decide (c = kSoh) then inr (index, body_length)
      else if negb (is_digit c) || (kMaxBodyLengthDigits <=? index)%nat
      then inl (Malformed (B "fix: BodyLength(9) is not a number"))
      else
        let body_length := body_length * 10 + digit_val c in
        if max_body_length <? body_length
        then inl (Malformed (B "fix: BodyLength(9) exceeds the maximum accepted message size"))
        else scan_body_length max_body_length rest (S index) body_length
  end.

(** [NextMessage]'s look at [view], without its effects. *)
Definition scan_head (max_body_length : Z) (view : bytes) : head_scan :=
  if decide (view = []) then NeedMore
  else
    let prefix := BeginStringPrefix in
    let comparable := (length view `min` length prefix)%nat in
    if bool_decide (take comparable view ≠ take comparable prefix)
    then Malformed (B "fix: stream does not start with 8=FIX.4.4")
    else if (length view <? length prefix + 2)%nat then NeedMore
    else if bool_decide (take 2 (drop (length prefix) view) ≠ B "9=")
    then Malformed (B "fix: BodyLength(9) does not follow BeginString(8)")
    else
      let digits_start := (length prefix + 2)%nat in
      match scan_body_length max_body_length (drop digits_start view) 0 0 with
      | inl r => r
      | inr (count, body_length) =>
          if decide (count = 0%nat) then Malformed (B "fix: BodyLength(9) is empty")
          else
            let body_start := (digits_start + count + 1)%nat in
            let total := (body_start + Z.to_nat body_length + kCheckSumFieldSize)%nat in
            if (length view <? total)%nat then NeedMore
            else if bool_decide (take 3 (drop (body_start + Z.to_nat body_length) view) ≠ B "10=")
                 || bool_decide (view !! (total - 1)%nat ≠ Some kSoh)
            then Malformed (B "fix: no CheckSum(10) field where BodyLength(9) says the body ends")
            else Framed total
      end.

Definition NextMessage (f : Framer) : Framer * option bytes :=
  if negb (Good f) then (f, None)
  else
    let view := drop (fr_consumed f) (fr_buffer f) in
    match scan_head (fr_max_body_length f) view with
    | NeedMore => (f, None)
    | Malformed reason => (Framer_Fail reason f, None)
    | Framed total =>
        (mkFramer (fr_buffer f) (fr_error f) (fr_consumed f + total) (fr_max_body_length f)
           (incr64 (fr_messages_framed f)),
         Some (take total view))
    end.
