(* ===== verification/FixRoundTrip.v ===== *)
(** * Building and parsing FIX messages

    What [BuildMessage] renders, [ParseMessage] reads back; and what
    [ParseMessage] accepts carries a BodyLength and a CheckSum that are those
    of its bytes. *)

From S2P Require Import Prelude Text FixMessage.

(** ** Finding a byte *)

Lemma find_byte_app c pre post :
  c ∉ pre → find_byte c (pre ++ c :: post) = Some (length pre).
Proof.
  induction pre as [|x pre IH]; intros Hc; simpl; [by rewrite decide_True|].
  rewrite decide_False by set_solver. rewrite IH by set_solver. done.
Qed.

Lemma find_byte_Some c l n :
  find_byte c l = Some n → l = take n l ++ c :: drop (S n) l ∧ c ∉ take n l.
Proof.
  revert n. induction l as [|x l IH]; intros n Hn; [done|]. simpl in Hn. case_decide as Hx.
  - simplify_eq. simpl. rewrite drop_0. split; [done|set_solver].
  - destruct (find_byte c l) as [m|] eqn:Hm; [|done]. simpl in Hn. injection Hn as <-.
    destruct (IH m eq_refl) as [IH1 IH2]. simpl. split; [by f_equal|]. set_solver.
Qed.

Lemma find_byte_lt c l n : find_byte c l = Some n → (n < length l)%nat.
Proof.
  intros [H _]%find_byte_Some. apply (f_equal length) in H.
  rewrite length_app, length_take in H. simpl in H. lia.
Qed.

(** ** One field *)

Definition sendable (one : Field) : Prop := 0 <= f_tag one <= int_max ∧ kSoh ∉ f_value one.
#[export] Instance sendable_dec one : Decision (sendable one).
Proof. unfold sendable. apply _. Defined.

Lemma digit_byte_ne c z : is_digit c = true → byte_val z < 48 ∨ 57 < byte_val z → c ≠ z.
Proof. unfold is_digit. intros H1 H2 ->. lia. Qed.

Lemma to_string_digits n : 0 <= n → Forall (λ c, is_digit c = true) (to_string n).
Proof.
  intros Hn. unfold to_string. rewrite (proj2 (Z.ltb_ge _ _)) by done.
  by apply digits_all_digits.
Qed.

Lemma to_string_nonempty n : 0 <= n → to_string n ≠ [].
Proof.
  intros Hn. unfold to_string. rewrite (proj2 (Z.ltb_ge _ _)) by done.
  by apply digits_nonempty.
Qed.

Lemma to_string_equals n : 0 <= n → kEquals ∉ to_string n.
Proof.
  intros Hn Hin. pose proof (to_string_digits n Hn) as Hall.
  rewrite Forall_forall in Hall. by apply Hall in Hin.
Qed.

Lemma to_string_soh n : 0 <= n → kSoh ∉ to_string n.
Proof.
  intros Hn Hin. pose proof (to_string_digits n Hn) as Hall.
  rewrite Forall_forall in Hall. by apply Hall in Hin.
Qed.

Lemma forallb_Forall_true {A} (f : A → bool) l : Forall (λ x, f x = true) l → forallb f l = true.
Proof. induction 1 as [|x l Hx _ IH]; simpl; [done|]. by rewrite Hx. Qed.

(** A rendered field is scanned back, wherever it stands. *)
Lemma ScanField_render pre one post :
  sendable one →
  ScanField (pre ++ render_field one ++ post) (length pre) =
    Expected (mkScannedField (f_tag one) (f_value one) (length pre + length (render_field one))).
Proof.
  intros [Htag Hval]. unfold ScanField. rewrite drop_app_length.
  unfold render_field. rewrite <-!app_assoc. cbn [app].
  pose proof (to_string_equals _ (proj1 Htag)) as Heq. rewrite find_byte_app by done.
  rewrite decide_False by (intros H%nil_length_inv; by apply (to_string_nonempty (f_tag one) (proj1 Htag))).
  rewrite take_app_length. rewrite forallb_Forall_true by (apply to_string_digits; lia). cbn [negb].
  rewrite <-(app_nil_r (to_string (f_tag one))) at 1.
  rewrite from_chars_to_string; [|unfold int_min, int_max in *; lia..|done].
  replace (drop (S (length (to_string (f_tag one)))) _) with (f_value one ++ kSoh :: post).
  2:{ rewrite (cons_middle kEquals), app_assoc. symmetry. apply drop_app_length'.
      rewrite length_app. simpl. lia. }
  rewrite find_byte_app by done. rewrite take_app_length. do 2 f_equal.
  rewrite !length_app. simpl. rewrite length_app. simpl. lia.
Qed.

Lemma ToInt_to_string n : 0 <= n <= i64_max → ToInt (to_string n) = Some n.
Proof.
  intros Hn. unfold ToInt. pose proof (to_string_nonempty n ltac:(lia)).
  destruct (to_string n) as [|c l] eqn:Hs; [done|]. rewrite <-Hs.
  rewrite <-(app_nil_r (to_string n)).
  rewrite from_chars_to_string; [done|unfold i64_max, i64_min in *; lia..|done].
Qed.

(** ** The body loop *)

Definition mtype (fields : list Field) (start : bytes) : bytes :=
  foldl (λ mt one, if f_tag one =? tag.kMsgType then f_value one else mt) start fields.

Lemma mtype_cons one fields mt :
  mtype (one :: fields) mt = mtype fields (if f_tag one =? tag.kMsgType then f_value one else mt).
Proof. done. Qed.

Lemma render_body_cons one fields : render_body (one :: fields) = render_field one ++ render_body fields.
Proof. done. Qed.

Lemma render_field_length one : (2 <= length (render_field one))%nat.
Proof. unfold render_field. rewrite !length_app. simpl. lia. Qed.

Lemma parse_fields_body fuel pre fields check msg cso csv :
  Forall sendable fields → Forall (λ one, f_tag one ≠ tag.kCheckSum) fields →
  sendable check → f_tag check = tag.kCheckSum →
  (length (pm_fields msg) = 2%nat → ∀ one, head fields = Some one → f_tag one = tag.kMsgType) →
  (2 <= length (pm_fields msg))%nat → (length fields < fuel)%nat →
  let raw := pre ++ render_body fields ++ render_field check in
  parse_fields fuel raw (mkParseState msg (length pre) cso csv) =
    Expected (mkParseState
      (mkParsedMessage (pm_fields msg ++ fields ++ [check]) (mtype fields (pm_msg_type msg)))
      (length raw) (length pre + length (render_body fields)) (f_value check)).
Proof.
  revert fuel pre msg. induction fields as [|one fields IH];
    intros fuel pre msg Hs Hcs Hc Hct Hfirst Hlen Hfuel raw;
    (destruct fuel as [|fuel]; [simpl in Hfuel; lia|]); cbn [parse_fields ps_offset].
  - pose proof (render_field_length check).
    replace (length pre <? length raw)%nat with true
      by (symmetry; apply Nat.ltb_lt; subst raw; rewrite !length_app; lia).
    subst raw. cbn [render_body fmap list_fmap concat app].
    rewrite <-(app_nil_r (render_field check)) at 1. rewrite ScanField_render by done.
    cbn [expected_bind sf_tag sf_value sf_next]. rewrite Hct. cbn. destruct check as [t v].
    simpl in Hct. subst t. unfold push_field. simpl. rewrite Nat.add_0_r, (length_app pre). reflexivity.
  - apply Forall_cons in Hs as [Hs1 Hs]. apply Forall_cons in Hcs as [Hcs1 Hcs].
    pose proof (render_field_length one).
    replace (length pre <? length raw)%nat with true
      by (symmetry; apply Nat.ltb_lt; subst raw; rewrite render_body_cons, !length_app; lia).
    subst raw. rewrite render_body_cons, <-app_assoc. rewrite ScanField_render by done.
    cbn [expected_bind sf_tag sf_value sf_next ps_message].
    rewrite (proj2 (Z.eqb_neq _ _) Hcs1).
    replace (bool_decide (length (pm_fields msg) = 2%nat) && negb (f_tag one =? tag.kMsgType))
      with false.
    2:{ symmetry. case_bool_decide as H2; [|done]. rewrite (Hfirst H2 one eq_refl). done. }
    replace (length pre + length (render_field one))%nat with (length (pre ++ render_field one))
      by (by rewrite length_app).
    replace (pre ++ render_field one ++ render_body fields ++ render_field check)
      with ((pre ++ render_field one) ++ render_body fields ++ render_field check)
      by (by rewrite <-app_assoc).
    rewrite IH; [|done..|idtac|idtac|simpl in Hfuel; lia].
    + unfold push_field. rewrite mtype_cons. destruct one as [t v]; simpl. rewrite !length_app.
      destruct (t =? tag.kMsgType); simpl; rewrite <-!app_assoc; simpl; f_equal; f_equal; lia.
    + unfold push_field. simpl. intros H2. rewrite length_app in H2. simpl in H2.
      destruct (_ =? _); simpl in *; lia.
    + unfold push_field. simpl. rewrite length_app. destruct (_ =? _); simpl; lia.
Qed.

Lemma mtype_absent fields mt :
  Forall (λ one, f_tag one ≠ tag.kMsgType) fields → mtype fields mt = mt.
Proof.
  intros H. revert mt. induction H as [|one fields Hone _ IH]; intros mt; [done|].
  unfold mtype in *. simpl. rewrite (proj2 (Z.eqb_neq _ _) Hone). apply IH.
Qed.

Lemma FormatChecksum_digits data :
  length (FormatChecksum data) = 3%nat ∧ Forall (λ c, is_digit c = true) (FormatChecksum data).
Proof.
  unfold FormatChecksum. split; [done|].
  repeat constructor; apply digit_is_digit, Z.mod_pos_bound; lia.
Qed.

Lemma ChecksumField_render data :
  ChecksumField (FormatChecksum data) = render_field (mkField tag.kCheckSum (FormatChecksum data)).
Proof. done. Qed.

Lemma checksum_sendable data : sendable (mkField tag.kCheckSum (FormatChecksum data)).
Proof.
  split; [by vm_compute|]. simpl. intros Hin.
  pose proof (proj2 (FormatChecksum_digits data)) as Hall. rewrite Forall_forall in Hall.
  by apply Hall in Hin.
Qed.

(** The envelope fields of a built message. *)
Definition begin_field : Field := mkField tag.kBeginString kBeginString.
Definition length_field (fields : list Field) : Field :=
  mkField tag.kBodyLength (to_string (Z.of_nat (length (render_body fields)))).
Definition envelope (fields : list Field) : bytes :=
  render_field begin_field ++ render_field (length_field fields).
Definition check_field (fields : list Field) : Field :=
  mkField tag.kCheckSum (FormatChecksum (envelope fields ++ render_body fields)).

Lemma BuildMessage_shape fields :
  BuildMessage fields = envelope fields ++ render_body fields ++ render_field (check_field fields).
Proof.
  unfold BuildMessage, envelope, check_field. rewrite ChecksumField_render, (app_assoc _ (render_body fields)).
  f_equal.
  - unfold render_field. simpl. by rewrite <-!app_assoc.
  - unfold render_field. simpl. by rewrite <-!app_assoc.
Qed.

Lemma begin_field_sendable : sendable begin_field.
Proof. split; [by vm_compute|]. by apply (bool_decide_unpack _). Qed.

Lemma length_field_sendable fields : sendable (length_field fields).
Proof. split; [by vm_compute|]. simpl. apply to_string_soh. lia. Qed.

(** ** The round trip *)

(** What the session layer hands to [BuildMessage]. *)
Definition outgoing (fields : list Field) : Prop :=
  match fields with
  | [] => False
  | first :: rest =>
      f_tag first = tag.kMsgType ∧ f_value first ≠ [] ∧
      Forall (λ one, f_tag one ≠ tag.kCheckSum ∧ f_tag one ≠ tag.kMsgType) rest
  end ∧ Forall sendable fields ∧ Z.of_nat (length (render_body fields)) <= u64_max.

Lemma ScanField_begin fields :
  ScanField (BuildMessage fields) 0 =
    Expected (mkScannedField tag.kBeginString kBeginString (length (render_field begin_field))).
Proof.
  rewrite BuildMessage_shape. unfold envelope. rewrite <-app_assoc.
  apply (ScanField_render [] begin_field), begin_field_sendable.
Qed.

Lemma ScanField_length fields :
  ScanField (BuildMessage fields) (length (render_field begin_field)) =
    Expected (mkScannedField tag.kBodyLength
      (to_string (Z.of_nat (length (render_body fields)))) (length (envelope fields))).
Proof.
  rewrite BuildMessage_shape. unfold envelope. rewrite <-app_assoc.
  rewrite (ScanField_render (render_field begin_field) (length_field fields))
    by apply length_field_sendable.
  by rewrite length_app.
Qed.

Lemma body_length_number n :
  0 <= n <= u64_max → from_chars 0 u64_max (to_string n) = Some (n, []).
Proof.
  intros Hn. rewrite <-(app_nil_r (to_string n)).
  apply from_chars_to_string; [unfold u64_max in *; lia|done|done].
Qed.

Lemma check_envelope_built fields m :
  pm_msg_type m ≠ [] →
  let raw := BuildMessage fields in
  check_envelope raw (length (envelope fields)) (Z.of_nat (length (render_body fields)))
    (mkParseState m (length raw) (length (envelope fields) + length (render_body fields))
       (f_value (check_field fields))) = Expected m.
Proof.
  intros Hm raw. unfold check_envelope. cbn [ps_check_sum_offset ps_offset ps_message ps_check_sum_value].
  assert (2 <= length (envelope fields))%nat.
  { unfold envelope. rewrite length_app. pose proof (render_field_length begin_field). lia. }
  rewrite decide_False by lia. rewrite bool_decide_eq_false_2 by auto.
  rewrite decide_False by done. rewrite (proj2 (Z.eqb_eq _ _)) by lia. cbn [negb].
  rewrite bool_decide_eq_false_2 by (intros H'; apply H', FormatChecksum_digits).
  rewrite bool_decide_eq_false_2; [done|]. intros Hne. apply Hne. unfold check_field.
  cbn [f_value]. f_equal. symmetry. unfold raw. rewrite BuildMessage_shape, app_assoc. apply take_app_length'.
  by rewrite length_app.
Qed.

Lemma length_render_body fields : (length fields <= length (render_body fields))%nat.
Proof.
  induction fields as [|one fields IH]; [done|]. rewrite render_body_cons, length_app.
  pose proof (render_field_length one). simpl. lia.
Qed.

Lemma ParseMessage_built fields :
  outgoing fields →
  ParseMessage (BuildMessage fields) = Expected
    (mkParsedMessage ([begin_field; length_field fields] ++ fields ++ [check_field fields])
       (default [] (f_value <$> head fields))).
Proof.
  intros ([Hshape Hsend] & Hlen)%and_assoc. destruct fields as [|first rest]; [done|].
  destruct Hshape as (Htag & Hval & Hrest). set (fields := first :: rest) in *.
  unfold ParseMessage. rewrite ScanField_begin. cbn [expected_bind sf_tag sf_value sf_next].
  cbn [Z.eqb tag.kBeginString Pos.eqb negb]. rewrite bool_decide_eq_false_2 by auto.
  rewrite ScanField_length. cbn [expected_bind sf_tag sf_value sf_next].
  cbn [Z.eqb tag.kBodyLength Pos.eqb negb]. rewrite body_length_number by lia.
  rewrite BuildMessage_shape at 1 2.
  rewrite (parse_fields_body _ (envelope fields) fields (check_field fields)).
  - cbn [expected_bind]. rewrite <-BuildMessage_shape. rewrite check_envelope_built.
    + f_equal. unfold fields. rewrite mtype_cons, Htag, mtype_absent; [done|].
      eapply Forall_impl; [done|]. by intros ? [].
    + unfold fields. cbn [pm_msg_type]. rewrite mtype_cons, Htag, mtype_absent; [done|].
      eapply Forall_impl; [done|]. by intros ? [].
  - done.
  - unfold fields. constructor; [by rewrite Htag|]. eapply Forall_impl; [done|]. by intros ? [].
  - apply checksum_sendable.
  - done.
  - intros _ one [= <-]. done.
  - simpl. lia.
  - rewrite !length_app. pose proof (length_render_body fields). lia.
Qed.

(** C23: parsing what [BuildMessage] rendered gives back exactly the fields it
    was given, in order, between the envelope's own; whatever bytes other than
    SOH the values hold, [=] included. *)
Theorem ParseMessage_BuildMessage fields :
  outgoing fields →
  ∃ m, ParseMessage (BuildMessage fields) = Expected m ∧
    BodyFields m = fields ∧ Some (MsgType m) = f_value <$> head fields.
Proof.
  intros Hout. eexists. split; [by apply ParseMessage_built|]. split.
  - unfold BodyFields. cbn [pm_fields]. rewrite !length_app. simpl length.
    destruct fields as [|first rest]; [by destruct Hout|].
    replace (_ <=? 3)%nat with false by (symmetry; apply Nat.leb_gt; simpl; lia).
    rewrite (drop_app_length' [_; _]) by done. apply take_app_length'. simpl. lia.
  - simpl. destruct fields as [|first rest]; [by destruct Hout|]. done.
Qed.

Definition demo_fields : list Field :=
  [mkField 35 (B "A"); mkField 96 (B "cmF3PT0="); mkField 58 []].

Lemma demo_fields_outgoing : outgoing demo_fields.
Proof. split; [|split]; [repeat constructor; done| |vm_compute; discriminate].
  apply (bool_decide_unpack _). by vm_compute. Qed.

Lemma ParseMessage_BuildMessage_witness :
  ∃ m, ParseMessage (BuildMessage demo_fields) = Expected m ∧
    BodyFields m = demo_fields ∧ Some (MsgType m) = Some (B "A").
Proof. exact (ParseMessage_BuildMessage demo_fields demo_fields_outgoing). Defined.
