(* ===== verification/FixSound.v ===== *)
(** * What [ParseMessage] accepts

    Every accepted message is a run of [tag=value<SOH>] texts whose BodyLength
    and CheckSum are those of the bytes received; and the field loop always
    ends. *)

From S2P Require Import Prelude Text FixMessage FixRoundTrip.

(** The text of a field: a decimal tag, perhaps with leading zeros, and a value
    without SOH. *)
Definition reads (text : bytes) (one : Field) : Prop :=
  ∃ t, text = t ++ kEquals :: f_value one ++ [kSoh] ∧ t ≠ [] ∧
    Forall (λ c, is_digit c = true) t ∧ digits_val t = f_tag one ∧ kSoh ∉ f_value one.

Lemma forallb_Forall_inv {A} (f : A → bool) l : forallb f l = true → Forall (λ x, f x = true) l.
Proof.
  induction l as [|x l IH]; simpl; [constructor|]. intros [Hx Hl]%andb_prop. by constructor; auto.
Qed.

Lemma from_chars_digits lo hi t v rest :
  Forall (λ c, is_digit c = true) t → from_chars lo hi t = Some (v, rest) →
  digits_val t = v ∧ rest = [].
Proof.
  intros Hall. unfold from_chars. destruct t as [|c t].
  { done. }
  assert (byte_val c ≠ 45) as Hc by (apply Forall_inv in Hall; unfold is_digit in Hall; lia).
  rewrite (proj2 (Z.eqb_neq _ _) Hc), andb_false_r.
  rewrite <-(app_nil_r (c :: t)) at 1. rewrite span_digits_app by done.
  rewrite decide_False by done. destruct (_ && _); [|done]. by intros [= <- <-].
Qed.

Lemma ScanField_inv raw offset sf :
  ScanField raw offset = Expected sf →
  ∃ text, drop offset raw = text ++ drop (sf_next sf) raw ∧
    sf_next sf = (offset + length text)%nat ∧ (2 <= length text)%nat ∧
    reads text (mkField (sf_tag sf) (sf_value sf)).
Proof.
  unfold ScanField. set (rest := drop offset raw).
  destruct (find_byte kEquals rest) as [n|] eqn:Hn; [|done].
  destruct (decide (n = 0%nat)) as [|Hn0]; [done|].
  destruct (forallb is_digit (take n rest)) eqn:Hd; cbn [negb]; [|done].
  destruct (from_chars int_min int_max (take n rest)) as [[t tl]|] eqn:Ht; [|done].
  destruct (find_byte kSoh (drop (S n) rest)) as [m|] eqn:Hm; [|done].
  intros [= <-]. simpl. pose proof (find_byte_lt _ _ _ Hn) as Hlt.
  pose proof (find_byte_lt _ _ _ Hm) as Hlt'. rewrite length_drop in Hlt'.
  apply find_byte_Some in Hn as [Hn _]. apply find_byte_Some in Hm as [Hm Hsoh].
  apply forallb_Forall_inv in Hd. destruct (from_chars_digits _ _ _ _ _ Hd Ht) as [Hv _].
  exists (take n rest ++ kEquals :: take m (drop (S n) rest) ++ [kSoh]).
  assert (length (take n rest ++ kEquals :: take m (drop (S n) rest) ++ [kSoh]) = (S n + S m)%nat)
    as Hlen.
  { rewrite length_app, length_take. simpl. rewrite length_app, length_take, length_drop. simpl. lia. }
  split_and!.
  - rewrite Hn at 1. rewrite <-app_assoc. simpl. f_equal. f_equal. rewrite Hm at 1.
    rewrite <-app_assoc. simpl. f_equal. f_equal. subst rest. rewrite !drop_drop. f_equal. lia.
  - lia.
  - lia.
  - exists (take n rest). split_and!; [done| |done|done|done].
    intros Hnil. apply (f_equal length) in Hnil. rewrite length_take in Hnil. simpl in Hnil. lia.
Qed.

Lemma ScanField_error raw offset e :
  ScanField raw offset = Unexpected e → e ≠ B "model: out of fuel".
Proof.
  unfold ScanField. repeat case_match; by intros [= <-].
Qed.

(** ** The loop, read backwards *)

(** Where the loop stopped: at the end of the input, or behind a CheckSum. *)
Definition loop_end (raw : bytes) (st st' : parse_state) (texts : list bytes) (body : list Field)
  : Prop :=
  (pm_fields (ps_message st') = pm_fields (ps_message st) ++ body ∧
   ps_check_sum_offset st' = ps_check_sum_offset st ∧
   drop (ps_offset st) raw = concat texts) ∨
  (∃ text v, reads text (mkField tag.kCheckSum v) ∧
   pm_fields (ps_message st') = pm_fields (ps_message st) ++ body ++ [mkField tag.kCheckSum v] ∧
   ps_check_sum_offset st' = (ps_offset st + length (concat texts))%nat ∧
   ps_check_sum_value st' = v ∧
   ps_offset st' = (ps_offset st + length (concat texts) + length text)%nat ∧
   drop (ps_offset st) raw = concat texts ++ text ++ drop (ps_offset st') raw).

Lemma parse_fields_inv fuel raw st st' :
  parse_fields fuel raw st = Expected st' →
  ∃ texts body, Forall2 reads texts body ∧
    Forall (λ one, f_tag one ≠ tag.kCheckSum) body ∧
    (length (pm_fields (ps_message st)) = 2%nat →
       ∀ one, head body = Some one → f_tag one = tag.kMsgType) ∧
    pm_msg_type (ps_message st') = mtype body (pm_msg_type (ps_message st)) ∧
    loop_end raw st st' texts body.
Proof.
  revert st. induction fuel as [|fuel IH]; intros st; [done|]. cbn [parse_fields].
  destruct (Nat.ltb_spec (ps_offset st) (length raw)) as [Hoff|Hoff].
  2:{ intros [= <-]. exists [], []. split_and!; [constructor..|done|done|].
      left. rewrite app_nil_r. split_and!; [done..|]. by apply drop_ge. }
  destruct (ScanField raw (ps_offset st)) as [sf|e] eqn:Hsf; [|done]. cbn [expected_bind].
  destruct (ScanField_inv _ _ _ Hsf) as (text & Hdrop & Hnext & Hlen & Hreads).
  destruct (Z.eqb_spec (sf_tag sf) tag.kCheckSum) as [Hcs|Hcs].
  { intros [= <-]. exists [], []. simpl. split_and!; [constructor..|done|done|].
    right. exists text, (sf_value sf). rewrite <-Hcs. split_and!; try done; simpl; lia. }
  destruct (bool_decide _ && negb _) eqn:Hfirst; [done|].
  set (msg := if sf_tag sf =? tag.kMsgType then set_msg_type _ _ else _).
  intros Hrun. destruct (IH _ Hrun) as (texts & body & Hall & Hne & _ & Hmt & Hend).
  exists (text :: texts), (mkField (sf_tag sf) (sf_value sf) :: body).
  assert (pm_fields msg = pm_fields (ps_message st)) as Hmsg by (subst msg; by destruct (_ =? _)).
  split_and!; [by constructor|by constructor| | |].
  - intros H2 one [= <-]. simpl. rewrite bool_decide_eq_true_2 in Hfirst by done.
    simpl in Hfirst. apply negb_false_iff, Z.eqb_eq in Hfirst. done.
  - rewrite Hmt, mtype_cons. subst msg. simpl. by destruct (_ =? _).
  - unfold loop_end in *. simpl in Hend. rewrite Hmsg in Hend. rewrite Hdrop.
    destruct Hend as [(H1 & H2 & H3)|(text' & v & H1 & H2 & H3 & H4 & H5 & H6)].
    + left. rewrite H1, H3, <-app_assoc. done.
    + right. exists text', v. rewrite H2, H3, H4, H6, <-app_assoc. simpl. rewrite length_app.
      split_and!; try done; try lia. by rewrite <-app_assoc.
Qed.

(** ** Termination *)

Definition not_fuel {A} (r : expected bytes A) : Prop := r ≠ Unexpected (B "model: out of fuel").

Lemma parse_fields_fuel fuel raw st :
  (length raw - ps_offset st < fuel)%nat → not_fuel (parse_fields fuel raw st).
Proof.
  revert st. induction fuel as [|fuel IH]; intros st Hf; [lia|]. cbn [parse_fields].
  destruct (Nat.ltb_spec (ps_offset st) (length raw)) as [Hoff|Hoff]; [|done].
  destruct (ScanField raw (ps_offset st)) as [sf|e] eqn:Hsf; cbn [expected_bind].
  2:{ intros [= ->]. by eapply ScanField_error. }
  destruct (ScanField_inv _ _ _ Hsf) as (text & _ & Hnext & Hlen & _).
  destruct (sf_tag sf =? tag.kCheckSum); [done|]. destruct (bool_decide _ && negb _); [done|].
  apply IH. simpl. lia.
Qed.

Lemma check_envelope_fuel raw start declared st : not_fuel (check_envelope raw start declared st).
Proof. unfold check_envelope, not_fuel. repeat case_match; by intros [=]. Qed.

(** Parsing any bytes ends within the loop's bound: the result is a
    message or one of the parser's own errors. *)
Theorem ParseMessage_terminates raw : ParseMessage raw ≠ Unexpected (B "model: out of fuel").
Proof.
  unfold ParseMessage. destruct (ScanField raw 0) as [b|e] eqn:Hb; cbn [expected_bind].
  2:{ intros [= ->]. by eapply ScanField_error. }
  destruct (negb _); [done|]. destruct (bool_decide _); [done|].
  destruct (ScanField raw (sf_next b)) as [l|e] eqn:Hl; cbn [expected_bind].
  2:{ intros [= ->]. by eapply ScanField_error. }
  destruct (negb _); [done|].
  destruct (from_chars 0 u64_max (sf_value l)) as [[n [|]]|]; [|done..].
  set (st := mkParseState _ _ _ _).
  pose proof (parse_fields_fuel (S (length raw)) raw st ltac:(lia)) as Hfuel.
  destruct (parse_fields _ _ _) as [st'|e]; cbn [expected_bind].
  - apply check_envelope_fuel.
  - intros [= ->]. by apply Hfuel.
Qed.

(** ** Soundness *)

Lemma check_envelope_inv raw start declared st m :
  check_envelope raw start declared st = Expected m →
  m = ps_message st ∧ ps_check_sum_offset st ≠ 0%nat ∧ ps_offset st = length raw ∧
  pm_msg_type m ≠ [] ∧
  declared = Z.of_nat (ps_check_sum_offset st) - Z.of_nat start ∧
  ps_check_sum_value st = FormatChecksum (take (ps_check_sum_offset st) raw).
Proof.
  unfold check_envelope. repeat case_match; try done. intros [= <-].
  repeat match goal with H : bool_decide _ = false |- _ => apply bool_decide_eq_false in H end.
  repeat match goal with H : negb _ = false |- _ => apply negb_false_iff, Z.eqb_eq in H end.
  split_and!; try done; by apply dec_stable.
Qed.

Lemma BodyFields_envelope f8 f9 body f10 mt :
  body ≠ [] → BodyFields (mkParsedMessage ([f8; f9] ++ body ++ [f10]) mt) = body.
Proof.
  intros Hne. unfold BodyFields. cbn [pm_fields]. rewrite !length_app. simpl length.
  destruct body as [|x body]; [done|].
  replace (_ <=? 3)%nat with false by (symmetry; apply Nat.leb_gt; simpl; lia).
  rewrite (drop_app_length' [f8; f9]) by done. apply take_app_length'. simpl. lia.
Qed.

(** The shape of an accepted message. *)
Definition valid_message (raw : bytes) (m : ParsedMessage) : Prop :=
  ∃ t8 t9 texts t10 v9,
    let covered := t8 ++ t9 ++ concat texts in
    let f9 := mkField tag.kBodyLength v9 in
    let f10 := mkField tag.kCheckSum (FormatChecksum covered) in
    raw = covered ++ t10 ∧
    reads t8 begin_field ∧ reads t9 f9 ∧ Forall2 reads texts (BodyFields m) ∧ reads t10 f10 ∧
    Fields m = [begin_field; f9] ++ BodyFields m ++ [f10] ∧
    from_chars 0 u64_max v9 = Some (Z.of_nat (length (concat texts)), []) ∧
    MsgType m ≠ [] ∧ f_tag <$> head (BodyFields m) = Some tag.kMsgType.

(** C24: [ParseMessage] accepts nothing corrupt: an accepted message is exactly
    a BeginString, a BodyLength equal to the length of the body received, a
    body whose first field is MsgType, and a CheckSum equal to that of the
    bytes before it, with nothing after; and the fields returned are those
    texts, in order. *)
Theorem ParseMessage_sound raw m : ParseMessage raw = Expected m → valid_message raw m.
Proof.
  unfold ParseMessage. destruct (ScanField raw 0) as [b|e] eqn:Hb; cbn [expected_bind]; [|done].
  destruct (Z.eqb_spec (sf_tag b) tag.kBeginString) as [Hbt|]; cbn [negb]; [|done].
  case_bool_decide as Hbv; [done|].
  destruct (ScanField raw (sf_next b)) as [l|e] eqn:Hl; cbn [expected_bind]; [|done].
  destruct (Z.eqb_spec (sf_tag l) tag.kBodyLength) as [Hlt|]; cbn [negb]; [|done].
  destruct (from_chars 0 u64_max (sf_value l)) as [[n [|]]|] eqn:Hn; try done.
  rewrite Hbt, Hbv, Hlt. set (st := mkParseState _ _ _ _).
  destruct (parse_fields _ _ _) as [st'|e] eqn:Hrun; cbn [expected_bind]; [|done].
  intros (-> & Hcs & Hoff & Hmt & Hdecl & Hval)%check_envelope_inv.
  destruct (ScanField_inv _ _ _ Hb) as (t8 & Hd8 & Hn8 & _ & Hr8).
  destruct (ScanField_inv _ _ _ Hl) as (t9 & Hd9 & Hn9 & _ & Hr9).
  destruct (parse_fields_inv _ _ _ _ Hrun) as (texts & body & Hall & _ & Hfirst & Hmt' & Hend).
  destruct Hend as [(_ & H & _)|(t10 & v & Hr10 & Hf & Hco & Hcv & Ho & Hd)]; [done|].
  subst st. simpl in Hf, Hco, Ho, Hd, Hfirst, Hmt'. rewrite drop_0 in Hd8.
  assert (raw = (t8 ++ t9 ++ concat texts) ++ t10) as Hraw.
  { rewrite Hoff, (drop_ge raw (length raw)) in Hd by lia. rewrite Hd8, Hd9, Hd, app_nil_r.
    by rewrite <-!app_assoc. }
  assert (body ≠ []) as Hne.
  { intros ->. apply Hmt. by rewrite Hmt'. }
  assert (ps_message st' = mkParsedMessage
    ([begin_field; mkField tag.kBodyLength (sf_value l)] ++ body ++ [mkField tag.kCheckSum v])
    (pm_msg_type (ps_message st'))) as Hm by (destruct (ps_message st'); simpl in *; by rewrite Hf).
  assert (BodyFields (ps_message st') = body) as Hbody.
  { rewrite Hm. by apply BodyFields_envelope. }
  assert (take (ps_check_sum_offset st') raw = t8 ++ t9 ++ concat texts) as Htake.
  { rewrite Hraw. apply take_app_length'. rewrite Hco, Hn9, Hn8, !length_app. simpl. lia. }
  assert (v = FormatChecksum (t8 ++ t9 ++ concat texts)) as Hv by congruence.
  exists t8, t9, texts, t10, (sf_value l). rewrite Hbody. split_and!; try done.
  - by rewrite Hbt, Hbv in Hr8.
  - by rewrite Hlt in Hr9.
  - by rewrite <-Hv.
  - unfold Fields. by rewrite Hf, <-Hv.
  - rewrite Hn. do 2 f_equal. rewrite Hdecl, Hco. lia.
  - destruct body as [|one body]; [done|]. simpl. f_equal. by apply Hfirst.
Qed.

Lemma ParseMessage_sound_witness :
  ∃ m, ParseMessage (BuildMessage demo_fields) = Expected m ∧
    valid_message (BuildMessage demo_fields) m.
Proof.
  pose proof (ParseMessage_built _ demo_fields_outgoing) as H.
  eexists. exact (conj H (ParseMessage_sound _ _ H)).
Defined.
