(* ===== verification/FixFramer.v ===== *)
(** * The framer: a byte stream back into messages

    [Framer] is fed chunks as a socket delivers them. [frames] is the reference:
    it cuts a whole stream at once. However the stream is chunked, the framer
    hands out exactly the reference's messages; and a stream of built messages
    is cut into those messages. *)

From S2P Require Import Prelude Text FixMessage FixRoundTrip.

(** ** Draining a framer *)

(** [while (auto message = framer.NextMessage())]. Every message is at least
    [kCheckSumFieldSize] bytes of the buffer, which bounds the turns. *)
Fixpoint drain (fuel : nat) (f : Framer) : Framer * list bytes :=
  match fuel with
  | O => (f, [])
  | S fuel =>
      match NextMessage f with
      | (f', None) => (f', [])
      | (f', Some m) => let '(f'', ms) := drain fuel f' in (f'', m :: ms)
      end
  end.

Definition Receive (chunk : bytes) (f : Framer) : Framer * list bytes :=
  let f := Append chunk f in drain (S (BufferedBytes f)) f.

(** A session's reads, in order. *)
Fixpoint ReceiveAll (chunks : list bytes) (f : Framer) : Framer * list bytes :=
  match chunks with
  | [] => (f, [])
  | chunk :: chunks =>
      let '(f', ms) := Receive chunk f in
      let '(f'', ms') := ReceiveAll chunks f' in (f'', ms ++ ms')
  end.

(** ** The reference *)

Record cut := mkCut { cut_messages : list bytes; cut_rest : bytes; cut_error : bytes }.

Fixpoint frames (fuel : nat) (max : Z) (v : bytes) : cut :=
  match fuel with
  | O => mkCut [] v []
  | S fuel =>
      match scan_head max v with
      | NeedMore => mkCut [] v []
      | Malformed reason => mkCut [] v reason
      | Framed n =>
          let c := frames fuel max (drop n v) in
          mkCut (take n v :: cut_messages c) (cut_rest c) (cut_error c)
      end
  end.

Definition cut_stream (max : Z) (v : bytes) : cut := frames (S (length v)) max v.

(** ** The head of a stream *)

Lemma scan_body_length_app max rest idx acc w r :
  scan_body_length max rest idx acc = r → r ≠ inl NeedMore →
  scan_body_length max (rest ++ w) idx acc = r.
Proof.
  revert idx acc. induction rest as [|c rest IH]; intros idx acc Hr Hne; simpl in *; [congruence|].
  case_decide; [done|]. destruct (negb _ || _); [done|]. destruct (_ <? _); [done|]. by apply IH.
Qed.

Lemma scan_body_length_unframed max rest idx acc n :
  scan_body_length max rest idx acc ≠ inl (Framed n).
Proof.
  revert idx acc. induction rest as [|c rest IH]; intros idx acc; simpl; [done|].
  case_decide; [done|]. destruct (negb _ || _); [done|]. destruct (_ <? _); [done|]. apply IH.
Qed.

(** The decision once the BodyLength digits are known. *)
Definition scan_tail (view : bytes) (digits_start count : nat) (body_length : Z) : head_scan :=
  if decide (count = 0%nat) then Malformed (B "fix: BodyLength(9) is empty")
  else
    let body_start := (digits_start + count + 1)%nat in
    let total := (body_start + Z.to_nat body_length + kCheckSumFieldSize)%nat in
    if (length view <? total)%nat then NeedMore
    else if bool_decide (take 3 (drop (body_start + Z.to_nat body_length) view) ≠ B "10=")
         || bool_decide (view !! (total - 1)%nat ≠ Some kSoh)
    then Malformed (B "fix: no CheckSum(10) field where BodyLength(9) says the body ends")
    else Framed total.

Lemma scan_head_long max v :
  (12 <= length v)%nat →
  scan_head max v =
    if bool_decide (take 10 v ≠ BeginStringPrefix)
    then Malformed (B "fix: stream does not start with 8=FIX.4.4")
    else if bool_decide (take 2 (drop 10 v) ≠ B "9=")
    then Malformed (B "fix: BodyLength(9) does not follow BeginString(8)")
    else match scan_body_length max (drop 12 v) 0 0 with
         | inl r => r
         | inr (count, body_length) => scan_tail v 12 count body_length
         end.
Proof.
  intros Hlen. unfold scan_head.
  rewrite decide_False by (intros ->; simpl in Hlen; lia).
  change (length BeginStringPrefix) with 10%nat.
  replace (length v `min` 10)%nat with 10%nat by lia.
  change (take 10 BeginStringPrefix) with BeginStringPrefix.
  change (10 + 2)%nat with 12%nat. by rewrite (proj2 (Nat.ltb_ge (length v) 12)).
Qed.

Lemma scan_head_short max v :
  (length v < 12)%nat →
  scan_head max v =
    if bool_decide (take 10 v ≠ take (length v) BeginStringPrefix)
    then Malformed (B "fix: stream does not start with 8=FIX.4.4") else NeedMore.
Proof.
  intros Hlen. unfold scan_head. change (length BeginStringPrefix) with 10%nat.
  change (10 + 2)%nat with 12%nat. destruct (decide (v = [])) as [->|Hne].
  { by rewrite bool_decide_eq_false_2 by (intros H; by apply H). }
  rewrite (proj2 (Nat.ltb_lt _ _) Hlen).
  destruct (decide (length v <= 10)%nat).
  - replace (length v `min` 10)%nat with (length v) by lia.
    by rewrite firstn_all, (take_ge v 10) by lia.
  - replace (length v `min` 10)%nat with 10%nat by lia.
    by rewrite (take_ge BeginStringPrefix (length v)) by (simpl; lia).
Qed.

Lemma scan_tail_app v w start count bl r :
  scan_tail v start count bl = r → r ≠ NeedMore → scan_tail (v ++ w) start count bl = r.
Proof.
  intros <-. unfold scan_tail. case_decide; [done|].
  set (total := (start + count + 1 + Z.to_nat bl + kCheckSumFieldSize)%nat).
  destruct (Nat.ltb_spec (length v) total) as [|Hlen]; [done|]. intros _.
  rewrite (proj2 (Nat.ltb_ge _ _)) by (rewrite length_app; lia).
  unfold kCheckSumFieldSize in *.
  rewrite drop_app_le, take_app_le by (rewrite ?length_drop; lia).
  by rewrite lookup_app_l by lia.
Qed.

Lemma scan_tail_framed v start count bl n :
  scan_tail v start count bl = Framed n → (0 < n <= length v)%nat.
Proof.
  unfold scan_tail, kCheckSumFieldSize. case_decide; [done|].
  destruct (Nat.ltb_spec (length v) (start + count + 1 + Z.to_nat bl + 7)); [done|].
  destruct (_ || _); [done|]. intros [= <-]. lia.
Qed.

Lemma scan_head_framed max v n : scan_head max v = Framed n → (0 < n <= length v)%nat.
Proof.
  destruct (decide (12 <= length v)%nat) as [Hl|Hl].
  - rewrite scan_head_long by done. case_bool_decide; [done|]. case_bool_decide; [done|].
    destruct (scan_body_length _ _ _ _) as [[]|[count bl]] eqn:Hs; try done.
    { by apply scan_body_length_unframed in Hs. }
    apply scan_tail_framed.
  - rewrite scan_head_short by lia. by case_bool_decide.
Qed.

(** A verdict on a prefix of the stream is the verdict on the stream. *)
Lemma scan_head_app max v w r :
  scan_head max v = r → r ≠ NeedMore → scan_head max (v ++ w) = r.
Proof.
  intros <- Hne. destruct (decide (12 <= length v)%nat) as [Hl|Hl].
  - rewrite !scan_head_long in * by (rewrite ?length_app; lia).
    rewrite !drop_app_le, !take_app_le by (rewrite ?length_drop; lia).
    case_bool_decide; [done|]. case_bool_decide; [done|].
    destruct (scan_body_length max (drop 12 v) 0 0) as [r|[count bl]] eqn:Hs.
    + by rewrite (scan_body_length_app _ _ _ _ w _ Hs) by congruence.
    + rewrite (scan_body_length_app _ _ _ _ w _ Hs) by done. by apply scan_tail_app.
  - rewrite (scan_head_short max v) in Hne |- * by lia. case_bool_decide as Hm; [|done].
    assert (take 10 (v ++ w) ≠ take (length (v ++ w)) BeginStringPrefix) as Hm'.
    { intros Heq. apply Hm. apply (f_equal (take (length v))) in Heq.
      rewrite !take_take, length_app, (Nat.min_l (length v) (_ + _)) in Heq by lia.
      rewrite <-Heq. destruct (decide (length v <= 10)%nat).
      - rewrite Nat.min_l, take_app_length by lia. apply take_ge. lia.
      - rewrite Nat.min_r by lia. by rewrite take_app_le by lia. }
    destruct (decide (12 <= length (v ++ w))%nat) as [Hl'|Hl'].
    + rewrite scan_head_long by done. rewrite bool_decide_eq_true_2; [done|].
      intros Heq. apply Hm'. rewrite Heq, take_ge; [done|]. simpl. lia.
    + rewrite scan_head_short by lia. by rewrite bool_decide_eq_true_2.
Qed.

(** ** The reference, on a stream that grows *)

Lemma frames_fuel fuel max v :
  (length v < fuel)%nat → frames fuel max v = cut_stream max v.
Proof.
  unfold cut_stream. remember (S (length v)) as fuel' eqn:Hf'. 
  assert (length v < fuel')%nat as Hlt by lia. clear Hf'. revert fuel' v Hlt.
  induction fuel as [|fuel IH]; intros fuel' v Hlt' Hlt; [lia|]. destruct fuel' as [|fuel']; [lia|].
  simpl. destruct (scan_head max v) as [| |n] eqn:Hs; [done..|].
  apply scan_head_framed in Hs. rewrite (IH fuel'); [done|rewrite length_drop; lia..].
Qed.

Lemma cut_stream_step max v :
  cut_stream max v =
    match scan_head max v with
    | NeedMore => mkCut [] v []
    | Malformed reason => mkCut [] v reason
    | Framed n =>
        let c := cut_stream max (drop n v) in
        mkCut (take n v :: cut_messages c) (cut_rest c) (cut_error c)
    end.
Proof.
  unfold cut_stream at 1. simpl. destruct (scan_head max v) as [| |n] eqn:Hs; [done..|].
  apply scan_head_framed in Hs. rewrite frames_fuel; [done|]. rewrite length_drop. lia.
Qed.

(** Induction along the messages of a stream. *)
Lemma cut_stream_ind max (P : bytes → Prop) :
  (∀ v, (∀ n, scan_head max v = Framed n → P (drop n v)) → P v) → ∀ v, P v.
Proof.
  intros Hstep v. remember (length v) as k eqn:Hk. revert v Hk.
  induction k as [k IH] using lt_wf_ind. intros v ->. apply Hstep.
  intros n Hn%scan_head_framed. eapply IH; [|done]. rewrite length_drop. lia.
Qed.

Lemma scan_body_length_reason max rest idx acc : scan_body_length max rest idx acc ≠ inl (Malformed []).
Proof.
  revert idx acc. induction rest as [|c rest IH]; intros idx acc; simpl; [done|].
  case_decide; [done|]. destruct (negb _ || _); [done|]. destruct (_ <? _); [done|]. apply IH.
Qed.

Lemma scan_head_reason max v : scan_head max v ≠ Malformed [].
Proof.
  destruct (decide (12 <= length v)%nat).
  - rewrite scan_head_long by done. case_bool_decide; [done|]. case_bool_decide; [done|].
    destruct (scan_body_length _ _ _ _) as [r|[count bl]] eqn:Hs.
    { intros ->. by apply scan_body_length_reason in Hs. }
    unfold scan_tail. repeat case_match; done.
  - rewrite scan_head_short by lia. by case_bool_decide.
Qed.

(** More bytes behind a stream. *)
Lemma cut_stream_app max v w :
  let c := cut_stream max v in
  cut_stream max (v ++ w) =
    if decide (cut_error c = []) then
      let c' := cut_stream max (cut_rest c ++ w) in
      mkCut (cut_messages c ++ cut_messages c') (cut_rest c') (cut_error c')
    else mkCut (cut_messages c) (cut_rest c ++ w) (cut_error c).
Proof.
  induction v as [v IH] using (cut_stream_ind max). rewrite (cut_stream_step max v).
  destruct (scan_head max v) as [|reason|n] eqn:Hs; cbn [cut_messages cut_rest cut_error].
  - rewrite decide_True by done. by destruct (cut_stream max (v ++ w)).
  - rewrite decide_False by (intros ->; by apply scan_head_reason in Hs).
    rewrite cut_stream_step. by rewrite (scan_head_app _ _ w _ Hs).
  - rewrite (cut_stream_step max (v ++ w)), (scan_head_app _ _ w _ Hs) by done.
    pose proof (scan_head_framed _ _ _ Hs).
    rewrite drop_app_le, take_app_le by lia. rewrite (IH n eq_refl). cbn zeta.
    by case_decide.
Qed.

(** ** The framer computes the reference *)

Definition view (f : Framer) : bytes := drop (fr_consumed f) (fr_buffer f).

(** The framer that has handed out [framed] more messages of its buffer. *)
Definition framer_is (f : Framer) (max : Z) (v err : bytes) (framed : Z) : Prop :=
  view f = v ∧ fr_error f = err ∧ fr_max_body_length f = max ∧ fr_messages_framed f = framed.

Definition counted (n : Z) (ms : list bytes) : Z := Nat.iter (length ms) incr64 n.

Lemma iter_incr64_shift n k : Nat.iter k incr64 (incr64 n) = incr64 (Nat.iter k incr64 n).
Proof. induction k as [|k IH]; simpl; [done|]. by rewrite IH. Qed.

Lemma drain_spec fuel f max v n :
  framer_is f max v [] n → (length v < fuel)%nat →
  let c := cut_stream max v in
  ∃ f', drain fuel f = (f', cut_messages c) ∧
    framer_is f' max (cut_rest c) (cut_error c) (counted n (cut_messages c)).
Proof.
  revert f v n. induction fuel as [|fuel IH]; intros f v n Hf Hlen; [lia|].
  pose proof Hf as (Hv & He & Hm & Hn). cbn [drain]. unfold NextMessage, Good.
  rewrite He, bool_decide_eq_true_2 by done. cbn [negb]. fold (view f).
  rewrite Hv, Hm, (cut_stream_step max v).
  destruct (scan_head max v) as [|reason|k] eqn:Hs; cbn zeta; cbn [cut_messages cut_rest cut_error].
  - by exists f.
  - eexists. split; [done|]. unfold framer_is, Framer_Fail, view. simpl.
    by rewrite He, decide_True.
  - pose proof (scan_head_framed _ _ _ Hs).
    set (f1 := mkFramer _ _ _ _ _).
    destruct (IH f1 (drop k v) (incr64 n)) as (f' & Hd & Hf').
    + subst f1. unfold framer_is, view. simpl. rewrite Hn. split_and!; try done.
      rewrite <-Hv. unfold view. by rewrite drop_drop.
    + rewrite length_drop. lia.
    + exists f'. rewrite Hd. split; [done|]. unfold counted in *. simpl.
      by rewrite <-iter_incr64_shift.
Qed.

Lemma drain_error fuel f : fr_error f ≠ [] → drain (S fuel) f = (f, []).
Proof.
  intros He. simpl. unfold NextMessage, Good. by rewrite bool_decide_eq_false_2.
Qed.

Lemma Append_is f max v err n data :
  framer_is f max v err n → framer_is (Append data f) max (v ++ data) err n ∧
  BufferedBytes (Append data f) = length (v ++ data).
Proof.
  intros (Hv & He & Hm & Hn). unfold framer_is, Append, Compact, BufferedBytes, view in *.
  destruct (decide (fr_consumed f = 0%nat)) as [H0|H0]; simpl.
  - rewrite H0, drop_0 in *. rewrite Hv, Nat.sub_0_r. done.
  - rewrite drop_0, Hv, Nat.sub_0_r. done.
Qed.

(** What is known of a framer that has received [v] in whatever chunks. *)
Definition received (max : Z) (v : bytes) (n : Z) (f : Framer) (ms : list bytes) : Prop :=
  let c := cut_stream max v in
  ms = cut_messages c ∧ framer_is f max (cut_rest c) (cut_error c) (counted n ms).

Lemma counted_app n ms1 ms2 : counted n (ms1 ++ ms2) = counted (counted n ms1) ms2.
Proof.
  unfold counted. rewrite length_app, Nat.add_comm. generalize (length ms1), (length ms2).
  intros a b. induction b as [|b IH]; simpl; [done|]. by rewrite IH.
Qed.

Lemma Receive_received max v n f ms chunk :
  received max v n f ms →
  ∃ f' ms', Receive chunk f = (f', ms') ∧ received max (v ++ chunk) n f' (ms ++ ms').
Proof.
  intros [-> Hf]. destruct (Append_is _ _ _ _ _ chunk Hf) as [Hf' Hbuf].
  unfold Receive, received. rewrite Hbuf, cut_stream_app. cbn zeta. case_decide as He.
  - rewrite He in Hf'. destruct (drain_spec (S (length (cut_rest (cut_stream max v) ++ chunk)))
      _ _ _ _ Hf' ltac:(lia)) as (f' & Hd & Hf''). rewrite Hd.
    eexists _, _. split; [done|]. split; [done|]. simpl. by rewrite counted_app.
  - rewrite drain_error by (destruct Hf' as (_ & -> & _); done).
    eexists _, _. split; [done|]. rewrite app_nil_r. done.
Qed.

Lemma ReceiveAll_received chunks max v n f ms :
  received max v n f ms →
  ∃ f' ms', ReceiveAll chunks f = (f', ms') ∧ received max (v ++ concat chunks) n f' (ms ++ ms').
Proof.
  revert v f ms. induction chunks as [|chunk chunks IH]; intros v f ms Hr; simpl.
  { eexists _, _. split; [done|]. by rewrite !app_nil_r. }
  destruct (Receive_received _ _ _ _ _ chunk Hr) as (f1 & ms1 & -> & Hr1).
  destruct (IH _ _ _ Hr1) as (f2 & ms2 & -> & Hr2). eexists _, _. split; [done|].
  by rewrite <-!app_assoc in Hr2.
Qed.

Lemma new_Framer_received max : received max [] 0 (new_Framer max) [].
Proof. done. Qed.

(** However a stream is split into reads, the framer hands out the same
    messages, fails on the same defect and is left holding the same bytes: it
    computes the cut of the whole stream. *)
Theorem Framer_chunking max chunks :
  ∃ f, ReceiveAll chunks (new_Framer max) = (f, cut_messages (cut_stream max (concat chunks))) ∧
    view f = cut_rest (cut_stream max (concat chunks)) ∧
    fr_error f = cut_error (cut_stream max (concat chunks)).
Proof.
  destruct (ReceiveAll_received chunks _ _ _ _ _ (new_Framer_received max))
    as (f & ms & Hrun & Hms & Hf). simpl app in Hms, Hf. subst ms.
  exists f. split; [done|]. split; apply Hf.
Qed.

(** ** A stream of built messages *)

Lemma digits_length fuel n k :
  (1 <= k)%nat → 0 <= n < 10 ^ Z.of_nat k → (length (digits fuel n) <= k)%nat.
Proof.
  revert n k. induction fuel as [|fuel IH]; intros n k Hk Hn; simpl; [lia|].
  destruct (Z.ltb_spec n 10); [simpl; lia|]. rewrite length_app. simpl.
  destruct k as [|[|k]]; [lia|change (10 ^ Z.of_nat 1) with 10 in Hn; lia|].
  rewrite Nat2Z.inj_succ, Z.pow_succ_r in Hn by lia.
  enough (length (digits fuel (n / 10)) <= S k)%nat by lia. apply IH; [lia|].
  split; [apply Z.div_pos; lia|]. apply Z.div_lt_upper_bound; lia.
Qed.

Lemma digits_val_from_mono ds acc :
  Forall (λ c, is_digit c = true) ds → 0 <= acc → acc <= digits_val_from acc ds.
Proof.
  intros Hall. revert acc. induction Hall as [|c ds Hc _ IH]; intros acc Hacc; [by simpl|].
  assert (0 <= digit_val c) by (unfold is_digit, digit_val in *; lia).
  transitivity (acc * 10 + digit_val c); [lia|]. apply IH. lia.
Qed.

Lemma scan_body_length_digits max ds rest idx acc :
  Forall (λ c, is_digit c = true) ds → (idx + length ds <= kMaxBodyLengthDigits)%nat →
  0 <= acc → digits_val_from acc ds <= max →
  scan_body_length max (ds ++ kSoh :: rest) idx acc =
    inr ((idx + length ds)%nat, digits_val_from acc ds).
Proof.
  intros Hall. revert idx acc. induction Hall as [|c ds Hc Hall IH]; intros idx acc Hidx Hacc Hmax.
  { simpl. rewrite ?decide_True by done. by rewrite Nat.add_0_r. }
  assert (0 <= digit_val c) by (unfold is_digit, digit_val in *; lia).
  cbn [app scan_body_length length] in *. rewrite decide_False by (intros ->; done).
  rewrite Hc, (proj2 (Nat.leb_gt _ _)) by lia. cbn [negb orb].
  pose proof (digits_val_from_mono ds (acc * 10 + digit_val c) Hall ltac:(lia)) as Hmono.
  change (digits_val_from acc (c :: ds)) with (digits_val_from (acc * 10 + digit_val c) ds) in *.
  rewrite (proj2 (Z.ltb_ge _ _)) by lia. rewrite IH by lia. do 2 f_equal. lia.
Qed.

(** A message the framer accepts whole: its body within the limit. *)
Definition framable (max : Z) (fields : list Field) : Prop :=
  Z.of_nat (length (render_body fields)) <= max ∧
  Z.of_nat (length (render_body fields)) < 10 ^ 10.

Lemma BuildMessage_pieces fields :
  let n := Z.of_nat (length (render_body fields)) in
  BuildMessage fields =
    BeginStringPrefix ++ B "9=" ++ to_string n ++ kSoh :: render_body fields ++
      B "10=" ++ f_value (check_field fields) ++ [kSoh].
Proof.
  intros n. rewrite BuildMessage_shape. unfold envelope, render_field, check_field, length_field.
  simpl. by rewrite <-!app_assoc.
Qed.

Lemma BuildMessage_last fields :
  BuildMessage fields !! (length (BuildMessage fields) - 1)%nat = Some kSoh.
Proof.
  assert (∃ init, BuildMessage fields = init ++ [kSoh]) as [init ->].
  { rewrite BuildMessage_shape. unfold render_field at 1. rewrite !app_assoc. by eexists. }
  rewrite length_app, Nat.add_sub. by apply list_lookup_middle.
Qed.

Lemma scan_head_built max fields w :
  framable max fields → scan_head max (BuildMessage fields ++ w) = Framed (length (BuildMessage fields)).
Proof.
  intros [Hmax Hten]. set (n := Z.of_nat (length (render_body fields))) in *.
  assert (Forall (λ c, is_digit c = true) (to_string n)) as Hdig by (apply to_string_digits; lia).
  assert (to_string n = digits 20 n) as Hts.
  { unfold to_string. by rewrite (proj2 (Z.ltb_ge _ _)) by lia. }
  assert (length (to_string n) <= 10)%nat as Hlen.
  { rewrite Hts. apply digits_length; [lia|]. change (Z.of_nat 10) with 10. lia. }
  assert (digits_val (to_string n) = n) as Hval.
  { rewrite Hts. apply digits_val_digits. change (Z.of_nat 20) with 20. lia. }
  assert (to_string n ≠ []) as Hne by (apply to_string_nonempty; lia).
  set (tail := B "10=" ++ f_value (check_field fields) ++ [kSoh]).
  assert (BuildMessage fields ++ w = (BeginStringPrefix ++ B "9=") ++
    to_string n ++ kSoh :: (render_body fields ++ tail ++ w)) as Hsplit.
  { rewrite BuildMessage_pieces. cbv zeta. fold n tail. rewrite <-!app_assoc.
    do 3 f_equal. cbn [app]. by rewrite <-!app_assoc. }
  assert (length tail = 7%nat) as Htail by done.
  assert (length (BuildMessage fields) =
    12 + length (to_string n) + 1 + length (render_body fields) + 7)%nat as Hlb.
  { rewrite BuildMessage_pieces. cbv zeta. fold n tail. rewrite !length_app. cbn [length].
    rewrite length_app. change (length BeginStringPrefix) with 10%nat.
    change (length (B "9=")) with 2%nat. lia. }
  rewrite scan_head_long by (rewrite length_app; lia). rewrite Hsplit.
  rewrite bool_decide_eq_false_2 by (intros H; by apply H).
  rewrite bool_decide_eq_false_2 by (intros H; by apply H).
  rewrite (drop_app_length' (BeginStringPrefix ++ B "9=")) by done.
  unfold digits_val in Hval.
  rewrite scan_body_length_digits by (done || unfold kMaxBodyLengthDigits in *; lia).
  rewrite Hval, <-Hsplit, Nat.add_0_l. unfold scan_tail.
  rewrite decide_False by (intros H%nil_length_inv; done).
  replace (Z.to_nat n) with (length (render_body fields)) by lia.
  unfold kCheckSumFieldSize. rewrite <-Hlb.
  rewrite (proj2 (Nat.ltb_ge _ _)) by (rewrite length_app; lia).
  replace (drop (12 + length (to_string n) + 1 + length (render_body fields))
    (BuildMessage fields ++ w)) with (tail ++ w).
  2:{ rewrite Hsplit, cons_middle, !app_assoc. symmetry. rewrite <-(app_assoc _ tail w).
      apply drop_app_length'. rewrite !length_app. simpl. lia. }
  rewrite bool_decide_eq_false_2 by (intros H; by apply H).
  rewrite bool_decide_eq_false_2; [done|]. intros H. apply H.
  rewrite lookup_app_l by lia. apply BuildMessage_last.
Qed.

Lemma counted_wrap ms : counted 0 ms = wrap 64 (Z.of_nat (length ms)).
Proof.
  unfold counted. induction (length ms) as [|k IH]; [done|]. simpl Nat.iter.
  rewrite IH. unfold incr64, wrap. rewrite Zplus_mod_idemp_l. f_equal. lia.
Qed.

(** An unfinished message asks for more bytes. *)
Lemma scan_head_prefix max fields part rest :
  framable max fields → BuildMessage fields = part ++ rest → rest ≠ [] →
  scan_head max part = NeedMore.
Proof.
  intros Hf Hb Hr.
  assert (scan_head max part = NeedMore ∨ scan_head max part ≠ NeedMore) as [|Hne]
    by (destruct (scan_head max part); auto); [done|].
  pose proof (scan_head_app _ part rest _ eq_refl Hne) as Happ.
  pose proof (scan_head_built max fields [] Hf) as Hbuilt.
  rewrite app_nil_r, Hb in Hbuilt. rewrite Hbuilt in Happ. symmetry in Happ.
  apply scan_head_framed in Happ. rewrite length_app in Happ. destruct rest; [done|]. simpl in *. lia.
Qed.

Lemma cut_stream_built max fss part :
  Forall (framable max) fss → scan_head max part = NeedMore →
  cut_stream max (concat (BuildMessage <$> fss) ++ part) = mkCut (BuildMessage <$> fss) part [].
Proof.
  intros Hall Hpart. induction Hall as [|fields fss Hf _ IH].
  { simpl. rewrite cut_stream_step. by rewrite Hpart. }
  rewrite fmap_cons. cbn [concat]. rewrite <-app_assoc, cut_stream_step, scan_head_built by done.
  by rewrite drop_app_length, take_app_length, IH.
Qed.

(** C21: a stream of built messages, however it is split into reads and wherever
    it is cut off, comes out of the framer as exactly those messages; the
    unfinished tail stays buffered, and nothing is ever taken for corrupt. *)
Theorem Framer_delivers max fss fields part rest chunks :
  Forall (framable max) fss → framable max fields →
  BuildMessage fields = part ++ rest → rest ≠ [] →
  concat chunks = concat (BuildMessage <$> fss) ++ part →
  ∃ f, ReceiveAll chunks (new_Framer max) = (f, BuildMessage <$> fss) ∧
    Good f = true ∧ view f = part ∧ MessagesFramed f = wrap 64 (Z.of_nat (length fss)).
Proof.
  intros Hall Hf Hb Hr Hc. pose proof (scan_head_prefix _ _ _ _ Hf Hb Hr) as Hpart.
  destruct (ReceiveAll_received chunks _ _ _ _ _ (new_Framer_received max))
    as (f & ms & Hrun & Hms & Hv & He & _ & Hn).
  simpl app in Hms, Hv, He, Hn. rewrite Hc, cut_stream_built in Hms, Hv, He by done.
  simpl in Hms, Hv, He. subst ms. exists f. split_and!; [done| |done|].
  - unfold Good. by rewrite bool_decide_eq_true_2.
  - unfold MessagesFramed. rewrite Hn, counted_wrap. by rewrite length_fmap.
Qed.

(** Two messages and a few bytes of a third, in reads of seven bytes. *)
Definition demo_stream : bytes :=
  BuildMessage demo_fields ++ BuildMessage demo_fields ++ take 15 (BuildMessage demo_fields).

Definition demo_chunks : list bytes :=
  (λ i, take 7 (drop (7 * i) demo_stream)) <$> seq 0 (S (length demo_stream / 7)).

Lemma demo_framable : framable kMaxBodyLength demo_fields.
Proof. by vm_compute. Qed.

Lemma Framer_delivers_witness :
  ∃ f, ReceiveAll demo_chunks (new_Framer kMaxBodyLength) =
      (f, [BuildMessage demo_fields; BuildMessage demo_fields]) ∧
    Good f = true ∧ view f = take 15 (BuildMessage demo_fields) ∧ MessagesFramed f = 2.
Proof.
  apply (Framer_delivers kMaxBodyLength [demo_fields; demo_fields] demo_fields
    (take 15 (BuildMessage demo_fields)) (drop 15 (BuildMessage demo_fields)) demo_chunks).
  - constructor; [exact demo_framable|]. constructor; [exact demo_framable|constructor].
  - exact demo_framable.
  - by vm_compute.
  - by vm_compute.
  - by vm_compute.
Defined.
