(* ===== verification/FixGroup.v ===== *)
(** * Repeating groups

    [ReadGroup] recovers the repetitions of a flat group: as many as the count
    field declares when they are there, all there are when they are not. *)

From S2P Require Import Prelude Text FixMessage FixRoundTrip FixSound.

Section group.
Context (member_tags : list Z) (delimiter : Z).

(** One repetition: the delimiter, then other members. *)
Definition repetition (entry : list Field) : Prop :=
  match entry with
  | [] => False
  | first :: others =>
      f_tag first = delimiter ∧
      Forall (λ one, f_tag one ∈ member_tags ∧ f_tag one ≠ delimiter) others
  end.

(** What may follow the group. *)
Definition group_ends (post : list Field) : Prop :=
  match post with [] => True | one :: _ => f_tag one ∉ member_tags end.

(** The positions at which repetitions start. *)
Fixpoint starts_of (offset : nat) (es : list (list Field)) : list nat :=
  match es with
  | [] => []
  | e :: es => offset :: starts_of (offset + length e) es
  end.

Hypothesis delimiter_member : delimiter ∈ member_tags.

Lemma is_member_true t : t ∈ member_tags → is_member member_tags t = true.
Proof. apply bool_decide_eq_true_2. Qed.

Lemma scan_others declared others rest offset starts :
  Forall (λ one, f_tag one ∈ member_tags ∧ f_tag one ≠ delimiter) others →
  scan_entry_starts member_tags delimiter declared (others ++ rest) offset starts =
  scan_entry_starts member_tags delimiter declared rest (offset + length others) starts.
Proof.
  intros Hall. revert offset. induction Hall as [|one others [Hm Hd] _ IH]; intros offset; simpl.
  { by rewrite Nat.add_0_r. }
  rewrite is_member_true, (proj2 (Z.eqb_neq _ _) Hd) by done. simpl. rewrite IH. f_equal. lia.
Qed.

Lemma scan_post declared post offset starts :
  group_ends post →
  scan_entry_starts member_tags delimiter declared post offset starts = (starts, offset).
Proof.
  destruct post as [|one post]; simpl; [done|]. intros Hm.
  unfold is_member. by rewrite bool_decide_eq_false_2.
Qed.

Lemma scan_repetitions es post k offset starts :
  Forall repetition es → group_ends post →
  scan_entry_starts member_tags delimiter (Z.of_nat (length starts + k)) (concat es ++ post)
    offset starts =
    (starts ++ starts_of offset (take k es), (offset + length (concat (take k es)))%nat).
Proof.
  intros Hall Hpost. revert k offset starts.
  induction Hall as [|e es He _ IH]; intros k offset starts.
  { rewrite take_nil. simpl. rewrite scan_post by done. by rewrite app_nil_r, Nat.add_0_r. }
  destruct e as [|first others]; [done|]. destruct He as [Hd Hothers].
  cbn [concat app scan_entry_starts]. rewrite Hd, is_member_true, Z.eqb_refl by done. cbn [negb].
  destruct k as [|k].
  { rewrite Nat.add_0_r, Z.eqb_refl. simpl. by rewrite app_nil_r, Nat.add_0_r. }
  rewrite (proj2 (Z.eqb_neq _ _)) by lia. rewrite <-app_assoc, scan_others by done.
  replace (length starts + S k)%nat with (length (starts ++ [offset]) + k)%nat
    by (rewrite length_app; simpl; lia).
  rewrite IH. cbn [take starts_of concat]. rewrite <-app_assoc. simpl. f_equal.
  - do 3 f_equal. lia.
  - rewrite length_app. lia.
Qed.

Lemma cut_repetitions fields es tail offset :
  Forall (λ e, e ≠ []) es → drop offset fields = concat es ++ tail →
  cut_entries fields (starts_of offset es) (offset + length (concat es)) = es.
Proof.
  intros Hall. revert offset. induction Hall as [|e es He _ IH]; intros offset Hdrop; [done|].
  cbn [starts_of cut_entries concat].
  assert (default (offset + length (e ++ concat es))%nat (head (starts_of (offset + length e) es)) =
    offset + length e)%nat as ->.
  { destruct es; simpl; [|done]. by rewrite app_nil_r. }
  f_equal.
  - rewrite Hdrop. cbn [concat]. rewrite <-app_assoc. rewrite take_app_length' by lia. done.
  - rewrite length_app, Nat.add_assoc. apply IH. rewrite <-drop_drop, Hdrop. cbn [concat].
    rewrite <-app_assoc. by rewrite drop_app_length.
Qed.

Lemma find_tag_app pre one post :
  Forall (λ x, f_tag x ≠ f_tag one) pre →
  find_tag (f_tag one) (pre ++ one :: post) = Some (length pre).
Proof.
  induction 1 as [|x pre Hx _ IH]; simpl; [by rewrite Z.eqb_refl|].
  by rewrite (proj2 (Z.eqb_neq _ _) Hx), IH.
Qed.

Lemma repetitions_nonempty es : Forall repetition es → Forall (λ e : list Field, e ≠ []) es.
Proof. intros H. eapply Forall_impl; [exact H|]. by intros []. Qed.

Lemma ReadGroup_repetitions m pre count es post n :
  BodyFields m = pre ++ count :: concat es ++ post →
  Forall (λ x, f_tag x ≠ f_tag count) pre → ToInt (f_value count) = Some n → 0 <= n →
  Forall repetition es → group_ends post →
  ReadGroup m (f_tag count) member_tags = Expected (mkRepeatingGroup (take (Z.to_nat n) es) n).
Proof.
  intros Hbody Hpre Hint Hn Hes Hpost. unfold ReadGroup. rewrite Hbody, find_tag_app by done.
  rewrite list_lookup_middle by done.
  change (default [] (f_value <$> Some count)) with (f_value count). rewrite Hint. rewrite (proj2 (Z.ltb_ge _ _)) by done.
  destruct (Z.eqb_spec n 0) as [->|Hn0]; [done|].
  replace (pre ++ count :: concat es ++ post) with ((pre ++ [count]) ++ concat es ++ post)
    by (by rewrite <-app_assoc).
  assert (S (length pre) = length (pre ++ [count])) as Hlen by (rewrite length_app; simpl; lia).
  rewrite Hlen, lookup_app_r, Nat.sub_diag, drop_app_length by lia.
  destruct es as [|[|first others] es].
  - simpl. rewrite take_nil. destruct post as [|p post]; [done|]. simpl.
    unfold is_member. by rewrite bool_decide_eq_false_2.
  - by apply Forall_cons in Hes as [[] _].
  - pose proof Hes as [[Hd _] _]%Forall_cons. cbn [concat app].
    change ((first :: (others ++ concat es) ++ post) !! 0%nat) with (Some first). cbv iota beta.
    rewrite Hd, is_member_true by done. cbn [negb].
    change (first :: (others ++ concat es) ++ post) with (concat ((first :: others) :: es) ++ post).
    pose proof (scan_repetitions ((first :: others) :: es) post (Z.to_nat n)
      (length (pre ++ [count])) [] Hes Hpost) as Hscan.
    cbn [length] in Hscan. rewrite Nat.add_0_l, Z2Nat.id in Hscan by lia. rewrite Hscan.
    cbn [app]. do 2 f_equal.
    apply (cut_repetitions _ _ (concat (drop (Z.to_nat n) ((first :: others) :: es)) ++ post)).
    + apply Forall_take. by apply repetitions_nonempty.
    + rewrite drop_app_length, app_assoc, <-concat_app, take_drop. done.
Qed.
End group.

(** Reading a group whose count field declares [n]: the repetitions come
    back whole and in order, [n] of them when there are as many, all of them
    when there are fewer, and [Truncated] tells the two apart. *)
Theorem ReadGroup_reads member_tags delimiter m pre count es post n :
  delimiter ∈ member_tags →
  BodyFields m = pre ++ count :: concat es ++ post →
  Forall (λ x, f_tag x ≠ f_tag count) pre → ToInt (f_value count) = Some n → 0 <= n →
  Forall (repetition member_tags delimiter) es → group_ends member_tags post →
  ∃ g, ReadGroup m (f_tag count) member_tags = Expected g ∧
    entries g = take (Z.to_nat n) es ∧ declared_count g = n ∧
    (Truncated g = true ↔ Z.of_nat (length es) < n).
Proof.
  intros Hd Hbody Hpre Hint Hn Hes Hpost.
  eexists. split; [by eapply ReadGroup_repetitions|]. split_and!; [done..|].
  unfold Truncated. simpl. rewrite Z.ltb_lt, length_take. lia.
Qed.

(** A market-data body that claims three entries and carries two. *)
Definition demo_group_fields : list Field :=
  [mkField 35 (B "X"); mkField 55 (B "BTC-PERPETUAL"); mkField 268 (B "3");
   mkField 279 (B "0"); mkField 269 (B "0"); mkField 270 (B "100.5");
   mkField 279 (B "2"); mkField 269 (B "1");
   mkField 58 (B "end")].

Definition demo_group_message : ParsedMessage :=
  mkParsedMessage ([begin_field; length_field demo_group_fields] ++ demo_group_fields ++
    [check_field demo_group_fields]) (B "X").

Lemma ReadGroup_reads_witness :
  ∃ g, ReadGroup demo_group_message 268 [279; 269; 270; 271] = Expected g ∧
    entries g = [[mkField 279 (B "0"); mkField 269 (B "0"); mkField 270 (B "100.5")];
                 [mkField 279 (B "2"); mkField 269 (B "1")]] ∧
    declared_count g = 3 ∧ (Truncated g = true ↔ 2 < 3).
Proof.
  apply (ReadGroup_reads [279; 269; 270; 271] 279 demo_group_message
    [mkField 35 (B "X"); mkField 55 (B "BTC-PERPETUAL")] (mkField 268 (B "3"))
    [[mkField 279 (B "0"); mkField 269 (B "0"); mkField 270 (B "100.5")];
     [mkField 279 (B "2"); mkField 269 (B "1")]] [mkField 58 (B "end")] 3).
  - set_solver.
  - by vm_compute.
  - repeat constructor; done.
  - by vm_compute.
  - done.
  - repeat (constructor || split); simpl; try done; set_solver.
  - simpl. set_solver.
Defined.
