(* ===== verification/FixTime.v ===== *)
(** * SendingTime: [FormatUtcTimestamp] of [feed_handler/fix/fix_message.cpp]

    [gmtime_r] is the proleptic Gregorian calendar from 1970-01-01, computed
    here by eras of 400 years; [strftime] and [snprintf] print fixed-width
    decimal fields. *)

From S2P Require Import Prelude Text.

Record tm := mkTm { tm_year : Z; tm_mon : Z; tm_mday : Z; tm_hour : Z; tm_min : Z; tm_sec : Z }.

(** Year, month and day of a day count since 1970-01-01. *)
Definition civil_of_days (days : Z) : Z * Z * Z :=
  let z := days + 719468 in
  let era := z / 146097 in
  let doe := z mod 146097 in
  let yoe := (doe - doe / 1460 + doe / 36524 - doe / 146096) / 365 in
  let doy := doe - (365 * yoe + yoe / 4 - yoe / 100) in
  let mp := (5 * doy + 2) / 153 in
  let d := doy - (153 * mp + 2) / 5 + 1 in
  let m := if mp <? 10 then mp + 3 else mp - 9 in
  ((yoe + era * 400 + if m <=? 2 then 1 else 0), m, d).

Definition gmtime (seconds : Z) : tm :=
  let '(y, m, d) := civil_of_days (seconds / 86400) in
  let s := seconds mod 86400 in
  mkTm y m d (s / 3600) (s / 60 mod 60) (s mod 60).

(** A number in exactly [width] digits, zero-padded ([%02u], [%03u], [%Y] of a
    four-digit year). *)
Fixpoint padded (width : nat) (n : Z) : bytes :=
  match width with
  | O => []
  | S width => padded width (n / 10) ++ [digit (n mod 10)]
  end.

Definition FormatUtcTimestamp (realtime_ns : Z) : bytes :=
  let utc := gmtime (realtime_ns / 1000000000) in
  let millis := realtime_ns mod 1000000000 / 1000000 in
  padded 4 (tm_year utc) ++ padded 2 (tm_mon utc) ++ padded 2 (tm_mday utc) ++ B "-" ++
  padded 2 (tm_hour utc) ++ B ":" ++ padded 2 (tm_min utc) ++ B ":" ++ padded 2 (tm_sec utc) ++
  B "." ++ padded 3 millis.

Example FormatUtcTimestamp_epoch : FormatUtcTimestamp 0 = B "19700101-00:00:00.000".
Proof. by vm_compute. Qed.

Example FormatUtcTimestamp_leap :
  FormatUtcTimestamp 1709210096789000000 = B "20240229-12:34:56.789".
Proof. by vm_compute. Qed.

Example FormatUtcTimestamp_century :
  FormatUtcTimestamp 4107542400000000000 = B "21000301-00:00:00.000".
Proof. by vm_compute. Qed.

(** ** Facts the session layer uses *)

Lemma padded_digits width n : Forall (λ c, is_digit c = true) (padded width n).
Proof.
  revert n. induction width as [|width IH]; intros n; simpl; [constructor|].
  apply Forall_app. split; [apply IH|]. constructor; [|constructor].
  apply digit_is_digit, Z.mod_pos_bound. lia.
Qed.

Lemma padded_length width n : length (padded width n) = width.
Proof. revert n. induction width as [|width IH]; intros n; simpl; [done|]. rewrite length_app, IH. simpl. lia. Qed.
