(* ===== verification/FixSession.v ===== *)
(** * Deribit's FIX session: [feed_handler/deribit/deribit_fix_session.{h,cpp}]

    Message construction and the sequence numbers of both directions. OpenSSL's
    functions are parameters, the clock and the random source arguments of the
    calls that read them. *)

From S2P Require Import Prelude Text FixMessage FixTime.

Definition kTargetCompId : bytes := B "DERIBITSERVER".
Definition kLogonNonceBytes : nat := 32.
Definition kHeartbeatIntervalSeconds : Z := 30.
Definition kSha256Bytes : nat := 32.

Record SessionConfig := mkSessionConfig {
  client_id : bytes;
  client_secret : bytes;
  target_comp_id : bytes;
  heartbeat_interval_seconds : Z;
}.

Record LogonCredentials := mkLogonCredentials { raw_data : bytes; password : bytes }.

(** ** Inbound sequence checks *)

Inductive SequenceStatus : Type :=
| kInSequence
| kSeqGap
| kDuplicate
| kPossibleDuplicate
| kMalformed.

#[export] Instance SequenceStatus_eq_dec : EqDecision SequenceStatus.
Proof. solve_decision. Defined.

Definition SequenceStatus_ToString (status : SequenceStatus) : bytes :=
  match status with
  | kSeqGap => B "gap"
  | kDuplicate => B "duplicate"
  | kPossibleDuplicate => B "possible-duplicate"
  | kMalformed => B "malformed"
  | kInSequence => B "in-sequence"
  end.

Record InboundCheck := mkInboundCheck {
  ic_status : SequenceStatus;
  ic_expected : Z;
  ic_received : Z;
  ic_missing : Z;
}.

Definition SessionBroken (check : InboundCheck) : bool :=
  match ic_status check with
  | kSeqGap | kDuplicate | kMalformed => true
  | kInSequence | kPossibleDuplicate => false
  end.

Definition Describe (check : InboundCheck) : bytes :=
  SequenceStatus_ToString (ic_status check) ++ B ": expected MsgSeqNum " ++
  to_string (ic_expected check) ++ B ", received " ++ to_string (ic_received check) ++
  (if ic_missing check =? 0 then []
   else B " (" ++ to_string (ic_missing check) ++ B " missing)").

(** ** The session *)

Record FixSession := mkFixSession {
  fs_cfg : SessionConfig;
  fs_sending_time : bytes;
  fs_next_outbound : Z;
  fs_expected_inbound : Z;
  fs_gaps_detected : Z;
}.

Definition new_FixSession (cfg : SessionConfig) : FixSession := mkFixSession cfg [] 1 1 0.

Definition NextOutboundSeqNum (s : FixSession) : Z := fs_next_outbound s.
Definition ExpectedInboundSeqNum (s : FixSession) : Z := fs_expected_inbound s.
Definition GapsDetected (s : FixSession) : Z := fs_gaps_detected s.

Definition set_inbound (expected gaps : Z) (s : FixSession) : FixSession :=
  mkFixSession (fs_cfg s) (fs_sending_time s) (fs_next_outbound s) expected gaps.

Definition OnInboundSeqNum (msg_seq_num : Z) (possible_duplicate : bool) (s : FixSession)
  : FixSession * InboundCheck :=
  let expected := fs_expected_inbound s in
  if possible_duplicate then (s, mkInboundCheck kPossibleDuplicate expected msg_seq_num 0)
  else if msg_seq_num =? expected then
    (set_inbound (incr64 expected) (fs_gaps_detected s) s,
     mkInboundCheck kInSequence expected msg_seq_num 0)
  else if msg_seq_num <? expected then
    (s, mkInboundCheck kDuplicate expected msg_seq_num 0)
  else
    (set_inbound (wrap 64 (msg_seq_num + 1)) (incr64 (fs_gaps_detected s)) s,
     mkInboundCheck kSeqGap expected msg_seq_num (msg_seq_num - expected)).

Definition OnInbound (message : ParsedMessage) (s : FixSession) : FixSession * InboundCheck :=
  let malformed := (s, mkInboundCheck kMalformed (fs_expected_inbound s) 0 0) in
  match GetInt message tag.kMsgSeqNum with
  | None => malformed
  | Some seq_num =>
      if seq_num <? 0 then malformed
      else
        let possible_duplicate := bool_decide (Get message tag.kPossDupFlag = Some (B "Y")) in
        OnInboundSeqNum seq_num possible_duplicate s
  end.

Definition ResetSequenceNumbers (s : FixSession) : FixSession :=
  mkFixSession (fs_cfg s) (fs_sending_time s) 1 1 (fs_gaps_detected s).

(** ** Outbound messages *)

(** [NextHeader] at the clock reading [now]. *)
Definition NextHeader (type : bytes) (now : Z) (s : FixSession) : FixSession * SessionHeader :=
  let sending_time := FormatUtcTimestamp now in
  (mkFixSession (fs_cfg s) sending_time (incr64 (fs_next_outbound s)) (fs_expected_inbound s)
     (fs_gaps_detected s),
   mkSessionHeader type (client_id (fs_cfg s)) (target_comp_id (fs_cfg s)) (fs_next_outbound s)
     sending_time).

Definition Send (type : bytes) (body : list Field) (now : Z) (s : FixSession)
  : FixSession * bytes :=
  let '(s', header) := NextHeader type now s in (s', BuildSessionMessage header body).

Definition market_data_body (md_req_id : bytes) (symbols : list bytes) : list Field :=
  [mkField tag.kMdReqId md_req_id;
   mkField tag.kSubscriptionRequestType (B "1");
   mkField tag.kMarketDepth (B "0");
   mkField tag.kNoMdEntryTypes (B "2");
   mkField tag.kMdEntryType (B "0");
   mkField tag.kMdEntryType (B "1");
   mkField tag.kNoRelatedSym (to_string (Z.of_nat (length symbols)))] ++
  (mkField tag.kSymbol <$> symbols).

Definition BuildMarketDataRequest (md_req_id : bytes) (symbols : list bytes) (now : Z)
    (s : FixSession) : FixSession * bytes :=
  Send msg_type.kMarketDataRequest (market_data_body md_req_id symbols) now s.

Definition BuildHeartbeat (now : Z) (s : FixSession) : FixSession * bytes :=
  Send msg_type.kHeartbeat [] now s.

Definition BuildHeartbeatResponse (test_req_id : bytes) (now : Z) (s : FixSession)
  : FixSession * bytes :=
  Send msg_type.kHeartbeat [mkField tag.kTestReqId test_req_id] now s.

Definition BuildTestRequest (test_req_id : bytes) (now : Z) (s : FixSession)
  : FixSession * bytes :=
  Send msg_type.kTestRequest [mkField tag.kTestReqId test_req_id] now s.

Definition BuildLogout (text : bytes) (now : Z) (s : FixSession) : FixSession * bytes :=
  match text with
  | [] => Send msg_type.kLogout [] now s
  | _ => Send msg_type.kLogout [mkField tag.kText text] now s
  end.

Section crypto.
(** [EVP_EncodeBlock]: the text written, [None] when it reports none. *)
Variable EVP_EncodeBlock : bytes → option bytes.
(** [EVP_Digest] with SHA-256: the digest, [None] when it fails. *)
Variable EVP_Digest : bytes → option bytes.

Definition Base64Encode (data : bytes) : bytes :=
  match data with
  | [] => []
  | _ => default [] (EVP_EncodeBlock data)
  end.

Definition Sha256 (data : bytes) : bytes :=
  match EVP_Digest data with
  | Some digest => if decide (length digest = kSha256Bytes) then digest
                   else replicate kSha256Bytes (byte_of 0)
  | None => replicate kSha256Bytes (byte_of 0)
  end.

Definition MakeLogonCredentials (timestamp_ms : Z) (nonce client_secret : bytes)
  : LogonCredentials :=
  let raw_data := to_string timestamp_ms ++ B "." ++ Base64Encode nonce in
  mkLogonCredentials raw_data (Base64Encode (Sha256 (raw_data ++ client_secret))).

(** [GenerateLogonNonce] given what [RAND_bytes] delivered. *)
Definition GenerateLogonNonce (rand : option bytes) : expected bytes bytes :=
  match rand with
  | Some nonce => Expected nonce
  | None => Unexpected (B "deribit: OpenSSL CSPRNG failed to produce a Logon nonce")
  end.

Definition logon_body (cfg : SessionConfig) (credentials : LogonCredentials) : list Field :=
  [mkField tag.kEncryptMethod (B "0");
   mkField tag.kHeartBtInt (to_string (heartbeat_interval_seconds cfg));
   mkField tag.kUsername (client_id cfg);
   mkField tag.kRawData (raw_data credentials);
   mkField tag.kPassword (password credentials)].

Definition BuildLogonWithNonce (timestamp_ms : Z) (nonce : bytes) (now : Z) (s : FixSession)
  : FixSession * bytes :=
  let credentials := MakeLogonCredentials timestamp_ms nonce (client_secret (fs_cfg s)) in
  Send msg_type.kLogon (logon_body (fs_cfg s) credentials) now s.

(** [BuildLogon]; the clock is read for the timestamp, then for the header. *)
Definition BuildLogon (rand : option bytes) (now now' : Z) (s : FixSession)
  : FixSession * expected bytes bytes :=
  match GenerateLogonNonce rand with
  | Unexpected error => (s, Unexpected error)
  | Expected nonce =>
      let '(s', message) := BuildLogonWithNonce (now / 1000000) nonce now' s in
      (s', Expected message)
  end.
End crypto.
