(* ===== verification/FixLink.v ===== *)
(** * Two ends of a FIX session

    What one session builds, numbered from its own counter, the other end
    frames, parses and finds in sequence; and an unbroken run of inbound checks
    has missed nothing. *)

From S2P Require Import Prelude Text FixMessage FixRoundTrip FixFramer FixTime FixSession.

(** ** Inbound numbering *)

Fixpoint check_all (inputs : list (Z * bool)) (s : FixSession) : FixSession * list InboundCheck :=
  match inputs with
  | [] => (s, [])
  | (seq_num, dup) :: inputs =>
      let '(s', check) := OnInboundSeqNum seq_num dup s in
      let '(s'', checks) := check_all inputs s' in (s'', check :: checks)
  end.

(** The numbers of the messages that are not administrative resends. *)
Definition fresh_numbers (inputs : list (Z * bool)) : list Z :=
  (filter (λ x : Z * bool, x.2 = false) inputs).*1.

Fixpoint count_up (from : Z) (n : nat) : list Z :=
  match n with O => [] | S n => from :: count_up (from + 1) n end.

(** A session none of whose inbound checks reports a break has received
    every message: the numbers of the fresh ones are consecutive from the one
    first expected, resends interspersed or not; and conversely such a run
    breaks nothing. *)
Theorem unbroken_iff_consecutive inputs s :
  0 <= fs_expected_inbound s →
  fs_expected_inbound s + Z.of_nat (length inputs) <= u64_max →
  Forall (λ check, SessionBroken check = false) (check_all inputs s).2 ↔
    fresh_numbers inputs = count_up (fs_expected_inbound s) (length (fresh_numbers inputs)).
Proof.
  revert s. induction inputs as [|[seq dup] inputs IH]; intros s H0 H1; simpl in H1.
  { simpl. split; [done|constructor]. }
  unfold fresh_numbers in *. simpl check_all. unfold OnInboundSeqNum. destruct dup.
  - rewrite filter_cons_False by done. specialize (IH s H0 ltac:(lia)).
    destruct (check_all inputs s) as [s' checks]. simpl in *. rewrite Forall_cons, IH. naive_solver.
  - rewrite filter_cons_True by done. rewrite fmap_cons. cbn [length count_up fst].
    destruct (Z.eqb_spec seq (fs_expected_inbound s)) as [->|Hne].
    + set (s1 := set_inbound _ _ _).
      assert (fs_expected_inbound s1 = fs_expected_inbound s + 1) as Hs1.
      { subst s1. simpl. apply incr64_small. unfold u64_max in *. lia. }
      specialize (IH s1 ltac:(lia) ltac:(lia)). rewrite Hs1 in IH.
      destruct (check_all inputs s1) as [s' checks]. simpl in *. rewrite Forall_cons, IH. simpl.
      split; [intros [_ H]; by f_equal|]. intros [= H]. done.
    + destruct (seq <? fs_expected_inbound s).
      * destruct (check_all inputs s) as [s' checks]. simpl. rewrite Forall_cons. naive_solver.
      * set (s1 := set_inbound _ _ _). destruct (check_all inputs s1) as [s' checks].
        simpl. rewrite Forall_cons. naive_solver.
Qed.

Definition demo_session : FixSession :=
  new_FixSession (mkSessionConfig (B "client") (B "secret") kTargetCompId 30).

Lemma unbroken_iff_consecutive_witness :
  Forall (λ check, SessionBroken check = false)
    (check_all [(1, false); (2, false); (1, true); (3, false)] demo_session).2.
Proof.
  apply (unbroken_iff_consecutive [(1, false); (2, false); (1, true); (3, false)] demo_session);
    [vm_compute; discriminate..|reflexivity].
Defined.

(** ** Outbound messages *)

Section link.
Variable EVP_EncodeBlock EVP_Digest : bytes → option bytes.
(** Base64 text holds no SOH. *)
Hypothesis base64_text : ∀ data out, EVP_EncodeBlock data = Some out → kSoh ∉ out.

(** The session's build calls with their inputs; [now] is the clock reading. *)
Inductive request : Type :=
| ReqLogon (timestamp_ms : Z) (nonce : bytes) (now : Z)
| ReqMarketData (md_req_id : bytes) (symbols : list bytes) (now : Z)
| ReqHeartbeat (now : Z)
| ReqHeartbeatResponse (test_req_id : bytes) (now : Z)
| ReqTestRequest (test_req_id : bytes) (now : Z)
| ReqLogout (text : bytes) (now : Z).

Definition build (r : request) (s : FixSession) : FixSession * bytes :=
  match r with
  | ReqLogon ts nonce now => BuildLogonWithNonce EVP_EncodeBlock EVP_Digest ts nonce now s
  | ReqMarketData id symbols now => BuildMarketDataRequest id symbols now s
  | ReqHeartbeat now => BuildHeartbeat now s
  | ReqHeartbeatResponse id now => BuildHeartbeatResponse id now s
  | ReqTestRequest id now => BuildTestRequest id now s
  | ReqLogout text now => BuildLogout text now s
  end.

Fixpoint build_all (rs : list request) (s : FixSession) : FixSession * list bytes :=
  match rs with
  | [] => (s, [])
  | r :: rs =>
      let '(s', m) := build r s in let '(s'', ms) := build_all rs s' in (s'', m :: ms)
  end.

(** The same call as a [Send]. *)
Definition request_send (cfg : SessionConfig) (r : request) : bytes * list Field * Z :=
  match r with
  | ReqLogon ts nonce now =>
      (msg_type.kLogon,
       logon_body cfg (MakeLogonCredentials EVP_EncodeBlock EVP_Digest ts nonce (client_secret cfg)),
       now)
  | ReqMarketData id symbols now => (msg_type.kMarketDataRequest, market_data_body id symbols, now)
  | ReqHeartbeat now => (msg_type.kHeartbeat, [], now)
  | ReqHeartbeatResponse id now => (msg_type.kHeartbeat, [mkField tag.kTestReqId id], now)
  | ReqTestRequest id now => (msg_type.kTestRequest, [mkField tag.kTestReqId id], now)
  | ReqLogout text now =>
      (msg_type.kLogout, match text with [] => [] | _ => [mkField tag.kText text] end, now)
  end.

Lemma build_Send r s :
  build r s = Send (request_send (fs_cfg s) r).1.1 (request_send (fs_cfg s) r).1.2
                (request_send (fs_cfg s) r).2 s.
Proof. by destruct r as [| | | | |[|] ]. Qed.

(** Caller-supplied texts free of SOH, as the configuration layer checks. *)
Definition request_text_ok (r : request) : Prop :=
  match r with
  | ReqLogon ts _ _ => 0 <= ts
  | ReqMarketData id symbols _ => kSoh ∉ id ∧ Forall (λ sym, kSoh ∉ sym) symbols
  | ReqHeartbeat _ => True
  | ReqHeartbeatResponse id _ | ReqTestRequest id _ => kSoh ∉ id
  | ReqLogout text _ => kSoh ∉ text
  end.

(** A body well below the framer's limit. *)
Definition request_size_ok (cfg : SessionConfig) (r : request) : Prop :=
  Z.of_nat (length (client_id cfg) + length (target_comp_id cfg) +
            length (render_body (request_send cfg r).1.2)) <= 1000000.

Definition config_ok (cfg : SessionConfig) : Prop :=
  kSoh ∉ client_id cfg ∧ kSoh ∉ target_comp_id cfg ∧ 0 <= heartbeat_interval_seconds cfg.

(** Body tags are none of the header's. *)
Definition body_field_ok (one : Field) : Prop :=
  sendable one ∧ f_tag one ≠ tag.kCheckSum ∧ f_tag one ≠ tag.kMsgType ∧
  f_tag one ≠ tag.kPossDupFlag.

Lemma body_field_intro t v :
  existsb (Z.eqb t) [98; 108; 553; 96; 554; 262; 263; 264; 267; 269; 146; 55; 112; 58] = true →
  kSoh ∉ v → body_field_ok (mkField t v).
Proof.
  intros Ht Hv. unfold body_field_ok, sendable, int_max. simpl.
  unfold tag.kCheckSum, tag.kMsgType, tag.kPossDupFlag. simpl in Ht.
  split_and!; try done; lia.
Qed.

Lemma Base64Encode_text data : kSoh ∉ Base64Encode EVP_EncodeBlock data.
Proof.
  destruct data as [|c data]; [set_solver|]. unfold Base64Encode.
  destruct (EVP_EncodeBlock (c :: data)) as [out|] eqn:He; simpl; [by eapply base64_text|set_solver].
Qed.

Lemma no_soh (v : bytes) : bool_decide (kSoh ∉ v) = true → kSoh ∉ v.
Proof. by intros ?%bool_decide_eq_true_1. Qed.

Lemma request_body_ok cfg r :
  config_ok cfg → request_text_ok r → Forall body_field_ok (request_send cfg r).1.2.
Proof.
  intros (Hc & _ & Hh) Ht.
  destruct r as [ts nonce now|id symbols now|now|id now|id now|text now]; simpl in *.
  - repeat (constructor; [apply body_field_intro; [reflexivity|]|]); [| | | | |constructor].
    + by apply no_soh.
    + by apply to_string_soh.
    + done.
    + simpl. pose proof (Base64Encode_text nonce). pose proof (to_string_soh ts Ht).
      rewrite elem_of_app, elem_of_cons. intros [|[|]]; done.
    + apply Base64Encode_text.
  - destruct Ht as [Hid Hsym].
    repeat (constructor; [apply body_field_intro; [reflexivity|]; try (by apply no_soh)|]).
    + done.
    + apply to_string_soh. lia.
    + apply Forall_fmap. eapply Forall_impl; [exact Hsym|]. intros sym Hs. simpl.
      by apply body_field_intro.
  - constructor.
  - constructor; [|constructor]. by apply body_field_intro.
  - constructor; [|constructor]. by apply body_field_intro.
  - destruct text; [constructor|]. constructor; [|constructor]. by apply body_field_intro.
Qed.

(** ** One message across the link *)

Definition sent_fields (r : request) (s : FixSession) : list Field :=
  let '(type, body, now) := request_send (fs_cfg s) r in
  header_fields (mkSessionHeader type (client_id (fs_cfg s)) (target_comp_id (fs_cfg s))
                   (fs_next_outbound s) (FormatUtcTimestamp now)) ++ body.

Lemma build_sent r s :
  build r s = (mkFixSession (fs_cfg s) (FormatUtcTimestamp (request_send (fs_cfg s) r).2)
                 (incr64 (fs_next_outbound s)) (fs_expected_inbound s) (fs_gaps_detected s),
               BuildMessage (sent_fields r s)).
Proof.
  rewrite build_Send. unfold sent_fields, Send, NextHeader.
  by destruct (request_send (fs_cfg s) r) as [[type body] now].
Qed.

Lemma request_type cfg r : ∃ c, (request_send cfg r).1.1 = [c] ∧ c ≠ kSoh.
Proof. destruct r; eexists; (split; [reflexivity|discriminate]). Qed.

Lemma FormatUtcTimestamp_text now :
  kSoh ∉ FormatUtcTimestamp now ∧ length (FormatUtcTimestamp now) = 21%nat.
Proof.
  assert (∀ w n, kSoh ∉ padded w n) as Hp.
  { intros w n Hin. pose proof (padded_digits w n) as Hall. rewrite Forall_forall in Hall.
    by apply Hall in Hin. }
  unfold FormatUtcTimestamp. split.
  - rewrite !elem_of_app.
    intros [H|[H|[H|[H|[H|[H|[H|[H|[H|[H|H]]]]]]]]]]; try (by apply Hp in H);
      revert H; by apply no_soh.
  - rewrite !length_app, !padded_length. done.
Qed.

Lemma header_sendable s r :
  config_ok (fs_cfg s) → 0 <= fs_next_outbound s →
  Forall sendable (sent_fields r s) ↔ Forall sendable (request_send (fs_cfg s) r).1.2.
Proof.
  intros (Hc & Ht & _) Hn. unfold sent_fields.
  destruct (request_type (fs_cfg s) r) as (c & Htype & Hcs).
  destruct (request_send (fs_cfg s) r) as [[type body] now]. simpl in Htype. subst type.
  rewrite Forall_app. simpl. split; [tauto|]. intros Hb. split; [|done].
  unfold header_fields. simpl.
  repeat (apply Forall_cons; split; [split; [by vm_compute|simpl]|]); [| | | | |constructor].
  - rewrite list_elem_of_singleton. congruence.
  - done.
  - done.
  - by apply to_string_soh.
  - apply FormatUtcTimestamp_text.
Qed.

Lemma to_string_length n : 0 <= n < 10 ^ 20 → (length (to_string n) <= 20)%nat.
Proof.
  intros Hn. unfold to_string. rewrite (proj2 (Z.ltb_ge _ _)) by lia.
  apply digits_length; [lia|]. change (Z.of_nat 20) with 20. lia.
Qed.

Lemma render_field_len one :
  length (render_field one) = (length (to_string (f_tag one)) + length (f_value one) + 2)%nat.
Proof. unfold render_field. rewrite !length_app. simpl. lia. Qed.

Lemma sent_framable r s :
  request_size_ok (fs_cfg s) r → 0 <= fs_next_outbound s <= u64_max →
  framable kMaxBodyLength (sent_fields r s).
Proof.
  intros Hsz Hn. unfold request_size_ok in Hsz. unfold framable, kMaxBodyLength.
  assert (Z.of_nat (length (render_body (sent_fields r s))) <= 1000100) as Hlen; [|lia].
  unfold sent_fields. destruct (request_type (fs_cfg s) r) as (c & Htype & _).
  destruct (request_send (fs_cfg s) r) as [[type body] now]. simpl in Htype, Hsz. subst type.
  pose proof (to_string_length (fs_next_outbound s) ltac:(unfold u64_max in *; lia)) as Hseq.
  pose proof (proj2 (FormatUtcTimestamp_text now)) as Htime.
  unfold header_fields. cbn [app]. rewrite !render_body_cons, !length_app, !render_field_len.
  cbn [f_tag f_value sh_msg_type sh_sender_comp_id sh_target_comp_id sh_msg_seq_num sh_sending_time].
  rewrite Htime.
  change (length (to_string tag.kMsgType)) with 2%nat.
  change (length (to_string tag.kSenderCompId)) with 2%nat.
  change (length (to_string tag.kTargetCompId)) with 2%nat.
  change (length (to_string tag.kMsgSeqNum)) with 2%nat.
  change (length (to_string tag.kSendingTime)) with 2%nat. simpl length. lia.
Qed.

Lemma sent_outgoing r s :
  config_ok (fs_cfg s) → request_text_ok r → request_size_ok (fs_cfg s) r →
  0 <= fs_next_outbound s <= u64_max → outgoing (sent_fields r s).
Proof.
  intros Hc Ht Hsz Hn. pose proof (request_body_ok _ _ Hc Ht) as Hbody.
  pose proof (sent_framable _ _ Hsz Hn) as [Hf _].
  split; [|split].
  - unfold sent_fields. destruct (request_type (fs_cfg s) r) as (c & Htype & _).
    destruct (request_send (fs_cfg s) r) as [[type body] now]. simpl in Htype, Hbody. subst type.
    simpl. split_and!; [done..|]. repeat (apply Forall_cons; split; [done|]).
    eapply Forall_impl; [exact Hbody|]. intros one (_ & H1 & H2 & _). done.
  - apply header_sendable; [done|lia|]. eapply Forall_impl; [exact Hbody|]. by intros one [].
  - unfold kMaxBodyLength, u64_max in *. lia.
Qed.

Lemma FirstValue_app_None fs1 fs2 t :
  Forall (λ one, f_tag one ≠ t) fs1 → FirstValue (fs1 ++ fs2) t = FirstValue fs2 t.
Proof.
  induction 1 as [|one fs1 Hone _ IH]; simpl; [done|].
  by rewrite (proj2 (Z.eqb_neq _ _) Hone).
Qed.

(** The other end reads the number and no resend flag. *)
Lemma sent_parsed r s :
  config_ok (fs_cfg s) → request_text_ok r → request_size_ok (fs_cfg s) r →
  0 <= fs_next_outbound s <= i64_max →
  ∃ m, ParseMessage (BuildMessage (sent_fields r s)) = Expected m ∧
    GetInt m tag.kMsgSeqNum = Some (fs_next_outbound s) ∧ Get m tag.kPossDupFlag = None.
Proof.
  intros Hc Ht Hsz Hn. eexists.
  split; [apply ParseMessage_built, sent_outgoing; try done; unfold i64_max, u64_max in *; lia|].
  pose proof (request_body_ok _ _ Hc Ht) as Hbody.
  unfold GetInt, Get, sent_fields. destruct (request_send (fs_cfg s) r) as [[type body] now].
  simpl in Hbody. cbn [pm_fields]. split.
  - simpl. by apply ToInt_to_string.
  - simpl. rewrite FirstValue_app_None; [done|]. eapply Forall_impl; [exact Hbody|].
    intros one (_ & _ & _ & H). done.
Qed.

(** The other end, message by message; [None] if one does not parse. *)
Fixpoint inbound_all (raws : list bytes) (peer : FixSession)
  : option (FixSession * list InboundCheck) :=
  match raws with
  | [] => Some (peer, [])
  | raw :: raws =>
      match ParseMessage raw with
      | Unexpected _ => None
      | Expected m =>
          let '(peer', check) := OnInbound m peer in
          match inbound_all raws peer' with
          | None => None
          | Some (peer'', checks) => Some (peer'', check :: checks)
          end
      end
  end.

Definition request_ok (cfg : SessionConfig) (r : request) : Prop :=
  request_text_ok r ∧ request_size_ok cfg r.

Lemma build_all_link rs s peer s' raws :
  build_all rs s = (s', raws) →
  config_ok (fs_cfg s) → Forall (request_ok (fs_cfg s)) rs →
  0 <= fs_next_outbound s → fs_next_outbound s + Z.of_nat (length rs) <= i64_max →
  fs_expected_inbound peer = fs_next_outbound s →
  ∃ fss peer' checks,
    raws = BuildMessage <$> fss ∧ Forall (framable kMaxBodyLength) fss ∧
    inbound_all raws peer = Some (peer', checks) ∧
    Forall (λ check, ic_status check = kInSequence) checks ∧ length checks = length rs ∧
    fs_expected_inbound peer' = fs_next_outbound s'.
Proof.
  revert s peer s' raws. induction rs as [|r rs IH];
    intros s peer s' raws Hrun Hc Hrs Hn0 Hn1 Hexp; simpl in Hrun, Hn1.
  { injection Hrun as <- <-. exists [], peer, []. split_and!; try done; constructor. }
  apply Forall_cons in Hrs as [[Ht Hsz] Hrs]. rewrite build_sent in Hrun.
  assert (incr64 (fs_next_outbound s) = fs_next_outbound s + 1) as Hincr.
  { apply incr64_small. unfold i64_max, u64_max in *. lia. }
  set (s1 := mkFixSession _ _ _ _ _) in Hrun.
  destruct (build_all rs s1) as [s2 raws'] eqn:Hrun'. injection Hrun as <- <-.
  destruct (sent_parsed r s Hc Ht Hsz ltac:(lia)) as (m & Hm & Hseq & Hdup).
  set (peer1 := set_inbound (incr64 (fs_expected_inbound peer)) (fs_gaps_detected peer) peer).
  destruct (IH s1 peer1 s2 raws' Hrun') as (fss & peer' & checks & -> & Hf & Hin & Hall & Hlen & He);
    subst s1 peer1; simpl; try done; [lia..|congruence|].
  exists (sent_fields r s :: fss), peer',
    (mkInboundCheck kInSequence (fs_expected_inbound peer) (fs_next_outbound s) 0 :: checks).
  split_and!; [done| | |by constructor|simpl; lia|done].
  - constructor; [|done]. apply sent_framable; [done|]. unfold i64_max, u64_max in *. lia.
  - simpl. rewrite Hm. unfold OnInbound. rewrite Hseq, Hdup.
    rewrite (proj2 (Z.ltb_ge _ _)) by done. unfold OnInboundSeqNum. simpl.
    rewrite Hexp, Z.eqb_refl. rewrite Hexp in Hin. by rewrite Hin.
Qed.

(** C4: whatever a session builds, in whatever reads it reaches the other end:
    the framer there cuts it into the messages built, each parses, and every
    one is found in sequence; the two ends agree on the next number. *)
Theorem fix_link_in_sequence rs s peer chunks :
  config_ok (fs_cfg s) → Forall (request_ok (fs_cfg s)) rs →
  0 <= fs_next_outbound s → fs_next_outbound s + Z.of_nat (length rs) <= i64_max →
  fs_expected_inbound peer = fs_next_outbound s →
  concat chunks = concat (build_all rs s).2 →
  ∃ f peer' checks,
    ReceiveAll chunks (new_Framer kMaxBodyLength) = (f, (build_all rs s).2) ∧
    Good f = true ∧ view f = [] ∧
    inbound_all (build_all rs s).2 peer = Some (peer', checks) ∧
    Forall (λ check, ic_status check = kInSequence) checks ∧
    ExpectedInboundSeqNum peer' = NextOutboundSeqNum (build_all rs s).1.
Proof.
  intros Hc Hrs Hn0 Hn1 Hexp Hchunks. destruct (build_all rs s) as [s' raws] eqn:Hrun.
  destruct (build_all_link _ _ peer _ _ Hrun) as (fss & peer' & checks & -> & Hf & Hin & Hall & _ & He);
    try done.
  destruct (ReceiveAll_received chunks _ _ _ _ _ (new_Framer_received kMaxBodyLength))
    as (f & ms & Hr & Hms & Hv & Her & _).
  simpl app in Hms, Hv, Her. simpl in Hchunks.
  rewrite Hchunks, <-(app_nil_r (concat _)), cut_stream_built in Hms, Hv, Her by done.
  simpl in Hms, Hv, Her. subst ms. exists f, peer', checks. split_and!; try done.
  unfold Good. by rewrite bool_decide_eq_true_2.
Qed.
End link.

(** A Logon, a subscription and a heartbeat, with stand-ins for OpenSSL. *)
Definition demo_base64 (data : bytes) : option bytes := Some (B "c3R1Yg==").
Definition demo_requests : list request :=
  [ReqLogon 1700000000000 (B "nonce") 1700000000000000000;
   ReqMarketData (B "md-1") [B "BTC-PERPETUAL"; B "ETH-PERPETUAL"] 1700000001000000000;
   ReqHeartbeat 1700000030000000000].

Lemma fix_link_in_sequence_witness :
  ∃ f peer' checks,
    ReceiveAll [concat (build_all demo_base64 demo_base64 demo_requests demo_session).2]
      (new_Framer kMaxBodyLength) =
      (f, (build_all demo_base64 demo_base64 demo_requests demo_session).2) ∧
    Good f = true ∧ view f = [] ∧
    inbound_all (build_all demo_base64 demo_base64 demo_requests demo_session).2 demo_session =
      Some (peer', checks) ∧
    Forall (λ check, ic_status check = kInSequence) checks ∧
    ExpectedInboundSeqNum peer' =
      NextOutboundSeqNum (build_all demo_base64 demo_base64 demo_requests demo_session).1.
Proof.
  apply (fix_link_in_sequence demo_base64 demo_base64).
  - intros data out [= <-]. by apply no_soh.
  - split_and!; [by apply no_soh..|done].
  - repeat (constructor; [split|]); [..|constructor]; try (by vm_compute); try done.
    split; [by apply no_soh|]. repeat constructor; by apply no_soh.
  - done.
  - by vm_compute.
  - done.
  - exact (app_nil_r _).
Defined.
