(* ===== verification/Feed.v ===== *)
(** * Frames and feed events: [feed_handler/message_sink.{h,cpp}], [feed_event.h] *)

From S2P Require Import Prelude.

Inductive FrameSource : Type :=
| kUnknown
| kKrakenJson
| kDeribitFix.

#[export] Instance FrameSource_eq_dec : EqDecision FrameSource.
Proof. solve_decision. Defined.

(** [CaptureFrame], and [FrameEvent], its owning copy. *)
Record CaptureFrame := mkCaptureFrame {
  cf_payload : bytes;
  cf_capture_sequence : Z;
  cf_monotonic_ns : Z;
  cf_source : FrameSource;
}.

(** [CaptureStamper]: its [sequence_]. *)
Definition CaptureStamper : Type := Z.
Definition new_CaptureStamper : CaptureStamper := 0.

(** [Stamp] at the monotonic clock reading [now]. *)
Definition Stamp (payload : bytes) (source : FrameSource) (now : Z) (sequence : CaptureStamper)
  : CaptureStamper * CaptureFrame :=
  let sequence := incr64 sequence in (sequence, mkCaptureFrame payload sequence now source).

(** [LastSequence] *)
Definition LastSequence (sequence : CaptureStamper) : Z := sequence.

Definition kNanosPerSecond : Z := 1000000000.

(** [ClockNowNs]; [reading] is what [clock_gettime] gives, seconds and
    nanoseconds, or nothing when it fails. [MonotonicNowNs] and
    [RealtimeNowNs] read it on their clocks. *)
Definition ClockNowNs (reading : option (Z * Z)) : Z :=
  match reading with
  | None => 0
  | Some (tv_sec, tv_nsec) =>
      wrap 64 (wrap 64 (wrap 64 tv_sec * kNanosPerSecond) + wrap 64 tv_nsec)
  end.

(** [FeedEvent]: one alternative per [MessageSink] callback. *)
Inductive FeedEvent : Type :=
| FrameEvent (frame : CaptureFrame)
| ConnectEvent (connect_id : Z) (reason : bytes)
| DisconnectEvent (connect_id : Z).

Definition CopyFrame (frame : CaptureFrame) : CaptureFrame :=
  mkCaptureFrame (cf_payload frame) (cf_capture_sequence frame) (cf_monotonic_ns frame)
    (cf_source frame).

Definition MakeFrameEvent (frame : CaptureFrame) : FeedEvent := FrameEvent (CopyFrame frame).

Lemma CopyFrame_id frame : CopyFrame frame = frame.
Proof. by destruct frame. Qed.

(** A clock before the year 2554 is read without wrapping, so readings keep the
    order of the instants. *)
Lemma ClockNowNs_exact tv_sec tv_nsec :
  0 <= tv_sec → 0 <= tv_nsec < kNanosPerSecond → tv_sec * kNanosPerSecond + tv_nsec <= u64_max →
  ClockNowNs (Some (tv_sec, tv_nsec)) = tv_sec * kNanosPerSecond + tv_nsec.
Proof.
  unfold ClockNowNs, kNanosPerSecond, u64_max, wrap. intros Hs Hn Hb.
  rewrite (Z.mod_small tv_sec), (Z.mod_small tv_nsec), (Z.mod_small (tv_sec * _)) by lia.
  by rewrite Z.mod_small by lia.
Qed.
