(* ===== verification/Ring.v ===== *)
(** * The ring between two threads: [feed_handler/spsc_ring.h]

    The queue inside is third-party: the class [ReaderWriterQueue] holds the
    calls made on it and [ReaderWriterQueueLaws] what its documentation promises
    of them. A push or a pop is a single step. *)

From S2P Require Import Prelude.

(** [moodycamel::ReaderWriterQueue<T>]: [queue_contents] is what it holds,
    oldest first, and [queue_capacity] what it holds without allocating. *)
Class ReaderWriterQueue (Q T : Type) := {
  new_queue : nat → Q;
  try_enqueue : T → Q → option Q;
  enqueue : T → Q → Q;
  try_dequeue : Q → option (T * Q);
  queue_contents : Q → list T;
}.

Class ReaderWriterQueueLaws (Q T : Type) `{!ReaderWriterQueue Q T} : Prop := {
  new_queue_empty capacity : queue_contents (new_queue capacity : Q) = [] :> list T;
  try_enqueue_appends x (q q' : Q) :
    try_enqueue x q = Some q' → queue_contents q' = queue_contents q ++ [x : T];
  enqueue_appends x (q : Q) : queue_contents (enqueue x q) = queue_contents q ++ [x : T];
  try_dequeue_takes (q : Q) :
    match try_dequeue q with
    | Some (x, q') => queue_contents q = x :: queue_contents q'
    | None => queue_contents q = [] :> list T
    end;
}.

(** ** [SpscRing] *)

Record SpscRing (Q : Type) := mkSpscRing {
  ring_queue : Q;
  ring_dropped : Z;
}.
Arguments mkSpscRing {Q}.
Arguments ring_queue {Q}.
Arguments ring_dropped {Q}.

Section ring.
Context {Q T : Type} `{!ReaderWriterQueue Q T}.

Definition new_SpscRing (capacity : nat) : SpscRing Q := mkSpscRing (new_queue capacity) 0.

Definition Push (value : T) (r : SpscRing Q) : SpscRing Q * bool :=
  match try_enqueue value (ring_queue r) with
  | Some q => (mkSpscRing q (ring_dropped r), true)
  | None => (mkSpscRing (ring_queue r) (incr64 (ring_dropped r)), false)
  end.

Definition PushControl (value : T) (r : SpscRing Q) : SpscRing Q :=
  mkSpscRing (enqueue value (ring_queue r)) (ring_dropped r).

Definition Pop (r : SpscRing Q) : SpscRing Q * option T :=
  match try_dequeue (ring_queue r) with
  | Some (x, q) => (mkSpscRing q (ring_dropped r), Some x)
  | None => (r, None)
  end.

Definition Dropped (r : SpscRing Q) : Z := ring_dropped r.
End ring.

(** ** A queue of a fixed capacity, which [enqueue] may exceed *)

Record bounded_queue (T : Type) := mkBoundedQueue { bq_capacity : nat; bq_items : list T }.
Arguments mkBoundedQueue {T}.
Arguments bq_capacity {T}.
Arguments bq_items {T}.

#[export] Instance bounded_queue_ops {T} : ReaderWriterQueue (bounded_queue T) T := {|
  new_queue capacity := mkBoundedQueue capacity [];
  try_enqueue x q := if (length (bq_items q) <? bq_capacity q)%nat
                     then Some (mkBoundedQueue (bq_capacity q) (bq_items q ++ [x])) else None;
  enqueue x q := mkBoundedQueue (bq_capacity q) (bq_items q ++ [x]);
  try_dequeue q := match bq_items q with
                   | [] => None
                   | x :: items => Some (x, mkBoundedQueue (bq_capacity q) items)
                   end;
  queue_contents q := bq_items q;
|}.

#[export] Instance bounded_queue_laws {T} : ReaderWriterQueueLaws (bounded_queue T) T.
Proof.
  split; [done| |done|].
  - intros x q q'. simpl. destruct (_ <? _)%nat; [|done]. by intros [= <-].
  - intros [cap [|x items]]; done.
Qed.
