(* ===== verification/Journal.v ===== *)
(** * The capture journal: [feed_handler/journal_format.{h,cpp}],
    [journal_writer.{h,cpp}], [journal_reader.{h,cpp}]

    The file is the list of bytes the stream has taken. How many bytes a write
    gets onto the disk before it fails is the [room] the call is given, so a
    full disk and a crash mid-write are inputs of the model. zlib's [crc32] is a
    parameter. *)

From S2P Require Import Prelude Text Feed.

Definition kMagic : bytes := B "CTJOURNL".
Definition kFormatVersion : Z := 1.
Definition kFileHeaderSize : nat := 64.
Definition kExchangeFieldSize : nat := 16.
Definition kRecordHeaderSize : nat := 24.
Definition kRecordTrailerSize : nat := 4.
Definition kMaxPayloadBytes : Z := 64 * 1024 * 1024.

Inductive RecordType : Type :=
| kWireMessage
| kConnect.

#[export] Instance RecordType_eq_dec : EqDecision RecordType.
Proof. solve_decision. Defined.

Definition record_type_byte (type : RecordType) : Z :=
  match type with kWireMessage => 1 | kConnect => 2 end.

Definition IsKnownRecordType (raw : Z) : bool := (raw =? 1) || (raw =? 2).

(** [static_cast<RecordType>] of a known byte. *)
Definition record_type_of (raw : Z) : RecordType := if raw =? 1 then kWireMessage else kConnect.

(** [StoreLe<T>] with [size = sizeof(T)]. *)
Fixpoint StoreLe (size : nat) (value : Z) : bytes :=
  match size with
  | O => []
  | S size => byte_of (Z.land value 255) :: StoreLe size (Z.shiftr value 8)
  end.

(** [LoadLe<T>] of the first [size] bytes. *)
Fixpoint LoadLe (size : nat) (data : bytes) : Z :=
  match size, data with
  | S size, c :: data => Z.lor (byte_val c) (Z.shiftl (LoadLe size data) 8)
  | _, _ => 0
  end.

Section journal.
(** zlib's [crc32(running, data, length)]. *)
Variable zlib_crc32 : Z → bytes → Z.

Definition kChunk : Z := 2 ^ 30.

(** The chunking loop of [Crc32Update]. Every turn takes at least a byte. *)
Fixpoint Crc32Update_loop (fuel : nat) (running : Z) (rest : bytes) : Z :=
  match fuel, rest with
  | S fuel, _ :: _ =>
      let n := Z.to_nat (Z.min kChunk (Z.of_nat (length rest))) in
      Crc32Update_loop fuel (zlib_crc32 running (take n rest)) (drop n rest)
  | _, _ => running
  end.

Definition Crc32Update (seed : Z) (data : bytes) : Z :=
  wrap 32 (Crc32Update_loop (length data) seed data).

Definition kCrc32Seed : Z := 0.
Definition Crc32Of (data : bytes) : Z := Crc32Update kCrc32Seed data.

(** ** The writer *)

Record JournalWriter := mkJournalWriter {
  jw_file : bytes;
  jw_stream_ok : bool;
  jw_error : bytes;
  jw_records_written : Z;
  jw_last_sequence : Z;
}.

Definition JournalWriter_Good (w : JournalWriter) : bool := bool_decide (jw_error w = []).

(** The stream takes [data] as far as [room] allows; a failed stream takes
    nothing more. *)
Definition stream_write (room : nat) (data : bytes) (w : JournalWriter) : JournalWriter :=
  if jw_stream_ok w then
    mkJournalWriter (jw_file w ++ take room data) (length data <=? room)%nat (jw_error w)
      (jw_records_written w) (jw_last_sequence w)
  else w.

Definition JournalWriter_Fail (reason : bytes) (w : JournalWriter) : JournalWriter :=
  mkJournalWriter (jw_file w) (jw_stream_ok w)
    (if decide (jw_error w = []) then reason else jw_error w) (jw_records_written w)
    (jw_last_sequence w).

(** The first 60 bytes of the file header. *)
Definition header_prefix (exchange : bytes) (connect_id realtime_ns monotonic_ns : Z) : bytes :=
  let name := take kExchangeFieldSize exchange in
  kMagic ++ StoreLe 2 kFormatVersion ++ StoreLe 2 (Z.of_nat kFileHeaderSize) ++ StoreLe 4 0 ++
  StoreLe 8 realtime_ns ++ StoreLe 8 monotonic_ns ++
  name ++ replicate (kExchangeFieldSize - length name) (byte_of 0) ++
  StoreLe 8 connect_id ++ StoreLe 4 0.

Definition file_header (exchange : bytes) (connect_id realtime_ns monotonic_ns : Z) : bytes :=
  let prefix := header_prefix exchange connect_id realtime_ns monotonic_ns in
  prefix ++ StoreLe 4 (Crc32Of prefix).

(** The constructor: the writer, or the text of the exception it throws.
    [opened] is whether the file could be opened. *)
Definition new_JournalWriter (opened : bool) (room : nat) (path exchange : bytes)
    (connect_id realtime_ns monotonic_ns : Z) : expected bytes JournalWriter :=
  if negb opened then Unexpected (B "JournalWriter: cannot open " ++ path)
  else
    let w := stream_write room (file_header exchange connect_id realtime_ns monotonic_ns)
               (mkJournalWriter [] true [] 0 0) in
    if jw_stream_ok w then Expected w
    else Unexpected (B "JournalWriter: cannot write header to " ++ path).

Definition record_header (type : RecordType) (frame : CaptureFrame) : bytes :=
  [byte_of (record_type_byte type); byte_of 0] ++ StoreLe 2 0 ++
  StoreLe 4 (Z.of_nat (length (cf_payload frame))) ++
  StoreLe 8 (cf_capture_sequence frame) ++ StoreLe 8 (cf_monotonic_ns frame).

Definition record_crc (header payload : bytes) : Z := Crc32Update (Crc32Of header) payload.

Definition WriteRecord (room : nat) (type : RecordType) (frame : CaptureFrame)
    (w : JournalWriter) : JournalWriter :=
  if negb (JournalWriter_Good w) then w
  else if cf_capture_sequence frame <=? jw_last_sequence w
  then JournalWriter_Fail (B "out-of-order capture sequence") w
  else if kMaxPayloadBytes <? Z.of_nat (length (cf_payload frame))
  then JournalWriter_Fail (B "payload exceeds kMaxPayloadBytes") w
  else
    let header := record_header type frame in
    let trailer := StoreLe kRecordTrailerSize (record_crc header (cf_payload frame)) in
    let w := stream_write room (header ++ cf_payload frame ++ trailer) w in
    if negb (jw_stream_ok w) then JournalWriter_Fail (B "write failed") w
    else mkJournalWriter (jw_file w) (jw_stream_ok w) (jw_error w)
           (incr64 (jw_records_written w)) (cf_capture_sequence frame).

Definition JournalWriter_OnFrame (room : nat) (frame : CaptureFrame) (w : JournalWriter)
  : JournalWriter := WriteRecord room kWireMessage frame w.

Definition WriteConnectMarker (room : nat) (frame : CaptureFrame) (w : JournalWriter)
  : JournalWriter := WriteRecord room kConnect frame w.

(** [Flush]; [ok] is whether the disk takes what is buffered. *)
Definition Flush (ok : bool) (w : JournalWriter) : JournalWriter :=
  let w := mkJournalWriter (jw_file w) (jw_stream_ok w && ok) (jw_error w)
             (jw_records_written w) (jw_last_sequence w) in
  if negb (jw_stream_ok w) && JournalWriter_Good w
  then JournalWriter_Fail (B "flush failed") w else w.

(** ** The reader *)

Record JournalFileHeader := mkJournalFileHeader {
  jh_format_version : Z;
  jh_realtime_ns : Z;
  jh_monotonic_ns : Z;
  jh_exchange : bytes;
  jh_connect_id : Z;
}.

Record JournalRecord := mkJournalRecord {
  jrec_type : RecordType;
  jrec_capture_sequence : Z;
  jrec_monotonic_ns : Z;
  jrec_payload : bytes;
}.

Record JournalReader := mkJournalReader {
  jr_in : bytes;
  jr_header : JournalFileHeader;
  jr_stop_reason : bytes;
  jr_records_read : Z;
  jr_stopped_early : bool;
  jr_finished : bool;
}.

Definition StoppedEarly (r : JournalReader) : bool := jr_stopped_early r.

(** The name up to its first NUL. *)
Fixpoint until_nul (name : bytes) : bytes :=
  match name with
  | [] => []
  | letter :: name => if decide (letter = byte_of 0) then [] else letter :: until_nul name
  end.

(** [ReadExact]: the bytes and what is left, or nothing on a short read. *)
Definition ReadExact (size : nat) (stream : bytes) : option (bytes * bytes) :=
  if (size <=? length stream)%nat then Some (take size stream, drop size stream) else None.

(** [Open]; [file] is [None] when [path] cannot be opened. *)
Definition Open (path : bytes) (file : option bytes) : expected bytes JournalReader :=
  match file with
  | None => Unexpected (B "JournalReader: cannot open " ++ path)
  | Some file =>
  match ReadExact kFileHeaderSize file with
  | None => Unexpected (B "JournalReader: file shorter than the journal header")
  | Some (view, rest) =>
      if bool_decide (take (length kMagic) view ≠ kMagic)
      then Unexpected (B "JournalReader: bad magic, not a capture journal")
      else if negb (LoadLe 4 (drop 60 view) =? Crc32Of (take 60 view))
      then Unexpected (B "JournalReader: header checksum mismatch")
      else
        let version := LoadLe 2 (drop 8 view) in
        if negb (version =? kFormatVersion)
        then Unexpected (B "JournalReader: unsupported format version " ++ to_string version)
        else
          let header_size := LoadLe 2 (drop 10 view) in
          if negb (header_size =? Z.of_nat kFileHeaderSize)
          then Unexpected (B "JournalReader: unexpected header size " ++ to_string header_size)
          else
            Expected (mkJournalReader rest
              (mkJournalFileHeader version (LoadLe 8 (drop 16 view)) (LoadLe 8 (drop 24 view))
                 (until_nul (take kExchangeFieldSize (drop 32 view))) (LoadLe 8 (drop 48 view)))
              [] 0 false false)
  end
  end.

Definition Stop (reason : bytes) (r : JournalReader) : JournalReader :=
  mkJournalReader (jr_in r) (jr_header r)
    (if decide (jr_stop_reason r = []) then reason else jr_stop_reason r)
    (jr_records_read r) true true.

Definition set_in (stream : bytes) (r : JournalReader) : JournalReader :=
  mkJournalReader stream (jr_header r) (jr_stop_reason r) (jr_records_read r)
    (jr_stopped_early r) (jr_finished r).

(** [Next]. A short read leaves the stream at its end. *)
Definition Next (r : JournalReader) : JournalReader * option JournalRecord :=
  if jr_finished r then (r, None)
  else
    match ReadExact kRecordHeaderSize (jr_in r) with
    | None =>
        match jr_in r with
        | [] => (mkJournalReader [] (jr_header r) (jr_stop_reason r) (jr_records_read r)
                   (jr_stopped_early r) true, None)
        | _ => (Stop (B "truncated record header") (set_in [] r), None)
        end
    | Some (view, in1) =>
        let type_byte := LoadLe 1 view in
        let payload_length := LoadLe 4 (drop 4 view) in
        if kMaxPayloadBytes <? payload_length
        then (Stop (B "record length exceeds kMaxPayloadBytes") (set_in in1 r), None)
        else
          match ReadExact (Z.to_nat payload_length) in1 with
          | None => (Stop (B "truncated record payload") (set_in [] r), None)
          | Some (payload, in2) =>
              match ReadExact kRecordTrailerSize in2 with
              | None => (Stop (B "truncated record checksum") (set_in [] r), None)
              | Some (trailer, in3) =>
                  let r := set_in in3 r in
                  if negb (LoadLe 4 trailer =? record_crc view payload)
                  then (Stop (B "record checksum mismatch") r, None)
                  else if negb (IsKnownRecordType type_byte)
                  then (Stop (B "unknown record type") r, None)
                  else
                    (mkJournalReader (jr_in r) (jr_header r) (jr_stop_reason r)
                       (incr64 (jr_records_read r)) (jr_stopped_early r) (jr_finished r),
                     Some (mkJournalRecord (record_type_of type_byte) (LoadLe 8 (drop 8 view))
                             (LoadLe 8 (drop 16 view)) payload))
              end
          end
    end.

(** [while (auto record = reader.Next())]; every record is at least its header. *)
Fixpoint read_all (fuel : nat) (r : JournalReader) : JournalReader * list JournalRecord :=
  match fuel with
  | O => (r, [])
  | S fuel =>
      match Next r with
      | (r', None) => (r', [])
      | (r', Some record) => let '(r'', records) := read_all fuel r' in (r'', record :: records)
      end
  end.

Definition ReadAll (r : JournalReader) : JournalReader * list JournalRecord :=
  read_all (S (length (jr_in r))) r.
End journal.
