(* ===== verification/JournalProofs.v ===== *)
(** * The journal survives what it was written for

    Whatever is written and wherever the file is cut off, by a full disk or by
    a crash, reading it back gives the records that are whole, in order. *)

From S2P Require Import Prelude Text Feed Journal.

(** ** Little-endian integers *)

Lemma StoreLe_length size v : length (StoreLe size v) = size.
Proof. revert v. induction size as [|size IH]; intros v; simpl; [done|]. by rewrite IH. Qed.

(** A stored integer is loaded back, whatever follows it. *)
Lemma LoadLe_StoreLe size v rest :
  0 <= v < 2 ^ (8 * Z.of_nat size) → LoadLe size (StoreLe size v ++ rest) = v.
Proof.
  revert v. induction size as [|size IH]; intros v Hv.
  { simpl in *. change (2 ^ 0) with 1 in Hv. lia. }
  cbn [StoreLe LoadLe app]. rewrite IH.
  - rewrite byte_val_of.
    + change 255 with (Z.ones 8). rewrite <-Z.ldiff_ones_r, Z.lor_comm by lia.
      apply Z.lor_ldiff_and.
    + change 255 with (Z.ones 8). rewrite Z.land_ones by lia. apply Z.mod_pos_bound. lia.
  - rewrite Z.shiftr_div_pow2 by lia.
    replace (8 * Z.of_nat (S size)) with (8 + 8 * Z.of_nat size) in Hv by lia.
    rewrite Z.pow_add_r in Hv by lia. split; [apply Z.div_pos; lia|].
    apply Z.div_lt_upper_bound; lia.
Qed.

Section journal.
Variable zlib_crc32 : Z → bytes → Z.

Lemma Crc32Update_u32 seed data : 0 <= Crc32Update zlib_crc32 seed data < 2 ^ 32.
Proof. unfold Crc32Update, wrap. apply Z.mod_pos_bound. lia. Qed.

(** ** One record *)

Definition u64 (z : Z) : Prop := 0 <= z <= u64_max.

Definition storable (x : RecordType * CaptureFrame) : Prop :=
  u64 (cf_capture_sequence x.2) ∧ u64 (cf_monotonic_ns x.2) ∧
  Z.of_nat (length (cf_payload x.2)) <= kMaxPayloadBytes.

Definition as_record (x : RecordType * CaptureFrame) : JournalRecord :=
  mkJournalRecord x.1 (cf_capture_sequence x.2) (cf_monotonic_ns x.2) (cf_payload x.2).

Definition record_bytes (x : RecordType * CaptureFrame) : bytes :=
  record_header x.1 x.2 ++ cf_payload x.2 ++
  StoreLe kRecordTrailerSize (record_crc zlib_crc32 (record_header x.1 x.2) (cf_payload x.2)).

#[local] Arguments record_bytes : simpl never.

Lemma record_header_length type frame : length (record_header type frame) = 24%nat.
Proof. unfold record_header. rewrite !length_app, !StoreLe_length. done. Qed.

Lemma record_bytes_length x : length (record_bytes x) = (28 + length (cf_payload x.2))%nat.
Proof.
  unfold record_bytes. rewrite !length_app, record_header_length, StoreLe_length.
  unfold kRecordTrailerSize. lia.
Qed.

Lemma record_header_fields x :
  storable x →
  LoadLe 1 (record_header x.1 x.2) = record_type_byte x.1 ∧
  LoadLe 4 (drop 4 (record_header x.1 x.2)) = Z.of_nat (length (cf_payload x.2)) ∧
  LoadLe 8 (drop 8 (record_header x.1 x.2)) = cf_capture_sequence x.2 ∧
  LoadLe 8 (drop 16 (record_header x.1 x.2)) = cf_monotonic_ns x.2.
Proof.
  intros (Hseq & Hmono & Hlen). destruct x as [type frame]. cbn [fst snd] in *. unfold record_header.
  assert (∀ v, u64 v → 0 <= v < 2 ^ (8 * Z.of_nat 8)) as H64.
  { intros v Hv. unfold u64, u64_max in Hv. change (8 * Z.of_nat 8) with 64. lia. }
  split_and!.
  - by destruct type.
  - replace (drop 4 _) with (StoreLe 4 (Z.of_nat (length (cf_payload frame))) ++
      StoreLe 8 (cf_capture_sequence frame) ++ StoreLe 8 (cf_monotonic_ns frame)) by reflexivity.
    apply LoadLe_StoreLe. unfold kMaxPayloadBytes in Hlen. change (8 * Z.of_nat 4) with 32. lia.
  - replace (drop 8 _) with (StoreLe 8 (cf_capture_sequence frame) ++
      StoreLe 8 (cf_monotonic_ns frame)) by reflexivity. apply LoadLe_StoreLe; auto.
  - replace (drop 16 _) with (StoreLe 8 (cf_monotonic_ns frame) ++ []) by done.
    apply LoadLe_StoreLe; auto.
Qed.

Lemma ReadExact_app size a b : length a = size → ReadExact size (a ++ b) = Some (a, b).
Proof.
  intros Hlen. unfold ReadExact. rewrite (proj2 (Nat.leb_le _ _)) by (rewrite length_app; lia).
  by rewrite take_app_length', drop_app_length'.
Qed.

Lemma ReadExact_short size l : (length l < size)%nat → ReadExact size l = None.
Proof. intros H. unfold ReadExact. by rewrite (proj2 (Nat.leb_gt _ _)). Qed.

(** A whole record is read back and the stream moves past it. *)
Lemma Next_record r x rest :
  storable x → jr_finished r = false → jr_in r = record_bytes x ++ rest →
  Next zlib_crc32 r =
    (mkJournalReader rest (jr_header r) (jr_stop_reason r) (incr64 (jr_records_read r))
       (jr_stopped_early r) false, Some (as_record x)).
Proof.
  intros Hx Hf Hin. destruct (record_header_fields x Hx) as (Ht & Hl & Hs & Hm).
  unfold Next. rewrite Hf, Hin. unfold record_bytes. rewrite <-!app_assoc.
  rewrite ReadExact_app by apply record_header_length. cbv zeta beta iota.
  rewrite Ht, Hl, Hs, Hm, Nat2Z.id.
  destruct Hx as (_ & _ & Hlen). rewrite (proj2 (Z.ltb_ge _ _)) by done.
  rewrite ReadExact_app by done. rewrite ReadExact_app by apply StoreLe_length.
  rewrite <-(app_nil_r (StoreLe _ _)). unfold kRecordTrailerSize.
  rewrite LoadLe_StoreLe by apply Crc32Update_u32. rewrite Z.eqb_refl. cbn [negb].
  replace (IsKnownRecordType _) with true by (by destruct x as [[] ?]). cbn [negb].
  unfold set_in, as_record. simpl. rewrite Hf.
  by replace (record_type_of _) with x.1 by (by destruct x as [[] ?]).
Qed.

(** A torn record ends the reading. *)
Lemma Next_torn r x k :
  storable x → jr_finished r = false → jr_in r = take k (record_bytes x) →
  (0 < k < length (record_bytes x))%nat →
  ∃ r', Next zlib_crc32 r = (r', None) ∧ jr_stopped_early r' = true ∧ jr_finished r' = true ∧
    jr_header r' = jr_header r.
Proof.
  intros Hx Hf Hin Hk. rewrite record_bytes_length in Hk. unfold Next. rewrite Hf, Hin.
  destruct (record_header_fields x Hx) as (_ & Hl & _). destruct Hx as (_ & _ & Hlen).
  unfold record_bytes. destruct (decide (k < 24)%nat) as [Hsmall|Hbig].
  { rewrite take_app_le by (rewrite record_header_length; lia).
    rewrite ReadExact_short by (rewrite length_take; unfold kRecordHeaderSize; lia).
    destruct (take k (record_header x.1 x.2)) as [|c l] eqn:Ht; [|by eexists].
    apply (f_equal length) in Ht. rewrite length_take, record_header_length in Ht. simpl in Ht. lia. }
  rewrite take_app_ge by (rewrite record_header_length; lia).
  rewrite record_header_length, ReadExact_app by apply record_header_length.
  cbv zeta beta iota. rewrite Hl, Nat2Z.id, (proj2 (Z.ltb_ge _ _)) by done.
  destruct (decide (k - 24 < length (cf_payload x.2))%nat) as [Hp|Hp].
  { rewrite ReadExact_short; [by eexists|]. rewrite length_take, length_app. lia. }
  rewrite take_app_ge by lia. rewrite ReadExact_app by done.
  rewrite ReadExact_short; [by eexists|]. rewrite length_take, StoreLe_length.
  unfold kRecordTrailerSize. lia.
Qed.

Lemma Next_end r :
  jr_finished r = false → jr_in r = [] →
  Next zlib_crc32 r =
    (mkJournalReader [] (jr_header r) (jr_stop_reason r) (jr_records_read r) (jr_stopped_early r)
       true, None).
Proof. intros Hf Hin. unfold Next. by rewrite Hf, Hin. Qed.

(** ** A file cut off anywhere *)

Abbreviation entry := (RecordType * CaptureFrame)%type (only parsing).

(** The records that are whole within the first [n] bytes. *)
Fixpoint whole (n : nat) (xs : list entry) : list entry :=
  match xs with
  | [] => []
  | x :: xs =>
      if (length (record_bytes x) <=? n)%nat then x :: whole (n - length (record_bytes x)) xs
      else []
  end.

Definition entries_bytes (xs : list entry) : bytes := concat (record_bytes <$> xs).

(** Whether the first [n] bytes end between two records. *)
Definition on_boundary (n : nat) (xs : list entry) : bool :=
  bool_decide (n = length (entries_bytes (whole n xs))) ||
  bool_decide (length (entries_bytes xs) <= n)%nat.

Lemma entries_bytes_cons x xs : entries_bytes (x :: xs) = record_bytes x ++ entries_bytes xs.
Proof. done. Qed.

Lemma whole_prefix n xs : whole n xs `prefix_of` xs.
Proof.
  revert n. induction xs as [|x xs IH]; intros n; cbn [whole]; [done|].
  destruct (length (record_bytes x) <=? n)%nat; [|apply prefix_nil]. by apply prefix_cons.
Qed.

Lemma whole_all n xs : (length (entries_bytes xs) <= n)%nat → whole n xs = xs.
Proof.
  revert n. induction xs as [|x xs IH]; intros n Hn; cbn [whole]; [done|].
  rewrite entries_bytes_cons, length_app in Hn.
  rewrite (proj2 (Nat.leb_le _ _)) by lia. f_equal. apply IH. lia.
Qed.

Lemma whole_snoc n xs x :
  (n < length (entries_bytes xs) + length (record_bytes x))%nat → whole n (xs ++ [x]) = whole n xs.
Proof.
  revert n. induction xs as [|y xs IH]; intros n Hn; cbn [app whole].
  - change (length (entries_bytes [])) with 0%nat in Hn. by rewrite (proj2 (Nat.leb_gt _ _)) by lia.
  - rewrite entries_bytes_cons, length_app in Hn.
    destruct (Nat.leb_spec (length (record_bytes y)) n); [|done]. f_equal. apply IH. lia.
Qed.

Lemma read_all_whole fuel r n xs :
  Forall storable xs → jr_finished r = false → jr_stopped_early r = false →
  jr_in r = take n (entries_bytes xs) → (length (jr_in r) < fuel)%nat →
  ∃ r', read_all zlib_crc32 fuel r = (r', as_record <$> whole n xs) ∧
    jr_finished r' = true ∧ jr_stopped_early r' = negb (on_boundary n xs).
Proof.
  revert r n xs. induction fuel as [|fuel IH]; intros r n xs Hxs Hf Hs Hin Hfuel; [lia|].
  cbn [read_all]. destruct xs as [|x xs].
  { unfold entries_bytes in Hin. simpl in Hin. rewrite take_nil in Hin.
    rewrite Next_end by done. eexists. split; [done|]. split; [done|].
    simpl. rewrite Hs. unfold on_boundary. by rewrite orb_true_r. }
  apply Forall_cons in Hxs as [Hx Hxs]. rewrite entries_bytes_cons in Hin. cbn [whole].
  pose proof (record_bytes_length x) as Hrl.
  destruct (Nat.leb_spec (length (record_bytes x)) n) as [Hle|Hgt].
  - rewrite take_app_ge in Hin by done. rewrite (Next_record _ x _ Hx Hf Hin).
    set (r1 := mkJournalReader _ _ _ _ _ _).
    destruct (IH r1 (n - length (record_bytes x))%nat xs) as (r' & Hrun & Hf' & Hs'); try done.
    { subst r1. cbn [jr_in]. rewrite Hin, length_app in Hfuel. lia. }
    rewrite Hrun. eexists. split; [done|]. split; [done|]. rewrite Hs'. f_equal.
    unfold on_boundary. cbn [whole]. rewrite (proj2 (Nat.leb_le _ _)) by done.
    rewrite !entries_bytes_cons, !length_app. f_equal; apply bool_decide_ext; lia.
  - rewrite take_app_le in Hin by lia. unfold on_boundary. cbn [whole].
    rewrite (proj2 (Nat.leb_gt _ _)) by done. destruct (decide (n = 0%nat)) as [->|Hn].
    + rewrite Next_end by done. eexists. split; [done|]. split; [done|]. simpl. by rewrite Hs.
    + destruct (Next_torn r x n Hx Hf Hin ltac:(lia)) as (r' & -> & Hs' & Hf' & _).
      eexists. split; [done|]. split; [done|]. rewrite Hs'. symmetry. apply negb_true_iff.
      apply orb_false_iff. split; apply bool_decide_eq_false_2; [simpl; lia|].
      rewrite entries_bytes_cons, length_app. lia.
Qed.

(** ** The header *)

Definition header_ok (exchange : bytes) (connect_id realtime_ns monotonic_ns : Z) : Prop :=
  (length exchange <= kExchangeFieldSize)%nat ∧ byte_of 0 ∉ exchange ∧
  u64 connect_id ∧ u64 realtime_ns ∧ u64 monotonic_ns.

Lemma header_prefix_length exchange c rt m : length (header_prefix exchange c rt m) = 60%nat.
Proof.
  unfold header_prefix. rewrite !length_app, !StoreLe_length, length_replicate, length_take.
  change (length kMagic) with 8%nat. unfold kExchangeFieldSize. lia.
Qed.

Lemma until_nul_name name rest :
  byte_of 0 ∉ name → (rest = [] ∨ head rest = Some (byte_of 0)) → until_nul (name ++ rest) = name.
Proof.
  induction name as [|c name IH]; intros Hn Hr; simpl.
  - destruct Hr as [->|Hr]; [done|]. destruct rest as [|x rest]; [done|]. simpl in *.
    injection Hr as ->. by rewrite decide_True.
  - rewrite decide_False by set_solver. f_equal. apply IH; [set_solver|done].
Qed.

Lemma drop_pieces (a b : bytes) n : length a = n → drop n (a ++ b) = b.
Proof. intros. by apply drop_app_length'. Qed.

(** [Open] of a file that starts with a written header. *)
Lemma Open_header path exchange c rt m rest :
  header_ok exchange c rt m →
  Open zlib_crc32 path (Some (file_header zlib_crc32 exchange c rt m ++ rest)) =
    Expected (mkJournalReader rest (mkJournalFileHeader kFormatVersion rt m exchange c) [] 0
                false false).
Proof.
  intros (Hel & Hen & Hc & Hrt & Hm). unfold Open.
  pose proof (header_prefix_length exchange c rt m) as Hpl.
  assert (length (file_header zlib_crc32 exchange c rt m) = 64%nat) as Hhl.
  { unfold file_header. rewrite length_app, Hpl, StoreLe_length. done. }
  rewrite ReadExact_app by done. unfold file_header.
  rewrite (take_app_length' (header_prefix exchange c rt m) _ 60) by done.
  rewrite (drop_pieces (header_prefix exchange c rt m) _ 60) by done.
  rewrite <-(app_nil_r (StoreLe 4 _)).
  rewrite LoadLe_StoreLe by apply Crc32Update_u32. rewrite Z.eqb_refl, !app_nil_r.
  set (tail := StoreLe 4 (Crc32Of zlib_crc32 _)).
  assert (∀ v rest', u64 v → LoadLe 8 (StoreLe 8 v ++ rest') = v) as H64.
  { intros v rest' Hv. apply LoadLe_StoreLe. unfold u64, u64_max in Hv.
    change (8 * Z.of_nat 8) with 64. lia. }
  unfold header_prefix. rewrite (take_ge exchange) by done. rewrite <-!app_assoc.
  set (pad := replicate _ _).
  set (t48 := StoreLe 8 c ++ StoreLe 4 0 ++ tail).
  set (t32 := exchange ++ pad ++ t48).
  set (t24 := StoreLe 8 m ++ t32). set (t16 := StoreLe 8 rt ++ t24).
  assert (length (exchange ++ pad) = 16%nat) as Hname.
  { subst pad. rewrite length_app, length_replicate. unfold kExchangeFieldSize in *. lia. }
  change (take (length kMagic) _) with kMagic. rewrite bool_decide_eq_false_2 by auto. cbn [negb].
  change (drop 8 (kMagic ++ StoreLe 2 kFormatVersion ++ StoreLe 2 (Z.of_nat kFileHeaderSize) ++
    StoreLe 4 0 ++ t16)) with (StoreLe 2 kFormatVersion ++ StoreLe 2 (Z.of_nat kFileHeaderSize) ++
    StoreLe 4 0 ++ t16). rewrite LoadLe_StoreLe by done.
  change (drop 10 (kMagic ++ StoreLe 2 kFormatVersion ++ StoreLe 2 (Z.of_nat kFileHeaderSize) ++
    StoreLe 4 0 ++ t16)) with (StoreLe 2 (Z.of_nat kFileHeaderSize) ++ StoreLe 4 0 ++ t16).
  rewrite LoadLe_StoreLe by done. rewrite !Z.eqb_refl. cbn [negb].
  set (view := kMagic ++ _).
  assert (drop 16 view = t16) as H16 by done.
  assert (drop 24 view = t24) as H24.
  { replace 24%nat with (16 + 8)%nat by done. rewrite <-drop_drop, H16.
    apply drop_pieces, StoreLe_length. }
  assert (drop 32 view = t32) as H32.
  { replace 32%nat with (24 + 8)%nat by done. rewrite <-drop_drop, H24.
    apply drop_pieces, StoreLe_length. }
  assert (drop 48 view = t48) as H48.
  { replace 48%nat with (32 + 16)%nat by done. rewrite <-drop_drop, H32. unfold t32.
    rewrite app_assoc. by apply drop_pieces. }
  rewrite H16, H24, H32, H48. unfold t16, t24, t48. rewrite !H64 by done.
  unfold t32. rewrite app_assoc, take_app_length' by done. rewrite until_nul_name; [done..|].
  subst pad. destruct (kExchangeFieldSize - length exchange)%nat; [by left|by right].
Qed.
End journal.
