(* ===== verification/JournalCrash.v ===== *)
(** * Writing, crashing, reading back

    The writer over any sequence of calls and any disk behaviour, followed by a
    reader over any prefix of the file. *)

From S2P Require Import Prelude Text Feed Journal JournalProofs.

Section crash.
Variable zlib_crc32 : Z → bytes → Z.

Abbreviation entry := (RecordType * CaptureFrame)%type (only parsing).

(** A call on the writer: what is written, and how many bytes the disk takes. *)
Definition write_call (c : nat * entry) (w : JournalWriter) : JournalWriter :=
  WriteRecord zlib_crc32 c.1 c.2.1 c.2.2 w.
Definition write_all (cs : list (nat * entry)) (w : JournalWriter) : JournalWriter :=
  foldl (λ w c, write_call c w) w cs.

Definition call_ok (c : nat * entry) : Prop :=
  u64 (cf_capture_sequence c.2.2) ∧ u64 (cf_monotonic_ns c.2.2).

(** The records a writer accepts: until one is out of order, oversized or does
    not fit on the disk. *)
Fixpoint accepted (last : Z) (cs : list (nat * entry)) : list entry :=
  match cs with
  | [] => []
  | (room, x) :: cs =>
      if (last <? cf_capture_sequence x.2) &&
         (Z.of_nat (length (cf_payload x.2)) <=? kMaxPayloadBytes) &&
         (length (record_bytes zlib_crc32 x) <=? room)%nat
      then x :: accepted (cf_capture_sequence x.2) cs
      else []
  end.

(** What the file holds: [xs] whole and, once the writer failed, perhaps the
    beginning of one more record. *)
Record holds (w : JournalWriter) (header : bytes) (xs : list entry) : Prop := {
  holds_file : ∃ x k, storable x ∧ (k < length (record_bytes zlib_crc32 x))%nat ∧
    jw_file w = header ++ entries_bytes zlib_crc32 xs ++ take k (record_bytes zlib_crc32 x) ∧
    (jw_error w = [] → k = 0%nat ∧ jw_stream_ok w = true);
  holds_storable : Forall storable xs;
}.

Lemma holds_good w header xs :
  holds w header xs → jw_error w = [] →
  jw_file w = header ++ entries_bytes zlib_crc32 xs ∧ jw_stream_ok w = true.
Proof.
  intros [(x & k & _ & _ & Hfile & Hg) _] He. destruct (Hg He) as [-> Hok].
  by rewrite Hfile, take_0, app_nil_r.
Qed.

Lemma entries_bytes_snoc xs x :
  entries_bytes zlib_crc32 (xs ++ [x]) = entries_bytes zlib_crc32 xs ++ record_bytes zlib_crc32 x.
Proof. unfold entries_bytes. rewrite fmap_app, concat_app. simpl. by rewrite app_nil_r. Qed.

Lemma JournalWriter_Fail_error reason w : reason ≠ [] → jw_error (JournalWriter_Fail reason w) ≠ [].
Proof. intros Hr. simpl. by case_decide. Qed.

(** One call: accepted, or the writer has failed for good. *)
Lemma write_call_holds w header xs c :
  holds w header xs → jw_error w = [] → call_ok c →
  let w' := write_call c w in
  match accepted (jw_last_sequence w) [c] with
  | x :: _ =>
      holds w' header (xs ++ [x]) ∧ jw_error w' = [] ∧
      jw_last_sequence w' = cf_capture_sequence x.2 ∧
      jw_records_written w' = incr64 (jw_records_written w)
  | [] => holds w' header xs ∧ jw_error w' ≠ []
  end.
Proof.
  destruct c as [room [type frame]]. intros Hh He [Hseq Hmono]. simpl in Hseq, Hmono.
  destruct (holds_good _ _ _ Hh He) as [Hfile Hok].
  assert (∀ reason, reason ≠ [] → holds (JournalWriter_Fail reason w) header xs) as Hfail.
  { intros reason Hr. destruct Hh as [(x & k & Hx & Hk & Hf & _) Hs]. split; [|done].
    exists x, k. split_and!; [done..|]. by intros H%JournalWriter_Fail_error. }
  unfold write_call, WriteRecord, JournalWriter_Good. cbn [fst snd accepted].
  rewrite bool_decide_eq_true_2 by done. cbn [negb].
  destruct (Z.leb_spec (cf_capture_sequence frame) (jw_last_sequence w)) as [Hold|Hnew].
  { rewrite (proj2 (Z.ltb_ge _ _)) by done. cbn [andb].
    split; [by apply Hfail|by apply JournalWriter_Fail_error]. }
  rewrite (proj2 (Z.ltb_lt _ _)) by done. cbn [andb].
  destruct (Z.ltb_spec kMaxPayloadBytes (Z.of_nat (length (cf_payload frame)))) as [Hbig|Hsz].
  { rewrite (proj2 (Z.leb_gt _ _)) by done. cbn [andb].
    split; [by apply Hfail|by apply JournalWriter_Fail_error]. }
  rewrite (proj2 (Z.leb_le _ _)) by done. cbn [andb].
  fold (record_bytes zlib_crc32 (type, frame)).
  change (record_header type frame ++ cf_payload frame ++ _)
    with (record_bytes zlib_crc32 (type, frame)).
  set (x := (type, frame)).
  assert (storable x) as Hx by done.
  unfold stream_write. rewrite Hok. cbn [jw_stream_ok].
  destruct (Nat.leb_spec (length (record_bytes zlib_crc32 x)) room) as [Hfit|Hfull]; cbn [negb].
  - split_and!; simpl; try done. split.
    + exists x, 0%nat. split_and!; [done| |simpl|done].
      * rewrite record_bytes_length. lia.
      * by rewrite app_nil_r, entries_bytes_snoc, Hfile, take_ge, <-app_assoc.
    + apply Forall_app. split; [apply Hh|]. by constructor.
  - split; [|by apply JournalWriter_Fail_error]. split; [|apply Hh].
    exists x, room. split_and!; [done|done| |by intros H%JournalWriter_Fail_error].
    simpl. by rewrite Hfile, <-app_assoc.
Qed.

Lemma write_all_failed cs w : jw_error w ≠ [] → write_all cs w = w.
Proof.
  intros He. induction cs as [|c cs IH]; [done|]. unfold write_all. simpl.
  unfold write_call at 2, WriteRecord, JournalWriter_Good.
  rewrite bool_decide_eq_false_2 by done. exact IH.
Qed.

Lemma write_all_holds cs w header xs :
  holds w header xs → jw_error w = [] → Forall call_ok cs →
  let w' := write_all cs w in
  let ys := accepted (jw_last_sequence w) cs in
  holds w' header (xs ++ ys) ∧ (jw_error w' = [] ↔ length ys = length cs).
Proof.
  intros Hh He Hcs. revert w xs Hh He. induction Hcs as [|c cs Hc _ IH]; intros w xs Hh He.
  { simpl. by rewrite app_nil_r. }
  pose proof (write_call_holds _ _ _ _ Hh He Hc) as Hstep. unfold write_all. simpl foldl.
  fold (write_all cs (write_call c w)). destruct c as [room x]. cbn [accepted] in *.
  destruct (_ && _ && _) eqn:Hacc.
  - destruct Hstep as (Hh' & He' & Hl' & _). destruct (IH _ _ Hh' He') as [IH1 IH2].
    rewrite Hl', <-app_assoc in IH1. rewrite Hl' in IH2. split; [exact IH1|].
    rewrite IH2. cbn [length]. lia.
  - destruct Hstep as [Hh' He']. rewrite write_all_failed by done. rewrite app_nil_r.
    split; [done|]. cbn [length]. split; [done|lia].
Qed.

(** The capture sequences of a journal strictly increase. *)
Lemma accepted_increasing last cs :
  Forall (λ x : entry, last < cf_capture_sequence x.2) (accepted last cs) ∧
  StronglySorted (λ x y : entry, cf_capture_sequence x.2 < cf_capture_sequence y.2)
    (accepted last cs).
Proof.
  revert last. induction cs as [|[room x] cs IH]; intros last; cbn [accepted];
    [split; constructor|].
  destruct (Z.ltb_spec last (cf_capture_sequence x.2)) as [Hlt|]; cbn [andb];
    [|split; constructor].
  destruct (_ && _); [|split; constructor].
  destruct (IH (cf_capture_sequence x.2)) as [H1 H2]. split.
  - constructor; [done|]. eapply Forall_impl; [exact H1|]. intros y Hy. simpl in *. lia.
  - by constructor.
Qed.

Lemma new_JournalWriter_holds opened room path exchange c rt m w :
  new_JournalWriter zlib_crc32 opened room path exchange c rt m = Expected w →
  holds w (file_header zlib_crc32 exchange c rt m) [] ∧ jw_error w = [] ∧ jw_last_sequence w = 0.
Proof.
  unfold new_JournalWriter. destruct opened; [|done]. unfold stream_write. cbn [negb jw_stream_ok].
  destruct (Nat.leb_spec (length (file_header zlib_crc32 exchange c rt m)) room); [|done].
  intros [= <-]. split_and!; try done. split; [|constructor].
  exists (kConnect, mkCaptureFrame [] 0 0 kUnknown), 0%nat. split_and!; try done.
  - rewrite record_bytes_length. lia.
  - simpl. by rewrite take_ge, app_nil_r by done.
Qed.

(** The reader over the first [n] bytes of such a file. *)
Lemma read_back w exchange c rt m xs path n :
  holds w (file_header zlib_crc32 exchange c rt m) xs → header_ok exchange c rt m →
  (kFileHeaderSize <= n)%nat →
  ∃ r0 r ys,
    Open zlib_crc32 path (Some (take n (jw_file w))) = Expected r0 ∧
    jr_header r0 = mkJournalFileHeader kFormatVersion rt m exchange c ∧
    ReadAll zlib_crc32 r0 = (r, as_record <$> ys) ∧ ys `prefix_of` xs ∧
    ((length (jw_file w) <= n)%nat →
       ys = xs ∧ (jw_error w = [] → StoppedEarly r = false)).
Proof.
  intros [(x & k & Hx & Hk & Hfile & Hgood) Hs] Hok Hn.
  set (h := file_header zlib_crc32 exchange c rt m) in *.
  assert (length h = 64%nat) as Hhl.
  { subst h. unfold file_header. rewrite length_app, header_prefix_length, StoreLe_length. done. }
  unfold kFileHeaderSize in Hn.
  set (e := entries_bytes zlib_crc32 xs).
  set (all := entries_bytes zlib_crc32 (xs ++ [x])).
  assert (e ++ take k (record_bytes zlib_crc32 x) = take (length e + k) all) as Hcut.
  { subst all e. rewrite entries_bytes_snoc, take_app_add'; done. }
  set (n' := ((n - 64) `min` (length e + k))%nat).
  assert (take n (jw_file w) = h ++ take n' all) as Htake.
  { rewrite Hfile, take_app_ge by lia. rewrite Hhl. fold e. rewrite Hcut, take_take. done. }
  pose proof (Open_header zlib_crc32 path exchange c rt m (take n' all) Hok) as Hopen.
  fold h in Hopen. set (r0 := mkJournalReader _ _ _ _ _ _) in Hopen.
  assert (Forall storable (xs ++ [x])) as Hall by (apply Forall_app; split; [done|constructor; [done|constructor]]).
  destruct (read_all_whole zlib_crc32 (S (length (jr_in r0))) r0 n' (xs ++ [x]))
    as (r & Hrun & _ & Hstop); [done..|lia|].
  assert (length all = length e + length (record_bytes zlib_crc32 x))%nat as Hlall.
  { subst all e. by rewrite entries_bytes_snoc, length_app. }
  assert (whole zlib_crc32 n' (xs ++ [x]) = whole zlib_crc32 n' xs) as Hwhole.
  { apply whole_snoc. fold e. lia. }
  exists r0, r, (whole zlib_crc32 n' xs). rewrite Htake. split_and!; [done|done| | |].
  - unfold ReadAll. by rewrite Hrun, Hwhole.
  - apply whole_prefix.
  - intros Hlen. rewrite Hfile, !length_app, length_take in Hlen. fold e in Hlen.
    assert (whole zlib_crc32 n' xs = xs) as Hxs by (apply whole_all; fold e; lia).
    split; [done|]. intros He. destruct (Hgood He) as [-> _].
    unfold StoppedEarly. rewrite Hstop. apply negb_false_iff. unfold on_boundary.
    rewrite Hwhole, Hxs. fold e. apply orb_true_iff. left. apply bool_decide_eq_true_2. lia.
Qed.

(** C6: journals survive crashes and full disks. Whatever frames a writer is
    handed, whatever the disk does with each write, and wherever the file is
    then cut off behind its header: the reader opens it, recovers the header,
    and returns a prefix of the accepted records, in strictly increasing
    capture order and byte for byte as handed in; on the uncut file it returns
    all of them, and calls the file torn only if a write failed. *)
Theorem journal_crash_safe opened room path exchange c rt m w0 cs n :
  new_JournalWriter zlib_crc32 opened room path exchange c rt m = Expected w0 →
  header_ok exchange c rt m → Forall call_ok cs → (kFileHeaderSize <= n)%nat →
  let w := write_all cs w0 in
  let xs := accepted 0 cs in
  StronglySorted (λ x y : entry, cf_capture_sequence x.2 < cf_capture_sequence y.2) xs ∧
  ∃ r0 r ys,
    Open zlib_crc32 path (Some (take n (jw_file w))) = Expected r0 ∧
    jr_header r0 = mkJournalFileHeader kFormatVersion rt m exchange c ∧
    ReadAll zlib_crc32 r0 = (r, as_record <$> ys) ∧ ys `prefix_of` xs ∧
    ((length (jw_file w) <= n)%nat →
       ys = xs ∧ (length xs = length cs → StoppedEarly r = false)).
Proof.
  intros Hw Hok Hcs Hn w xs. split; [apply accepted_increasing|].
  destruct (new_JournalWriter_holds _ _ _ _ _ _ _ _ Hw) as (Hh & He & Hl).
  destruct (write_all_holds cs _ _ _ Hh He Hcs) as [Hh' He']. rewrite Hl in Hh', He'.
  destruct (read_back _ _ _ _ _ _ path n Hh' Hok Hn) as (r0 & r & ys & H1 & H2 & H3 & H4 & H5).
  exists r0, r, ys. split_and!; [done..|]. intros Hlen. destruct (H5 Hlen) as [-> Hs].
  split; [done|]. intros Hcount. by apply Hs, He'.
Qed.
End crash.

(** Two records and a third the disk cuts short, with a stand-in CRC. *)
Definition demo_crc (running : Z) (data : bytes) : Z := running + Z.of_nat (length data).

Definition demo_calls : list (nat * (RecordType * CaptureFrame)) :=
  [(100%nat, (kConnect, mkCaptureFrame (B "start") 1 10 kKrakenJson));
   (100%nat, (kWireMessage, mkCaptureFrame (B "frame") 2 11 kKrakenJson));
   (9%nat, (kWireMessage, mkCaptureFrame (B "lost") 3 12 kKrakenJson))].

Lemma journal_crash_safe_witness :
  ∃ w0 r0 r ys,
    new_JournalWriter demo_crc true 64 (B "f") (B "kraken") 1 5 6 = Expected w0 ∧
    Open demo_crc (B "f") (Some (take 70 (jw_file (write_all demo_crc demo_calls w0)))) =
      Expected r0 ∧
    ReadAll demo_crc r0 = (r, as_record <$> ys) ∧ ys `prefix_of` accepted demo_crc 0 demo_calls.
Proof.
  destruct (new_JournalWriter demo_crc true 64 (B "f") (B "kraken") 1 5 6) as [w0|e] eqn:Hw.
  2:{ exfalso. revert Hw. vm_compute. discriminate. }
  destruct (journal_crash_safe demo_crc true 64 (B "f") (B "kraken") 1 5 6 w0 demo_calls 70 Hw)
    as (_ & r0 & r & ys & H1 & _ & H2 & H3 & _).
  - split_and!; try (by vm_compute); [vm_compute; lia|].
    apply (bool_decide_eq_true_1 (byte_of 0 ∉ B "kraken")). by vm_compute.
  - repeat (constructor; [by vm_compute|]). constructor.
  - vm_compute. lia.
  - exists w0, r0, r, ys. split_and!; done.
Defined.
