(* ===== verification/JournalSlice.v ===== *)
(** * Cutting a journal for a test: [book_adapter/tools/journal_slice.cpp]

    The tool copies the start of a capture journal, leaves out the Logons, and
    writes nothing unless the result is free of credentials. The input is its
    bytes, [None] when it cannot be opened; the output is whether it opens and
    how many bytes of it the disk takes. An exception is its text. *)

From S2P Require Import Prelude Text ToolFlags Feed Journal.

Definition kExitOk : Z := 0.
Definition kExitError : Z := 1.
Definition kDefaultMaxIncrementals : Z := 800.

Definition SOH : byte := byte_of 1.
Definition kMsgTypePrefix : bytes := SOH :: B "35=".
Definition kLogonMarker : bytes := SOH :: B "35=A" ++ [SOH].
Definition kRawDataTag : bytes := SOH :: B "96=".
Definition kPasswordTag : bytes := SOH :: B "554=".

(** [Arguments] *)
Record SliceArguments := mkSliceArguments {
  sa_max_incrementals : Z;
  sa_input : bytes;
  sa_output : bytes;
}.

(** The members of [Counts]. *)
Inductive tally : Type :=
| records_read | records_kept | connect_records | snapshots | incrementals | other_kept
| logons_dropped | bytes_kept | slice_logons | slice_raw_data | slice_password.

#[export] Instance tally_eq_dec : EqDecision tally.
Proof. solve_decision. Defined.

Definition Counts : Type := tally → Z.
Definition new_Counts : Counts := λ _, 0.
Definition set_tally (t : tally) (n : Z) (counts : Counts) : Counts := λ t',
  if decide (t' = t) then n else counts t'.
(** [++counts.t] *)
Definition bump (t : tally) (counts : Counts) : Counts := set_tally t (incr64 (counts t)) counts.

(** The loop of [CountOccurrences]; every turn takes a byte of the pattern. *)
Fixpoint CountOccurrences_loop (fuel : nat) (text pattern : bytes) (count : Z) : Z :=
  match fuel with
  | O => count
  | S fuel =>
      match find_split pattern text with
      | None => count
      | Some (_, after) => CountOccurrences_loop fuel after pattern (incr64 count)
      end
  end.

Definition CountOccurrences (text pattern : bytes) : Z :=
  CountOccurrences_loop (S (length text)) text pattern 0.

Definition MsgType (text : bytes) : bytes :=
  match find_split kMsgTypePrefix text with
  | None => []
  | Some (_, from) =>
      match find_split [SOH] from with
      | None => []
      | Some (value, _) => value
      end
  end.

Definition ParseCount (flag text : bytes) : expected bytes Z :=
  let? value := ParseFlagValue stoull flag text in
  if value =? 0 then Unexpected (B "invalid value for " ++ flag ++ B ": " ++ text)
  else Expected value.

(** The names of a path, without the empty ones. *)
Fixpoint path_names (name path : bytes) : list bytes :=
  let flushed := if decide (name = []) then [] else [name] in
  match path with
  | [] => flushed
  | c :: path =>
      if byte_val c =? 47 then flushed ++ path_names [] path else path_names (name ++ [c]) path
  end.

(** [operator==] of [std::filesystem::path]: whether it is rooted, the names, and
    whether it ends in a slash after the last one. *)
Definition path_elements (path : bytes) : bool * list bytes * bool :=
  let names := path_names [] path in
  (starts_with (B "/") path, names,
   bool_decide (names ≠ []) && bool_decide (last path = Some (byte_of 47))).
Definition path_eq (a b : bytes) : bool := bool_decide (path_elements a = path_elements b).

(** The loop of [ParseArguments] *)
Fixpoint parse_slice_args (args : list bytes) (max : Z) (positional : list bytes)
  : expected bytes (Z * list bytes) :=
  match args with
  | [] => Expected (max, positional)
  | arg :: args =>
      if decide (arg = B "--max-incrementals") then
        match args with
        | [] => Unexpected (B "missing value for --max-incrementals")
        | value :: args =>
            let? max := ParseCount arg value in parse_slice_args args max positional
        end
      else if starts_with (B "--") arg then Unexpected (B "unknown flag: " ++ arg)
      else parse_slice_args args max (positional ++ [arg])
  end.

Definition ParseSliceArguments (args : list bytes) : expected bytes SliceArguments :=
  let? (max, positional) := parse_slice_args args kDefaultMaxIncrementals [] in
  match positional with
  | [input; output] =>
      if path_eq input output then Unexpected (B "the output must not be the input")
      else Expected (mkSliceArguments max input output)
  | _ => Unexpected (B "expected an input journal and an output path")
  end.

(** [Record] *)
Record SliceRecord := mkSliceRecord {
  sr_header : bytes;
  sr_payload : bytes;
  sr_trailer : bytes;
  sr_type : Z;
}.

Definition sr_bytes (record : SliceRecord) : bytes :=
  sr_header record ++ sr_payload record ++ sr_trailer record.

Section slice.
Variable zlib_crc32 : Z → bytes → Z.

(** [ReadRecord]: the record and what is left of the file; [None] at its end.
    [ReadExactly] is the reader's [ReadExact]. *)
Definition ReadRecord (file : bytes) (index : Z) : expected bytes (option (SliceRecord * bytes)) :=
  match file with
  | [] => Expected None
  | _ :: _ =>
      let where_ := B "record " ++ to_string index ++ B ": " in
      match ReadExact kRecordHeaderSize file with
      | None => Unexpected (where_ ++ B "truncated header")
      | Some (header, file) =>
          let type := LoadLe 1 header in
          let length := LoadLe 4 (drop 4 header) in
          if negb (IsKnownRecordType type) || (kMaxPayloadBytes <? length)
          then Unexpected (where_ ++ B "unusable header")
          else
            match ReadExact (Z.to_nat length) file with
            | None => Unexpected (where_ ++ B "truncated")
            | Some (payload, file) =>
                match ReadExact kRecordTrailerSize file with
                | None => Unexpected (where_ ++ B "truncated")
                | Some (trailer, file) =>
                    let crc := Crc32Update zlib_crc32 kCrc32Seed header in
                    let crc := Crc32Update zlib_crc32 crc payload in
                    if negb (crc =? LoadLe 4 trailer)
                    then Unexpected (where_ ++ B "checksum mismatch")
                    else Expected (Some (mkSliceRecord header payload trailer type, file))
                end
            end
      end
  end.

Definition Tally (record : SliceRecord) (counts : Counts) : bool * Counts :=
  let counts := bump records_read counts in
  if sr_type record =? record_type_byte kConnect
  then (true, bump records_kept (bump connect_records counts))
  else
    let msg_type := MsgType (sr_payload record) in
    if decide (msg_type = B "A") then (false, bump logons_dropped counts)
    else
      (true, bump records_kept
               (if decide (msg_type = B "W") then bump snapshots counts
                else if decide (msg_type = B "X") then bump incrementals counts
                else bump other_kept counts)).

(** The loop of [BuildSlice]; every record is at least its header. *)
Fixpoint slice_loop (fuel : nat) (max : Z) (file slice : bytes) (counts : Counts)
  : expected bytes (bytes * Counts) :=
  if counts incrementals <? max then
    match fuel with
    | O => Expected (slice, counts)
    | S fuel =>
        let? next := ReadRecord file (counts records_read) in
        match next with
        | None => Expected (slice, counts)
        | Some (record, file) =>
            let '(keep, counts) := Tally record counts in
            slice_loop fuel max file
              (if keep : bool
               then ((slice ++ sr_header record) ++ sr_payload record) ++ sr_trailer record
               else slice) counts
        end
    end
  else Expected (slice, counts).

Definition BuildSlice (arguments : SliceArguments) (file : option bytes)
  : expected bytes (bytes * Counts) :=
  match file with
  | None => Unexpected (B "cannot open " ++ sa_input arguments)
  | Some file =>
      match ReadExact kFileHeaderSize file with
      | None => Unexpected (B "not a v1 journal: bad or short file header")
      | Some (header, file) =>
          if bool_decide (take (length kMagic) header ≠ kMagic)
          then Unexpected (B "not a v1 journal: bad or short file header")
          else
            let? (slice, counts) :=
              slice_loop (length file) (sa_max_incrementals arguments) file header new_Counts in
            let counts := set_tally slice_logons (CountOccurrences slice kLogonMarker) counts in
            let counts := set_tally slice_raw_data (CountOccurrences slice kRawDataTag) counts in
            let counts := set_tally slice_password (CountOccurrences slice kPasswordTag) counts in
            if negb (counts slice_logons =? 0) || negb (counts slice_raw_data =? 0) ||
               negb (counts slice_password =? 0)
            then Unexpected
                   (B "the slice still holds a Logon or a credential-shaped field, nothing written")
            else if counts snapshots =? 0
            then Unexpected (B "the slice holds no 35=W snapshot, nothing written")
            else Expected (slice, set_tally bytes_kept (wrap 64 (Z.of_nat (length slice))) counts)
      end
  end.

Definition newline : bytes := [byte_of 10].

Definition PrintCounts (counts : Counts) : bytes :=
  let n t := to_string (counts t) in
  B "records read: " ++ n records_read ++ newline ++
  B "records kept: " ++ n records_kept ++ B " (connect " ++ n connect_records ++
  B ", 35=W " ++ n snapshots ++ B ", 35=X " ++ n incrementals ++
  B ", other 35= " ++ n other_kept ++ B ")" ++ newline ++
  B "35=A dropped: " ++ n logons_dropped ++ newline ++
  B "in the slice: 35=A " ++ n slice_logons ++ B ", 96= " ++ n slice_raw_data ++
  B ", 554= " ++ n slice_password ++ newline ++
  B "slice size: " ++ n bytes_kept ++ B " bytes" ++ newline.

(** [Run]: what it prints, or the exception, and the output file after it.
    [before] is the output file until then, [opens] whether it can be opened for
    writing, [room] the bytes of it that reach the disk. *)
Definition SliceRun (arguments : SliceArguments) (input : option bytes) (opens : bool) (room : nat)
    (before : option bytes) : expected bytes bytes * option bytes :=
  match BuildSlice arguments input with
  | Unexpected error => (Unexpected error, before)
  | Expected (slice, counts) =>
      let after := if opens then Some (take room slice) else before in
      if opens && (length slice <=? room)%nat then (Expected (PrintCounts counts), after)
      else (Unexpected (B "cannot write " ++ sa_output arguments), after)
  end.

(** [main]; [disk] gives the contents of the files that can be opened, and
    [args] is the command line without the program's name. *)
Definition slice_main (args : list bytes) (disk : bytes → option bytes) (opens : bool)
    (room : nat) (before : option bytes) : tool_run :=
  let '(result, after) :=
    match ParseSliceArguments args with
    | Unexpected error => (Unexpected error, before)
    | Expected arguments => SliceRun arguments (disk (sa_input arguments)) opens room before
    end in
  match result with
  | Expected out => mkToolRun kExitOk out [] after
  | Unexpected error =>
      mkToolRun kExitError []
        (B "error: " ++ error ++ newline ++
         B "usage: journal_slice [--max-incrementals N] <input> <output>" ++ newline) after
  end.
End slice.
