(* ===== verification/SliceProofs.v ===== *)
(** * What a sliced journal holds

    A slice is written only when it is clean; it is the input's header and the
    records up to the last incremental asked for, without the Logons, as the
    reader gives them back. *)

From S2P Require Import Prelude Text ToolFlags FixMessage FixRoundTrip Feed Journal JournalProofs JournalSlice.

(** ** Counting occurrences *)

Definition contains (text pattern : bytes) : Prop := ∃ before after, text = before ++ pattern ++ after.

Lemma contains_app_l text text' pattern : contains text pattern → contains (text ++ text') pattern.
Proof. intros (a & b & ->). exists a, (b ++ text'). by rewrite <-!app_assoc. Qed.

Lemma contains_app_r text text' pattern : contains text' pattern → contains (text ++ text') pattern.
Proof. intros (a & b & ->). exists (text ++ a), b. by rewrite <-app_assoc. Qed.

Lemma contains_refl pattern : contains pattern pattern.
Proof. exists [], []. by rewrite app_nil_r. Qed.

#[export] Hint Resolve contains_app_l contains_app_r contains_refl : core.

Lemma occurrences_grow fuel text pattern n :
  pattern ≠ [] → 0 <= n → n + Z.of_nat (length text) <= u64_max →
  n <= CountOccurrences_loop fuel text pattern n.
Proof.
  intros Hp. revert text n. induction fuel as [|fuel IH]; intros text n Hn Hb; cbn; [lia|].
  destruct (find_split pattern text) as [[before after]|] eqn:Hf; [|lia].
  apply find_split_Some, (f_equal length) in Hf. rewrite !length_app in Hf.
  assert (length pattern ≠ 0%nat) by (by destruct pattern).
  rewrite incr64_small by lia. specialize (IH after (n + 1)). lia.
Qed.

Lemma CountOccurrences_zero text pattern :
  pattern ≠ [] → Z.of_nat (length text) <= u64_max →
  CountOccurrences text pattern = 0 ↔ ¬ contains text pattern.
Proof.
  intros Hp Hb. unfold CountOccurrences. cbn [CountOccurrences_loop].
  destruct (find_split pattern text) as [[before after]|] eqn:Hf.
  - pose proof (find_split_Some _ _ _ _ Hf) as Ht.
    assert (length pattern ≠ 0%nat) by (by destruct pattern).
    pose proof (f_equal length Ht) as Hl. rewrite !length_app in Hl.
    pose proof (occurrences_grow (length text) after pattern 1 Hp ltac:(lia) ltac:(lia)) as Hg.
    change (incr64 0) with 1. split; [lia|]. intros Hn. destruct Hn. by exists before, after.
  - split; [|done]. intros _ (a & b & Heq). by eapply find_split_None.
Qed.

(** ** The classes of records *)

Inductive record_class : Type := RConnect | RLogon | RSnapshot | RIncremental | ROther.

#[export] Instance record_class_eq_dec : EqDecision record_class.
Proof. solve_decision. Defined.

(** What the tool takes a record for, from its type byte and its payload. *)
Definition class_of (type : Z) (payload : bytes) : record_class :=
  if type =? record_type_byte kConnect then RConnect
  else if decide (JournalSlice.MsgType payload = B "A") then RLogon
  else if decide (JournalSlice.MsgType payload = B "W") then RSnapshot
  else if decide (JournalSlice.MsgType payload = B "X") then RIncremental
  else ROther.

Definition sr_class (r : SliceRecord) : record_class := class_of (sr_type r) (sr_payload r).

(** Whether a record of this class is counted under [t]. *)
Definition counted_as (t : tally) (c : record_class) : bool :=
  match t, c with
  | records_read, _ => true
  | records_kept, RLogon => false
  | records_kept, _ => true
  | connect_records, RConnect | snapshots, RSnapshot | incrementals, RIncremental
  | other_kept, ROther | logons_dropped, RLogon => true
  | _, _ => false
  end.

Lemma Tally_spec record counts :
  (Tally record counts).1 = bool_decide (sr_class record ≠ RLogon) ∧
  ∀ t, (Tally record counts).2 t =
    if counted_as t (sr_class record) then incr64 (counts t) else counts t.
Proof.
  unfold Tally, sr_class, class_of, bump, set_tally.
  destruct (_ =? _); [by split; [|intros []]|].
  destruct (decide (_ = B "A")); [by split; [|intros []]|].
  destruct (decide (_ = B "W")); [by split; [|intros []]|].
  destruct (decide (_ = B "X")); by split; [|intros []].
Qed.

(** The records up to the [n]th incremental. *)
Fixpoint upto {A} (class : A → record_class) (n : Z) (l : list A) : list A :=
  match l with
  | [] => []
  | x :: l =>
      if 0 <? n then x :: upto class (if decide (class x = RIncremental) then n - 1 else n) l
      else []
  end.

Definition kept {A} (class : A → record_class) (l : list A) : list A :=
  filter (λ x, class x ≠ RLogon) l.

Definition number {A} (class : A → record_class) (t : tally) (l : list A) : Z :=
  Z.of_nat (length (filter (λ x, counted_as t (class x) = true) l)).

Lemma number_snoc {A} (class : A → record_class) t l x :
  number class t (l ++ [x]) = number class t l + if counted_as t (class x) then 1 else 0.
Proof.
  unfold number. rewrite filter_app, length_app, filter_cons.
  destruct (counted_as t (class x)); [rewrite decide_True by done|rewrite decide_False by done];
    rewrite filter_nil; simpl; lia.
Qed.

Lemma number_le {A} (class : A → record_class) t l : 0 <= number class t l <= Z.of_nat (length l).
Proof. unfold number. pose proof (length_filter (λ x, counted_as t (class x) = true) l). lia. Qed.

Definition tallied (counts : Counts) (done : list SliceRecord) : Prop :=
  ∀ t, counts t = number sr_class t done.

Lemma Tally_tallied record counts done :
  tallied counts done → Z.of_nat (length done) < u64_max →
  tallied (Tally record counts).2 (done ++ [record]).
Proof.
  intros Ht Hd t. destruct (Tally_spec record counts) as [_ Hc]. rewrite Hc, number_snoc, (Ht t).
  pose proof (number_le sr_class t done).
  destruct (counted_as _ _); [|lia]. apply incr64_small. lia.
Qed.

(** ** Reading and collecting *)

Section slice.
Variable zlib_crc32 : Z → bytes → Z.

Lemma ReadExact_Some size l a b : ReadExact size l = Some (a, b) → l = a ++ b ∧ length a = size.
Proof.
  unfold ReadExact. destruct (Nat.leb_spec size (length l)); [|done]. intros [= <- <-].
  rewrite take_drop, length_take. split; [done|lia].
Qed.

(** A record that is read is the head of the file. *)
Lemma ReadRecord_Some file index record rest :
  ReadRecord zlib_crc32 file index = Expected (Some (record, rest)) →
  file = sr_bytes record ++ rest ∧ (length rest < length file)%nat.
Proof.
  unfold ReadRecord. destruct file as [|c file]; [done|]. set (whole_file := c :: file).
  destruct (ReadExact kRecordHeaderSize whole_file) as [[header f1]|] eqn:Hh; [|done]. cbv zeta.
  destruct (negb _ || _); [done|].
  destruct (ReadExact _ f1) as [[payload f2]|] eqn:Hp; [|done].
  destruct (ReadExact _ f2) as [[trailer f3]|] eqn:Ht; [|done].
  destruct (negb _); [done|]. intros [= <- <-].
  apply ReadExact_Some in Hh as [-> Hl], Hp as [-> _], Ht as [-> _].
  unfold sr_bytes. cbn [sr_header sr_payload sr_trailer]. rewrite <-!app_assoc. split; [done|].
  rewrite !length_app, Hl. unfold kRecordHeaderSize. lia.
Qed.

(** A run of the loop that ends well has read records from the head of the file,
    as many as asked for or all, and collected those it keeps. *)
Definition sliced (max : Z) (file slice : bytes) (counts : Counts) (done : list SliceRecord)
    (result : expected bytes (bytes * Counts)) : Prop :=
  ∀ slice' counts', result = Expected (slice', counts') →
    ∃ read rest, file = concat (sr_bytes <$> read) ++ rest ∧
      slice' = slice ++ concat (sr_bytes <$> kept sr_class read) ∧
      tallied counts' (done ++ read).

Lemma sliced_nothing max file slice counts done :
  tallied counts done → sliced max file slice counts done (Expected (slice, counts)).
Proof.
  intros Ht slice' counts' [= <- <-]. exists [], file.
  split_and!; [done|symmetry; apply app_nil_r|by rewrite app_nil_r].
Qed.

Lemma slice_loop_sound fuel max file slice counts done :
  tallied counts done → Z.of_nat (length done) + Z.of_nat (length file) < u64_max →
  sliced max file slice counts done (slice_loop zlib_crc32 fuel max file slice counts).
Proof.
  revert file slice counts done. induction fuel as [|fuel IH];
    intros file slice counts done Ht Hb; cbn [slice_loop].
  all: destruct (_ <? max); [|by apply sliced_nothing].
  { by apply sliced_nothing. }
  destruct (ReadRecord _ file _) as [[[record rest]|]|] eqn:Hr; cbn [expected_bind];
    [|by apply sliced_nothing|done].
  apply ReadRecord_Some in Hr as [-> Hlen].
  pose proof (Tally_tallied record counts done Ht ltac:(lia)) as Ht'.
  pose proof (proj1 (Tally_spec record counts)) as Hk.
  destruct (Tally record counts) as [keep counts1]. cbn [fst snd] in *.
  intros slice' counts' (read & rest' & Hf & Hs & Hc)%(IH _ _ _ (done ++ [record])); [|done|].
  - exists (record :: read), rest'. split_and!.
    + rewrite Hf. apply app_assoc.
    + rewrite Hs, Hk. unfold kept. rewrite filter_cons. case_bool_decide; case_decide; try done.
      rewrite fmap_cons. cbn [concat]. unfold sr_bytes at 2. by rewrite <-!app_assoc.
    + by rewrite <-app_assoc in Hc.
  - rewrite length_app. cbn. lia.
Qed.

Definition clean (text : bytes) : Prop :=
  ¬ contains text kLogonMarker ∧ ¬ contains text kRawDataTag ∧ ¬ contains text kPasswordTag.

Lemma clean_take n text : clean text → clean (take n text).
Proof.
  intros (H1 & H2 & H3).
  split_and!; intros H; [apply H1|apply H2|apply H3]; rewrite <-(take_drop n text); auto.
Qed.

(** The three scans together. *)
Definition scan_ok (slice : bytes) : bool :=
  (CountOccurrences slice kLogonMarker =? 0) && (CountOccurrences slice kRawDataTag =? 0) &&
  (CountOccurrences slice kPasswordTag =? 0).

Lemma scan_ok_clean slice :
  Z.of_nat (length slice) <= u64_max → scan_ok slice = true ↔ clean slice.
Proof.
  intros Hb. unfold scan_ok, clean. rewrite !andb_true_iff, !Z.eqb_eq, !CountOccurrences_zero by done.
  tauto.
Qed.

Lemma concat_kept_le {A} (class : A → record_class) (f : A → bytes) l :
  (length (concat (f <$> kept class l)) <= length (concat (f <$> l)))%nat.
Proof.
  induction l as [|x l IH]; [done|]. unfold kept in *. rewrite filter_cons, fmap_cons.
  cbn [concat]. rewrite length_app. case_decide; [|lia]. rewrite fmap_cons. cbn [concat].
  rewrite length_app. lia.
Qed.

(** What follows the loop in [BuildSlice]: the three scans and the look for a
    snapshot. *)
Definition checked (slice : bytes) (counts : Counts) : expected bytes (bytes * Counts) :=
  let counts := set_tally slice_logons (CountOccurrences slice kLogonMarker) counts in
  let counts := set_tally slice_raw_data (CountOccurrences slice kRawDataTag) counts in
  let counts := set_tally slice_password (CountOccurrences slice kPasswordTag) counts in
  if negb (counts slice_logons =? 0) || negb (counts slice_raw_data =? 0) ||
     negb (counts slice_password =? 0)
  then Unexpected (B "the slice still holds a Logon or a credential-shaped field, nothing written")
  else if counts snapshots =? 0
  then Unexpected (B "the slice holds no 35=W snapshot, nothing written")
  else Expected (slice, set_tally bytes_kept (wrap 64 (Z.of_nat (length slice))) counts).

Lemma checked_spec slice counts :
  Z.of_nat (length slice) <= u64_max →
  (clean slice ∧ counts snapshots ≠ 0 ∧
   ∃ counts', checked slice counts = Expected (slice, counts') ∧
     counts' bytes_kept = Z.of_nat (length slice) ∧
     counts' slice_logons = 0 ∧ counts' slice_raw_data = 0 ∧ counts' slice_password = 0 ∧
     ∀ t, t ∉ [bytes_kept; slice_logons; slice_raw_data; slice_password] → counts' t = counts t) ∨
  (¬ (clean slice ∧ counts snapshots ≠ 0) ∧ ∃ e, checked slice counts = Unexpected e).
Proof.
  intros Hb. rewrite <-scan_ok_clean by done.
  set (counts' := set_tally bytes_kept (wrap 64 (Z.of_nat (length slice)))
    (set_tally slice_password (CountOccurrences slice kPasswordTag)
       (set_tally slice_raw_data (CountOccurrences slice kRawDataTag)
          (set_tally slice_logons (CountOccurrences slice kLogonMarker) counts)))).
  change (checked slice counts) with
    (if negb (CountOccurrences slice kLogonMarker =? 0) ||
        negb (CountOccurrences slice kRawDataTag =? 0) ||
        negb (CountOccurrences slice kPasswordTag =? 0)
     then Unexpected (A:=bytes * Counts)
            (B "the slice still holds a Logon or a credential-shaped field, nothing written")
     else if counts snapshots =? 0
     then Unexpected (B "the slice holds no 35=W snapshot, nothing written")
     else Expected (slice, counts')).
  rewrite <-!negb_andb. fold (scan_ok slice). destruct (scan_ok slice) eqn:Hs; cbn [negb].
  2: { right. naive_solver. }
  destruct (Z.eqb_spec (counts snapshots) 0) as [H4|H4]; [right; naive_solver|].
  left. split_and!; [done..|]. exists counts'. unfold scan_ok in Hs.
  rewrite !andb_true_iff, !Z.eqb_eq in Hs. destruct Hs as [[H1 H2] H3].
  split_and!; [done| |by rewrite <-H1|by rewrite <-H2|by rewrite <-H3|].
  - change (wrap 64 (Z.of_nat (length slice)) = Z.of_nat (length slice)).
    unfold wrap. apply Z.mod_small. unfold u64_max in Hb. lia.
  - intros [] Ht; first [done|set_solver].
Qed.

Lemma BuildSlice_split arguments header rest :
  length header = kFileHeaderSize → take (length kMagic) header = kMagic →
  BuildSlice zlib_crc32 arguments (Some (header ++ rest)) =
    (let? (slice, counts) :=
       slice_loop zlib_crc32 (length rest) (sa_max_incrementals arguments) rest header new_Counts in
     checked slice counts).
Proof.
  intros Hl Hm. unfold BuildSlice. rewrite ReadExact_app by done.
  by rewrite bool_decide_eq_false_2 by auto.
Qed.

(** A slice that comes out is clean, and is the header and the kept records. *)
Lemma BuildSlice_sound arguments file slice counts :
  BuildSlice zlib_crc32 arguments (Some file) = Expected (slice, counts) →
  Z.of_nat (length file) < u64_max →
  ∃ read rest, file = take 64 file ++ concat (sr_bytes <$> read) ++ rest ∧
    slice = take 64 file ++ concat (sr_bytes <$> kept sr_class read) ∧
    clean slice ∧ number sr_class snapshots read ≠ 0.
Proof.
  intros HB Hb. destruct (decide (64 <= length file)%nat) as [Hl|Hl].
  2: { exfalso. revert HB. unfold BuildSlice. by rewrite ReadExact_short by (unfold kFileHeaderSize; lia). }
  destruct (decide (take (length kMagic) (take 64 file) = kMagic)) as [Hm|Hm].
  2: { exfalso. revert HB. unfold BuildSlice, ReadExact. unfold kFileHeaderSize.
       rewrite (proj2 (Nat.leb_le _ _)) by done. by rewrite bool_decide_eq_true_2. }
  rewrite <-(take_drop 64 file) in HB.
  rewrite BuildSlice_split in HB by (rewrite ?length_take; unfold kFileHeaderSize; auto; lia).
  pose proof (slice_loop_sound (length (drop 64 file)) (sa_max_incrementals arguments)
    (drop 64 file) (take 64 file) new_Counts []) as Hs.
  destruct (slice_loop _ _ _ _ _ _) as [[slice1 counts1]|]; [|done]. cbn [expected_bind] in HB.
  destruct (Hs ltac:(by intros []) ltac:(cbn [length]; rewrite length_drop; lia) _ _ eq_refl)
    as (read & rest & Hf & -> & Ht). cbn [app] in Ht.
  assert (length (concat (sr_bytes <$> read)) <= length file - 64)%nat as Hr.
  { rewrite <-length_drop, Hf, length_app. lia. }
  pose proof (concat_kept_le sr_class sr_bytes read) as Hk.
  destruct (checked_spec (take 64 file ++ concat (sr_bytes <$> kept sr_class read)) counts1)
    as [(Hc & Hn & counts' & Hx & _)|(_ & e & Hx)].
  - rewrite length_app, length_take. lia.
  - rewrite Hx in HB. injection HB as <- _. exists read, rest. rewrite <-(Ht snapshots), <-Hf, take_drop.
    by split_and!.
  - by rewrite Hx in HB.
Qed.

(** ** Journals as the writer leaves them *)

Definition of_entry (x : RecordType * CaptureFrame) : SliceRecord :=
  mkSliceRecord (record_header x.1 x.2) (cf_payload x.2)
    (StoreLe kRecordTrailerSize (record_crc zlib_crc32 (record_header x.1 x.2) (cf_payload x.2)))
    (record_type_byte x.1).

Definition entry_class (x : RecordType * CaptureFrame) : record_class :=
  class_of (record_type_byte x.1) (cf_payload x.2).

Lemma ReadRecord_entry x rest index :
  storable x →
  ReadRecord zlib_crc32 (record_bytes zlib_crc32 x ++ rest) index =
    Expected (Some (of_entry x, rest)).
Proof.
  intros Hx. destruct (record_header_fields x Hx) as (Ht & Hl & _ & _).
  unfold ReadRecord. destruct (_ ++ rest) as [|c f] eqn:Hf.
  { apply (f_equal length) in Hf. rewrite length_app, record_bytes_length in Hf. cbn in Hf. lia. }
  rewrite <-Hf. unfold record_bytes. rewrite <-!app_assoc.
  rewrite ReadExact_app by apply record_header_length. cbv zeta. rewrite Ht, Hl, Nat2Z.id.
  destruct Hx as (_ & _ & Hlen). rewrite (proj2 (Z.ltb_ge _ _)) by done.
  replace (IsKnownRecordType _) with true by (by destruct x as [[] ?]). cbn [negb orb].
  rewrite ReadExact_app by done. rewrite ReadExact_app by apply StoreLe_length.
  unfold kRecordTrailerSize. rewrite <-(app_nil_r (StoreLe 4 _)) at 1.
  rewrite LoadLe_StoreLe by apply Crc32Update_u32. by rewrite Z.eqb_refl.
Qed.

Lemma slice_loop_entries fuel max xs slice counts done :
  tallied counts done → Forall storable xs →
  Z.of_nat (length done) + Z.of_nat (length xs) < u64_max → (length xs <= fuel)%nat →
  let ys := upto entry_class (max - number sr_class incrementals done) xs in
  ∃ counts',
    slice_loop zlib_crc32 fuel max (entries_bytes zlib_crc32 xs) slice counts =
      Expected (slice ++ entries_bytes zlib_crc32 (kept entry_class ys), counts') ∧
    tallied counts' (done ++ (of_entry <$> ys)).
Proof.
  revert fuel slice counts done. induction xs as [|x xs IH]; intros fuel slice counts done Ht Hxs Hb Hf.
  { exists counts. cbn. rewrite !app_nil_r. split; [|done].
    destruct fuel; cbn; by destruct (_ <? max). }
  apply Forall_cons in Hxs as [Hx Hxs]. destruct fuel as [|fuel]; [cbn in Hf; lia|].
  cbn [slice_loop upto]. rewrite (Ht incrementals).
  set (k := number sr_class incrementals done).
  replace (0 <? max - k) with (k <? max) by lia. destruct (Z.ltb_spec k max) as [Hk|Hk].
  2: { exists counts. cbn. by rewrite !app_nil_r. }
  rewrite entries_bytes_cons, ReadRecord_entry by done. cbn [expected_bind].
  pose proof (Tally_tallied (of_entry x) counts done Ht ltac:(lia)) as Ht'.
  pose proof (proj1 (Tally_spec (of_entry x) counts)) as Hkeep.
  destruct (Tally (of_entry x) counts) as [keep counts1]. cbn [fst snd] in *.
  change (sr_class (of_entry x)) with (entry_class x) in Hkeep.
  destruct (IH fuel
    (if keep then ((slice ++ sr_header (of_entry x)) ++ sr_payload (of_entry x)) ++
       sr_trailer (of_entry x) else slice) counts1 (done ++ [of_entry x]))
    as (counts' & Hrun & Htal); [done|done|rewrite length_app; cbn [length] in *; lia|cbn in Hf; lia|].
  assert (max - number sr_class incrementals (done ++ [of_entry x]) =
    (if decide (entry_class x = RIncremental) then max - k - 1 else max - k)) as Hmax.
  { rewrite number_snoc. fold k. change (sr_class (of_entry x)) with (entry_class x).
    destruct (entry_class x); cbn [counted_as];
      first [rewrite decide_True by done|rewrite decide_False by done]; lia. }
  rewrite Hmax in Hrun, Htal. exists counts'. split.
  - rewrite Hrun, Hkeep. do 2 f_equal. unfold kept at 2. rewrite filter_cons.
    destruct (decide (entry_class x ≠ RLogon)) as [Hl|Hl];
      [rewrite bool_decide_eq_true_2 by done|by rewrite bool_decide_eq_false_2 by done].
    rewrite entries_bytes_cons. unfold record_bytes. by rewrite <-!app_assoc.
  - by rewrite fmap_cons, cons_middle, app_assoc.
Qed.
End slice.

(** ** FIX messages in the records *)

Lemma find_split_skip c pattern before text :
  c ∉ before →
  find_split (c :: pattern) (before ++ text) =
    match find_split (c :: pattern) text with
    | Some (a, b) => Some (before ++ a, b)
    | None => None
    end.
Proof.
  induction before as [|x before IH]; intros Hc; cbn [app].
  { by destruct (find_split (c :: pattern) text) as [[]|]. }
  cbn [find_split]. destruct (starts_with (c :: pattern) (x :: before ++ text)) eqn:Hs.
  { apply starts_with_spec in Hs as [rest [= -> _]]. set_solver. }
  rewrite IH by set_solver. by destruct (find_split (c :: pattern) text) as [[]|].
Qed.

Lemma find_split_hit pattern text : find_split pattern (pattern ++ text) = Some ([], text).
Proof.
  destruct (pattern ++ text) as [|c l] eqn:Hl; cbn [find_split];
    rewrite (proj2 (starts_with_spec pattern _)) by eauto; by rewrite <-Hl, drop_app_length.
Qed.

(** The first [35=] of a built message is its MsgType. *)
Lemma MsgType_built first rest :
  f_tag first = tag.kMsgType → kSoh ∉ f_value first →
  JournalSlice.MsgType (BuildMessage (first :: rest)) = f_value first.
Proof.
  intros Htag Hv. unfold BuildMessage, JournalSlice.MsgType. rewrite render_body_cons.
  set (n := Z.of_nat _). set (tail := ChecksumField _).
  rewrite <-!app_assoc.
  change (BeginStringPrefix ++ ?l) with (B "8=FIX.4.4" ++ kSoh :: l).
  unfold kMsgTypePrefix. rewrite find_split_skip by (by apply (bool_decide_unpack _)).
  change (find_split (SOH :: B "35=") (kSoh :: ?l)) with
    (match find_split (SOH :: B "35=") l with
     | Some (before, after) => Some (kSoh :: before, after)
     | None => None
     end).
  rewrite (app_assoc (B "9=")), find_split_skip.
  2: { rewrite elem_of_app. intros [H|H]; [by apply (bool_decide_pack _) in H|].
       by eapply to_string_soh; [|done]; lia. }
  unfold render_field. rewrite Htag, <-!app_assoc. cbn [app].
  change (kSoh :: to_string tag.kMsgType ++ kEquals :: ?l) with ((SOH :: B "35=") ++ l).
  rewrite find_split_hit, find_split_skip by done.
  change (kSoh :: ?l) with ([SOH] ++ l). by rewrite find_split_hit, app_nil_r.
Qed.

Lemma built_prefix fields l : ∃ text, envelope fields ++ render_body l = text ++ [kSoh].
Proof.
  induction l as [|one l IH] using rev_ind.
  - exists (BeginStringPrefix ++ B "9=" ++ to_string (Z.of_nat (length (render_body fields)))).
    unfold envelope, render_field, render_body. cbn. by rewrite <-!app_assoc, app_nil_r.
  - exists (envelope fields ++ render_body l ++ to_string (f_tag one) ++ [kEquals] ++ f_value one).
    unfold render_body. rewrite fmap_app, concat_app. cbn. unfold render_field at 2.
    by rewrite app_nil_r, <-!app_assoc.
Qed.

(** Every field of a built message is behind an SOH. *)
Lemma built_field fields one :
  one ∈ fields → contains (BuildMessage fields) (kSoh :: to_string (f_tag one) ++ [kEquals]).
Proof.
  intros (l1 & l2 & ->)%list_elem_of_split. rewrite BuildMessage_shape.
  destruct (built_prefix (l1 ++ one :: l2) l1) as [text Ht].
  unfold render_body at 1. rewrite fmap_app, concat_app, fmap_cons. cbn [concat].
  change (concat (render_field <$> l1)) with (render_body l1).
  rewrite <-!app_assoc, (app_assoc (envelope _)), Ht, <-app_assoc. apply contains_app_r.
  unfold render_field at 1. rewrite <-!app_assoc.
  change ([kSoh] ++ ?l) with (kSoh :: l). rewrite (app_assoc (to_string _)), app_comm_cons.
  apply contains_app_l, contains_refl.
Qed.

Section theorems.
Variable zlib_crc32 : Z → bytes → Z.

(** Where the bytes of a slice come from, whatever the input holds. *)
Definition cut_from (file slice : bytes) : Prop :=
  ∃ read rest, file = take 64 file ++ concat (sr_bytes <$> read) ++ rest ∧
    slice = take 64 file ++ concat (sr_bytes <$> kept sr_class read).


Lemma number_entries t ys :
  number sr_class t (of_entry zlib_crc32 <$> ys) = number entry_class t ys.
Proof.
  unfold number. f_equal. induction ys as [|y ys IH]; [done|]. rewrite fmap_cons, !filter_cons.
  change (sr_class (of_entry zlib_crc32 y)) with (entry_class y).
  destruct (decide _); cbn [length]; by rewrite IH.
Qed.

Lemma ParseSliceArguments_spelled n input output :
  0 < n <= u64_max → starts_with (B "--") input = false → starts_with (B "--") output = false →
  path_eq input output = false →
  ParseSliceArguments [B "--max-incrementals"; to_string n; input; output] =
    Expected (mkSliceArguments n input output).
Proof.
  intros Hn Hi Ho Hp. unfold ParseSliceArguments.
  assert (∀ arg, starts_with (B "--") arg = false → arg ≠ B "--max-incrementals") as Hne.
  { intros arg H ->. done. }
  cbn [parse_slice_args]. rewrite decide_True by done. unfold ParseCount.
  rewrite ParseFlagValue_stoull by lia. cbn [expected_bind].
  rewrite (proj2 (Z.eqb_neq n 0)) by lia. cbn [expected_bind].
  rewrite (decide_False (P := input = _)) by auto. rewrite Hi.
  rewrite (decide_False (P := output = _)) by auto. rewrite Ho.
  cbn [expected_bind app]. by rewrite Hp.
Qed.

(** The reader's view of a file made of a header and whole records. *)
Lemma read_entries path exchange c rt m xs :
  header_ok exchange c rt m → Forall storable xs →
  ∃ r0 r, Open zlib_crc32 path
      (Some (file_header zlib_crc32 exchange c rt m ++ entries_bytes zlib_crc32 xs)) = Expected r0 ∧
    jr_header r0 = mkJournalFileHeader kFormatVersion rt m exchange c ∧
    ReadAll zlib_crc32 r0 = (r, as_record <$> xs) ∧ StoppedEarly r = false.
Proof.
  intros Hok Hxs. eexists. rewrite Open_header by done. set (r0 := mkJournalReader _ _ _ _ _ _).
  destruct (read_all_whole zlib_crc32 (S (length (jr_in r0))) r0
    (length (entries_bytes zlib_crc32 xs)) xs) as (r & Hrun & _ & Hs); try done.
  - cbn [r0 jr_in]. by rewrite take_ge.
  - lia.
  - exists r. split; [done|]. split; [done|]. rewrite whole_all in Hrun by done.
    split; [done|]. unfold StoppedEarly. rewrite Hs. apply negb_false_iff. unfold on_boundary.
    apply orb_true_iff. right. by apply bool_decide_eq_true_2.
Qed.

Lemma upto_prefix {A} (class : A → record_class) n l : upto class n l `prefix_of` l.
Proof.
  revert n. induction l as [|y l IH]; intros n; cbn [upto]; [done|].
  destruct (0 <? n); [by apply prefix_cons|apply prefix_nil].
Qed.

(** The records kept of a journal's head are no longer than the journal. *)
Lemma kept_upto_le n xs :
  (length (entries_bytes zlib_crc32 (kept entry_class (upto entry_class n xs))) <=
   length (entries_bytes zlib_crc32 xs))%nat.
Proof.
  destruct (upto_prefix entry_class n xs) as [rest Hrest].
  etrans; [apply (concat_kept_le entry_class (record_bytes zlib_crc32))|].
  unfold entries_bytes. rewrite Hrest at 2. rewrite fmap_app, concat_app, length_app. lia.
Qed.

Lemma length_entries xs : (length xs <= length (entries_bytes zlib_crc32 xs))%nat.
Proof.
  induction xs as [|x xs IH]; [done|]. rewrite entries_bytes_cons, length_app, record_bytes_length.
  cbn [length]. lia.
Qed.

Lemma kept_upto_storable n xs :
  Forall storable xs → Forall storable (kept entry_class (upto entry_class n xs)).
Proof.
  destruct (upto_prefix entry_class n xs) as [rest Hrest]. rewrite Hrest at 1.
  intros [H _]%Forall_app. unfold kept. rewrite Forall_forall in *. intros x [_ Hx]%list_elem_of_filter.
  auto.
Qed.

Lemma elem_of_kept {A} (class : A → record_class) l x : x ∈ kept class l ↔ class x ≠ RLogon ∧ x ∈ l.
Proof. unfold kept. by rewrite list_elem_of_filter. Qed.

Lemma entry_payload_in xs x pattern :
  x ∈ xs → contains (cf_payload x.2) pattern → contains (entries_bytes zlib_crc32 xs) pattern.
Proof.
  intros (l1 & l2 & ->)%list_elem_of_split Hc. unfold entries_bytes.
  rewrite fmap_app, concat_app, fmap_cons. cbn [concat]. apply contains_app_r, contains_app_l.
  unfold record_bytes. by apply contains_app_r, contains_app_l.
Qed.

(** No message of a clean slice that was built as one is a Logon, or has a
    field with a credential. *)
Definition free_of_credentials (xs : list (RecordType * CaptureFrame)) : Prop :=
  ∀ x fields, x ∈ xs → cf_payload x.2 = BuildMessage fields → outgoing fields →
    (x.1 = kWireMessage → f_value <$> head fields ≠ Some (B "A")) ∧
    ∀ one, one ∈ fields → f_tag one ≠ tag.kRawData ∧ f_tag one ≠ tag.kPassword.

Lemma clean_free header xs :
  clean (header ++ entries_bytes zlib_crc32 (kept entry_class xs)) →
  free_of_credentials (kept entry_class xs).
Proof.
  intros (_ & Hraw & Hpass) x fields Hx Hp Hout. split.
  - apply elem_of_kept in Hx as [Hx _]. intros Ht Hh. apply Hx. unfold entry_class, class_of.
    rewrite Ht, Hp. destruct fields as [|first rest]; [done|]. injection Hh as Hh.
    destruct Hout as ((Htag & _) & Hs & _). apply Forall_inv in Hs as [_ Hs].
    by rewrite MsgType_built, Hh.
  - intros one Hone. pose proof (built_field _ _ Hone) as Hc. rewrite <-Hp in Hc.
    apply (entry_payload_in _ _ _ Hx) in Hc.
    split; intros Ht; [apply Hraw|apply Hpass]; apply contains_app_r; by rewrite Ht in Hc.
Qed.

End theorems.

(** ** A capture with a Logon *)

Definition demo_sum (running : Z) (data : bytes) : Z :=
  foldl (λ sum c, sum + byte_val c) running data.

Definition demo_wire (sequence : Z) (fields : list Field) : RecordType * CaptureFrame :=
  (kWireMessage, mkCaptureFrame (BuildMessage fields) sequence (100 + sequence) kDeribitFix).

Definition demo_capture : list (RecordType * CaptureFrame) :=
  [(kConnect, mkCaptureFrame [] 1 100 kDeribitFix);
   demo_wire 2 [mkField 35 (B "A"); mkField 554 (B "secret")];
   demo_wire 3 [mkField 35 (B "W"); mkField 55 (B "BTC-PERPETUAL")];
   demo_wire 4 [mkField 35 (B "X"); mkField 55 (B "BTC-PERPETUAL")];
   demo_wire 5 [mkField 35 (B "X"); mkField 55 (B "BTC-PERPETUAL")]].

Definition demo_header : bytes := file_header demo_sum (B "deribit") 7 5 6.
Definition demo_disk (path : bytes) : option bytes :=
  if decide (path = B "in") then Some (demo_header ++ entries_bytes demo_sum demo_capture) else None.

Definition demo_slice (args : list bytes) : tool_run :=
  slice_main demo_sum args demo_disk true 4096 None.

Lemma demo_disk_small path file : demo_disk path = Some file → Z.of_nat (length file) < u64_max.
Proof.
  unfold demo_disk. destruct (decide (path = B "in")); [|done]. intros H.
  apply (inj Some) in H as <-. by vm_compute.
Qed.

Lemma demo_header_ok : header_ok (B "deribit") 7 5 6.
Proof.
  split_and!; try (by vm_compute); [vm_compute; lia|].
  apply (bool_decide_eq_true_1 (byte_of 0 ∉ B "deribit")). by vm_compute.
Qed.

Lemma demo_capture_storable : Forall storable demo_capture.
Proof. repeat (constructor; [by vm_compute|]). constructor. Qed.

(** The Logon and the second incremental stay out. *)
Example demo_slice_written :
  let r := demo_slice [B "--max-incrementals"; B "1"; B "in"; B "out"] in
  tr_exit r = kExitOk ∧
  tr_output r = Some (demo_header ++ entries_bytes demo_sum
    [(kConnect, mkCaptureFrame [] 1 100 kDeribitFix);
     demo_wire 3 [mkField 35 (B "W"); mkField 55 (B "BTC-PERPETUAL")];
     demo_wire 4 [mkField 35 (B "X"); mkField 55 (B "BTC-PERPETUAL")]]).
Proof. by vm_compute. Qed.



(** ** What the tool lets through *)

(** A negative count is taken modulo [2 ^ 64]. *)
Example negative_count_accepted :
  ParseSliceArguments [B "--max-incrementals"; B "-1"; B "in"; B "out"] =
    Expected (mkSliceArguments u64_max (B "in") (B "out")).
Proof. by vm_compute. Qed.

(** Two spellings of one file are not recognised as the same. *)
Example respelled_output_accepted :
  ParseSliceArguments [B "in"; B "./in"] =
    Expected (mkSliceArguments kDefaultMaxIncrementals (B "in") (B "./in")).
Proof. by vm_compute. Qed.

(** The magic is all of the file header that is looked at: a journal whose
    header the reader refuses is sliced all the same. *)
Definition damaged (file : bytes) : bytes := take 8 file ++ [byte_of 9] ++ drop 9 file.

Example damaged_header_sliced :
  let file := damaged (demo_header ++ entries_bytes demo_sum demo_capture) in
  let r := slice_main demo_sum [B "in"; B "out"] (λ _, Some file) true 4096 None in
  Open demo_sum (B "in") (Some file) =
    Unexpected (B "JournalReader: header checksum mismatch") ∧
  tr_exit r = kExitOk ∧
  Open demo_sum (B "out") (tr_output r) =
    Unexpected (B "JournalReader: header checksum mismatch").
Proof. by vm_compute. Qed.

(** A tag with a leading zero is the parser's Password field and not the
    scan's. *)
Definition zero_tag_message : bytes := BuildMessage [mkField 35 (B "W" ++ kSoh :: B "0554=secret")].

Example zero_tag_passes :
  let xs := [(kWireMessage, mkCaptureFrame zero_tag_message 1 100 kDeribitFix)] in
  let file := demo_header ++ entries_bytes demo_sum xs in
  (∃ message, ParseMessage zero_tag_message = Expected message ∧
     Get message tag.kPassword = Some (B "secret")) ∧
  tr_exit (slice_main demo_sum [B "in"; B "out"] (λ _, Some file) true 4096 None) = kExitOk.
Proof. split; [|by vm_compute]. eexists. split; by vm_compute. Qed.
