(* ===== verification/JournalThread.v ===== *)
(** * The journal on its own thread: [feed_handler/journal_thread.{h,cpp}]

    The connection thread pushes events into a ring, the journal thread pops
    them and runs a [JournalWriter]. One turn of the journal thread is one step,
    taken between any two calls of the connection thread; how much of each write
    reaches the disk is an argument of the turn. Waiting for an event and being
    woken for one are the choice of when a turn happens. [Fail] is one step: its
    claim is not seen by anyone before it is complete. *)

From S2P Require Import Prelude Text Feed Ring Journal.

(** A [JournalWriter] and its [path_]. *)
Definition OpenFile : Type := bytes * JournalWriter.

(** A [JournalDisconnect] carries a signal the connection thread waits on, so
    there is at most one: its completion is a result of the turn. *)
Inductive JournalEvent : Type :=
| JournalFrame (frame : CaptureFrame)
| JournalConnect (writer : OpenFile) (marker : CaptureFrame)
| JournalDisconnect
| JournalStop.

(** What the disk does during one turn: how many bytes of a record it takes, and
    whether a flush succeeds. *)
Record disk := mkDisk { disk_room : nat; disk_flush : bool }.

Section journal_thread.
Variable zlib_crc32 : Z → bytes → Z.
Context {Q : Type} `{!ReaderWriterQueue Q JournalEvent}.

(** [jt_error] is [state_] and [error_]; [jt_fatal] the calls of [on_fatal_] not
    yet handled; [jt_started] whether [thread_] is joinable; [jt_closed] the
    writers destroyed so far, with what they left on the disk. *)
Record JournalThread := mkJournalThread {
  jt_capacity : nat;
  jt_ring : SpscRing Q;
  jt_error : option bytes;
  jt_fatal : list bytes;
  jt_records_written : Z;
  jt_writer : option OpenFile;
  jt_started : bool;
  jt_closed : list OpenFile;
}.

Definition set_ring (r : SpscRing Q) (t : JournalThread) : JournalThread :=
  mkJournalThread (jt_capacity t) r (jt_error t) (jt_fatal t) (jt_records_written t) (jt_writer t)
    (jt_started t) (jt_closed t).
Definition set_records_written (n : Z) (t : JournalThread) : JournalThread :=
  mkJournalThread (jt_capacity t) (jt_ring t) (jt_error t) (jt_fatal t) n (jt_writer t)
    (jt_started t) (jt_closed t).

Definition JournalThread_Start (t : JournalThread) : JournalThread :=
  mkJournalThread (jt_capacity t) (jt_ring t) (jt_error t) (jt_fatal t) (jt_records_written t)
    (jt_writer t) true (jt_closed t).

Definition new_JournalThread (ring_events : nat) (start : bool) : JournalThread :=
  let capacity := Nat.max ring_events 1 in
  let t := mkJournalThread capacity (new_SpscRing capacity) None [] 0 None false [] in
  if start then JournalThread_Start t else t.

Definition Failed (t : JournalThread) : bool := bool_decide (is_Some (jt_error t)).
Definition JournalThread_Error (t : JournalThread) : bytes := default [] (jt_error t).

Definition JournalThread_Fail (reason : bytes) (t : JournalThread) : JournalThread :=
  match jt_error t with
  | Some _ => t
  | None => mkJournalThread (jt_capacity t) (jt_ring t) (Some reason) (jt_fatal t ++ [reason])
              (jt_records_written t) (jt_writer t) (jt_started t) (jt_closed t)
  end.

(** [writer_] becomes [w]; the writer it held is destroyed. *)
Definition assign_writer (w : option OpenFile) (t : JournalThread) : JournalThread :=
  mkJournalThread (jt_capacity t) (jt_ring t) (jt_error t) (jt_fatal t) (jt_records_written t) w
    (jt_started t) (jt_closed t ++ option_list (jt_writer t)).

(** The writer [writer_] points to changes to [w]. *)
Definition update_writer (w : OpenFile) (t : JournalThread) : JournalThread :=
  mkJournalThread (jt_capacity t) (jt_ring t) (jt_error t) (jt_fatal t) (jt_records_written t)
    (Some w) (jt_started t) (jt_closed t).

(** ** The connection thread's side *)

Definition JournalThread_Connect (writer : OpenFile) (marker : CaptureFrame) (t : JournalThread)
  : JournalThread :=
  set_ring (PushControl (JournalConnect writer (CopyFrame marker)) (jt_ring t)) t.

Definition overflow_text (capacity : nat) : bytes :=
  B "journal ring overflow (" ++ to_string (Z.of_nat capacity) ++ B " events queued)".

Definition JournalThread_Push (frame : CaptureFrame) (t : JournalThread) : JournalThread * bool :=
  if Failed t then (t, false)
  else
    let '(r, pushed) := Push (JournalFrame (CopyFrame frame)) (jt_ring t) in
    let t := set_ring r t in
    if negb pushed then (JournalThread_Fail (overflow_text (jt_capacity t)) t, false)
    else (t, true).

(** ** The journal thread's side *)

(** [AfterWrite], where [w] is the writer. *)
Definition AfterWrite (w : JournalWriter) (t : JournalThread) : JournalThread :=
  let t := set_records_written (jw_records_written w) t in
  if negb (JournalWriter_Good w) then JournalThread_Fail (jw_error w) t else t.

Inductive turn_result : Type :=
| Idle
| Handled
| Completed (records : Z)
| Stopped.

(** One pass of the loop of [Run], with the event it waited for. *)
Definition Handle (d : disk) (ev : JournalEvent) (t : JournalThread)
  : JournalThread * turn_result :=
  match ev with
  | JournalFrame frame =>
      match jt_writer t with
      | Some (path, w) =>
          let w := JournalWriter_OnFrame zlib_crc32 (disk_room d) frame w in
          (AfterWrite w (update_writer (path, w) t), Handled)
      | None => (t, Handled)
      end
  | JournalConnect (path, w) marker =>
      let t := assign_writer (Some (path, w)) t in
      let w := WriteConnectMarker zlib_crc32 (disk_room d) marker w in
      (AfterWrite w (update_writer (path, w) t), Handled)
  | JournalDisconnect =>
      let '(t, records) :=
        match jt_writer t with
        | Some (path, w) =>
            let w := Flush (disk_flush d) w in
            let t := AfterWrite w (update_writer (path, w) t) in
            (assign_writer None t, jw_records_written w)
        | None => (t, 0)
        end in
      (set_records_written 0 t, Completed records)
  | JournalStop => (assign_writer None t, Stopped)
  end.

(** A turn: nothing happens while the thread is not running or the ring is
    empty. *)
Definition Turn (d : disk) (t : JournalThread) : JournalThread * turn_result :=
  if negb (jt_started t) then (t, Idle)
  else
    match Pop (jt_ring t) with
    | (r, Some ev) => Handle d ev (set_ring r t)
    | (r, None) => (set_ring r t, Idle)
    end.

(** The turns taken while the connection thread waits, at most [turns] of them;
    [io n] is the disk of the [n]th. [None]: it is still waiting. *)
Fixpoint await (turns : nat) (io : nat → disk) (t : JournalThread) : JournalThread * option Z :=
  match turns with
  | O => (t, None)
  | S turns =>
      match Turn (io O) t with
      | (t, Completed records) => (t, Some records)
      | (t, _) => await turns (λ n, io (S n)) t
      end
  end.

(** As many turns as events are queued. *)
Definition queued (t : JournalThread) : nat := length (queue_contents (ring_queue (jt_ring t))).

Definition JournalThread_Disconnect (io : nat → disk) (t : JournalThread)
  : JournalThread * option Z :=
  let t := JournalThread_Start t in
  let t := set_ring (PushControl JournalDisconnect (jt_ring t)) t in
  await (queued t) io t.

(** The turns up to the one that ends the thread; whether it ended. *)
Fixpoint join (turns : nat) (io : nat → disk) (t : JournalThread) : JournalThread * bool :=
  match turns with
  | O => (t, false)
  | S turns =>
      match Turn (io O) t with
      | (t, Stopped) => (t, true)
      | (t, _) => join turns (λ n, io (S n)) t
      end
  end.

Definition destroy_JournalThread (io : nat → disk) (t : JournalThread) : JournalThread * bool :=
  let t := JournalThread_Start t in
  let t := set_ring (PushControl JournalStop (jt_ring t)) t in
  join (queued t) io t.
End journal_thread.
Arguments JournalThread : clear implicits.
