(* ===== verification/CaptureSession.v ===== *)
(** * One connection's capture: [feed_handler/capture_session.{h,cpp}]

    The session owns the journal of the current connect, writing it itself or
    through a [JournalThread], numbers the frames and fans them out to its
    sinks. A sink is the list of calls it received. What the file system and the
    clocks answer is an argument of each call; a call that would wait for ever
    on the journal thread is [None]. *)

From S2P Require Import Prelude Text Feed Ring FixTime Journal JournalThread.

Definition kNanosPerSecond : Z := 1000000000.

(** [%06llu]. *)
Definition ordinal (connect_id : Z) : bytes :=
  let digits := to_string connect_id in
  replicate (6 - length digits) (byte_of 48) ++ digits.

Definition JournalFileName (prefix : bytes) (connect_id realtime_ns : Z) : bytes :=
  let utc := gmtime (realtime_ns / kNanosPerSecond) in
  let stamp :=
    padded 4 (tm_year utc) ++ padded 2 (tm_mon utc) ++ padded 2 (tm_mday utc) ++ B "T" ++
    padded 2 (tm_hour utc) ++ padded 2 (tm_min utc) ++ padded 2 (tm_sec utc) ++ B "Z" in
  prefix ++ B "-" ++ ordinal connect_id ++ B "-" ++ stamp ++ B ".journal".

(** [std::filesystem::path]'s [/]. *)
Definition path_append (directory name : bytes) : bytes :=
  if bool_decide (head name = Some (byte_of 47)) then name
  else if bool_decide (directory = []) || bool_decide (last directory = Some (byte_of 47))
  then directory ++ name
  else directory ++ B "/" ++ name.

Record Config := mkConfig {
  cfg_directory : bytes;
  cfg_exchange : bytes;
  cfg_file_prefix : bytes;
  cfg_threaded : bool;
  cfg_journal_ring_events : nat;
  cfg_journal_start : bool;
}.

(** The handlers a client installs: one of its own, or the one of
    [RouteFatalToStopSignal]. *)
Inductive FatalHandler : Type :=
| CallHandler
| LatchHandler.

Section session.
Variable zlib_crc32 : Z → bytes → Z.
Context {Q : Type} `{!ReaderWriterQueue Q JournalEvent}.

(** [cs_fatal_calls] are the calls of a handler of the client's own,
    [cs_latched] whether the stop signal was latched, [cs_closed] the files
    inline mode has closed. *)
Record CaptureSession := mkCaptureSession {
  cs_cfg : Config;
  cs_writer : option OpenFile;
  cs_sinks : list (list FeedEvent);
  cs_current_path : bytes;
  cs_stamper : CaptureStamper;
  cs_connect_id : Z;
  cs_announced : bool;
  cs_closed_records : Z;
  cs_journal_open : bool;
  cs_fatal_handler : option FatalHandler;
  cs_journal : option (JournalThread Q);
  cs_fatal_calls : list bytes;
  cs_latched : bool;
  cs_closed : list OpenFile;
}.

Definition new_CaptureSession (cfg : Config) : CaptureSession :=
  mkCaptureSession cfg None [] [] new_CaptureStamper 0 false 0 false None
    (if cfg_threaded cfg
     then Some (new_JournalThread (cfg_journal_ring_events cfg) (cfg_journal_start cfg)) else None)
    [] false [].

(** ** Assignments to the members *)

Definition set_writer (w : option OpenFile) (s : CaptureSession) : CaptureSession :=
  mkCaptureSession (cs_cfg s) w (cs_sinks s) (cs_current_path s) (cs_stamper s) (cs_connect_id s)
    (cs_announced s) (cs_closed_records s) (cs_journal_open s) (cs_fatal_handler s) (cs_journal s)
    (cs_fatal_calls s) (cs_latched s) (cs_closed s).
Definition set_sinks (sinks : list (list FeedEvent)) (s : CaptureSession) : CaptureSession :=
  mkCaptureSession (cs_cfg s) (cs_writer s) sinks (cs_current_path s) (cs_stamper s)
    (cs_connect_id s) (cs_announced s) (cs_closed_records s) (cs_journal_open s)
    (cs_fatal_handler s) (cs_journal s) (cs_fatal_calls s) (cs_latched s) (cs_closed s).
Definition set_current_path (path : bytes) (s : CaptureSession) : CaptureSession :=
  mkCaptureSession (cs_cfg s) (cs_writer s) (cs_sinks s) path (cs_stamper s) (cs_connect_id s)
    (cs_announced s) (cs_closed_records s) (cs_journal_open s) (cs_fatal_handler s) (cs_journal s)
    (cs_fatal_calls s) (cs_latched s) (cs_closed s).
Definition set_stamper (stamper : CaptureStamper) (s : CaptureSession) : CaptureSession :=
  mkCaptureSession (cs_cfg s) (cs_writer s) (cs_sinks s) (cs_current_path s) stamper
    (cs_connect_id s) (cs_announced s) (cs_closed_records s) (cs_journal_open s)
    (cs_fatal_handler s) (cs_journal s) (cs_fatal_calls s) (cs_latched s) (cs_closed s).
Definition set_connect_id (id : Z) (s : CaptureSession) : CaptureSession :=
  mkCaptureSession (cs_cfg s) (cs_writer s) (cs_sinks s) (cs_current_path s) (cs_stamper s) id
    (cs_announced s) (cs_closed_records s) (cs_journal_open s) (cs_fatal_handler s) (cs_journal s)
    (cs_fatal_calls s) (cs_latched s) (cs_closed s).
Definition set_announced (b : bool) (s : CaptureSession) : CaptureSession :=
  mkCaptureSession (cs_cfg s) (cs_writer s) (cs_sinks s) (cs_current_path s) (cs_stamper s)
    (cs_connect_id s) b (cs_closed_records s) (cs_journal_open s) (cs_fatal_handler s)
    (cs_journal s) (cs_fatal_calls s) (cs_latched s) (cs_closed s).
Definition add_closed_records (n : Z) (s : CaptureSession) : CaptureSession :=
  mkCaptureSession (cs_cfg s) (cs_writer s) (cs_sinks s) (cs_current_path s) (cs_stamper s)
    (cs_connect_id s) (cs_announced s) (wrap 64 (cs_closed_records s + n)) (cs_journal_open s)
    (cs_fatal_handler s) (cs_journal s) (cs_fatal_calls s) (cs_latched s) (cs_closed s).
Definition set_journal_open (b : bool) (s : CaptureSession) : CaptureSession :=
  mkCaptureSession (cs_cfg s) (cs_writer s) (cs_sinks s) (cs_current_path s) (cs_stamper s)
    (cs_connect_id s) (cs_announced s) (cs_closed_records s) b (cs_fatal_handler s) (cs_journal s)
    (cs_fatal_calls s) (cs_latched s) (cs_closed s).
Definition set_journal (t : JournalThread Q) (s : CaptureSession) : CaptureSession :=
  mkCaptureSession (cs_cfg s) (cs_writer s) (cs_sinks s) (cs_current_path s) (cs_stamper s)
    (cs_connect_id s) (cs_announced s) (cs_closed_records s) (cs_journal_open s)
    (cs_fatal_handler s) (Some t) (cs_fatal_calls s) (cs_latched s) (cs_closed s).
Definition close_file (file : OpenFile) (s : CaptureSession) : CaptureSession :=
  mkCaptureSession (cs_cfg s) None (cs_sinks s) (cs_current_path s) (cs_stamper s)
    (cs_connect_id s) (cs_announced s) (cs_closed_records s) (cs_journal_open s)
    (cs_fatal_handler s) (cs_journal s) (cs_fatal_calls s) (cs_latched s) (cs_closed s ++ [file]).

Definition SetFatalHandler (handler : option FatalHandler) (s : CaptureSession) : CaptureSession :=
  mkCaptureSession (cs_cfg s) (cs_writer s) (cs_sinks s) (cs_current_path s) (cs_stamper s)
    (cs_connect_id s) (cs_announced s) (cs_closed_records s) (cs_journal_open s) handler
    (cs_journal s) (cs_fatal_calls s) (cs_latched s) (cs_closed s).

Definition RouteFatalToStopSignal (s : CaptureSession) : CaptureSession :=
  SetFatalHandler (Some LatchHandler) s.

Definition NotifyFatal (reason : bytes) (s : CaptureSession) : CaptureSession :=
  let notified calls latched :=
    mkCaptureSession (cs_cfg s) (cs_writer s) (cs_sinks s) (cs_current_path s) (cs_stamper s)
      (cs_connect_id s) (cs_announced s) (cs_closed_records s) (cs_journal_open s)
      (cs_fatal_handler s) (cs_journal s) calls latched (cs_closed s) in
  match cs_fatal_handler s with
  | None => s
  | Some CallHandler => notified (cs_fatal_calls s ++ [reason]) (cs_latched s)
  | Some LatchHandler => notified (cs_fatal_calls s) true
  end.

(** The journal thread moves to [t]; the callbacks it made reach the handler. *)
Definition journal_moved (t : JournalThread Q) (s : CaptureSession) : CaptureSession :=
  foldl (λ s reason, NotifyFatal reason s)
    (set_journal (mkJournalThread (jt_capacity t) (jt_ring t) (jt_error t) []
       (jt_records_written t) (jt_writer t) (jt_started t) (jt_closed t)) s)
    (jt_fatal t).

(** A turn of the journal thread. *)
Definition journal_turn (d : disk) (s : CaptureSession) : CaptureSession :=
  match cs_journal s with
  | Some t => journal_moved (Turn zlib_crc32 d t).1 s
  | None => s
  end.

Definition AddSink (s : CaptureSession) : CaptureSession := set_sinks (cs_sinks s ++ [[]]) s.

(** Every sink is called, in registration order. *)
Definition tell_sinks (ev : FeedEvent) (s : CaptureSession) : CaptureSession :=
  set_sinks ((λ calls, calls ++ [ev]) <$> cs_sinks s) s.

(** ** [Close] *)

(** The file system while a file is closed: inline, whether the flush succeeds;
    threaded, the disk of every turn up to the barrier. *)
Record close_env := mkCloseEnv { close_flush : bool; close_io : nat → disk }.

Definition Close (env : close_env) (s : CaptureSession) : option CaptureSession :=
  let s :=
    match cs_writer s with
    | Some (path, w) =>
        let s := add_closed_records (jw_records_written w) s in
        set_current_path [] (close_file (path, Flush (close_flush env) w) s)
    | None => s
    end in
  s ←
    match cs_journal s with
    | Some t =>
        if cs_journal_open s then
          let '(t, records) := JournalThread_Disconnect zlib_crc32 (close_io env) t in
          records ← records;
          Some (set_current_path []
                  (set_journal_open false (add_closed_records records (journal_moved t s))))
        else Some s
    | None => Some s
    end;
  if negb (cs_announced s) then Some s
  else Some (tell_sinks (DisconnectEvent (cs_connect_id s)) (set_announced false s)).

(** ** [BeginConnect] *)

(** [create_directories], and [is_directory] where that failed, which can throw. *)
Inductive directory_result : Type :=
| DirectoryUsable
| DirectoryUnusable (message : bytes)
| DirectoryUnreadable.

Record connect_env := mkConnectEnv {
  ce_close : close_env;
  ce_directory : directory_result;
  ce_realtime : Z;
  ce_opened : bool;
  ce_header_room : nat;
  ce_header_realtime : Z;
  ce_header_monotonic : Z;
  ce_marker_now : Z;
  ce_marker_room : nat;
}.

Inductive connect_result : Type :=
| Connected (path : bytes)
| Refused (reason : bytes)
| Threw.

Definition journal_path (cfg : Config) (connect_id realtime_ns : Z) : bytes :=
  path_append (cfg_directory cfg)
    (JournalFileName (if decide (cfg_file_prefix cfg = []) then cfg_exchange cfg
                      else cfg_file_prefix cfg) connect_id realtime_ns).

(** The connect is usable: the sinks are told. *)
Definition announce (reason path : bytes) (s : CaptureSession) : CaptureSession * connect_result :=
  (tell_sinks (ConnectEvent (cs_connect_id s) reason) (set_announced true s), Connected path).

(** The file is open: the marker, then the announcement. *)
Definition start_file (env : connect_env) (reason : bytes) (source : FrameSource) (path : bytes)
    (w : JournalWriter) (s : CaptureSession) : CaptureSession * connect_result :=
  let s := set_current_path path s in
  let '(stamper, marker) := Stamp reason source (ce_marker_now env) (cs_stamper s) in
  let s := set_stamper stamper s in
  match cs_journal s with
  | Some t =>
      announce reason path
        (set_journal_open true (journal_moved (JournalThread_Connect (path, w) marker t) s))
  | None =>
      let w := WriteConnectMarker zlib_crc32 (ce_marker_room env) marker w in
      let s := set_writer (Some (path, w)) s in
      if negb (JournalWriter_Good w)
      then (s, Refused (B "cannot write connect marker: " ++ jw_error w))
      else announce reason path s
  end.

Definition BeginConnect (env : connect_env) (reason : bytes) (source : FrameSource)
    (s : CaptureSession) : option (CaptureSession * connect_result) :=
  s ← Close (ce_close env) s;
  let s := set_connect_id (incr64 (cs_connect_id s)) s in
  let s := set_stamper new_CaptureStamper s in
  let refused :=
    match cs_journal s with
    | Some t => if Failed t then Some (Refused (B "journal failed: " ++ JournalThread_Error t))
                else None
    | None => None
    end in
  match refused with
  | Some refused => Some (s, refused)
  | None =>
  match ce_directory env with
  | DirectoryUnusable message =>
      Some (s, Refused (B "cannot create journal directory " ++ cfg_directory (cs_cfg s) ++ B ": " ++
                        message))
  | DirectoryUnreadable => Some (s, Threw)
  | DirectoryUsable =>
      let path := journal_path (cs_cfg s) (cs_connect_id s) (ce_realtime env) in
      match new_JournalWriter zlib_crc32 (ce_opened env) (ce_header_room env) path
              (cfg_exchange (cs_cfg s)) (cs_connect_id s) (ce_header_realtime env)
              (ce_header_monotonic env) with
      | Unexpected error => Some (s, Refused error)
      | Expected w => Some (start_file env reason source path w s)
      end
  end
  end.

(** ** Frames *)

(** What a frame finds: the monotonic clock, and inline the disk. *)
Record frame_env := mkFrameEnv { fe_now : Z; fe_room : nat }.

Definition OnWireMessage (env : frame_env) (payload : bytes) (source : FrameSource)
    (s : CaptureSession) : CaptureSession * bool :=
  let open :=
    match cs_journal s with
    | Some _ => cs_journal_open s
    | None => bool_decide (is_Some (cs_writer s))
    end in
  if negb open then (s, false)
  else
    let '(stamper, frame) := Stamp payload source (fe_now env) (cs_stamper s) in
    let s := set_stamper stamper s in
    let '(s, journaled) :=
      match cs_journal s, cs_writer s with
      | Some t, _ =>
          let '(t, pushed) := JournalThread_Push frame t in (journal_moved t s, pushed)
      | None, Some (path, w) =>
          let w := JournalWriter_OnFrame zlib_crc32 (fe_room env) frame w in
          (set_writer (Some (path, w)) s, JournalWriter_Good w)
      | None, None => (s, false)
      end in
    (tell_sinks (FrameEvent frame) s, journaled).

(** ** Destruction and queries *)

(** The members go: the journal thread drains and is joined, an inline writer is
    closed. Whether the thread ended. *)
Definition destroy_CaptureSession (io : nat → disk) (s : CaptureSession)
  : CaptureSession * bool :=
  let '(s, ended) :=
    match cs_journal s with
    | Some t => let '(t, ended) := destroy_JournalThread zlib_crc32 io t in
                (journal_moved t s, ended)
    | None => (s, true)
    end in
  match cs_writer s with
  | Some file => (close_file file s, ended)
  | None => (s, ended)
  end.

Definition Session_RecordsWritten (s : CaptureSession) : Z :=
  match cs_journal s, cs_writer s with
  | Some t, _ => jt_records_written t
  | None, Some (_, w) => jw_records_written w
  | None, None => 0
  end.

Definition TotalRecordsWritten (s : CaptureSession) : Z :=
  wrap 64 (cs_closed_records s + Session_RecordsWritten s).

Definition Session_Error (s : CaptureSession) : bytes :=
  match cs_journal s, cs_writer s with
  | Some t, _ => JournalThread_Error t
  | None, Some (_, w) => jw_error w
  | None, None => []
  end.

(** Every file closed so far, with what is on the disk. *)
Definition closed_files (s : CaptureSession) : list OpenFile :=
  match cs_journal s with Some t => jt_closed t | None => cs_closed s end.
End session.
Arguments CaptureSession : clear implicits.
