(* ===== verification/ThreadProofs.v ===== *)
(** * Files written directly and through the journal thread

    A connect's file holds what its writer was handed, whichever thread wrote
    it; the turns of the journal thread only move records from the ring to the
    file, and the barrier of [Disconnect] is released after all of them. *)

From S2P Require Import Prelude Text Feed Ring Journal JournalProofs JournalCrash JournalThread.

(** One connect: its file, its marker, the frames captured on it, and whether
    every one was reported as journaled. *)
Record connect := mkConnect {
  c_id : Z;
  c_path : bytes;
  c_realtime : Z;
  c_monotonic : Z;
  c_marker : CaptureFrame;
  c_frames : list CaptureFrame;
  c_journaled : bool;
}.

Definition frame_entries (frames : list CaptureFrame) : list (RecordType * CaptureFrame) :=
  pair kWireMessage <$> frames.
Definition entries (c : connect) : list (RecordType * CaptureFrame) :=
  (kConnect, c_marker c) :: frame_entries (c_frames c).

Lemma frame_entries_app f1 f2 :
  frame_entries (f1 ++ f2) = frame_entries f1 ++ frame_entries f2.
Proof. apply fmap_app. Qed.

Section files.
Variable zlib_crc32 : Z → bytes → Z.
Variable exchange : bytes.

(** [w] is [c]'s writer after it was handed [xs]. *)
Definition wrote (c : connect) (w : JournalWriter) (xs : list (RecordType * CaptureFrame)) : Prop :=
  ∃ opened room w0 cs,
    new_JournalWriter zlib_crc32 opened room (c_path c) exchange (c_id c) (c_realtime c)
      (c_monotonic c) = Expected w0 ∧
    w = write_all zlib_crc32 cs w0 ∧ cs.*2 = xs ∧ Forall call_ok cs.

Definition frame_ok (frame : CaptureFrame) : Prop :=
  u64 (cf_capture_sequence frame) ∧ u64 (cf_monotonic_ns frame).

Lemma wrote_new c opened room w :
  new_JournalWriter zlib_crc32 opened room (c_path c) exchange (c_id c) (c_realtime c)
    (c_monotonic c) = Expected w →
  wrote c w [] ∧ jw_error w = [].
Proof.
  intros Hw. destruct (new_JournalWriter_holds _ _ _ _ _ _ _ _ _ Hw) as (_ & He & _).
  split; [|done]. exists opened, room, w, []. split_and!; done || constructor.
Qed.

Lemma wrote_record c w xs room type frame :
  wrote c w xs → frame_ok frame →
  wrote c (WriteRecord zlib_crc32 room type frame w) (xs ++ [(type, frame)]).
Proof.
  intros (opened & hr & w0 & cs & H0 & -> & <- & Hcs) Hok.
  exists opened, hr, w0, (cs ++ [(room, (type, frame))]). split_and!; [done| |by rewrite fmap_app|].
  - unfold write_all. by rewrite foldl_app.
  - apply Forall_app. split; [done|]. constructor; [done|constructor].
Qed.

(** What the file of a writer reads back as. *)
Definition reads_as (c : connect) (w : JournalWriter) (ys : list (RecordType * CaptureFrame))
    (torn : bool) : Prop :=
  ∃ r0 r,
    Open zlib_crc32 (c_path c) (Some (jw_file w)) = Expected r0 ∧
    jr_header r0 =
      mkJournalFileHeader kFormatVersion (c_realtime c) (c_monotonic c) exchange (c_id c) ∧
    ReadAll zlib_crc32 r0 = (r, as_record <$> ys) ∧ StoppedEarly r = torn.

Lemma accepted_prefix last cs : accepted zlib_crc32 last cs `prefix_of` cs.*2.
Proof.
  revert last. induction cs as [|[room x] cs IH]; intros last; cbn [accepted fmap list_fmap];
    [done|].
  destruct (_ && _ && _); [by apply prefix_cons|apply prefix_nil].
Qed.

Lemma Flush_holds ok w header xs :
  holds zlib_crc32 w header xs → holds zlib_crc32 (Flush ok w) header xs.
Proof.
  intros [(x & k & Hx & Hk & Hf & Hg) Hs]. split; [|done]. exists x, k.
  unfold Flush, JournalWriter_Good. simpl. split_and!; [done|done| |].
  - by destruct (_ && _).
  - case_bool_decide as He; simpl.
    + rewrite andb_true_r. destruct (negb _) eqn:Hn; simpl.
      * rewrite decide_True by done. done.
      * intros He'. apply negb_false_iff in Hn. split; [by apply Hg|done].
    + rewrite andb_false_r. done.
Qed.

Lemma Flush_error ok w : jw_error (Flush ok w) = [] → jw_error w = [].
Proof.
  unfold Flush, JournalWriter_Good. simpl. destruct (_ && _) eqn:H; simpl; [|done]. by case_decide.
Qed.

(** A closed file: a prefix of what was handed over, and all of it when the
    writer had not failed. *)
Lemma wrote_reads c w xs ok :
  wrote c w xs → header_ok exchange (c_id c) (c_realtime c) (c_monotonic c) →
  ∃ ys torn, reads_as c (Flush ok w) ys torn ∧ ys `prefix_of` xs ∧
    (jw_error (Flush ok w) = [] → ys = xs ∧ torn = false).
Proof.
  intros (opened & room & w0 & cs & H0 & -> & <- & Hcs) Hok.
  destruct (new_JournalWriter_holds _ _ _ _ _ _ _ _ _ H0) as (Hh & He & Hl).
  destruct (write_all_holds _ cs _ _ _ Hh He Hcs) as [Hh' He']. rewrite Hl in Hh', He'.
  apply (Flush_holds ok) in Hh'. set (w := write_all _ _ _) in *.
  destruct (read_back _ _ _ _ _ _ _ (c_path c)
    (kFileHeaderSize + length (jw_file (Flush ok w)))%nat Hh' Hok ltac:(lia))
    as (r0 & r & ys & H1 & H2 & H3 & _ & H5).
  destruct (H5 ltac:(lia)) as [-> Hs]. rewrite take_ge in H1 by lia. simpl in H3, Hs |- *.
  exists (accepted zlib_crc32 0 cs), (StoppedEarly r). split_and!.
  - by exists r0, r.
  - apply accepted_prefix.
  - intros Hf. split; [|by apply Hs]. pose proof (accepted_prefix 0 cs) as [tl Htl].
    apply Flush_error, He' in Hf. rewrite Htl. rewrite <-(length_fmap snd cs), Htl, length_app in Hf.
    destruct tl; simpl in Hf; [by rewrite app_nil_r|lia].
Qed.
End files.

(** ** The journal thread *)

Section thread.
Variable zlib_crc32 : Z → bytes → Z.
Variable exchange : bytes.
Context {Q : Type} `{!ReaderWriterQueue Q JournalEvent, !ReaderWriterQueueLaws Q JournalEvent}.

Definition contents (t : JournalThread Q) : list JournalEvent :=
  queue_contents (ring_queue (jt_ring t)).

(** The open file of [c] will hold [all] once the ring is empty: either its
    [JournalConnect] is still queued, or its writer is at work. [tl] is queued
    behind. *)
Definition carrying (c : connect) (t : JournalThread Q) (all : list (RecordType * CaptureFrame))
    (tl : list JournalEvent) : Prop :=
  Forall (λ x, frame_ok x.2) all ∧
  ((∃ w fs, contents t = JournalConnect (c_path c, w) (c_marker c) :: (JournalFrame <$> fs) ++ tl ∧
      jt_writer t = None ∧ wrote zlib_crc32 exchange c w [] ∧ jw_error w = [] ∧
      all = (kConnect, c_marker c) :: frame_entries fs) ∨
   (∃ w xs fs, contents t = (JournalFrame <$> fs) ++ tl ∧
      jt_writer t = Some (c_path c, w) ∧ wrote zlib_crc32 exchange c w xs ∧
      (jt_error t = None → jw_error w = []) ∧ all = xs ++ frame_entries fs)).

Lemma contents_PushControl ev (t : JournalThread Q) :
  contents (set_ring (PushControl ev (jt_ring t)) t) = contents t ++ [ev].
Proof. unfold contents, PushControl. simpl. apply enqueue_appends. Qed.

Lemma Turn_pops d (t : JournalThread Q) ev evs :
  jt_started t = true → contents t = ev :: evs →
  ∃ r, queue_contents (ring_queue r) = evs ∧
    Turn zlib_crc32 d t = Handle zlib_crc32 d ev (set_ring r t).
Proof.
  intros Hs Hc. unfold Turn, Pop. rewrite Hs. simpl.
  pose proof (try_dequeue_takes (ring_queue (jt_ring t))) as Hq. unfold contents in Hc.
  destruct (try_dequeue (ring_queue (jt_ring t))) as [[x q]|].
  - rewrite Hc in Hq. injection Hq as -> ->. eexists. split; [|done]. done.
  - by rewrite Hc in Hq.
Qed.

Lemma AfterWrite_error w (t : JournalThread Q) :
  jt_error (AfterWrite w t) = None ↔ jt_error t = None ∧ jw_error w = [].
Proof.
  unfold AfterWrite, JournalWriter_Good. case_bool_decide as He; simpl; [naive_solver|].
  unfold JournalThread_Fail. simpl. destruct (jt_error t) eqn:Ht; simpl; naive_solver.
Qed.

(** Everything but the failure and the count. *)
Lemma AfterWrite_frame w (t : JournalThread Q) :
  jt_ring (AfterWrite w t) = jt_ring t ∧ jt_writer (AfterWrite w t) = jt_writer t ∧
  jt_started (AfterWrite w t) = jt_started t ∧ jt_closed (AfterWrite w t) = jt_closed t.
Proof.
  unfold AfterWrite. destruct (negb _); simpl; [|done].
  unfold JournalThread_Fail. by destruct (jt_error _).
Qed.

(** What a turn leaves alone. *)
Record kept (t t' : JournalThread Q) : Prop := {
  kept_started : jt_started t' = jt_started t;
  kept_closed : jt_closed t' = jt_closed t;
  kept_error : jt_error t' = None → jt_error t = None;
}.

Lemma kept_refl t : kept t t.
Proof. by split. Qed.
Lemma kept_trans t t' t'' : kept t t' → kept t' t'' → kept t t''.
Proof. intros [H1 H2 H3] [H4 H5 H6]. split; [congruence|congruence|auto]. Qed.

(** A record moves from the ring to the file. *)
Lemma Turn_record d c t all tl :
  carrying c t all tl → jt_started t = true → contents t ≠ tl →
  ∃ t', Turn zlib_crc32 d t = (t', Handled) ∧ carrying c t' all tl ∧ kept t t' ∧
    length (contents t) = S (length (contents t')).
Proof.
  intros [Hok [(w & fs & Hc & Hw & Hwrote & He & Hall)|(w & xs & fs & Hc & Hw & Hwrote & He & Hall)]]
    Hs Htl.
  - destruct (Turn_pops d t _ _ Hs Hc) as (r & Hr & ->). simpl.
    set (w' := WriteConnectMarker _ _ _ _). set (t0 := update_writer _ _).
    destruct (AfterWrite_frame w' t0) as (H1 & H2 & H3 & H4).
    eexists. split; [done|]. split_and!.
    + split; [done|]. right. exists w', [(kConnect, c_marker c)], fs.
      unfold contents. rewrite H1, H2. split_and!; [done|done| | |by rewrite Hall].
      * apply (wrote_record _ _ _ _ []); [done|]. rewrite Hall in Hok. by apply Forall_inv in Hok.
      * by intros [_ ?]%AfterWrite_error.
    + split; rewrite ?H3, ?H4; simpl; [done| |by intros [? _]%AfterWrite_error].
      by rewrite Hw, app_nil_r.
    + unfold contents at 2. rewrite H1. simpl. by rewrite Hr, Hc.
  - destruct fs as [|f fs]; [done|].
    destruct (Turn_pops d t _ _ Hs Hc) as (r & Hr & ->). simpl. rewrite Hw.
    set (w' := JournalWriter_OnFrame _ _ _ _). set (t0 := update_writer _ _).
    destruct (AfterWrite_frame w' t0) as (H1 & H2 & H3 & H4).
    eexists. split; [done|]. split_and!.
    + split; [done|]. right. exists w', (xs ++ [(kWireMessage, f)]), fs.
      unfold contents. rewrite H1, H2. split_and!; [done|done| | |].
      * apply wrote_record; [done|]. rewrite Hall in Hok.
        apply Forall_app in Hok as [_ Hok]. by apply Forall_inv in Hok.
      * by intros [_ ?]%AfterWrite_error.
      * rewrite Hall, <-app_assoc. done.
    + split; rewrite ?H3, ?H4; simpl; [done|done|by intros [? _]%AfterWrite_error].
    + unfold contents at 2. rewrite H1. simpl. by rewrite Hr, Hc.
Qed.

Lemma Turn_empty d (t : JournalThread Q) : contents t = [] → Turn zlib_crc32 d t = (t, Idle).
Proof.
  intros Hc. unfold Turn, Pop. destruct (jt_started t); simpl; [|done].
  pose proof (try_dequeue_takes (ring_queue (jt_ring t))) as Hq. unfold contents in Hc.
  destruct (try_dequeue (ring_queue (jt_ring t))) as [[x q]|]; [by rewrite Hc in Hq|].
  by destruct t.
Qed.

(** Any turn between two calls. *)
Lemma Turn_carrying d c t all :
  carrying c t all [] → carrying c (Turn zlib_crc32 d t).1 all [] ∧ kept t (Turn zlib_crc32 d t).1.
Proof.
  intros Hc. destruct (jt_started t) eqn:Hs.
  2:{ unfold Turn. rewrite Hs. split; [done|apply kept_refl]. }
  destruct (decide (length (contents t) = 0%nat)) as [Hn%nil_length_inv|Hn].
  - rewrite Turn_empty by done. split; [done|apply kept_refl].
  - destruct (Turn_record d c t all [] Hc Hs) as (t' & -> & H1 & H2 & _); [|done].
    intros H. by rewrite H in Hn.
Qed.

(** The ring runs dry up to [tl]. *)
Lemma drain_records c all tl n io t :
  carrying c t all tl → jt_started t = true → length (contents t) = (n + length tl)%nat →
  ∃ t' w io', contents t' = tl ∧ jt_writer t' = Some (c_path c, w) ∧
    wrote zlib_crc32 exchange c w all ∧ (jt_error t' = None → jw_error w = []) ∧ kept t t' ∧
    (∀ k, await zlib_crc32 (n + k) io t = await zlib_crc32 k io' t') ∧
    (∀ k, join zlib_crc32 (n + k) io t = join zlib_crc32 k io' t').
Proof.
  revert io t. induction n as [|n IH]; intros io t Hc Hs Hlen.
  - destruct Hc as [Hok [(w & fs & Hc & _)|(w & xs & fs & Hc & Hw & Hwrote & He & Hall)]].
    { rewrite Hc in Hlen. simpl in Hlen. rewrite length_app in Hlen. lia. }
    rewrite Hc, length_app, length_fmap in Hlen. destruct fs; [|simpl in Hlen; lia].
    exists t, w, io. rewrite app_nil_r in Hall. subst xs.
    split_and!; done || apply kept_refl.
  - destruct (Turn_record (io 0%nat) c t all tl Hc Hs) as (t1 & Ht & Hc1 & Hk & Hl).
    { intros H. rewrite H in Hlen. lia. }
    destruct (IH (λ n, io (S n)) t1 Hc1) as (t' & w & io' & H1 & H2 & H3 & H4 & H5 & H6 & H7).
    { by rewrite (kept_started _ _ Hk). }
    { lia. }
    exists t', w, io'. split_and!; [done..|by eapply kept_trans| |];
      intros k; simpl; rewrite Ht; by auto.
Qed.

Lemma carrying_tail ev c t all :
  carrying c t all [] →
  carrying c (set_ring (PushControl ev (jt_ring t)) (JournalThread_Start t)) all [ev].
Proof.
  intros [Hok H]. split; [done|]. pose proof (contents_PushControl ev t) as Hp.
  destruct H as [(w & fs & Hc & H)|(w & xs & fs & Hc & H)]; [left|right; exists w, xs, fs].
  - exists w, fs. rewrite Hc, app_nil_r in Hp. split; [exact Hp|exact H].
  - rewrite Hc, app_nil_r in Hp. split; [exact Hp|exact H].
Qed.

(** The barrier is released, and the file then holds everything. *)
Lemma Disconnect_closes io c t all :
  carrying c t all [] →
  ∃ t' records w ok,
    JournalThread_Disconnect zlib_crc32 io t = (t', Some records) ∧ contents t' = [] ∧
    jt_writer t' = None ∧ jt_closed t' = jt_closed t ++ [(c_path c, Flush ok w)] ∧
    wrote zlib_crc32 exchange c w all ∧
    (jt_error t' = None → jt_error t = None ∧ jw_error (Flush ok w) = []).
Proof.
  intros Hc. apply (carrying_tail JournalDisconnect) in Hc. unfold JournalThread_Disconnect.
  change (jt_ring (JournalThread_Start t)) with (jt_ring t).
  set (t0 := set_ring _ _) in *.
  assert (∃ n, queued t0 = (n + 1)%nat) as [n Hn].
  { destruct Hc as [_ [(w & fs & Hc & _)|(w & xs & fs & Hc & _)]];
      unfold queued; fold (contents t0); rewrite Hc; simpl; rewrite length_app; simpl; eexists;
      [rewrite <-Nat.add_succ_l|]; reflexivity. }
  destruct (drain_records c all [JournalDisconnect] n io t0 Hc eq_refl) as
    (t1 & w & io' & H1 & H2 & H3 & H4 & [Hs Hcl He] & H6 & _); [done|].
  rewrite Hn, H6. simpl.
  destruct (Turn_pops (io' 0%nat) t1 _ _ ltac:(by rewrite Hs) H1) as (r & Hr & ->).
  simpl. rewrite H2. set (w' := Flush _ w). set (t2 := update_writer _ _).
  destruct (AfterWrite_frame w' t2) as (A1 & A2 & A3 & A4).
  eexists _, _, w, (disk_flush (io' 0%nat)). split; [done|]. split_and!; [|done| |done|].
  - unfold contents. simpl. by rewrite A1.
  - simpl. rewrite A2, A4. simpl. by rewrite Hcl.
  - simpl. intros [E1 E2]%AfterWrite_error. split; [|done]. by apply He.
Qed.

(** A new file is handed over. *)
Lemma Connect_carries c w t :
  contents t = [] → jt_writer t = None → wrote zlib_crc32 exchange c w [] → jw_error w = [] →
  frame_ok (c_marker c) →
  carrying c (JournalThread_Connect (c_path c, w) (c_marker c) t) [(kConnect, c_marker c)] [].
Proof.
  intros Hc Hw Hwr He Hok. split; [by constructor|]. left. exists w, [].
  unfold JournalThread_Connect. rewrite contents_PushControl, Hc, CopyFrame_id. split_and!; done.
Qed.

(** A frame is queued, or the journal has failed and nothing more will be. *)
Lemma Push_carries c frame t all :
  carrying c t all [] → frame_ok frame →
  let '(t', pushed) := JournalThread_Push frame t in
  carrying c t' (if pushed then all ++ [(kWireMessage, frame)] else all) [] ∧ kept t t' ∧
  (pushed = true → jt_error t = None) ∧ (pushed = false → jt_error t' ≠ None).
Proof.
  intros [Hall Hc] Hok. unfold JournalThread_Push, Failed.
  case_bool_decide as Hf.
  { split_and!; [done|apply kept_refl|done|]. intros _ Hn. rewrite Hn in Hf. by destruct Hf. }
  assert (jt_error t = None) as He by (destruct (jt_error t); [by destruct Hf; eauto|done]).
  unfold Push. rewrite CopyFrame_id.
  destruct (try_enqueue _ (ring_queue (jt_ring t))) as [q|] eqn:Hq; simpl.
  - apply try_enqueue_appends in Hq. unfold contents in Hc.
    split_and!; [|by split|done..]. split.
    { apply Forall_app. split; [done|]. by constructor. }
    unfold contents. simpl. rewrite Hq.
    destruct Hc as [(w & fs & -> & Hw & Hwr & Hew & ->)|(w & xs & fs & -> & Hw & Hwr & Hew & ->)].
    + left. exists w, (fs ++ [frame]). rewrite fmap_app, frame_entries_app. simpl.
      rewrite !app_nil_r. done.
    + right. exists w, xs, (fs ++ [frame]). rewrite fmap_app, frame_entries_app. simpl.
      rewrite !app_nil_r, app_assoc. done.
  - unfold JournalThread_Fail. simpl. rewrite He. simpl. split_and!; [|by split|done..].
    split; [done|]. unfold contents in *. simpl.
    destruct Hc as [H|(w & xs & fs & H1 & H2 & H3 & H4 & H5)]; [by left|].
    right. exists w, xs, fs. split_and!; done.
Qed.
End thread.
