(* ===== verification/SessionProofs.v ===== *)
(** * The journal and the sinks agree

    A client that begins connects, hands over messages and closes, with the
    journal thread taking its turns whenever it likes: every sink is told the
    same bracketed feed, and the journals read back as that feed. *)

From S2P Require Import Prelude Text Feed Ring Journal JournalProofs JournalCrash JournalThread.
From S2P Require Import CaptureSession ThreadProofs.

Lemma if_Some {A} (b : bool) (x y : A) : Some (if b then x else y) = if b then Some x else Some y.
Proof. by destruct b. Qed.

(** ** A client's run, with a log of what it did *)

Inductive client_step : Type :=
| DoConnect (env : connect_env) (reason : bytes) (source : FrameSource)
| DoMessage (env : frame_env) (payload : bytes) (source : FrameSource)
| DoClose (env : close_env)
| DoHandler (handler : option FatalHandler)
| JournalTurn (d : disk).

(** The connects that ended, and the one under way. *)
Record log := mkLog { lg_ended : list connect; lg_open : option connect }.
Definition connects (g : log) : list connect := lg_ended g ++ option_list (lg_open g).

Definition log_frame (env : frame_env) (payload : bytes) (source : FrameSource)
    (journaled : bool) (c : connect) : connect :=
  mkConnect (c_id c) (c_path c) (c_realtime c) (c_monotonic c) (c_marker c)
    (c_frames c ++
       [mkCaptureFrame payload (Z.of_nat (length (c_frames c)) + 2) (fe_now env) source])
    (c_journaled c && journaled).

(** What a sink should be told of one connect. *)
Definition connect_calls (ended : bool) (c : connect) : list FeedEvent :=
  ConnectEvent (c_id c) (cf_payload (c_marker c)) ::
    (FrameEvent <$> c_frames c) ++ (if ended then [DisconnectEvent (c_id c)] else []).
Definition sink_calls (g : log) : list FeedEvent :=
  concat (connect_calls true <$> lg_ended g) ++
  from_option (connect_calls false) [] (lg_open g).

Section session_proofs.
Variable zlib_crc32 : Z → bytes → Z.
Context {Q : Type} `{!ReaderWriterQueue Q JournalEvent, !ReaderWriterQueueLaws Q JournalEvent}.
Variable cfg : Config.

Definition log_connect (env : connect_env) (reason : bytes) (source : FrameSource) (g : log)
  : connect :=
  let id := Z.of_nat (length (connects g)) + 1 in
  mkConnect id (journal_path cfg id (ce_realtime env)) (ce_header_realtime env)
    (ce_header_monotonic env) (mkCaptureFrame reason 1 (ce_marker_now env) source) [] true.

(** Whether the client goes on: a connect that cannot begin ends the capture. *)
Definition client (st : client_step) (x : CaptureSession Q * log)
  : option (CaptureSession Q * log * bool) :=
  let '(s, g) := x in
  match st with
  | DoConnect env reason source =>
      '(s, r) ← BeginConnect zlib_crc32 env reason source s;
      Some (match r with
            | Connected _ => (s, mkLog (connects g) (Some (log_connect env reason source g)), true)
            | Refused _ | Threw => (s, mkLog (connects g) None, false)
            end)
  | DoMessage env payload source =>
      let '(s, journaled) := OnWireMessage zlib_crc32 env payload source s in
      Some (s, mkLog (lg_ended g) (log_frame env payload source journaled <$> lg_open g), true)
  | DoClose env => s ← Close zlib_crc32 env s; Some (s, mkLog (connects g) None, true)
  | DoHandler handler => Some (SetFatalHandler handler s, g, true)
  | JournalTurn d => Some (journal_turn zlib_crc32 d s, g, true)
  end.

Fixpoint run (steps : list client_step) (x : CaptureSession Q * log)
  : option (CaptureSession Q * log) :=
  match steps with
  | [] => Some x
  | st :: steps =>
      '(x, on) ← client st x;
      if on : bool then run steps x else Some x
  end.

(** Clock readings are 64-bit. *)
Definition step_ok (st : client_step) : Prop :=
  match st with
  | DoConnect env _ _ =>
      u64 (ce_header_realtime env) ∧ u64 (ce_header_monotonic env) ∧ u64 (ce_marker_now env)
  | DoMessage env _ _ => u64 (fe_now env)
  | _ => True
  end.

(** ** The invariant *)

Abbreviation wrote := (wrote zlib_crc32 (cfg_exchange cfg)).
Abbreviation carrying := (carrying zlib_crc32 (cfg_exchange cfg)).

Definition closed_as (c : connect) (file : OpenFile) : Prop :=
  ∃ w ok all, file = (c_path c, Flush ok w) ∧ wrote c w all ∧
    all `prefix_of` entries c ∧ (c_journaled c = true → all = entries c).

(** The numbers a connect carries: [i] connects came before. *)
Definition numbered (i : nat) (c : connect) : Prop :=
  c_id c = Z.of_nat i + 1 ∧ cf_capture_sequence (c_marker c) = 1 ∧
  u64 (c_realtime c) ∧ u64 (c_monotonic c) ∧ u64 (cf_monotonic_ns (c_marker c)) ∧
  ∀ j f, c_frames c !! j = Some f →
    cf_capture_sequence f = Z.of_nat j + 2 ∧ u64 (cf_monotonic_ns f).

(** While the journal has not failed, nothing is missing. *)
Definition all_well (t : JournalThread Q) (g : log) : Prop :=
  jt_error t = None →
  Forall (λ file : OpenFile, jw_error file.2 = []) (jt_closed t) ∧
  Forall (λ c, c_journaled c = true) (connects g).

Definition journal_inv (s : CaptureSession Q) (g : log) : Prop :=
  match cs_journal s with
  | None =>
      cs_journal_open s = false ∧
      match lg_open g with
      | None => cs_writer s = None
      | Some c => ∃ w, cs_writer s = Some (c_path c, w) ∧ wrote c w (entries c)
      end
  | Some t =>
      cs_writer s = None ∧ cs_journal_open s = bool_decide (is_Some (lg_open g)) ∧ all_well t g ∧
      match lg_open g with
      | None => contents t = [] ∧ jt_writer t = None
      | Some c => ∃ all, carrying c t all [] ∧ all `prefix_of` entries c ∧
                    (c_journaled c = true → all = entries c)
      end
  end.

Record inv (s : CaptureSession Q) (g : log) : Prop := {
  inv_cfg : cs_cfg s = cfg;
  inv_mode : is_Some (cs_journal s) ↔ cfg_threaded cfg = true;
  inv_id : cs_connect_id s = Z.of_nat (length (connects g));
  inv_announced : cs_announced s = bool_decide (is_Some (lg_open g));
  inv_sinks : Forall (λ calls, calls = sink_calls g) (cs_sinks s);
  inv_stamper : ∀ c, lg_open g = Some c → cs_stamper s = Z.of_nat (length (c_frames c)) + 1;
  inv_numbered : ∀ i c, connects g !! i = Some c → numbered i c;
  inv_files : Forall2 closed_as (lg_ended g) (closed_files s);
  inv_journal : journal_inv s g;
}.

(** The journal thread moving changes nothing else. *)
Definition forgotten (t : JournalThread Q) : JournalThread Q :=
  mkJournalThread (jt_capacity t) (jt_ring t) (jt_error t) [] (jt_records_written t) (jt_writer t)
    (jt_started t) (jt_closed t).

Record moved (t : JournalThread Q) (s s' : CaptureSession Q) : Prop := {
  moved_cfg : cs_cfg s' = cs_cfg s;
  moved_writer : cs_writer s' = cs_writer s;
  moved_sinks : cs_sinks s' = cs_sinks s;
  moved_stamper : cs_stamper s' = cs_stamper s;
  moved_id : cs_connect_id s' = cs_connect_id s;
  moved_announced : cs_announced s' = cs_announced s;
  moved_open : cs_journal_open s' = cs_journal_open s;
  moved_journal : cs_journal s' = Some (forgotten t);
}.

Lemma journal_moved_moves t s : moved t s (journal_moved t s).
Proof.
  unfold journal_moved. fold (forgotten t).
  assert (moved t s (set_journal (forgotten t) s)) as H by done.
  revert H. generalize (set_journal (forgotten t) s). generalize (jt_fatal t).
  intros fatal. induction fatal as [|reason fatal IH]; intros s0 H; [done|]. simpl. apply IH.
  destruct H. unfold NotifyFatal. destruct (cs_fatal_handler s0) as [[]|]; by split.
Qed.

Lemma sink_calls_ended g : sink_calls (mkLog (connects g) None) =
  sink_calls g ++ (if lg_open g is Some c then [DisconnectEvent (c_id c)] else []).
Proof.
  unfold sink_calls, connects. simpl. rewrite fmap_app, concat_app.
  destruct (lg_open g) as [c|]; simpl; [|by rewrite !app_nil_r].
  rewrite !app_nil_r. unfold connect_calls. rewrite <-app_assoc. simpl. by rewrite app_nil_r.
Qed.

(** ** Closing *)

(** The last step of [Close], on a state whose file is closed. *)
Definition finish (s : CaptureSession Q) : CaptureSession Q :=
  if negb (cs_announced s) then s
  else tell_sinks (DisconnectEvent (cs_connect_id s)) (set_announced false s).

Lemma finish_fields (s : CaptureSession Q) :
  cs_cfg (finish s) = cs_cfg s ∧ cs_journal (finish s) = cs_journal s ∧
  cs_connect_id (finish s) = cs_connect_id s ∧ cs_announced (finish s) = false ∧
  closed_files (finish s) = closed_files s ∧ cs_writer (finish s) = cs_writer s ∧
  cs_journal_open (finish s) = cs_journal_open s.
Proof. unfold finish. by destruct (cs_announced s) eqn:H. Qed.

Lemma finish_sinks (s : CaptureSession Q) g :
  cs_announced s = bool_decide (is_Some (lg_open g)) →
  (∀ c, lg_open g = Some c → c_id c = cs_connect_id s) →
  Forall (λ calls, calls = sink_calls g) (cs_sinks s) →
  Forall (λ calls, calls = sink_calls (mkLog (connects g) None)) (cs_sinks (finish s)).
Proof.
  intros Ha Hid Hs. rewrite sink_calls_ended. unfold finish. rewrite Ha.
  destruct (lg_open g) as [c|]; simpl; [|by rewrite app_nil_r].
  rewrite (Hid c) by done. apply Forall_fmap. eapply Forall_impl; [exact Hs|]. by intros calls ->.
Qed.

Lemma connects_ended g : connects (mkLog (connects g) None) = connects g.
Proof. unfold connects at 1. simpl. apply app_nil_r. Qed.

(** A state that differs from one in the invariant by a file properly closed. *)
Lemma inv_finish s g s1 :
  inv s g →
  cs_cfg s1 = cs_cfg s → (is_Some (cs_journal s1) ↔ is_Some (cs_journal s)) →
  cs_connect_id s1 = cs_connect_id s → cs_announced s1 = cs_announced s →
  cs_sinks s1 = cs_sinks s → cs_writer s1 = None → cs_journal_open s1 = false →
  Forall2 closed_as (connects g) (closed_files s1) →
  match cs_journal s1 with
  | None => True
  | Some t => all_well t g ∧ contents t = [] ∧ jt_writer t = None
  end →
  inv (finish s1) (mkLog (connects g) None).
Proof.
  intros Hinv Hcfg Hmode Hid Ha Hsk Hw Ho Hfiles Hj. destruct Hinv.
  destruct (finish_fields s1) as (F1 & F2 & F3 & F4 & F5 & F6 & F7).
  split; try rewrite connects_ended; try congruence; try done.
  - by rewrite F2, Hmode.
  - apply finish_sinks; [congruence| |congruence]. intros c Hc. rewrite Hid.
    assert (connects g !! length (lg_ended g) = Some c) as Hlk.
    { unfold connects. rewrite Hc. simpl. by apply list_lookup_middle. }
    destruct (inv_numbered0 _ _ Hlk) as [Hn _]. rewrite Hn, inv_id0. unfold connects. rewrite Hc.
    rewrite length_app. simpl. lia.
  - simpl. by rewrite F5.
  - unfold journal_inv. rewrite F2, F6, F7. simpl.
    destruct (cs_journal s1) as [t|]; [|done]. destruct Hj as (H1 & H2 & H3).
    split_and!; try done. unfold all_well. by rewrite connects_ended.
Qed.

Lemma Close_inv env s g :
  inv s g →
  ∃ s', Close zlib_crc32 env s = Some s' ∧ inv s' (mkLog (connects g) None).
Proof.
  intros Hinv. pose proof Hinv as [_ _ _ _ _ _ _ Hfiles Hj]. unfold journal_inv in Hj.
  unfold closed_files in Hfiles.
  destruct (cs_journal s) as [t|] eqn:Hjt.
  - destruct Hj as (Hw & Ho & Hwell & Hc). unfold Close. rewrite Hw, Hjt, Ho.
    destruct (lg_open g) as [c|] eqn:Hopen; simpl.
    + destruct Hc as (all & Hcar & Hpre & Hall).
      destruct (Disconnect_closes zlib_crc32 (cfg_exchange cfg) (close_io env) c t all Hcar)
        as (t' & records & w & ok & -> & H1 & H2 & H3 & H4 & H5). simpl.
      pose proof (journal_moved_moves t' s) as Hm. set (s1 := journal_moved t' s) in *.
      set (s2 := set_current_path _ _).
      assert (cs_journal s2 = Some (forgotten t')) as Hj2 by apply Hm.
      eexists. split; [by rewrite <-(if_Some (negb (cs_announced s2)))|].
      change (inv (finish s2) (mkLog (connects g) None)). destruct Hm.
      apply (inv_finish s); try done; simpl; try congruence.
      * unfold closed_files. rewrite Hj2. simpl. rewrite H3. unfold connects. rewrite Hopen. simpl.
        apply Forall2_app; [done|]. constructor; [|constructor]. exists w, ok, all. done.
      * change (cs_journal s1) with (cs_journal s2). rewrite Hj2. split_and!; [|done..]. intros He. simpl in He. destruct (H5 He) as [E1 E2].
        destruct (Hwell E1) as [W1 W2]. split; [|done]. simpl. rewrite H3.
        apply Forall_app. split; [done|]. by constructor.
    + eexists. split; [by rewrite <-(if_Some (negb (cs_announced s)))|].
      change (inv (finish s) (mkLog (connects g) None)).
      apply (inv_finish s); try done.
      * unfold closed_files, connects. rewrite Hjt, Hopen. simpl. by rewrite app_nil_r.
      * by rewrite Hjt.
  - destruct Hj as [Ho Hc]. unfold Close.
    destruct (lg_open g) as [c|] eqn:Hopen.
    + destruct Hc as (w & Hw & Hwr). rewrite Hw. cbn [cs_journal set_current_path close_file add_closed_records]. rewrite Hjt. cbn [mbind option_bind].
      set (s2 := set_current_path _ _).
      eexists. split; [by rewrite <-(if_Some (negb (cs_announced s2)))|].
      change (inv (finish s2) (mkLog (connects g) None)).
      apply (inv_finish s); try done; simpl; [|by rewrite Hjt].
      unfold closed_files, connects. simpl. rewrite Hjt, Hopen. simpl.
      apply Forall2_app; [done|]. constructor; [|constructor].
      exists w, (close_flush env), (entries c). done.
    + rewrite Hc. simpl. rewrite Hjt. simpl.
      eexists. split; [by rewrite <-(if_Some (negb (cs_announced s)))|].
      change (inv (finish s) (mkLog (connects g) None)).
      apply (inv_finish s); try done; [|by rewrite Hjt].
      unfold closed_files, connects. rewrite Hjt, Hopen. simpl. by rewrite app_nil_r.
Qed.

(** ** Connecting *)

(** The client has given up; an inline file may still be open. *)
Record over (s : CaptureSession Q) (g : log) : Prop := {
  over_cfg : cs_cfg s = cfg;
  over_mode : is_Some (cs_journal s) ↔ cfg_threaded cfg = true;
  over_announced : cs_announced s = false;
  over_log : lg_open g = None;
  over_sinks : Forall (λ calls, calls = sink_calls g) (cs_sinks s);
  over_numbered : ∀ i c, connects g !! i = Some c → numbered i c;
  over_files : Forall2 closed_as (lg_ended g) (closed_files s);
  over_open : cs_journal_open s = false;
  over_journal : ∀ t, cs_journal s = Some t → cs_writer s = None ∧ all_well t g;
}.

Lemma inv_over s g : inv s g → lg_open g = None → over s g.
Proof.
  intros [] Hn. unfold journal_inv in *. rewrite Hn in *.
  destruct (cs_journal s) as [t|] eqn:Hj.
  - destruct inv_journal0 as (H1 & H2 & H3 & H4). split; try done; try by rewrite Hj.
    intros t' [= <-]%(eq_trans (eq_sym Hj)). done.
  - destruct inv_journal0 as [H1 H2]. split; try done; try by rewrite Hj.
Qed.

(** The session between [Close] and the new file. *)
Definition renumbered (s : CaptureSession Q) : CaptureSession Q :=
  set_stamper new_CaptureStamper (set_connect_id (incr64 (cs_connect_id s)) s).

Lemma over_renumbered s g : over s g → over (renumbered s) g.
Proof. intros []. by split. Qed.

Lemma over_set_writer s g w : cs_journal s = None → over s g → over (set_writer w s) g.
Proof. intros Hj []. split; try done. simpl. intros t. by rewrite Hj. Qed.

Lemma log_connect_numbered env reason source g :
  step_ok (DoConnect env reason source) →
  numbered (length (connects g)) (log_connect env reason source g).
Proof. intros (H1 & H2 & H3). split_and!; done. Qed.

Lemma numbered_snoc g c :
  (∀ i c, connects g !! i = Some c → numbered i c) → numbered (length (connects g)) c →
  ∀ i c', connects (mkLog (connects g) (Some c)) !! i = Some c' → numbered i c'.
Proof.
  intros Hg Hc i c'. unfold connects at 1. simpl. intros [[_ H]|[-> <-]]%lookup_snoc_Some; [by apply Hg|done].
Qed.

Lemma start_file_inv env reason source g s w opened room :
  let g0 := mkLog (connects g) None in
  let c := log_connect env reason source g in
  inv s g0 → step_ok (DoConnect env reason source) →
  Z.of_nat (length (connects g)) + 1 < 2 ^ 64 →
  new_JournalWriter zlib_crc32 opened room (c_path c) (cfg_exchange cfg) (c_id c) (c_realtime c)
    (c_monotonic c) = Expected w →
  (∀ t, cs_journal s = Some t → jt_error t = None) →
  match start_file zlib_crc32 env reason source (c_path c) w (renumbered s) with
  | (s', Connected _) => inv s' (mkLog (connects g) (Some c))
  | (s', _) => over s' g0
  end.
Proof.
  intros g0 c Hinv Hok Hlen Hw Hfail.
  destruct (wrote_new _ _ _ _ _ _ Hw) as [Hwr He].
  pose proof (log_connect_numbered env reason source g Hok) as Hnum. fold c in Hnum.
  assert (frame_ok (c_marker c)) as Hmk.
  { destruct Hnum as (_ & H2 & _ & _ & H3 & _). split; [rewrite H2; by vm_compute|done]. }
  assert (∀ s1, cs_cfg s1 = cfg → (is_Some (cs_journal s1) ↔ cfg_threaded cfg = true) →
    cs_connect_id s1 = c_id c → cs_stamper s1 = 1 → cs_sinks s1 = cs_sinks s →
    closed_files s1 = closed_files s → journal_inv s1 (mkLog (connects g) (Some c)) →
    inv (announce reason (c_path c) s1).1 (mkLog (connects g) (Some c))) as Hann.
  { intros s1 H1 H2 H3 H4 H5 H6 H7. destruct Hinv. split; try done.
    - change (cs_connect_id s1 = Z.of_nat (length (connects g ++ [c]))).
      rewrite H3, length_app. simpl. lia.
    - simpl. rewrite H5, H3. apply Forall_fmap. eapply Forall_impl; [exact inv_sinks0|].
      intros calls ->. unfold sink_calls. simpl. by rewrite app_nil_r.
    - intros c' [= <-]. done.
    - apply numbered_snoc; [|done]. rewrite <-(connects_ended g). done.
    - simpl in *. unfold closed_files in *. simpl. by rewrite H6. }
  assert (cs_connect_id (renumbered s) = c_id c) as Hid.
  { simpl. rewrite (inv_id _ _ Hinv), (connects_ended g : connects g0 = connects g). unfold incr64, wrap.
    rewrite Z.mod_small by lia. done. }
  unfold start_file, Stamp. cbn [cs_stamper set_current_path].
  change (incr64 (cs_stamper (renumbered s))) with 1.
  set (s1 := set_stamper 1 _). change (mkCaptureFrame _ _ _ _) with (c_marker c).
  change (cs_journal s1) with (cs_journal s).
  pose proof (inv_journal _ _ Hinv) as Hj. unfold journal_inv in Hj. simpl in Hj.
  destruct (cs_journal s) as [t|] eqn:Hjt.
  - destruct Hj as (Hwn & _ & Hwell & Hct & Hwt).
    set (t' := JournalThread_Connect _ _ _).
    pose proof (journal_moved_moves t' s1) as Hm. set (s2 := journal_moved t' s1) in *.
    destruct Hm. clearbody s2. apply Hann; cbn [set_journal_open cs_cfg cs_journal cs_connect_id
      cs_stamper cs_sinks].
    + rewrite moved_cfg0. apply (inv_cfg _ _ Hinv).
    + rewrite moved_journal0, <-(inv_mode _ _ Hinv), Hjt. split; by eauto.
    + by rewrite moved_id0.
    + done.
    + done.
    + unfold closed_files. simpl. by rewrite moved_journal0, Hjt.
    + unfold journal_inv. simpl. rewrite moved_journal0. split_and!; [by rewrite moved_writer0|done| |].
      * intros Het. destruct (Hwell (Hfail t eq_refl)) as [W1 W2]. split; [done|].
        unfold connects. simpl. apply Forall_app. rewrite (connects_ended g : connects g0 = _) in W2.
        split; [done|]. by constructor.
      * exists [(kConnect, c_marker c)]. split_and!; [|by exists []|done].
        by apply (Connect_carries zlib_crc32 (cfg_exchange cfg)).
  - destruct Hj as [Hjo Hwn]. set (w' := WriteConnectMarker _ _ _ _).
    destruct (negb (JournalWriter_Good w')).
    + apply over_set_writer; [done|]. destruct (inv_over s g0 Hinv eq_refl). by split.
    + apply Hann; simpl; try done.
      * apply (inv_cfg _ _ Hinv).
      * rewrite Hjt, <-(inv_mode _ _ Hinv), Hjt. done.
      * unfold journal_inv. simpl. rewrite Hjt. split; [done|]. exists w'. split; [done|].
        by apply (wrote_record _ _ _ _ []).
Qed.

Lemma BeginConnect_inv env reason source s g :
  inv s g → step_ok (DoConnect env reason source) → Z.of_nat (length (connects g)) + 1 < 2 ^ 64 →
  ∃ s' r, BeginConnect zlib_crc32 env reason source s = Some (s', r) ∧
    match r with
    | Connected _ => inv s' (mkLog (connects g) (Some (log_connect env reason source g)))
    | _ => over s' (mkLog (connects g) None)
    end.
Proof.
  intros Hinv Hok Hlen. destruct (Close_inv (ce_close env) s g Hinv) as (s1 & Hc & Hinv1).
  unfold BeginConnect. rewrite Hc. cbn [mbind option_bind].
  fold (renumbered s1). pose proof (over_renumbered _ _ (inv_over _ _ Hinv1 eq_refl)) as Hover.
  change (cs_journal (renumbered s1)) with (cs_journal s1).
  destruct (match cs_journal s1 with Some t => _ | None => _ end) as [r|] eqn:Hr.
  { eexists _, _. split; [done|]. destruct (cs_journal s1) as [t|]; [|done].
    destruct (Failed t); by simplify_eq. }
  assert (∀ t, cs_journal s1 = Some t → jt_error t = None) as Hfail.
  { intros t Ht. rewrite Ht in Hr. unfold Failed in Hr. case_bool_decide as Hf; [done|].
    destruct (jt_error t); [by destruct Hf; eauto|done]. }
  destruct (ce_directory env); [|eexists _, _; by split..].
  assert (cs_connect_id (renumbered s1) = c_id (log_connect env reason source g)) as Hid.
  { simpl. rewrite (inv_id _ _ Hinv1), connects_ended. unfold incr64, wrap.
    by rewrite Z.mod_small by lia. }
  assert (cs_cfg (renumbered s1) = cfg) as Hcfg by apply (inv_cfg _ _ Hinv1).
  rewrite Hid, Hcfg. clear Hcfg Hid.
  pose proof (start_file_inv env reason source g s1) as Hstart.
  destruct (new_JournalWriter _ _ _ _ _ _ _ _) as [w|e] eqn:Hw; [|eexists _, _; by split].
  specialize (Hstart w _ _ Hinv1 Hok Hlen Hw Hfail). simpl in Hstart.
  set (path := journal_path _ _ _) in *.
  change (journal_path cfg _ _) with path.
  destruct (start_file _ _ _ _ path w (renumbered s1)) as [s' r] eqn:Hsf.
  exists s', r. split; [done|exact Hstart].
Qed.

(** ** Frames and turns *)

Lemma log_frame_numbered env payload source j c i :
  u64 (fe_now env) → numbered i c → numbered i (log_frame env payload source j c).
Proof.
  intros Hnow (H1 & H2 & H3 & H4 & H5 & H6). split_and!; try done.
  intros k f. simpl. intros [[_ H]|[-> <-]]%lookup_snoc_Some; [by apply H6|]. done.
Qed.

Lemma entries_log_frame env payload source j c :
  entries (log_frame env payload source j c) =
    entries c ++ [(kWireMessage,
      mkCaptureFrame payload (Z.of_nat (length (c_frames c)) + 2) (fe_now env) source)].
Proof. unfold entries. simpl. by rewrite frame_entries_app. Qed.

(** The shared part of a frame's effect. *)
Lemma inv_frame s g c env payload source j s1 :
  let frame := mkCaptureFrame payload (Z.of_nat (length (c_frames c)) + 2) (fe_now env) source in
  let g' := mkLog (lg_ended g) (Some (log_frame env payload source j c)) in
  inv s g → lg_open g = Some c → u64 (fe_now env) →
  cs_cfg s1 = cs_cfg s → (is_Some (cs_journal s1) ↔ is_Some (cs_journal s)) →
  cs_connect_id s1 = cs_connect_id s → cs_announced s1 = cs_announced s →
  cs_sinks s1 = cs_sinks s → cs_stamper s1 = cf_capture_sequence frame →
  closed_files s1 = closed_files s → journal_inv s1 g' →
  inv (tell_sinks (FrameEvent frame) s1) g'.
Proof.
  intros frame g' Hinv Hopen Hnow H1 H2 H3 H4 H5 H6 H7 H8. destruct Hinv.
  assert (connects g = lg_ended g ++ [c]) as Hcs by (unfold connects; by rewrite Hopen).
  split; try done.
  - simpl. congruence.
  - simpl. by rewrite H2.
  - simpl. rewrite H3, inv_id0, Hcs. unfold connects. simpl. by rewrite !length_app.
  - simpl. by rewrite H4, inv_announced0, Hopen.
  - simpl. rewrite H5. apply Forall_fmap. eapply Forall_impl; [exact inv_sinks0|].
    intros calls ->. unfold sink_calls. rewrite Hopen. simpl. unfold connect_calls. simpl.
    rewrite fmap_app, !app_nil_r, <-app_assoc. done.
  - intros c' [= <-]. simpl. rewrite length_app, H6. simpl. lia.
  - intros i c'. unfold connects. simpl. intros [[Hi H]|[-> <-]]%lookup_snoc_Some.
    + apply inv_numbered0. rewrite Hcs. by apply lookup_app_l_Some.
    + apply log_frame_numbered; [done|]. apply inv_numbered0. rewrite Hcs.
      by apply list_lookup_middle.
  - simpl. unfold closed_files in *. simpl. by rewrite H7.
Qed.

Lemma OnWireMessage_inv env payload source s g :
  inv s g → u64 (fe_now env) →
  (∀ c, lg_open g = Some c → Z.of_nat (length (c_frames c)) + 2 < 2 ^ 64) →
  let '(s', j) := OnWireMessage zlib_crc32 env payload source s in
  inv s' (mkLog (lg_ended g) (log_frame env payload source j <$> lg_open g)).
Proof.
  intros Hinv Hnow Hlen. pose proof (inv_journal _ _ Hinv) as Hj.
  unfold OnWireMessage. unfold journal_inv in Hj.
  destruct (lg_open g) as [c|] eqn:Hopen; simpl in Hj.
  2:{ destruct (cs_journal s) as [t|].
      - destruct Hj as (_ & -> & _). simpl. destruct g; simpl in *. by subst.
      - destruct Hj as [_ ->]. simpl. destruct g; simpl in *. by subst. }
  specialize (Hlen c eq_refl). simpl fmap.
  set (frame := mkCaptureFrame payload (Z.of_nat (length (c_frames c)) + 2) (fe_now env) source).
  assert (frame_ok frame) as Hok by (split; simpl; [unfold u64, u64_max|]; lia || done).
  unfold Stamp. rewrite (inv_stamper _ _ Hinv c Hopen).
  assert (incr64 (Z.of_nat (length (c_frames c)) + 1) = cf_capture_sequence frame) as ->.
  { simpl. unfold incr64, wrap. rewrite Z.mod_small; lia. }
  change (mkCaptureFrame payload (cf_capture_sequence frame) (fe_now env) source) with frame.
  set (s0 := set_stamper _ s). change (cs_journal s0) with (cs_journal s).
  change (cs_writer s0) with (cs_writer s).
  destruct (cs_journal s) as [t|] eqn:Hjt.
  - destruct Hj as (Hw & Hjo & Hwell & all & Hcar & Hpre & Hall). rewrite Hjo. simpl negb. cbv iota.
    pose proof (Push_carries zlib_crc32 (cfg_exchange cfg) c frame t all Hcar Hok) as Hpush.
    destruct (JournalThread_Push frame t) as [t' pushed]. destruct Hpush as (Hc' & Hk & Hpe & He).
    pose proof (journal_moved_moves t' s0) as Hm. set (s1 := journal_moved t' s0) in *.
    destruct Hm. clearbody s1. apply (inv_frame s g c); try done.
    + unfold closed_files. rewrite moved_journal0, Hjt. apply (kept_closed _ _ Hk).
    + assert (jt_error t' = None → pushed = true) as Hp by (intros H; by destruct pushed; [|destruct He]).
      unfold journal_inv. rewrite moved_journal0. simpl lg_open. cbv iota.
      rewrite entries_log_frame. fold frame.
      split_and!; [by rewrite moved_writer0|by rewrite moved_open0| |].
      * intros H. destruct (Hwell (kept_error _ _ Hk H)) as [W1 W2]. split.
        { simpl. by rewrite (kept_closed _ _ Hk). }
        unfold connects in *. rewrite Hopen in W2. simpl in *.
        apply Forall_app in W2 as [W2 W3]. apply Forall_inv in W3.
        apply Forall_app. split; [done|]. constructor; [|constructor]. simpl.
        by rewrite W3, (Hp H).
      * exists (if pushed then all ++ [(kWireMessage, frame)] else all). split; [done|].
        destruct pushed; cbn [c_journaled log_frame];
          [|by split; [by apply prefix_app_r|rewrite andb_false_r]].
        destruct (Hwell (Hpe eq_refl)) as [_ W]. unfold connects in W. rewrite Hopen in W.
        apply Forall_app in W as [_ W]. apply Forall_inv in W. by rewrite (Hall W).
  - destruct Hj as [Ho (w & Hw & Hwr)]. rewrite Hw. simpl negb. cbv iota.
    apply (inv_frame s g c); try done.
    unfold journal_inv. simpl. rewrite Hjt, entries_log_frame. split; [done|].
    eexists. split; [done|]. by apply wrote_record.
Qed.

Lemma journal_turn_inv d s g : inv s g → inv (journal_turn zlib_crc32 d s) g.
Proof.
  intros Hinv. unfold journal_turn. destruct (cs_journal s) as [t|] eqn:Hjt; [|done].
  pose proof (journal_moved_moves (Turn zlib_crc32 d t).1 s) as [].
  set (s1 := journal_moved _ s) in *. clearbody s1. destruct Hinv. unfold journal_inv in *.
  rewrite Hjt in *. destruct inv_journal0 as (Hw & Hjo & Hwell & Hc).
  assert (jt_closed (Turn zlib_crc32 d t).1 = jt_closed t ∧
    (jt_error (Turn zlib_crc32 d t).1 = None → jt_error t = None) ∧
    match lg_open g with
    | None => contents (Turn zlib_crc32 d t).1 = [] ∧ jt_writer (Turn zlib_crc32 d t).1 = None
    | Some c => ∃ all, carrying c (Turn zlib_crc32 d t).1 all [] ∧ all `prefix_of` entries c ∧
                  (c_journaled c = true → all = entries c)
    end) as (Hcl & He & Hc').
  { destruct (lg_open g) as [c|].
    - destruct Hc as (all & Hc & H1 & H2).
      destruct (Turn_carrying _ _ d c t all Hc) as [Hc' [_ K1 K2]].
      split_and!; [done..|]. by exists all.
    - destruct Hc as [H1 H2]. by rewrite (Turn_empty zlib_crc32 d t H1). }
  split; try congruence; try done.
  - rewrite moved_journal0, <-inv_mode0. split; by eauto.
  - rewrite moved_stamper0. done.
  - unfold closed_files in *. rewrite Hjt in inv_files0. rewrite moved_journal0. simpl.
    by rewrite Hcl.
  - unfold journal_inv. rewrite moved_journal0. split_and!; [congruence..| |done].
    intros H. destruct (Hwell (He H)) as [W1 W2]. split; [|done]. simpl. by rewrite Hcl.
Qed.

Lemma SetFatalHandler_inv handler s g : inv s g → inv (SetFatalHandler handler s) g.
Proof. intros []. by split. Qed.

(** ** Whole runs *)

Definition log_size (g : log) : nat :=
  length (connects g) + from_option (λ c, length (c_frames c)) O (lg_open g).

Lemma client_inv st s g :
  inv s g → step_ok st → Z.of_nat (log_size g) + 2 < 2 ^ 64 →
  ∃ s' g' on, client st (s, g) = Some (s', g', on) ∧ (log_size g' <= S (log_size g))%nat ∧
    if on : bool then inv s' g' else over s' g'.
Proof.
  intros Hinv Hok Hsz. destruct st as [env reason source|env payload source|env|handler|d]; simpl.
  - destruct (BeginConnect_inv env reason source s g Hinv Hok) as (s' & r & -> & Hr).
    { unfold log_size in Hsz. lia. }
    simpl. unfold log_size. destruct r; eexists _, _, _; (split; [done|]); (split; [|done]);
      rewrite ?connects_ended; simpl; [|lia..].
    unfold connects at 1. simpl. rewrite length_app. simpl. lia.
  - pose proof (OnWireMessage_inv env payload source s g Hinv Hok) as Hm.
    destruct (OnWireMessage _ _ _ _ s) as [s' j]. eexists _, _, _. split; [done|].
    split; [|apply Hm].
    + unfold log_size, connects. destruct (lg_open g) as [c|]; simpl; rewrite ?length_app; simpl; lia.
    + intros c Hc. unfold log_size in Hsz. rewrite Hc in Hsz. simpl in Hsz. lia.
  - destruct (Close_inv env s g Hinv) as (s' & -> & Hc). eexists _, _, _. split; [done|].
    split; [|done]. unfold log_size. rewrite connects_ended. simpl. lia.
  - eexists _, _, _. split; [done|]. split; [lia|]. by apply SetFatalHandler_inv.
  - eexists _, _, _. split; [done|]. split; [lia|]. by apply journal_turn_inv.
Qed.

Lemma run_inv steps s g :
  inv s g → Forall step_ok steps → Z.of_nat (log_size g + length steps) + 2 < 2 ^ 64 →
  ∃ s' g', run steps (s, g) = Some (s', g') ∧ (inv s' g' ∨ over s' g') ∧
    (log_size g' <= log_size g + length steps)%nat.
Proof.
  revert s g. induction steps as [|st steps IH]; intros s g Hinv Hok Hsz.
  { exists s, g. split_and!; [done|by left|simpl; lia]. }
  inversion Hok as [|? ? Hst Hrest]; subst. simpl in Hsz.
  destruct (client_inv st s g Hinv Hst ltac:(lia)) as (s' & g' & on & Hc & Hsz' & Hi).
  cbn [run]. rewrite Hc. simpl. destruct on.
  - destruct (IH s' g' Hi Hrest ltac:(lia)) as (s2 & g2 & H1 & H2 & H3). exists s2, g2.
    split_and!; [done..|lia].
  - exists s', g'. split_and!; [done|by right|lia].
Qed.

(** Closing after giving up. *)
Lemma over_close env s g :
  over s g → ∃ s' left, Close zlib_crc32 env s = Some s' ∧ (length left <= 1)%nat ∧
    cs_sinks s' = cs_sinks s ∧ closed_files s' = closed_files s ++ left ∧
    cs_journal s' = cs_journal s.
Proof.
  intros []. unfold Close, closed_files.
  destruct (cs_journal s) as [t|] eqn:Hj.
  - destruct (over_journal0 t eq_refl) as [-> _]. simpl. rewrite Hj, over_open0. simpl.
    rewrite over_announced0. simpl. exists s, []. rewrite Hj, app_nil_r. split_and!; done || simpl; lia.
  - destruct (cs_writer s) as [[path w]|].
    + simpl. rewrite Hj. simpl. rewrite over_announced0. simpl.
      eexists _, [_]. split; [done|]. simpl. rewrite Hj. split_and!; done || lia.
    + simpl. rewrite Hj. simpl. rewrite over_announced0. simpl. exists s, [].
      rewrite Hj, app_nil_r. split_and!; done || simpl; lia.
Qed.

(** ** The sinks stay registered *)

Lemma finish_sinks_length (s : CaptureSession Q) : length (cs_sinks (finish s)) = length (cs_sinks s).
Proof. unfold finish. destruct (cs_announced s); simpl; by rewrite ?length_fmap. Qed.

Lemma journal_moved_sinks t (s : CaptureSession Q) : cs_sinks (journal_moved t s) = cs_sinks s.
Proof. apply (moved_sinks _ _ _ (journal_moved_moves t s)). Qed.

Lemma Close_sinks env s s' :
  Close zlib_crc32 env s = Some s' → length (cs_sinks s') = length (cs_sinks s).
Proof.
  unfold Close. set (s0 := match cs_writer s with Some _ => _ | None => _ end).
  assert (cs_sinks s0 = cs_sinks s) as <- by (unfold s0; by destruct (cs_writer s) as [[]|]).
  clearbody s0. intros (s1 & H1 & H2)%bind_Some.
  assert (cs_sinks s1 = cs_sinks s0) as <-.
  { destruct (cs_journal s0) as [t|]; [|by simplify_eq].
    destruct (cs_journal_open s0); [|by simplify_eq].
    destruct (JournalThread_Disconnect _ _ t) as [t' r].
    apply bind_Some in H1 as (r' & _ & [= <-]). simpl. apply journal_moved_sinks. }
  rewrite <-if_Some in H2. injection H2 as <-. apply finish_sinks_length.
Qed.

Lemma BeginConnect_sinks env reason source s s' r :
  BeginConnect zlib_crc32 env reason source s = Some (s', r) →
  length (cs_sinks s') = length (cs_sinks s).
Proof.
  unfold BeginConnect. intros (s1 & Hc & H)%bind_Some. rewrite <-(Close_sinks _ _ _ Hc).
  change (length (cs_sinks s1)) with (length (cs_sinks (renumbered s1))).
  fold (renumbered s1) in H. revert H. generalize (renumbered s1). clear. intros s H.
  destruct (match cs_journal s with Some t => _ | None => _ end); [by simplify_eq|].
  destruct (ce_directory env); [|by simplify_eq..].
  destruct (new_JournalWriter _ _ _ _ _ _ _ _); [|by simplify_eq]. injection H as H.
  unfold start_file in H. destruct (Stamp _ _ _ _) as [stamper marker].
  cbn [cs_journal set_stamper set_current_path] in H.
  destruct (cs_journal s) as [t|].
  - unfold announce in H. injection H as <- _. simpl. rewrite length_fmap.
    by rewrite journal_moved_sinks.
  - destruct (negb _); [by injection H as <- _|].
    unfold announce in H. injection H as <- _. simpl. by rewrite length_fmap.
Qed.

Lemma OnWireMessage_sinks env payload source s s' j :
  OnWireMessage zlib_crc32 env payload source s = (s', j) →
  length (cs_sinks s') = length (cs_sinks s).
Proof.
  unfold OnWireMessage. destruct (negb _); [by intros [= <- _]|].
  destruct (Stamp _ _ _ _) as [stamper frame]. cbn [cs_journal set_stamper cs_writer].
  destruct (cs_journal s) as [t|].
  - destruct (JournalThread_Push frame t) as [t' pushed]. intros [= <- _]. simpl.
    by rewrite length_fmap, journal_moved_sinks.
  - destruct (cs_writer s) as [[path w]|]; intros [= <- _]; simpl; by rewrite length_fmap.
Qed.

Lemma client_sinks st s g s' g' on :
  client st (s, g) = Some (s', g', on) → length (cs_sinks s') = length (cs_sinks s).
Proof.
  destruct st as [env reason source|env payload source|env|handler|d]; simpl.
  - intros ([s1 r] & H & H')%bind_Some. apply BeginConnect_sinks in H. by destruct r; simplify_eq.
  - destruct (OnWireMessage _ _ _ _ s) as [s1 j] eqn:H. apply OnWireMessage_sinks in H.
    by intros [= <- _ _].
  - intros (s1 & H & [= <- _ _])%bind_Some. by eapply Close_sinks.
  - by intros [= <- _ _].
  - intros [= <- _ _]. unfold journal_turn. destruct (cs_journal s); [|done].
    by rewrite journal_moved_sinks.
Qed.

Lemma run_sinks steps s g s' g' :
  run steps (s, g) = Some (s', g') → length (cs_sinks s') = length (cs_sinks s).
Proof.
  revert s g. induction steps as [|st steps IH]; intros s g; cbn [run]; [by intros [= <- _]|].
  intros ([[s1 g1] on] & Hc & H)%bind_Some. rewrite <-(client_sinks _ _ _ _ _ _ Hc).
  destruct on; [by eapply IH|by injection H as <- _].
Qed.

(** ** The theorem *)

(** A fresh session with [n] sinks. *)
Definition session_with (n : nat) : CaptureSession Q := Nat.iter n AddSink (new_CaptureSession cfg).

Lemma session_with_inv n : inv (session_with n) (mkLog [] None) ∧ length (cs_sinks (session_with n)) = n.
Proof.
  induction n as [|n [IH1 IH2]]; simpl.
  - split; [|done]. split; try done.
    + simpl. unfold is_Some. destruct (cfg_threaded cfg); naive_solver.
    + unfold closed_files. simpl. destruct (cfg_threaded cfg); [|constructor].
      unfold new_JournalThread. by destruct (cfg_journal_start cfg).
    + unfold journal_inv. simpl. destruct (cfg_threaded cfg); [|done].
      split_and!; try done.
      * unfold new_JournalThread. destruct (cfg_journal_start cfg); split; constructor.
      * unfold new_JournalThread, contents. destruct (cfg_journal_start cfg); simpl; apply new_queue_empty.
      * unfold new_JournalThread. by destruct (cfg_journal_start cfg).
  - split; [|rewrite length_app, IH2; simpl; lia]. destruct IH1. split; try done.
    simpl. apply Forall_app. split; [done|]. by constructor.
Qed.

(** [file] is the journal of [c]. *)
Definition journal_of (c : connect) (file : OpenFile) : Prop :=
  file.1 = c_path c ∧
  ∃ ys torn, reads_as zlib_crc32 (cfg_exchange cfg) c file.2 ys torn ∧
    ys `prefix_of` entries c ∧
    (c_journaled c = true → jw_error file.2 = [] → ys = entries c ∧ torn = false).

Lemma closed_as_journal_of i c file :
  (length (cfg_exchange cfg) <= kExchangeFieldSize)%nat → byte_of 0 ∉ cfg_exchange cfg →
  u64 (Z.of_nat i + 1) → numbered i c → closed_as c file → journal_of c file.
Proof.
  intros Hlen Hnul Hi (Hid & _ & H1 & H2 & _) (w & ok & all & -> & Hw & Hpre & Hall).
  split; [done|]. destruct (wrote_reads _ _ c w all ok Hw) as (ys & torn & Hr & Hys & Hgood).
  { split_and!; try done; by rewrite Hid. }
  exists ys, torn. split_and!; [done|by etrans|]. intros Hj He. destruct (Hgood He) as [-> ->].
  by rewrite Hall.
Qed.

Lemma Forall_replicate_eq {A} (x : A) (l : list A) :
  Forall (λ y, y = x) l → l = replicate (length l) x.
Proof. intros H. induction H as [|y l -> _ IH]; simpl; [done|]. by rewrite <-IH. Qed.

(** The state after the final [Close], of a client that gave up or did not. *)
Lemma close_run env s g :
  inv s g ∨ over s g →
  ∃ s' left, Close zlib_crc32 env s = Some s' ∧ (length left <= 1)%nat ∧
    Forall (λ calls, calls = sink_calls (mkLog (connects g) None)) (cs_sinks s') ∧
    (∀ i c, connects g !! i = Some c → numbered i c) ∧
    (∃ files, closed_files s' = files ++ left ∧ Forall2 closed_as (connects g) files) ∧
    (∀ t, cs_journal s' = Some t → Failed t = false →
       Forall (λ file : OpenFile, jw_error file.2 = []) (closed_files s') ∧
       Forall (λ c, c_journaled c = true) (connects g)).
Proof.
  assert (∀ t : JournalThread Q, Failed t = false → jt_error t = None) as Hf.
  { intros t. unfold Failed. case_bool_decide as H; [done|]. intros _.
    destruct (jt_error t); [by destruct H; eauto|done]. }
  intros [Hinv|Hover].
  - destruct (Close_inv env s g Hinv) as (s' & Hc & Hinv').
    pose proof (inv_over _ _ Hinv' eq_refl) as []. exists s', [].
    rewrite connects_ended in *. split_and!; [done|simpl; lia|done|done| |].
    + exists (closed_files s'). by rewrite app_nil_r.
    + intros t Ht Hft. destruct (over_journal0 t Ht) as [_ W]. unfold all_well in W.
      rewrite connects_ended in W. unfold closed_files. rewrite Ht. by apply W, Hf.
  - destruct (over_close env s g Hover) as (s' & left & Hc & Hl & Hs & Hcf & Hj).
    destruct Hover. exists s', left.
    assert (connects g = lg_ended g) as He by (unfold connects; by rewrite over_log0, app_nil_r).
    split_and!; try done.
    + by rewrite Hs, sink_calls_ended, over_log0, app_nil_r.
    + exists (closed_files s). by rewrite He.
    + intros t Ht Hft. rewrite Hj in Ht. destruct (over_journal0 t Ht) as [_ W].
      destruct (W (Hf _ Hft)) as [W1 W2]. split; [|done].
      assert (closed_files s' = jt_closed t) as -> by (unfold closed_files; by rewrite Hj, Ht).
      done.
Qed.

(** The state a run and a final [Close] lead to. *)
Lemma capture_run n steps env :
  (length (cfg_exchange cfg) <= kExchangeFieldSize)%nat → byte_of 0 ∉ cfg_exchange cfg →
  Forall step_ok steps → Z.of_nat (length steps) + 2 < 2 ^ 64 →
  ∃ s g s' files left,
    run steps (session_with n, mkLog [] None) = Some (s, g) ∧ Close zlib_crc32 env s = Some s' ∧
    (∀ i c, connects g !! i = Some c → numbered i c) ∧
    cs_sinks s' = replicate n (concat (connect_calls true <$> connects g)) ∧
    closed_files s' = files ++ left ∧ (length left <= 1)%nat ∧
    Forall2 journal_of (connects g) files ∧
    (∀ t, cs_journal s' = Some t → Failed t = false →
       Forall (λ file : OpenFile, jw_error file.2 = []) files ∧
       Forall (λ c, c_journaled c = true) (connects g)).
Proof.
  intros Hlen Hnul Hok Hsteps. destruct (session_with_inv n) as [Hinv Hn].
  destruct (run_inv steps _ _ Hinv Hok ltac:(simpl; lia)) as (s & g & Hrun & Hi & Hsz).
  destruct (close_run env s g Hi) as (s' & left & Hc & Hl & Hs & Hnum & (files & Hf & Hcl) & Hw).
  exists s, g, s', files, left. split_and!; try done.
  - apply Forall_replicate_eq in Hs. rewrite (Close_sinks _ _ _ Hc), (run_sinks _ _ _ _ _ Hrun), Hn in Hs.
    rewrite Hs. unfold sink_calls. simpl. by rewrite app_nil_r.
  - apply Forall2_same_length_lookup. split; [by eapply Forall2_length|]. intros i c file Hi' Hfi.
    eapply closed_as_journal_of; [done|done| |by apply Hnum|by eapply Forall2_lookup_lr].
    apply lookup_lt_Some in Hi'. unfold log_size in Hsz. simpl in Hsz. unfold u64, u64_max. lia.
  - intros t Ht Hft. destruct (Hw t Ht Hft) as [W1 W2]. split; [|done]. rewrite Hf in W1.
    by apply Forall_app in W1 as [W1 _].
Qed.

End session_proofs.

(** ** An example: a connect through a journal thread with a ring of one event

    The third message overflows it. *)

Definition demo_cfg : Config := mkConfig (B "journal") (B "kraken") [] true 1 true.
Definition demo_io : nat → disk := λ _, mkDisk 1000 true.
Definition demo_connect : connect_env :=
  mkConnectEnv (mkCloseEnv true demo_io) DirectoryUsable 1000000000 true 64 1 2 3 1000.
Definition demo_client : list client_step :=
  [DoHandler (Some LatchHandler);
   DoConnect demo_connect (B "startup") kKrakenJson; JournalTurn (mkDisk 1000 true);
   DoMessage (mkFrameEnv 4 0) (B "one") kKrakenJson; JournalTurn (mkDisk 1000 true);
   DoMessage (mkFrameEnv 5 0) (B "two") kKrakenJson;
   DoMessage (mkFrameEnv 6 0) (B "three") kKrakenJson].

Definition demo_feed : list FeedEvent :=
  [ConnectEvent 1 (B "startup"); FrameEvent (mkCaptureFrame (B "one") 2 4 kKrakenJson);
   FrameEvent (mkCaptureFrame (B "two") 3 5 kKrakenJson);
   FrameEvent (mkCaptureFrame (B "three") 4 6 kKrakenJson); DisconnectEvent 1].


(** Inline, a connect that is refused because its marker could not be written
    leaves the file open: a message after it reaches the sinks, though no
    connect was announced to them. *)
Example refused_connect_still_feeds_sinks :
  let cfg := mkConfig (B "journal") (B "kraken") [] false 1 true in
  let connect := mkConnectEnv (mkCloseEnv true demo_io) DirectoryUsable 1000000000 true 64 1 2 3 0 in
  match BeginConnect demo_crc (Q:=bounded_queue JournalEvent) connect (B "startup") kKrakenJson (session_with cfg 1) with
  | Some (s, Refused _) =>
      cs_sinks (OnWireMessage demo_crc (mkFrameEnv 4 0) (B "one") kKrakenJson s).1 =
        [[FrameEvent (mkCaptureFrame (B "one") 2 4 kKrakenJson)]]
  | _ => False
  end.
Proof. vm_compute. reflexivity. Qed.
