(* ===== verification/JournalNames.v ===== *)
(** * Journal file names

    Files of one session never share a name, whatever the clock says, and list
    in the order of their connects. *)

From S2P Require Import Prelude Text FixRoundTrip FixTime Feed Journal JournalThread CaptureSession.

(** ** Numbers in a fixed width *)

Lemma digits_width fuel n k :
  0 <= n < 10 ^ Z.of_nat (S k) → (length (digits fuel n) <= S k)%nat.
Proof.
  revert n k. induction fuel as [|fuel IH]; intros n k Hn; simpl; [lia|].
  destruct (Z.ltb_spec n 10) as [|Hge]; [simpl; lia|]. rewrite length_app. simpl.
  destruct k as [|k]; [simpl in Hn; lia|].
  assert (0 <= n / 10 < 10 ^ Z.of_nat (S k)) as Hd.
  { rewrite (Nat2Z.inj_succ (S k)), Z.pow_succ_r in Hn by lia.
    split; [apply Z.div_pos; lia|]. apply Z.div_lt_upper_bound; lia. }
  specialize (IH _ _ Hd). lia.
Qed.

Lemma ordinal_digits id : 0 <= id → Forall (λ c, is_digit c = true) (ordinal id).
Proof.
  intros Hid. unfold ordinal. apply Forall_app. split; [by apply Forall_replicate|].
  by apply to_string_digits.
Qed.

Lemma digits_val_zeros k l : digits_val (replicate k (byte_of 48) ++ l) = digits_val l.
Proof. induction k as [|k IH]; [done|]. simpl. exact IH. Qed.

Lemma ordinal_val id : 0 <= id < 2 ^ 64 → digits_val (ordinal id) = id.
Proof.
  intros Hid. unfold ordinal. rewrite digits_val_zeros. unfold to_string.
  rewrite (proj2 (Z.ltb_ge id 0)) by lia. apply digits_val_digits.
  change (10 ^ Z.of_nat 20) with 100000000000000000000. lia.
Qed.

Lemma ordinal_length id : 0 <= id < 10 ^ 6 → length (ordinal id) = 6%nat.
Proof.
  intros Hid. unfold ordinal. rewrite length_app, length_replicate. unfold to_string.
  rewrite (proj2 (Z.ltb_ge id 0)) by lia. pose proof (digits_width 20 id 5 ltac:(simpl; lia)). lia.
Qed.

(** ** Order *)

Lemma digits_val_from_bound acc l :
  Forall (λ c, is_digit c = true) l →
  acc * 10 ^ Z.of_nat (length l) <= digits_val_from acc l <
    (acc + 1) * 10 ^ Z.of_nat (length l).
Proof.
  intros Hl. revert acc. induction Hl as [|c l Hc _ IH]; intros acc.
  { cbn [digits_val_from foldl length]. lia. }
  assert (0 <= digit_val c <= 9) as Hd by (unfold is_digit in Hc; unfold digit_val; lia).
  specialize (IH (acc * 10 + digit_val c)). cbn [digits_val_from foldl length].
  fold (digits_val_from (acc * 10 + digit_val c) l). rewrite Nat2Z.inj_succ, Z.pow_succ_r by lia.
  set (p := 10 ^ Z.of_nat (length l)) in *. assert (0 < p) by (apply Z.pow_pos_nonneg; lia). nia.
Qed.

(** Digit strings of one length are ordered as the numbers they write. *)
Lemma bytes_lt_digits acc a b ra rb :
  Forall (λ c, is_digit c = true) a → Forall (λ c, is_digit c = true) b → length a = length b →
  digits_val_from acc a < digits_val_from acc b → bytes_lt (a ++ ra) (b ++ rb) = true.
Proof.
  intros Ha. revert acc b. induction Ha as [|x a Hx Ha IH]; intros acc b Hb Hlen Hlt.
  { destruct b; [|done]. cbn [digits_val_from foldl] in Hlt. lia. }
  destruct Hb as [|y b Hy Hb]; [done|]. injection Hlen as Hlen. simpl.
  pose proof (digits_val_from_bound (acc * 10 + digit_val x) a Ha) as H1.
  pose proof (digits_val_from_bound (acc * 10 + digit_val y) b Hb) as H2.
  cbn [digits_val_from foldl] in Hlt. fold (digits_val_from (acc * 10 + digit_val x) a) in Hlt.
  fold (digits_val_from (acc * 10 + digit_val y) b) in Hlt. rewrite Hlen in H1.
  set (p := 10 ^ Z.of_nat (length b)) in *. assert (0 < p) by (apply Z.pow_pos_nonneg; lia).
  apply orb_true_iff. destruct (Z.ltb_spec (byte_val x) (byte_val y)) as [|Hge]; [by left|right].
  destruct (Z.eq_dec (byte_val x) (byte_val y)) as [Heq|Hne].
  - rewrite (proj2 (Z.eqb_eq _ _) Heq). simpl. apply byte_val_inj in Heq as ->. by eapply IH.
  - exfalso. unfold digit_val in *. nia.
Qed.

Lemma bytes_lt_app p a b : bytes_lt (p ++ a) (p ++ b) = bytes_lt a b.
Proof.
  induction p as [|c p IH]; [done|]. simpl. by rewrite Z.ltb_irrefl, Z.eqb_refl, IH.
Qed.

(** The journal of one connect never overwrites that of another: with one
    prefix, names of different connects differ whatever the clock reads; and up
    to a million connects a directory listing shows them in order. *)
Theorem JournalFileName_ordered prefix id1 id2 t1 t2 :
  0 <= id1 < 2 ^ 64 → 0 <= id2 < 2 ^ 64 → id1 < id2 →
  JournalFileName prefix id1 t1 ≠ JournalFileName prefix id2 t2 ∧
  (id2 < 10 ^ 6 → bytes_lt (JournalFileName prefix id1 t1) (JournalFileName prefix id2 t2) = true).
Proof.
  intros H1 H2 Hlt. unfold JournalFileName. cbv zeta.
  pose proof (ordinal_digits id1 ltac:(lia)) as D1.
  pose proof (ordinal_digits id2 ltac:(lia)) as D2. split.
  - intros [=Heq]%app_inv_head. apply (f_equal span_digits) in Heq.
    rewrite !span_digits_app in Heq by done. injection Heq as Heq _.
    apply (f_equal digits_val) in Heq. rewrite !ordinal_val in Heq by done. lia.
  - intros Hm. rewrite bytes_lt_app, bytes_lt_app.
    apply (bytes_lt_digits 0); [done..| |].
    + by rewrite !ordinal_length by lia.
    + fold (digits_val (ordinal id1)) (digits_val (ordinal id2)). by rewrite !ordinal_val.
Qed.

(** The clock went back ten years between two connects. *)
Lemma JournalFileName_ordered_witness :
  JournalFileName (B "kraken") 9 1789592400000000000 = B "kraken-000009-20260916T210000Z.journal" ∧
  bytes_lt (JournalFileName (B "kraken") 9 1789592400000000000)
    (JournalFileName (B "kraken") 10 1473974400000000000) = true.
Proof.
  split; [by vm_compute|].
  apply (JournalFileName_ordered (B "kraken") 9 10); lia.
Defined.
