(* ===== verification/Scale.v ===== *)
(** * Doubles, decimal text and instrument scales

    [order_book/instrument_scale.h] and the [ParseDecimal] of
    [book_adapter/deribit_fix_book_wire.cpp]. A finite [double] is the pair of
    its significand and exponent; every arithmetic result is the exact value
    rounded to nearest, ties to even, in binary64. The sign of a zero is not
    kept: nothing in these sources observes it. [std::llround] of a value that
    is not a [long long] has an unspecified result, the parameter
    [llround_unspecified]. *)

From S2P Require Import Prelude Text.

(** ** binary64 *)

Inductive double : Type :=
| Finite (m e : Z)
| Infinite (negative : bool)
| NaN.

#[export] Instance double_eq_dec : EqDecision double.
Proof. solve_decision. Defined.

(** [a / d] to the nearest integer, ties to even. *)
Definition half_even (a d : Z) : Z :=
  let q := a / d in
  match 2 * (a mod d) ?= d with
  | Lt => q
  | Gt => q + 1
  | Eq => if Z.even q then q else q + 1
  end.

(** [a / (d * 2 ^ e)] as a fraction of integers. *)
Definition ratio_scale (a d e : Z) : Z * Z :=
  if 0 <=? e then (a, d * 2 ^ e) else (a * 2 ^ (- e), d).

(** The integer part of the binary logarithm of [a / d]. *)
Definition ratio_log2 (a d : Z) : Z :=
  let l := Z.log2 a - Z.log2 d in
  let '(n, d') := ratio_scale a d l in
  if d' <=? n then l else l - 1.

(** The binary64 nearest to [num / den]. *)
Definition round_nearest (num den : Z) : double :=
  if num =? 0 then Finite 0 0
  else
    let e := Z.max (ratio_log2 (Z.abs num) den - 52) (-1074) in
    let '(n, d) := ratio_scale (Z.abs num) den e in
    let m := half_even n d in
    if (971 <? e) || ((e =? 971) && (2 ^ 53 <=? m)) then Infinite (num <? 0)
    else Finite (Z.sgn num * m) e.

Definition negative (x : double) : bool :=
  match x with Finite m _ => m <? 0 | Infinite s => s | NaN => false end.
Definition is_zero (x : double) : bool := match x with Finite m _ => m =? 0 | _ => false end.

(** [x * y]. *)
Definition mul_double (x y : double) : double :=
  match x, y with
  | NaN, _ | _, NaN => NaN
  | Finite m1 e1, Finite m2 e2 =>
      let '(den, num) := ratio_scale 1 (m1 * m2) (e1 + e2) in round_nearest num den
  | _, _ => if is_zero x || is_zero y then NaN else Infinite (xorb (negative x) (negative y))
  end.

(** [x / y] for a divisor that is not zero. *)
Definition div_double (x y : double) : double :=
  match x, y with
  | NaN, _ | _, NaN | Infinite _, Infinite _ => NaN
  | Finite m1 e1, Finite m2 e2 =>
      let '(den, num) := ratio_scale (Z.abs m2) (Z.sgn m2 * m1) (e1 - e2) in round_nearest num den
  | Finite _ _, Infinite _ => Finite 0 0
  | Infinite s, _ => Infinite (xorb s (negative y))
  end.

Definition double_of_Z (n : Z) : double := round_nearest n 1.
Definition isfinite (x : double) : bool := match x with Finite _ _ => true | _ => false end.

Section llround.
Variable llround_unspecified : double → Z.

(** [std::llround]: half away from zero. *)
Definition llround (x : double) : Z :=
  match x with
  | Finite m e =>
      let v := if 0 <=? e then m * 2 ^ e
               else Z.sgn m * ((2 * Z.abs m + 2 ^ (- e)) / 2 ^ (1 - e)) in
      if in_i64 v then v else llround_unspecified x
  | _ => llround_unspecified x
  end.

(** ** [InstrumentScale] *)

Record InstrumentScale := mkInstrumentScale {
  price_factor : double;
  quantity_factor : double;
}.

Fixpoint Pow10_loop (n : nat) (result : double) : double :=
  match n with
  | O => result
  | S n => Pow10_loop n (mul_double result (Finite 10 0))
  end.

(** [asserts]: whether [assert] is compiled in. *)
Definition Pow10 (asserts : bool) (decimals : Z) : outcome double :=
  if asserts && negb ((0 <=? decimals) && (decimals <=? 15)) then Undef AssertFailed
  else Done (Pow10_loop (Z.to_nat decimals) (Finite 1 0)).

Definition new_InstrumentScale (asserts : bool) (price_decimals quantity_decimals : Z)
  : outcome InstrumentScale :=
  outcome_bind (Pow10 asserts price_decimals) (λ p,
  outcome_bind (Pow10 asserts quantity_decimals) (λ q, Done (mkInstrumentScale p q))).

Definition ToPrice (scale : InstrumentScale) (value : double) : Z :=
  llround (mul_double value (price_factor scale)).
Definition ToQuantity (scale : InstrumentScale) (value : double) : Z :=
  llround (mul_double value (quantity_factor scale)).
Definition FromPrice (scale : InstrumentScale) (price : Z) : double :=
  div_double (double_of_Z price) (price_factor scale).
Definition FromQuantity (scale : InstrumentScale) (quantity : Z) : double :=
  div_double (double_of_Z quantity) (quantity_factor scale).
End llround.

(** ** [ParseDecimal] *)

(** The exponent part of a floating-point number, when there is a whole one. *)
Definition scan_exponent (l : bytes) : Z * bytes :=
  match l with
  | c :: l' =>
      if (byte_val c =? 101) || (byte_val c =? 69) then
        let '(neg, l'') := match l' with
                           | s :: l'' =>
                               if byte_val s =? 45 then (true, l'')
                               else if byte_val s =? 43 then (false, l'') else (false, l')
                           | [] => (false, l')
                           end in
        let '(ds, rest) := span_digits l'' in
        if decide (ds = []) then (0, l)
        else ((if neg : bool then - digits_val ds else digits_val ds), rest)
      else (0, l)
  | [] => (0, l)
  end.

(** [num / den] of a sign, the digits before and after the point, and a power of ten. *)
Definition decimal_ratio (neg : bool) (whole frac : bytes) (exponent : Z) : Z * Z :=
  let n := digits_val (whole ++ frac) in
  let n := if neg then - n else n in
  let e := exponent - Z.of_nat (length frac) in
  if 0 <=? e then (n * 10 ^ e, 1) else (n, 10 ^ (- e)).

(** The decimal number [std::from_chars] reads, as a fraction, and the rest. *)
Definition scan_decimal (l : bytes) : option (Z * Z * bytes) :=
  let '(neg, l1) := match l with
                    | c :: l1 => if byte_val c =? 45 then (true, l1) else (false, l)
                    | [] => (false, l)
                    end in
  let '(whole, l2) := span_digits l1 in
  let '(frac, l3) := match l2 with
                     | c :: l3 => if byte_val c =? 46 then span_digits l3 else ([], l2)
                     | [] => ([], l2)
                     end in
  if decide (whole ++ frac = []) then None
  else
    let '(exponent, rest) := scan_exponent l3 in
    Some (decimal_ratio neg whole frac exponent, rest).

(** [std::from_chars] to a [double]. A number whose value is not zero but
    rounds to zero, like one that rounds to infinity, is out of range. The
    words [inf] and [nan], which it also reads, are no number here; the caller
    refuses their values anyway. *)
Definition from_chars_double (l : bytes) : option (double * bytes) :=
  match scan_decimal l with
  | None => None
  | Some (num, den, rest) =>
      let value := round_nearest num den in
      if negb (isfinite value) || (is_zero value && negb (num =? 0)) then None
      else Some (value, rest)
  end.

Definition ParseDecimal (text : bytes) : option double :=
  match from_chars_double text with
  | None => None
  | Some (value, rest) =>
      if bool_decide (rest ≠ []) || negb (isfinite value) then None else Some value
  end.
