(* ===== verification/ScaleExact.v ===== *)
(** * Decimals become exact ticks

    A price with no more decimals than the instrument's scale loses nothing on
    its way through [double]: two roundings stay well within half a tick as
    long as the price is at most [2 ^ 50] ticks. *)

From S2P Require Import Prelude Text Scale.

(** ** Rounding to nearest *)

Lemma half_even_near a d : 0 < d → 2 * Z.abs (half_even a d * d - a) <= d.
Proof.
  intros Hd. unfold half_even. pose proof (Z.mod_pos_bound a d Hd).
  pose proof (Z.div_mod a d ltac:(lia)).
  destruct (Z.compare_spec (2 * (a mod d)) d); [destruct (Z.even _)|..]; nia.
Qed.

Lemma half_even_nonneg a d : 0 < d → 0 <= a → 0 <= half_even a d.
Proof.
  intros Hd Ha. unfold half_even. pose proof (Z.div_pos a d Ha Hd).
  destruct (_ ?= _); [destruct (Z.even _)|..]; lia.
Qed.

(** [d' <= n] for the scaled fraction says [d * 2 ^ e <= a], whatever power of
    two both sides are multiplied by. *)
Lemma ratio_scale_le a d e t : 0 <= t → 0 <= e + t →
  (ratio_scale a d e).2 <= (ratio_scale a d e).1 ↔ d * 2 ^ (e + t) <= a * 2 ^ t.
Proof.
  intros Ht Het. unfold ratio_scale. destruct (Z.leb_spec 0 e); simpl.
  - rewrite Z.pow_add_r, Z.mul_assoc by lia. pose proof (Z.pow_pos_nonneg 2 t). nia.
  - replace (a * 2 ^ t) with (a * 2 ^ (- e) * 2 ^ (e + t))
      by (rewrite <-Z.mul_assoc, <-Z.pow_add_r by lia; do 2 f_equal; lia).
    pose proof (Z.pow_pos_nonneg 2 (e + t)). nia.
Qed.

Lemma log2_diff a d t (l := Z.log2 a - Z.log2 d) : 0 < a → 0 < d → 0 <= t → 1 <= l + t →
  d * 2 ^ (l - 1 + t) <= a * 2 ^ t < d * 2 ^ (l + 1 + t).
Proof.
  intros Ha Hd Ht Hl. subst l. pose proof (Z.log2_spec a Ha). pose proof (Z.log2_spec d Hd).
  pose proof (Z.log2_nonneg a). pose proof (Z.log2_nonneg d).
  assert (2 ^ Z.succ (Z.log2 d) * 2 ^ (Z.log2 a - Z.log2 d - 1 + t) = 2 ^ Z.log2 a * 2 ^ t)
    by (rewrite <-!Z.pow_add_r by lia; f_equal; lia).
  assert (2 ^ Z.log2 d * 2 ^ (Z.log2 a - Z.log2 d + 1 + t) = 2 ^ Z.succ (Z.log2 a) * 2 ^ t)
    by (rewrite <-!Z.pow_add_r by lia; f_equal; lia).
  pose proof (Z.pow_pos_nonneg 2 (Z.log2 a - Z.log2 d - 1 + t)).
  pose proof (Z.pow_pos_nonneg 2 (Z.log2 a - Z.log2 d + 1 + t)).
  pose proof (Z.pow_pos_nonneg 2 t). nia.
Qed.

Lemma ratio_log2_spec a d t (f := ratio_log2 a d) : 0 < a → 0 < d → 0 <= t → 0 <= f + t →
  d * 2 ^ (f + t) <= a * 2 ^ t < d * 2 ^ (f + 1 + t).
Proof.
  intros Ha Hd Ht Hf. subst f. revert Hf. unfold ratio_log2.
  set (l := Z.log2 a - Z.log2 d).
  assert (∀ u, 0 <= u → 1 <= l + u → d * 2 ^ (l - 1 + u) <= a * 2 ^ u < d * 2 ^ (l + 1 + u))
    as Hlog by (intros; by apply log2_diff).
  pose proof (ratio_scale_le a d l) as Hle.
  destruct (ratio_scale a d l) as [n d']. simpl in Hle.
  destruct (Z.leb_spec d' n) as [Hn|Hn]; intros Hf.
  - split; [by apply Hle|]. pose proof (Hlog (t + 1) ltac:(lia) ltac:(lia)) as [_ Hu].
    rewrite !Z.add_assoc, !(Z.pow_add_r _ _ 1) in Hu by lia. lia.
  - split; [apply Hlog; lia|]. replace (l - 1 + 1 + t) with (l + t) by lia.
    pose proof (Hle t Ht ltac:(lia)). lia.
Qed.

(** A fraction between [2 ^ -1000] and [2 ^ 51] is rounded to a fraction of a
    power of two, with a relative error of at most [2 ^ -53]. *)
Lemma round_nearest_spec num den (a := Z.abs num) :
  0 < a → 0 < den → den <= a * 2 ^ 1000 → a < den * 2 ^ 51 →
  ∃ m s, 0 <= m ∧ 0 <= s ∧ round_nearest num den = Finite (Z.sgn num * m) (- s) ∧
    m = half_even (a * 2 ^ s) den ∧ 2 ^ 53 * Z.abs (m * den - a * 2 ^ s) <= a * 2 ^ s.
Proof.
  intros Ha Hden Hlow Hhigh. unfold round_nearest. fold a.
  rewrite (proj2 (Z.eqb_neq num 0)) by lia.
  set (f := ratio_log2 a den).
  assert (∀ t, 0 <= t → 0 <= f + t → den * 2 ^ (f + t) <= a * 2 ^ t < den * 2 ^ (f + 1 + t))
    as Hspec by (intros; by apply ratio_log2_spec).
  assert (f <= 50) as Hf50.
  { apply Z.nlt_ge. intros Hf. destruct (Hspec 0) as [H _]; [lia..|].
    rewrite Z.add_0_r, Z.pow_0_r, Z.mul_1_r in H.
    pose proof (Z.pow_le_mono_r 2 51 f). nia. }
  assert (-1010 <= f) as Hf1010.
  { apply Z.nlt_ge. intros Hf. destruct (Hspec (- f)) as [_ H]; [lia..|].
    replace (f + 1 + - f) with 1 in H by lia. change (2 ^ 1) with 2 in H.
    assert (2 ^ 1010 <= 2 ^ (- f)) as Hp by (apply Z.pow_le_mono_r; lia).
    replace (2 ^ 1010) with (2 ^ 1000 * 1024) in Hp by reflexivity.
    set (P := 2 ^ 1000) in *. set (R := 2 ^ (- f)) in *. nia. }
  rewrite Z.max_l by lia. exists (half_even (a * 2 ^ (52 - f)) den), (52 - f).
  unfold ratio_scale. rewrite (proj2 (Z.leb_gt 0 (f - 52))) by lia.
  replace (- (f - 52)) with (52 - f) by lia.
  rewrite (proj2 (Z.ltb_ge 971 _)), (proj2 (Z.eqb_neq (f - 52) 971)) by lia. simpl orb.
  assert (0 < 2 ^ (52 - f)) by (apply Z.pow_pos_nonneg; lia).
  split; [apply half_even_nonneg; [done|nia]|]. split; [lia|].
  split; [f_equal; lia|]. split; [done|].
  pose proof (half_even_near (a * 2 ^ (52 - f)) den Hden) as Hnear.
  destruct (Hspec (52 - f)) as [H52 _]; [lia..|].
  replace (f + (52 - f)) with 52 in H52 by lia.
  change (2 ^ 53) with (2 * 2 ^ 52). set (E := Z.abs _) in *. lia.
Qed.

(** ** Scaling *)

(** The powers of ten the scale admits are exact. *)
Definition is_pow10 (x : double) (d : Z) : Prop :=
  ∃ s, 0 <= s ∧ x = Finite (10 ^ d * 2 ^ s) (- s).

Lemma Pow10_exact asserts d : 0 <= d <= 15 → ∃ x, Pow10 asserts d = Done x ∧ is_pow10 x d.
Proof.
  intros Hd. unfold Pow10. replace ((0 <=? d) && (d <=? 15)) with true by lia.
  rewrite andb_false_r. eexists. split; [done|].
  assert (d ∈ [0;1;2;3;4;5;6;7;8;9;10;11;12;13;14;15]) as Hin.
  { assert (d = 0 ∨ d = 1 ∨ d = 2 ∨ d = 3 ∨ d = 4 ∨ d = 5 ∨ d = 6 ∨ d = 7 ∨ d = 8 ∨ d = 9 ∨
      d = 10 ∨ d = 11 ∨ d = 12 ∨ d = 13 ∨ d = 14 ∨ d = 15) as H by lia. set_solver. }
  clear Hd. unfold is_pow10. repeat (apply elem_of_cons in Hin as [->|Hin]; [
    match goal with |- ∃ s, _ ∧ ?t = _ =>
      let v := eval vm_compute in t in
      match v with Finite _ ?e => exists (- e); split; [done|by vm_compute] end end|]).
  by apply elem_of_nil in Hin.
Qed.

Lemma llround_near u m s k :
  0 <= s → Z.abs k <= 2 ^ 50 → 2 * Z.abs (m - k * 2 ^ s) < 2 ^ s →
  llround u (Finite m (- s)) = k.
Proof.
  intros Hs Hk Hnear. unfold llround.
  assert (0 < 2 ^ s) as Hp by (apply Z.pow_pos_nonneg; lia).
  assert ((if 0 <=? - s then m * 2 ^ (- s)
           else Z.sgn m * ((2 * Z.abs m + 2 ^ (- - s)) / 2 ^ (1 - - s))) = k) as ->.
  { destruct (Z.leb_spec 0 (- s)).
    - replace s with 0 in * by lia. cbn in *. lia.
    - rewrite Z.opp_involutive. replace (1 - - s) with (s + 1) by lia.
      rewrite Z.pow_add_r by lia. change (2 ^ 1) with 2. set (P := 2 ^ s) in *.
      assert ((2 * Z.abs m + P) / (P * 2) = Z.abs k) as ->
        by (symmetry; apply (Z.div_unique_pos _ _ _ (2 * Z.abs m + P - Z.abs k * (P * 2))); nia).
      destruct (Z.lt_trichotomy k 0) as [H'|[->|H']]; [|lia|];
        [rewrite (Z.sgn_neg m)|rewrite (Z.sgn_pos m)]; nia. }
  unfold in_i64, i64_min, i64_max.
  replace ((- 2 ^ 63 <=? k) && (k <=? 2 ^ 63 - 1)) with true; [done|].
  symmetry. apply andb_true_iff. rewrite !Z.leb_le. lia.
Qed.

Lemma mul_double_fractions m1 s1 m2 s2 : 0 <= s1 → 0 <= s2 →
  mul_double (Finite m1 (- s1)) (Finite m2 (- s2)) = round_nearest (m1 * m2) (2 ^ (s1 + s2)).
Proof.
  intros H1 H2. simpl. unfold ratio_scale. replace (- s1 + - s2) with (- (s1 + s2)) by lia.
  destruct (Z.leb_spec 0 (- (s1 + s2))).
  - replace (s1 + s2) with 0 by lia. simpl. by rewrite Z.mul_1_r.
  - by rewrite Z.opp_involutive, Z.mul_1_l.
Qed.

Lemma abs_scale x c : 0 <= c → Z.abs (x * c) = Z.abs x * c.
Proof. intros. rewrite Z.abs_mul. lia. Qed.

(** A rounding of [a / den], read at the scale [F]. *)
Lemma rounding_scaled F den a k m A :
  0 < F → 0 < den → a * F = k * den →
  2 ^ 53 * Z.abs (m * den - a * A) <= a * A →
  2 ^ 53 * Z.abs (m * F - k * A) <= k * A.
Proof.
  intros HF Hden Ha H. apply (Zmult_le_reg_r _ _ den); [lia|].
  assert (k * A * den = a * A * F) as Hk
    by (replace (k * A * den) with (k * den * A) by lia; rewrite <-Ha; lia).
  rewrite Hk. replace (2 ^ 53 * Z.abs (m * F - k * A) * den)
    with (2 ^ 53 * Z.abs (m * den - a * A) * F).
  - apply Z.mul_le_mono_nonneg_r; lia.
  - rewrite <-!(Z.mul_assoc (2 ^ 53)), <-!abs_scale by lia. do 2 f_equal. lia.
Qed.

(** Two roundings of relative error [2 ^ -53] stay within half a tick. *)
Lemma two_roundings k x m2 A P :
  0 < k <= 2 ^ 50 → 0 < A → 0 < P →
  2 ^ 53 * Z.abs (x - k * A) <= k * A →
  2 ^ 53 * Z.abs (m2 * A - x * P) <= x * P →
  2 * Z.abs (m2 - k * P) < P.
Proof.
  intros Hk HA HP H1 H2.
  assert (2 ^ 53 * Z.abs (x * P - k * A * P) <= k * A * P) as H1'.
  { replace (x * P - k * A * P) with ((x - k * A) * P) by lia. rewrite abs_scale by lia. nia. }
  assert (k * A * P <= 2 ^ 50 * (A * P)) by (rewrite <-Z.mul_assoc; apply Z.mul_le_mono_nonneg_r; nia).
  assert (0 < A * P) by nia.
  apply (Zmult_lt_reg_r _ _ A); [lia|].
  replace (2 * Z.abs (m2 - k * P) * A) with (2 * Z.abs (m2 * A - k * A * P)).
  2: { rewrite <-(Z.mul_assoc 2), <-abs_scale by lia. do 2 f_equal. lia. }
  set (X := x * P) in *. set (Y := m2 * A) in *. set (K := k * A * P) in *.
  set (Q := A * P) in *. replace (P * A) with Q by lia.
  change (2 ^ 53) with 9007199254740992 in *. change (2 ^ 50) with 1125899906842624 in *. lia.
Qed.

(** Scaling a double within [2 ^ -53] of [k / F] by [F], exactly known. *)
Lemma scale_near u k m1 s1 F sF :
  0 < F → 0 <= sF → 0 <= s1 → 0 <= m1 → k ≠ 0 → Z.abs k <= 2 ^ 50 →
  2 ^ 53 * Z.abs (m1 * F - Z.abs k * 2 ^ s1) <= Z.abs k * 2 ^ s1 →
  llround u (round_nearest (Z.sgn k * m1 * (F * 2 ^ sF)) (2 ^ (s1 + sF))) = k.
Proof.
  intros HF HsF Hs1 Hm1 Hk0 Hk H1. set (x := m1 * F) in *.
  replace (Z.sgn k * m1 * (F * 2 ^ sF)) with (Z.sgn k * (x * 2 ^ sF)) by (unfold x; lia).
  rewrite Z.pow_add_r by lia.
  assert (0 < 2 ^ s1) by (apply Z.pow_pos_nonneg; lia).
  assert (0 < 2 ^ sF) by (apply Z.pow_pos_nonneg; lia).
  set (A := 2 ^ s1) in *. set (PF := 2 ^ sF) in *.
  assert (A <= 2 * x ∧ x < A * 2 ^ 51) as [Hx1 Hx2].
  { change (2 ^ 53) with 9007199254740992 in *. change (2 ^ 50) with 1125899906842624 in *.
    change (2 ^ 51) with 2251799813685248 in *. nia. }
  assert (Z.abs (Z.sgn k * (x * PF)) = x * PF) as Ha by nia.
  destruct (round_nearest_spec (Z.sgn k * (x * PF)) (A * PF)) as (m2 & s2 & Hm2 & Hs2 & -> & _ & H2).
  - nia.
  - nia.
  - rewrite Ha. assert (2 <= 2 ^ 1000) as Hbig
      by (change 2 with (2 ^ 1) at 1; apply Z.pow_le_mono_r; lia).
    set (T := 2 ^ 1000) in *. nia.
  - rewrite Ha. change (2 ^ 51) with 2251799813685248 in *. nia.
  - rewrite Ha in H2.
    assert (0 < 2 ^ s2) by (apply Z.pow_pos_nonneg; lia).
    assert (Z.sgn (Z.sgn k * (x * PF)) = Z.sgn k) as -> by nia.
    apply llround_near; [done..|]. set (P := 2 ^ s2) in *.
    assert (2 * Z.abs (m2 - Z.abs k * P) < P); [|nia].
    apply (two_roundings _ x _ A); [lia|done..|].
    apply (Zmult_le_reg_r _ _ PF); [lia|].
    replace (x * P * PF) with (x * PF * P) by lia.
    replace (2 ^ 53 * Z.abs (m2 * A - x * P) * PF)
      with (2 ^ 53 * Z.abs (m2 * (A * PF) - x * PF * P)); [done|].
    rewrite <-!Z.mul_assoc, <-abs_scale by lia. do 2 f_equal. lia.
Qed.

(** [k / 10 ^ d] is in the range [round_nearest_spec] covers. *)
Lemma tick_range d num den k :
  0 <= d <= 15 → 0 < den → k ≠ 0 → Z.abs k <= 2 ^ 50 → num * 10 ^ d = k * den →
  0 < Z.abs num ∧ den <= Z.abs num * 2 ^ 1000 ∧ Z.abs num < den * 2 ^ 51.
Proof.
  intros Hd Hden Hk0 Hk Hnum.
  assert (0 < 10 ^ d <= 10 ^ 15) as [HF HF15]
    by (split; [apply Z.pow_pos_nonneg; lia|apply Z.pow_le_mono_r; lia]).
  set (F := 10 ^ d) in *.
  assert (Z.abs num * F = Z.abs k * den) as Habs by nia. split_and!; [nia|..].
  - assert (den <= Z.abs num * 10 ^ 15) by nia.
    assert (10 ^ 15 <= 2 ^ 1000) as Hbig
      by (trans (2 ^ 50); [by apply Z.leb_le|apply Z.pow_le_mono_r; lia]).
    set (P := 2 ^ 1000) in *. set (T := 10 ^ 15) in *. nia.
  - change (2 ^ 51) with 2251799813685248. change (2 ^ 50) with 1125899906842624 in Hk. nia.
Qed.

(** The value [k / 10 ^ d], rounded to a double and scaled by [10 ^ d], is [k]. *)
Lemma scaled_exact u x d num den k :
  0 <= d <= 15 → is_pow10 x d → 0 < den → Z.abs k <= 2 ^ 50 → num * 10 ^ d = k * den →
  llround u (mul_double (round_nearest num den) x) = k.
Proof.
  intros Hd (sF & HsF & ->) Hden Hk Hnum.
  assert (0 < 10 ^ d) as HF by (apply Z.pow_pos_nonneg; lia).
  set (F := 10 ^ d) in *.
  destruct (decide (k = 0)) as [->|Hk0].
  { assert (num = 0) as -> by nia. change (round_nearest 0 den) with (Finite 0 (- 0)).
    by rewrite mul_double_fractions by lia. }
  assert (Z.sgn num = Z.sgn k) as Hsgn by nia.
  assert (Z.abs num * F = Z.abs k * den) as Habs by nia.
  destruct (tick_range d num den k) as (Hn1 & Hn2 & Hn3); [done..|].
  destruct (round_nearest_spec num den) as (m1 & s1 & Hm1 & Hs1 & -> & _ & Herr1); [done..|].
  rewrite mul_double_fractions, Hsgn by lia.
  apply scale_near; [done..|]. by apply (rounding_scaled F den (Z.abs num)).
Qed.

(** ** Decimal text *)

(** A plain decimal: a sign, digits, and digits after a point if any. *)
Definition decimal_text (neg : bool) (whole frac : bytes) : bytes :=
  (if neg then B "-" else []) ++ whole ++ (if decide (frac = []) then [] else B "." ++ frac).

Definition all_digits (l : bytes) : Prop := Forall (λ c, is_digit c = true) l.

(** Its value in units of [10 ^ -d]. *)
Definition ticks_of (neg : bool) (whole frac : bytes) (d : Z) : Z :=
  (if neg then -1 else 1) * digits_val (whole ++ frac) * 10 ^ (d - Z.of_nat (length frac)).

Lemma is_digit_not c : is_digit c = true → byte_val c ≠ 45 ∧ byte_val c ≠ 46.
Proof. unfold is_digit. lia. Qed.

Lemma scan_decimal_text neg whole frac :
  all_digits whole → all_digits frac → whole ≠ [] →
  scan_decimal (decimal_text neg whole frac) = Some (decimal_ratio neg whole frac 0, []).
Proof.
  intros Hw Hf Hne. unfold scan_decimal, decimal_text.
  set (tail := if decide (frac = []) then [] else B "." ++ frac).
  assert (match (if neg then B "-" else []) ++ whole ++ tail with
          | c :: l1 => if byte_val c =? 45 then (true, l1)
                       else (false, (if neg then B "-" else []) ++ whole ++ tail)
          | [] => (false, (if neg then B "-" else []) ++ whole ++ tail)
          end = (neg, whole ++ tail)) as ->.
  { destruct neg; [done|]. destruct whole as [|c w]; [done|]. cbn [app].
    destruct (is_digit_not c) as [Hc _]; [by inversion Hw|].
    by rewrite (proj2 (Z.eqb_neq _ _) Hc). }
  rewrite (span_digits_app whole tail Hw) by (subst tail; by destruct (decide (frac = []))).
  assert (match tail with
          | c :: l3 => if byte_val c =? 46 then span_digits l3 else ([], tail)
          | [] => ([], tail)
          end = (frac, [])) as ->.
  { subst tail. destruct (decide (frac = [])) as [->|Hfr]; [done|]. cbn.
    rewrite <-(app_nil_r frac) at 1. by apply span_digits_app. }
  rewrite decide_False; [done|]. intros [-> _]%app_eq_nil. done.
Qed.

Lemma decimal_ratio_ticks neg whole frac d (r := decimal_ratio neg whole frac 0) :
  Z.of_nat (length frac) <= d → 0 < r.2 ∧ r.1 * 10 ^ d = ticks_of neg whole frac d * r.2.
Proof.
  intros Hd. subst r. unfold decimal_ratio, ticks_of. rewrite Z.sub_0_l.
  set (n := digits_val (whole ++ frac)). set (f := Z.of_nat (length frac)) in *.
  assert (10 ^ (d - f) * 10 ^ f = 10 ^ d) as <- by (rewrite <-Z.pow_add_r by lia; f_equal; lia).
  destruct (Z.leb_spec 0 (- f)); simpl.
  - replace f with 0 by lia. split; [lia|]. destruct neg; simpl; lia.
  - rewrite Z.opp_involutive. split; [apply Z.pow_pos_nonneg; lia|]. destruct neg; lia.
Qed.

(** Such a text parses, to the double nearest to it. *)
Lemma ParseDecimal_text neg whole frac d (r := decimal_ratio neg whole frac 0) :
  all_digits whole → all_digits frac → whole ≠ [] →
  Z.of_nat (length frac) <= d <= 15 → Z.abs (ticks_of neg whole frac d) <= 2 ^ 50 →
  ParseDecimal (decimal_text neg whole frac) = Some (round_nearest r.1 r.2).
Proof.
  intros Hw Hf Hne Hd Hk. unfold ParseDecimal, from_chars_double.
  rewrite scan_decimal_text by done. fold r.
  destruct (decimal_ratio_ticks neg whole frac d ltac:(lia)) as [Hden Hnum].
  fold r in Hden, Hnum. destruct r as [num den]. simpl in *.
  set (k := ticks_of neg whole frac d) in *.
  destruct (decide (k = 0)) as [Hk0|Hk0].
  { assert (0 < 10 ^ d) by (apply Z.pow_pos_nonneg; lia). assert (num = 0) as -> by nia. done. }
  destruct (tick_range d num den k) as (Hn1 & Hn2 & Hn3); [lia|done..|].
  destruct (round_nearest_spec num den) as (m & s & Hm & Hs & -> & _ & Herr); [done..|].
  assert (0 < 2 ^ s) by (apply Z.pow_pos_nonneg; lia).
  assert (m ≠ 0) by (intros ->; set (P := 2 ^ s) in *; change (2 ^ 53) with 9007199254740992 in *; nia).
  simpl. rewrite (proj2 (Z.eqb_neq _ _)) by nia. done.
Qed.

Lemma scale_factors asserts dp dq : 0 <= dp <= 15 → 0 <= dq <= 15 →
  ∃ scale, new_InstrumentScale asserts dp dq = Done scale ∧
    is_pow10 (price_factor scale) dp ∧ is_pow10 (quantity_factor scale) dq.
Proof.
  intros Hp Hq. unfold new_InstrumentScale.
  destruct (Pow10_exact asserts dp Hp) as (x & -> & Hx).
  destruct (Pow10_exact asserts dq Hq) as (y & -> & Hy). simpl. eauto.
Qed.

Lemma ticks_exact u x neg whole frac d (r := decimal_ratio neg whole frac 0) :
  is_pow10 x d → Z.of_nat (length frac) <= d <= 15 → Z.abs (ticks_of neg whole frac d) <= 2 ^ 50 →
  llround u (mul_double (round_nearest r.1 r.2) x) = ticks_of neg whole frac d.
Proof.
  intros Hx Hd Hk. destruct (decimal_ratio_ticks neg whole frac d ltac:(lia)) as [Hden Hnum].
  apply (scaled_exact u x d); [lia|done..].
Qed.

(** C30: a price written with no more decimals than the instrument has becomes
    exactly its number of ticks, and a quantity exactly its number of lots: the
    two binary roundings on the way are never visible up to [2 ^ 50] units. *)
Theorem decimal_ticks_exact asserts u dp dq scale neg whole frac :
  0 <= dp <= 15 → 0 <= dq <= 15 → new_InstrumentScale asserts dp dq = Done scale →
  all_digits whole → all_digits frac → whole ≠ [] →
  (Z.of_nat (length frac) <= dp → Z.abs (ticks_of neg whole frac dp) <= 2 ^ 50 →
   ∃ v, ParseDecimal (decimal_text neg whole frac) = Some v ∧
     ToPrice u scale v = ticks_of neg whole frac dp) ∧
  (Z.of_nat (length frac) <= dq → Z.abs (ticks_of neg whole frac dq) <= 2 ^ 50 →
   ∃ v, ParseDecimal (decimal_text neg whole frac) = Some v ∧
     ToQuantity u scale v = ticks_of neg whole frac dq).
Proof.
  intros Hp Hq Hnew Hw Hf Hne.
  destruct (scale_factors asserts dp dq Hp Hq) as (scale' & Hnew' & Hx & Hy).
  rewrite Hnew in Hnew'. injection Hnew' as <-.
  split; intros Hlen Hk; eexists;
    (split; [eapply ParseDecimal_text; [done..|split; [exact Hlen|lia]|done]|]);
    apply ticks_exact; done || lia.
Qed.

Definition demo_scale : InstrumentScale :=
  mkInstrumentScale (Finite 5629499534213120 (-49)) (Finite 6710886400000000 (-26)).
Definition demo_unspecified (_ : double) : Z := i64_min.

Lemma decimal_ticks_exact_witness :
  ∃ v, ParseDecimal (B "64000.5") = Some v ∧ ToPrice demo_unspecified demo_scale v = 640005.
Proof.
  apply (proj1 (decimal_ticks_exact true demo_unspecified 1 8 demo_scale false (B "64000") (B "5")
    ltac:(lia) ltac:(lia) ltac:(by vm_compute) ltac:(by repeat constructor)
    ltac:(by repeat constructor) ltac:(discriminate))); vm_compute; discriminate.
Defined.

Lemma half_even_integer n : half_even n 1 = n.
Proof. unfold half_even. rewrite Z.mod_1_r, Z.div_1_r. done. Qed.

(** An integer of at most 51 bits converts exactly. *)
Lemma double_of_Z_exact n : Z.abs n <= 2 ^ 50 →
  ∃ s, 0 <= s ∧ double_of_Z n = Finite (n * 2 ^ s) (- s).
Proof.
  intros Hn. unfold double_of_Z. destruct (decide (n = 0)) as [->|Hn0].
  { by exists 0. }
  destruct (tick_range 0 n 1 n) as (H1 & H2 & H3); [lia..|].
  destruct (round_nearest_spec n 1) as (m & s & Hm & Hs & -> & -> & _); [done|lia|done..|].
  exists s. split; [done|]. rewrite half_even_integer. f_equal. nia.
Qed.

Lemma div_double_ratio p s1 F sF :
  0 < F → 0 <= s1 → 0 <= sF →
  ∃ num den, div_double (Finite (p * 2 ^ s1) (- s1)) (Finite (F * 2 ^ sF) (- sF)) =
    round_nearest num den ∧ 0 < den ∧ num * F = p * den.
Proof.
  intros HF H1 H2. simpl. unfold ratio_scale.
  assert (0 < 2 ^ s1) by (apply Z.pow_pos_nonneg; lia).
  assert (0 < 2 ^ sF) by (apply Z.pow_pos_nonneg; lia).
  rewrite (Z.sgn_pos (F * 2 ^ sF)), (Z.abs_eq (F * 2 ^ sF)), Z.mul_1_l by nia.
  destruct (Z.leb_spec 0 (- s1 - - sF)).
  - eexists _, _. split; [done|]. split; [nia|].
    assert (2 ^ s1 * 2 ^ (- s1 - - sF) = 2 ^ sF) as Hp
      by (rewrite <-Z.pow_add_r by lia; f_equal; lia).
    rewrite <-(Z.mul_assoc p), Hp. lia.
  - eexists _, _. split; [done|].
    assert (2 ^ sF * 2 ^ (- (- s1 - - sF)) = 2 ^ s1) as Hp
      by (rewrite <-Z.pow_add_r by lia; f_equal; lia).
    rewrite <-Z.mul_assoc, Hp. split; [nia|]. lia.
Qed.

Lemma from_scaled u x d p :
  0 <= d <= 15 → is_pow10 x d → Z.abs p <= 2 ^ 50 →
  llround u (mul_double (div_double (double_of_Z p) x) x) = p.
Proof.
  intros Hd Hx Hp. destruct (double_of_Z_exact p Hp) as (s & Hs & ->).
  pose proof Hx as (sF & HsF & Heq). rewrite Heq at 1.
  assert (0 < 10 ^ d) by (apply Z.pow_pos_nonneg; lia).
  destruct (div_double_ratio p s (10 ^ d) sF) as (num & den & -> & Hden & Hnum); [done..|].
  by apply (scaled_exact u x d).
Qed.

(** Converting a tick count to a decimal price and back is the identity,
    and so for lots, up to [2 ^ 50] units on either side of zero. *)
Theorem ToPrice_FromPrice asserts u dp dq scale n :
  0 <= dp <= 15 → 0 <= dq <= 15 → new_InstrumentScale asserts dp dq = Done scale →
  Z.abs n <= 2 ^ 50 →
  ToPrice u scale (FromPrice scale n) = n ∧ ToQuantity u scale (FromQuantity scale n) = n.
Proof.
  intros Hp Hq Hnew Hn.
  destruct (scale_factors asserts dp dq Hp Hq) as (scale' & Hnew' & Hx & Hy).
  rewrite Hnew in Hnew'. injection Hnew' as <-.
  split; [by apply (from_scaled u _ dp)|by apply (from_scaled u _ dq)].
Qed.

Lemma ToPrice_FromPrice_witness :
  ToPrice demo_unspecified demo_scale (FromPrice demo_scale 640015) = 640015 ∧
  ToQuantity demo_unspecified demo_scale (FromQuantity demo_scale 640015) = 640015.
Proof.
  apply (ToPrice_FromPrice true demo_unspecified 1 8 demo_scale 640015);
    [lia|lia|by vm_compute|vm_compute; discriminate].
Defined.
