(* ===== verification/DeribitWire.v ===== *)
(** * Deribit FIX market data: [book_adapter/deribit_fix_book_wire.{h,cpp}]

    One journaled FIX message becomes a snapshot, a batch of updates, nothing,
    or an error naming the instrument when the message got far enough to. *)

From S2P Require Import Prelude BookTypes Text Scale FixMessage L2Policy.

Inductive FixBookMessageKind : Type :=
| kIgnored
| kSnapshot
| kUpdate.

#[export] Instance FixBookMessageKind_eq_dec : EqDecision FixBookMessageKind.
Proof. solve_decision. Defined.

Record DeribitFixBookMessage := mkDeribitFixBookMessage {
  dm_kind : FixBookMessageKind;
  dm_symbol : bytes;
  dm_snapshot : UnsequencedL2Snapshot;
  dm_updates : list L2Update;
}.

Record DeribitFixParseError := mkDeribitFixParseError {
  dpe_what : bytes;
  dpe_symbol : bytes;
}.

Definition kEntryTypeBid : Z := 0.
Definition kEntryTypeOffer : Z := 1.
Definition kActionNew : Z := 0.
Definition kActionChange : Z := 1.
Definition kActionDelete : Z := 2.

Definition kSnapshotEntryTags : list Z :=
  [tag.kMdEntryType; tag.kMdEntryPx; tag.kMdEntrySize; tag.kMdEntryDate].
Definition kIncrementalEntryTags : list Z :=
  [tag.kMdUpdateAction; tag.kMdEntryType; tag.kMdEntryPx; tag.kMdEntrySize; tag.kMdEntryDate].

Definition Fail {A} (what symbol : bytes) : expected DeribitFixParseError A :=
  Unexpected (mkDeribitFixParseError what symbol).

Definition EntryText (problem : bytes) (index : Z) : bytes :=
  problem ++ B " in entry " ++ to_string index.

Section wire.
Variable llround_unspecified : double → Z.

Definition ParseSide (entry : list Field) (index : Z) : expected bytes Side :=
  match GroupEntry_GetInt entry tag.kMdEntryType with
  | None => Unexpected (EntryText (B "no usable MDEntryType(269)") index)
  | Some entry_type =>
      if entry_type =? kEntryTypeBid then Expected kBid
      else if entry_type =? kEntryTypeOffer then Expected kAsk
      else Unexpected (EntryText (B "MDEntryType(269) is neither bid nor offer") index)
  end.

Definition ParsePrice (entry : list Field) (index : Z) : expected bytes double :=
  match (match GroupEntry_Get entry tag.kMdEntryPx with
         | Some price_text => ParseDecimal price_text
         | None => None
         end) with
  | Some price => Expected price
  | None => Unexpected (EntryText (B "no usable MDEntryPx(270)") index)
  end.

Definition ParseSize (entry : list Field) (index : Z) (operation : L2Operation)
  : expected bytes double :=
  match GroupEntry_Get entry tag.kMdEntrySize with
  | Some size_text =>
      match ParseDecimal size_text with
      | Some parsed =>
          if negative parsed then Unexpected (EntryText (B "no usable MDEntrySize(271)") index)
          else Expected parsed
      | None => Unexpected (EntryText (B "no usable MDEntrySize(271)") index)
      end
  | None =>
      if bool_decide (operation ≠ kDelete)
      then Unexpected (EntryText (B "no MDEntrySize(271)") index)
      else Expected (Finite 0 0)
  end.

Definition ParseEntry (entry : list Field) (index : Z) (operation : L2Operation)
    (scale : InstrumentScale) : expected bytes L2Update :=
  let? side := ParseSide entry index in
  let? price := ParsePrice entry index in
  let? size := ParseSize entry index operation in
  Expected (mkL2Update side (ToPrice llround_unspecified scale price)
              (ToQuantity llround_unspecified scale size) operation).

Definition ParseAction (entry : list Field) (index : Z) : expected bytes L2Operation :=
  match GroupEntry_GetInt entry tag.kMdUpdateAction with
  | None => Unexpected (EntryText (B "no usable MDUpdateAction(279)") index)
  | Some action =>
      if action =? kActionNew then Expected kNew
      else if action =? kActionChange then Expected kChange
      else if action =? kActionDelete then Expected kDelete
      else Unexpected (EntryText (B "MDUpdateAction(279) is not New, Change or Delete") index)
  end.

Definition ReadEntries (message : ParsedMessage) (member_tags : list Z)
  : expected bytes RepeatingGroup :=
  let? group := ReadGroup message tag.kNoMdEntries member_tags in
  if Truncated group then
    Unexpected (B "NoMDEntries(268) declares " ++ to_string (declared_count group) ++
                B " entries but " ++ to_string (Z.of_nat (length (entries group))) ++
                B " are present")
  else Expected group.

(** The loop over the group's entries; [index] is the next entry's position. *)
Fixpoint parse_entries (is_snapshot : bool) (scale : InstrumentScale) (es : list (list Field))
    (index : Z) : expected bytes (list L2Update) :=
  match es with
  | [] => Expected []
  | entry :: es =>
      let? operation := if is_snapshot then Expected kNew else ParseAction entry index in
      let? update := ParseEntry entry index operation scale in
      let? updates := parse_entries is_snapshot scale es (index + 1) in
      Expected (update :: updates)
  end.

Definition ParseDeribitFixMessage (payload : bytes) (scale : InstrumentScale)
  : expected DeribitFixParseError DeribitFixBookMessage :=
  match ParseMessage payload with
  | Unexpected e => Fail e []
  | Expected parsed =>
      let type := MsgType parsed in
      let is_snapshot := bool_decide (type = msg_type.kMarketDataSnapshotFullRefresh) in
      if negb is_snapshot && bool_decide (type ≠ msg_type.kMarketDataIncrementalRefresh)
      then Expected (mkDeribitFixBookMessage kIgnored [] (mkUnsequencedL2Snapshot []) [])
      else
        match Get parsed tag.kSymbol with
        | None | Some [] => Fail (B "market data message without a Symbol(55)") []
        | Some symbol =>
            match ReadEntries parsed
                    (if is_snapshot then kSnapshotEntryTags else kIncrementalEntryTags) with
            | Unexpected e => Fail e symbol
            | Expected group =>
                match parse_entries is_snapshot scale (entries group) 0 with
                | Unexpected e => Fail e symbol
                | Expected updates =>
                    Expected
                      (if is_snapshot
                       then mkDeribitFixBookMessage kSnapshot symbol
                              (mkUnsequencedL2Snapshot updates) []
                       else mkDeribitFixBookMessage kUpdate symbol
                              (mkUnsequencedL2Snapshot []) updates)
                end
            end
        end
  end.
End wire.
