(* ===== verification/DeribitRoundTrip.v ===== *)
(** * What a Deribit market-data message means

    A 35=W or 35=X message that carries its levels as plain decimals is read as
    exactly those levels in ticks and lots, and whatever a message holds, what
    is read of it is whole. *)

From S2P Require Import Prelude BookTypes Text Scale ScaleExact FixMessage FixRoundTrip FixSound.
From S2P Require Import FixGroup L2Policy DeribitWire.

(** ** Levels as the exchange writes them *)

Record wire_level := mkWireLevel {
  wl_side : Side;
  wl_operation : L2Operation;
  wl_price_negative : bool;
  wl_price_whole : bytes;
  wl_price_frac : bytes;
  wl_size_whole : bytes;
  wl_size_frac : bytes;
}.

Definition side_value (s : Side) : bytes := match s with kBid => B "0" | kAsk => B "1" end.
Definition action_value (o : L2Operation) : bytes :=
  match o with kNew => B "0" | kChange => B "1" | kDelete => B "2" end.

Definition price_text (l : wire_level) : bytes :=
  decimal_text (wl_price_negative l) (wl_price_whole l) (wl_price_frac l).
Definition size_text (l : wire_level) : bytes :=
  decimal_text false (wl_size_whole l) (wl_size_frac l).

Definition level_fields (is_snapshot : bool) (l : wire_level) : list Field :=
  (if is_snapshot then [] else [mkField tag.kMdUpdateAction (action_value (wl_operation l))]) ++
  [mkField tag.kMdEntryType (side_value (wl_side l)); mkField tag.kMdEntryPx (price_text l);
   mkField tag.kMdEntrySize (size_text l)].

Definition level_update (dp dq : Z) (is_snapshot : bool) (l : wire_level) : L2Update :=
  mkL2Update (wl_side l)
    (ticks_of (wl_price_negative l) (wl_price_whole l) (wl_price_frac l) dp)
    (ticks_of false (wl_size_whole l) (wl_size_frac l) dq)
    (if is_snapshot then kNew else wl_operation l).

(** Digits with no more decimals than the scale, within [2 ^ 50] units. *)
Definition decimal_fits (neg : bool) (whole frac : bytes) (d : Z) : Prop :=
  all_digits whole ∧ all_digits frac ∧ whole ≠ [] ∧ Z.of_nat (length frac) <= d ∧
  Z.abs (ticks_of neg whole frac d) <= 2 ^ 50.

Definition level_fits (dp dq : Z) (l : wire_level) : Prop :=
  decimal_fits (wl_price_negative l) (wl_price_whole l) (wl_price_frac l) dp ∧
  decimal_fits false (wl_size_whole l) (wl_size_frac l) dq.

(** ** Reading one entry *)

Lemma digits_val_nonneg l : all_digits l → 0 <= digits_val l.
Proof.
  unfold digits_val, digits_val_from. assert (0 <= 0) as H0 by lia. revert H0.
  generalize 0 at 2 4 as acc. intros acc Hacc Hl. revert acc Hacc.
  induction Hl as [|c l Hc _ IH]; intros acc Hacc; simpl; [done|].
  apply IH. unfold is_digit in Hc. unfold digit_val. lia.
Qed.

Lemma round_nearest_not_negative num den :
  0 <= num → 0 < den → negative (round_nearest num den) = false.
Proof.
  intros Hn Hd. unfold round_nearest. destruct (Z.eqb_spec num 0) as [|Hnum]; [done|].
  set (e := Z.max _ _).
  assert (0 <= (ratio_scale (Z.abs num) den e).1 ∧ 0 < (ratio_scale (Z.abs num) den e).2) as [H1 H2].
  { unfold ratio_scale. destruct (Z.leb_spec 0 e); simpl; [split; [lia|]|split; [|lia]].
    - pose proof (Z.pow_pos_nonneg 2 e). nia.
    - pose proof (Z.pow_pos_nonneg 2 (- e)). nia. }
  destruct (ratio_scale (Z.abs num) den e) as [n d]. simpl in *.
  pose proof (half_even_nonneg n d H2 H1). destruct (_ || _); simpl; lia.
Qed.

Section entries.
Context (u : double → Z) (dp dq : Z) (scale : InstrumentScale).
Hypothesis dp_range : 0 <= dp <= 15.
Hypothesis dq_range : 0 <= dq <= 15.
Hypothesis price_factor_exact : is_pow10 (price_factor scale) dp.
Hypothesis quantity_factor_exact : is_pow10 (quantity_factor scale) dq.

Lemma decimal_fits_parse neg whole frac d (r := decimal_ratio neg whole frac 0) :
  d <= 15 → decimal_fits neg whole frac d →
  ParseDecimal (decimal_text neg whole frac) = Some (round_nearest r.1 r.2).
Proof. intros Hd (H1 & H2 & H3 & H4 & H5). by apply (ParseDecimal_text _ _ _ d). Qed.

Lemma size_not_negative whole frac d (r := decimal_ratio false whole frac 0) :
  decimal_fits false whole frac d → negative (round_nearest r.1 r.2) = false.
Proof.
  intros (Hw & Hf & _ & Hd & _). destruct (decimal_ratio_ticks false whole frac d Hd) as [Hden _].
  apply round_nearest_not_negative; [|done]. subst r. unfold decimal_ratio.
  assert (0 <= digits_val (whole ++ frac)) by (apply digits_val_nonneg, Forall_app; done).
  destruct (Z.leb_spec 0 (0 - Z.of_nat (length frac))); simpl; [|done].
  pose proof (Z.pow_pos_nonneg 10 (0 - Z.of_nat (length frac))). nia.
Qed.

Lemma ParseEntry_level is_snapshot l index :
  level_fits dp dq l →
  ParseEntry u (level_fields is_snapshot l) index
    (if is_snapshot then kNew else wl_operation l) scale =
  Expected (level_update dp dq is_snapshot l).
Proof.
  intros [Hp Hq]. unfold ParseEntry, ParseSide, ParsePrice, ParseSize.
  assert (∀ t, t ≠ tag.kMdUpdateAction →
    GroupEntry_Get (level_fields is_snapshot l) t = GroupEntry_Get (level_fields true l) t) as Hget.
  { intros t Ht. destruct is_snapshot; [done|]. unfold GroupEntry_Get.
    change (level_fields false l) with
      (mkField tag.kMdUpdateAction (action_value (wl_operation l)) :: level_fields true l).
    cbn [FirstValue f_tag]. by rewrite (proj2 (Z.eqb_neq tag.kMdUpdateAction t)) by done. }
  unfold GroupEntry_GetInt. rewrite !Hget by done.
  replace (GroupEntry_Get (level_fields true l) tag.kMdEntryType) with (Some (side_value (wl_side l)))
    by done.
  replace (GroupEntry_Get (level_fields true l) tag.kMdEntryPx) with (Some (price_text l)) by done.
  replace (GroupEntry_Get (level_fields true l) tag.kMdEntrySize) with (Some (size_text l)) by done.
  replace (match ToInt (side_value (wl_side l)) with
           | Some entry_type =>
               if entry_type =? kEntryTypeBid then Expected kBid
               else if entry_type =? kEntryTypeOffer then Expected kAsk
               else Unexpected (EntryText (B "MDEntryType(269) is neither bid nor offer") index)
           | None => Unexpected (EntryText (B "no usable MDEntryType(269)") index)
           end) with (Expected (wl_side l) : expected bytes Side)
    by (by destruct (wl_side l)).
  cbn [expected_bind]. unfold price_text, size_text.
  rewrite (decimal_fits_parse _ _ _ dp), (decimal_fits_parse _ _ _ dq) by (done || lia).
  cbn [expected_bind]. rewrite (size_not_negative _ _ dq) by done. cbn [expected_bind].
  destruct Hp as (_ & _ & _ & Hp1 & Hp2), Hq as (_ & _ & _ & Hq1 & Hq2).
  unfold level_update. do 2 f_equal; apply ticks_exact; done || lia.
Qed.

Lemma ParseAction_level l index :
  ParseAction (level_fields false l) index = Expected (wl_operation l).
Proof. by destruct l as [? [] ? ? ? ? ?]. Qed.

Lemma parse_entries_levels is_snapshot levels index :
  Forall (level_fits dp dq) levels →
  parse_entries u is_snapshot scale (level_fields is_snapshot <$> levels) index =
    Expected (level_update dp dq is_snapshot <$> levels).
Proof.
  intros Hall. revert index. induction Hall as [|l levels Hl _ IH]; intros index; [done|].
  cbn [fmap list_fmap parse_entries].
  replace (if is_snapshot then Expected kNew else ParseAction (level_fields is_snapshot l) index)
    with (Expected (if is_snapshot then kNew else wl_operation l) : expected bytes L2Operation)
    by (destruct is_snapshot; [done|by rewrite ParseAction_level]).
  cbn [expected_bind]. rewrite ParseEntry_level by done. cbn [expected_bind]. by rewrite IH.
Qed.
End entries.

(** ** The whole message *)

Definition market_type (is_snapshot : bool) : bytes :=
  if is_snapshot then msg_type.kMarketDataSnapshotFullRefresh
  else msg_type.kMarketDataIncrementalRefresh.

Definition entry_tags (is_snapshot : bool) : list Z :=
  if is_snapshot then kSnapshotEntryTags else kIncrementalEntryTags.

(** [header] and [trailer] are whatever other fields the exchange adds. *)
Definition market_fields (is_snapshot : bool) (header : list Field) (levels : list wire_level)
    (trailer : list Field) : list Field :=
  (mkField tag.kMsgType (market_type is_snapshot) :: header) ++
  mkField tag.kNoMdEntries (to_string (Z.of_nat (length levels))) ::
  concat (level_fields is_snapshot <$> levels) ++ trailer.

Definition market_message (is_snapshot : bool) (symbol : bytes) (levels : list L2Update)
  : DeribitFixBookMessage :=
  if is_snapshot
  then mkDeribitFixBookMessage kSnapshot symbol (mkUnsequencedL2Snapshot levels) []
  else mkDeribitFixBookMessage kUpdate symbol (mkUnsequencedL2Snapshot []) levels.

Lemma FirstValue_app a b t v : FirstValue a t = Some v → FirstValue (a ++ b) t = Some v.
Proof. induction a as [|x a IH]; [done|]. simpl. by destruct (_ =? _). Qed.

Lemma level_repetitions is_snapshot levels :
  Forall (repetition (entry_tags is_snapshot)
            (if is_snapshot then tag.kMdEntryType else tag.kMdUpdateAction))
    (level_fields is_snapshot <$> levels).
Proof.
  apply Forall_fmap, Forall_true. intros l. destruct is_snapshot; simpl;
    (split; [done|]); repeat (constructor; [split; [set_solver|done]|]); constructor.
Qed.

Lemma ReadEntries_levels is_snapshot m header levels trailer :
  BodyFields m = market_fields is_snapshot header levels trailer →
  Forall (λ x, f_tag x ≠ tag.kNoMdEntries) header →
  group_ends (entry_tags is_snapshot) trailer → Z.of_nat (length levels) <= i64_max →
  ∃ g, ReadEntries m (entry_tags is_snapshot) = Expected g ∧
    entries g = level_fields is_snapshot <$> levels.
Proof.
  intros Hbody Hheader Htrailer Hlen. unfold ReadEntries.
  change tag.kNoMdEntries with
    (f_tag (mkField tag.kNoMdEntries (to_string (Z.of_nat (length levels))))).
  erewrite (ReadGroup_repetitions (entry_tags is_snapshot)
    (if is_snapshot then tag.kMdEntryType else tag.kMdUpdateAction)
    ltac:(destruct is_snapshot; set_solver) m _ _ _ _ (Z.of_nat (length levels)) Hbody).
  - cbn [expected_bind]. rewrite Nat2Z.id, take_ge by (by rewrite length_fmap).
    unfold Truncated. cbn [entries declared_count].
    rewrite length_fmap, Z.ltb_irrefl. eauto.
  - constructor; [done|exact Hheader].
  - apply ToInt_to_string. lia.
  - lia.
  - apply level_repetitions.
  - done.
Qed.

(** C11: a market-data message that writes its levels as decimals of the
    instrument's scale is read as exactly those levels: the right book, every
    level in order, every price in ticks and size in lots, whatever other
    fields surround the group. *)
Theorem deribit_levels_exact asserts u dp dq scale is_snapshot header symbol levels trailer :
  0 <= dp <= 15 → 0 <= dq <= 15 → new_InstrumentScale asserts dp dq = Done scale →
  outgoing (market_fields is_snapshot header levels trailer) →
  FirstValue header tag.kSymbol = Some symbol → symbol ≠ [] →
  Forall (λ x, f_tag x ≠ tag.kNoMdEntries) header →
  group_ends (entry_tags is_snapshot) trailer →
  Z.of_nat (length levels) <= i64_max → Forall (level_fits dp dq) levels →
  ParseDeribitFixMessage u (BuildMessage (market_fields is_snapshot header levels trailer)) scale =
    Expected (market_message is_snapshot symbol (level_update dp dq is_snapshot <$> levels)).
Proof.
  intros Hp Hq Hnew Hout Hsym Hne Hheader Htrailer Hlen Hfits.
  destruct (scale_factors asserts dp dq Hp Hq) as (scale' & Hnew' & Hx & Hy).
  rewrite Hnew in Hnew'. injection Hnew' as <-.
  unfold ParseDeribitFixMessage. rewrite ParseMessage_built by done.
  set (m := mkParsedMessage _ _).
  destruct (ReadEntries_levels is_snapshot m header levels trailer) as (g & Hg & Hes); [|done..|].
  { by apply BodyFields_envelope. }
  assert (Get m tag.kSymbol = Some symbol) as ->.
  { unfold Get, m, market_fields. cbn [pm_fields app FirstValue f_tag begin_field length_field].
    change (FirstValue ((header ++ mkField tag.kNoMdEntries (to_string (Z.of_nat (length levels))) ::
      concat (level_fields is_snapshot <$> levels) ++ trailer) ++
      [check_field (market_fields is_snapshot header levels trailer)]) tag.kSymbol = Some symbol).
    by do 2 apply FirstValue_app. }
  assert (MsgType m = market_type is_snapshot) as -> by done.
  destruct symbol as [|c symbol]; [done|].
  fold (entry_tags is_snapshot) in *.
  destruct is_snapshot; cbn [market_type entry_tags] in *;
    [change (bool_decide (_ = msg_type.kMarketDataSnapshotFullRefresh)) with true
    |change (bool_decide (_ = msg_type.kMarketDataSnapshotFullRefresh)) with false;
     rewrite (bool_decide_eq_false_2 (_ ≠ _)) by auto]; cbn [negb andb];
    rewrite Hg, Hes, (parse_entries_levels u dp dq) by done; done.
Qed.

Definition demo_wire_levels : list wire_level :=
  [mkWireLevel kBid kNew false (B "64000") (B "5") (B "10") [];
   mkWireLevel kAsk kDelete false (B "64001") [] (B "0") (B "25")].
Definition demo_header : list Field :=
  [mkField tag.kSenderCompId (B "DERIBITSERVER"); mkField tag.kSymbol (B "BTC-PERPETUAL")].

Lemma deribit_levels_exact_witness :
  ParseDeribitFixMessage demo_unspecified
    (BuildMessage (market_fields false demo_header demo_wire_levels [mkField tag.kText (B "x")])) demo_scale
  = Expected (mkDeribitFixBookMessage kUpdate (B "BTC-PERPETUAL") (mkUnsequencedL2Snapshot [])
      [mkL2Update kBid 640005 1000000000 kNew; mkL2Update kAsk 640010 25000000 kDelete]).
Proof.
  rewrite (deribit_levels_exact true demo_unspecified 1 8 demo_scale false demo_header
    (B "BTC-PERPETUAL") demo_wire_levels [mkField tag.kText (B "x")]).
  - by vm_compute.
  - lia.
  - lia.
  - by vm_compute.
  - split; [|split].
    + apply (bool_decide_unpack (_ ∧ _ ∧ Forall _ _)). by vm_compute.
    + apply (bool_decide_unpack _). by vm_compute.
    + vm_compute. discriminate.
  - by vm_compute.
  - done.
  - repeat constructor; done.
  - simpl. set_solver.
  - vm_compute. discriminate.
  - repeat (constructor || split); done || (vm_compute; discriminate).
Defined.

(** ** Never a partial batch *)

Lemma scan_entry_starts_count member_tags delimiter declared rest offset starts :
  Z.of_nat (length starts) <= declared →
  Z.of_nat (length (scan_entry_starts member_tags delimiter declared rest offset starts).1)
    <= declared.
Proof.
  revert offset starts. induction rest as [|one rest IH]; intros offset starts Hs; simpl; [done|].
  destruct (negb _); [done|]. destruct (f_tag one =? delimiter); [|by apply IH].
  destruct (Z.eqb_spec (Z.of_nat (length starts)) declared); [done|].
  apply IH. rewrite length_app. simpl. lia.
Qed.

Lemma cut_entries_length fields starts offset :
  length (cut_entries fields starts offset) = length starts.
Proof. induction starts as [|s starts IH]; simpl; [done|]. by rewrite IH. Qed.

Lemma ReadGroup_count m count_tag member_tags g :
  ReadGroup m count_tag member_tags = Expected g →
  Z.of_nat (length (entries g)) <= declared_count g.
Proof.
  unfold ReadGroup. destruct (find_tag _ _) as [at_|]; [|done].
  destruct (ToInt _) as [declared|]; [|done].
  destruct (Z.ltb_spec declared 0); [done|].
  destruct (Z.eqb_spec declared 0); [intros [= <-]; done|].
  destruct (_ !! S at_) as [first|]; [|intros [= <-]; done].
  destruct (negb _); [intros [= <-]; done|].
  pose proof (scan_entry_starts_count member_tags (f_tag first) declared
    (drop (S at_) (BodyFields m)) (S at_) [] ltac:(simpl; lia)) as Hcount.
  destruct (scan_entry_starts _ _ _ _ _ _) as [starts offset]. intros [= <-]. simpl.
  by rewrite cut_entries_length.
Qed.

(** How one entry of a message became one level. *)
Definition entry_read (u : double → Z) (scale : InstrumentScale) (is_snapshot : bool)
    (entry : list Field) (level : L2Update) : Prop :=
  ∃ index, ParseEntry u entry index (l2u_operation level) scale = Expected level ∧
    if is_snapshot then l2u_operation level = kNew
    else ParseAction entry index = Expected (l2u_operation level).

Lemma ParseEntry_operation u entry index op scale level :
  ParseEntry u entry index op scale = Expected level → l2u_operation level = op.
Proof.
  unfold ParseEntry. destruct (ParseSide _ _); [|done]. destruct (ParsePrice _ _); [|done].
  destruct (ParseSize _ _ _); [|done]. by intros [= <-].
Qed.

Lemma parse_entries_each u is_snapshot scale es index levels :
  parse_entries u is_snapshot scale es index = Expected levels →
  Forall2 (entry_read u scale is_snapshot) es levels.
Proof.
  revert index levels. induction es as [|entry es IH]; intros index levels; simpl.
  { intros [= <-]. constructor. }
  destruct (if is_snapshot then _ else _) as [op|] eqn:Hop; [|done]. cbn [expected_bind].
  destruct (ParseEntry _ _ _ _ _) as [level|] eqn:Hentry; [|done]. cbn [expected_bind].
  destruct (parse_entries _ _ _ _ _) as [rest|] eqn:Hrest; [|done]. intros [= <-].
  constructor; [|by eapply IH]. pose proof (ParseEntry_operation _ _ _ _ _ _ Hentry) as <-.
  exists index. split; [done|]. destruct is_snapshot; [by injection Hop|done].
Qed.

(** C26: a message is used whole or not at all. One that yields a snapshot or a
    batch was a valid FIX message naming its instrument, its group held as many
    entries as it declared, and every entry, in order, became one level. *)
Theorem deribit_whole_message u payload scale msg :
  ParseDeribitFixMessage u payload scale = Expected msg → dm_kind msg ≠ kIgnored →
  ∃ m g is_snapshot,
    ParseMessage payload = Expected m ∧ MsgType m = market_type is_snapshot ∧
    Get m tag.kSymbol = Some (dm_symbol msg) ∧ dm_symbol msg ≠ [] ∧
    ReadGroup m tag.kNoMdEntries (entry_tags is_snapshot) = Expected g ∧
    ∃ levels, msg = market_message is_snapshot (dm_symbol msg) levels ∧
      Z.of_nat (length levels) = declared_count g ∧
      Forall2 (entry_read u scale is_snapshot) (entries g) levels.
Proof.
  unfold ParseDeribitFixMessage. destruct (ParseMessage payload) as [m|]; [|done].
  set (is_snapshot := bool_decide (MsgType m = _)).
  destruct (negb is_snapshot && _) eqn:Htype; [by intros [= <-]|].
  assert (MsgType m = market_type is_snapshot) as Hmt.
  { subst is_snapshot. case_bool_decide as Hs; [done|]. simpl in Htype.
    apply bool_decide_eq_false in Htype. by apply dec_stable. }
  fold (entry_tags is_snapshot).
  destruct (Get m tag.kSymbol) as [[|c symbol]|] eqn:Hsym; [done| |done].
  destruct (ReadEntries m (entry_tags is_snapshot)) as [g|] eqn:Hg; [|done].
  destruct (parse_entries _ _ _ _ _) as [levels|] eqn:Hes; [|done].
  intros [= <-] _. unfold ReadEntries in Hg.
  destruct (ReadGroup _ _ _) as [g'|] eqn:Hread; [|done]. cbn [expected_bind] in Hg.
  destruct (Truncated g') eqn:Htr; [done|]. injection Hg as ->.
  apply parse_entries_each in Hes. pose proof (Forall2_length _ _ _ Hes) as Hlen.
  pose proof (ReadGroup_count _ _ _ _ Hread). unfold Truncated in Htr. apply Z.ltb_ge in Htr.
  exists m, g, is_snapshot. destruct is_snapshot; split_and!; try done;
    exists levels; split_and!; try done; lia.
Qed.

Lemma deribit_whole_message_witness :
  ∃ msg m g is_snapshot,
    ParseMessage (BuildMessage (market_fields true demo_header demo_wire_levels [])) = Expected m ∧
    MsgType m = market_type is_snapshot ∧
    Get m tag.kSymbol = Some (dm_symbol msg) ∧ dm_symbol msg ≠ [] ∧
    ReadGroup m tag.kNoMdEntries (entry_tags is_snapshot) = Expected g ∧
    ∃ levels, msg = market_message is_snapshot (dm_symbol msg) levels ∧
      Z.of_nat (length levels) = declared_count g ∧
      Forall2 (entry_read demo_unspecified demo_scale is_snapshot) (entries g) levels.
Proof.
  exists (market_message true (B "BTC-PERPETUAL")
    [mkL2Update kBid 640005 1000000000 kNew; mkL2Update kAsk 640010 25000000 kNew]).
  apply (deribit_whole_message demo_unspecified
    (BuildMessage (market_fields true demo_header demo_wire_levels [])) demo_scale).
  - by vm_compute.
  - discriminate.
Defined.
