(* ===== verification/KrakenWire.v ===== *)
(** * Kraken level3 messages: [order_book/kraken_l3_wire.h]

    The JSON library is third-party: what the source calls of it is the class
    [Json], whose operations return or throw. [std::hash] of a string is
    implementation-defined, the parameter [hash]. *)

From S2P Require Import Prelude BookTypes Text Scale L3Policy KrakenL3Policy.

(** The calls of [nlohmann::json] the source makes. *)
Class Json (json : Type) := {
  json_parse : bytes → outcome json;
  json_contains : json → bytes → bool;
  json_at : json → bytes → outcome json;
  json_string : json → outcome bytes;
  json_double : json → outcome double;
  json_uint32 : json → outcome Z;
  json_elements : json → list json;
}.

Record KrakenL3Message := mkKrakenL3Message {
  km_is_snapshot : bool;
  km_symbol : bytes;
  km_meta : ChecksumMeta;
  km_orders : list KrakenL3Update;
}.

Definition KrakenL3Message_Snapshot (m : KrakenL3Message) : L3Snapshot :=
  mkL3Snapshot (ku_update <$> km_orders m).

Definition ToEventKind (event : bytes) : outcome OrderEventKind :=
  if bool_decide (event = B "add") then Done kAdded
  else if bool_decide (event = B "modify") then Done kModified
  else if bool_decide (event = B "delete") then Done kDeleted
  else Throws ExnRuntimeError.

(** A loop that appends one element per iteration, or throws. *)
Fixpoint outcome_map {A C} (f : A → outcome C) (l : list A) : outcome (list C) :=
  match l with
  | [] => Done []
  | x :: l => do! y := f x in do! ys := outcome_map f l in Done (y :: ys)
  end.

Section wire.
Context {json : Type} `{!Json json}.
Variable llround_unspecified : double → Z.
Variable hash : bytes → Z.

(** [std::hash] gives a [std::size_t]. *)
Definition HashOrderId (raw : bytes) : OrderId := wrap 64 (hash raw).

Definition ParseWirePayload (payload : bytes) : outcome json := json_parse payload.

Definition parse_order (side : Side) (scale : InstrumentScale) (to_order_id : bytes → OrderId)
    (entry : json) : outcome KrakenL3Update :=
  do! event := (if json_contains entry (B "event")
                then do! e := json_at entry (B "event") in
                     do! text := json_string e in ToEventKind text
                else Done kAdded) in
  do! id := json_at entry (B "order_id") in
  do! id_text := json_string id in
  do! price := json_at entry (B "limit_price") in
  do! price := json_double price in
  do! qty := json_at entry (B "order_qty") in
  do! qty := json_double qty in
  do! time := json_at entry (B "timestamp") in
  do! timestamp := json_string time in
  Done (mkKrakenL3Update
          (mkL3Update event (to_order_id id_text) side (ToPrice llround_unspecified scale price)
             (ToQuantity llround_unspecified scale qty)) timestamp).

Definition AppendSide (out : list KrakenL3Update) (data : json) (side : Side) (key : bytes)
    (scale : InstrumentScale) (to_order_id : bytes → OrderId) : outcome (list KrakenL3Update) :=
  do! entries := json_at data key in
  do! orders := outcome_map (parse_order side scale to_order_id) (json_elements entries) in
  Done (out ++ orders).

Definition parse_entry (is_snapshot : bool) (scale : InstrumentScale)
    (to_order_id : bytes → OrderId) (data : json) : outcome KrakenL3Message :=
  do! symbol := json_at data (B "symbol") in
  do! symbol := json_string symbol in
  do! sum := json_at data (B "checksum") in
  do! sum := json_uint32 sum in
  do! bids := AppendSide [] data kBid (B "bids") scale to_order_id in
  do! orders := AppendSide bids data kAsk (B "asks") scale to_order_id in
  Done (mkKrakenL3Message is_snapshot symbol (mkChecksumMeta sum) orders).

Definition ParseKrakenL3Messages (message : json) (scale : InstrumentScale)
    (to_order_id : bytes → OrderId) : outcome (list KrakenL3Message) :=
  if negb (json_contains message (B "channel")) then Done []
  else
    do! channel := json_at message (B "channel") in
    do! channel := json_string channel in
    if bool_decide (channel ≠ B "level3") then Done []
    else
      do! type := json_at message (B "type") in
      do! type := json_string type in
      if bool_decide (type ≠ B "snapshot") && bool_decide (type ≠ B "update") then Done []
      else
        let is_snapshot := bool_decide (type = B "snapshot") in
        do! entries := json_at message (B "data") in
        outcome_map (parse_entry is_snapshot scale to_order_id) (json_elements entries).
End wire.
