(* ===== verification/BookAdapter.v ===== *)
(** * From frames to books: [book_adapter/book_adapter.{h,cpp}], [book_settings.h]

    One adapter holds the connections, one connection its books by symbol. A
    member function of the connection is an [exec] on it; a [try] block is
    [try_catch]. The books' listener only counts integrity issues, so the calls
    the engine makes on it are folded into the connection's counters as soon as
    the engine returns or throws. Log lines are not modelled, only the state
    that limits them ([drop_logged]). The clock readings of a frame are the
    parameter [now]. *)

From S2P Require Import Prelude BookTypes Text Scale Engine L2Policy L3Policy KrakenL3Policy.
From S2P Require Import KrakenWire FixMessage DeribitWire Feed.

(** [ToString]. *)
Definition ToString (issue : IntegrityIssue) : bytes :=
  match issue with
  | kGap => B "gap"
  | kChecksumMismatch => B "checksum_mismatch"
  | kCrossedBook => B "crossed_book"
  | kUnknownOrder => B "unknown_order"
  | kUnknownLevel => B "unknown_level"
  end.

(** ** [ConnectionStats] *)

(** The counters; [issues] is indexed by the kind of issue. *)
Inductive counter : Type :=
| frames | snapshots | updates | updates_before_snapshot | updates_while_desynced
| frames_ignored_stale | frames_unsupported | parse_errors | apply_errors | drops
| connects | disconnects | issues (issue : IntegrityIssue) | parse_ns | apply_ns.

#[export] Instance counter_eq_dec : EqDecision counter.
Proof. solve_decision. Defined.

Definition ConnectionStats : Type := counter → Z.
Definition new_ConnectionStats : ConnectionStats := λ _, 0.

(** [stats.c += n] on an unsigned 64-bit member. *)
Definition add_to (c : counter) (n : Z) (stats : ConnectionStats) : ConnectionStats := λ c',
  if decide (c' = c) then wrap 64 (stats c + n) else stats c'.

Definition IssueCount (stats : ConnectionStats) (issue : IntegrityIssue) : Z := stats (issues issue).

Definition TotalIssues (stats : ConnectionStats) : Z :=
  foldl (λ total issue, wrap 64 (total + stats (issues issue))) 0
    [kGap; kChecksumMismatch; kCrossedBook; kUnknownOrder; kUnknownLevel].

(** [BookListener], one engine call at a time. *)
Definition book_hooks : ListenerHooks := Build_ListenerHooks false false true.
Definition BookListener (n : Notification) (stats : ConnectionStats) : ConnectionStats :=
  match n with
  | OnIntegrityCheckFailed issue => add_to (issues issue) 1 stats
  | _ => stats
  end.

(** [try { m } catch (const std::exception&) { handler }]. *)
Definition try_catch {S A} (m : exec S A) (handler : exec S A) : exec S A := λ s,
  match m s with
  | (s', Throws _) => handler s'
  | r => r
  end.

(** ** [AdapterBook] *)

Section adapter_book.
Context {P CS : Type} `{!ChangeSetShape CS}.
Variable policy_Best : P → Side → outcome (option BookEntry).

Record AdapterBook := mkAdapterBook {
  ab_symbol : bytes;
  ab_book : OrderBook P;
  ab_desynced : bool;
}.

Definition new_AdapterBook (symbol : bytes) (policy : P) : AdapterBook :=
  mkAdapterBook symbol (new_OrderBook policy) false.

Definition GetReadiness (b : AdapterBook) : Readiness :=
  if ab_desynced b then kDesynced else ob_readiness (ab_book b).
Definition AdapterBook_IsReady (b : AdapterBook) : bool := bool_decide (GetReadiness b = kReady).
Definition AdapterBook_Best (b : AdapterBook) (side : Side) : outcome (option BookEntry) :=
  Best policy_Best (ab_book b) side.

Definition MarkDesynced (b : AdapterBook) : AdapterBook :=
  mkAdapterBook (ab_symbol b) (ab_book b) true.
Definition clear_desynced (b : AdapterBook) : AdapterBook :=
  mkAdapterBook (ab_symbol b) (ab_book b) false.

(** A call on [book_], whose listener counts into [stats]. *)
Definition on_engine (m : exec (OrderBook P) unit) : exec (AdapterBook * ConnectionStats) unit :=
  λ '(b, stats),
  let '(ob, r) := m (ab_book b) in
  ((mkAdapterBook (ab_symbol b) (mkOrderBook (ob_policy ob) (ob_readiness ob) [])
      (ab_desynced b),
    foldl (λ st n, BookListener n st) stats (ob_calls ob)), r).

Definition AdapterBook_ApplySnapshot (policy_ApplySnapshot : exec P CS)
  : exec (AdapterBook * ConnectionStats) unit := λ '(b, stats),
  on_engine (ApplySnapshot book_hooks policy_Best policy_ApplySnapshot) (clear_desynced b, stats).

Definition AdapterBook_ApplyBatch (policy_ApplyBatch : exec P CS)
  : exec (AdapterBook * ConnectionStats) unit :=
  on_engine (ApplyBatch book_hooks policy_Best policy_ApplyBatch).
End adapter_book.

Arguments AdapterBook : clear implicits.
Arguments mkAdapterBook {P}.

Definition KrakenBook : Type := AdapterBook KrakenL3Policy.
Definition DeribitBook : Type := AdapterBook UnsequencedL2Policy.

(** ** [Connection] *)

Record BookSettings := mkBookSettings {
  source : FrameSource;
  scale : InstrumentScale;
  kraken_depth : Z;
}.

Record Connection := mkConnection {
  name : bytes;
  settings : BookSettings;
  stats : ConnectionStats;
  connect_id : Z;
  stale : bool;
  drop_logged : bool;
  books : gmap bytes KrakenBook;
  deribit_books : gmap bytes DeribitBook;
}.

Definition new_Connection (name : bytes) (settings : BookSettings) : Connection :=
  mkConnection name settings new_ConnectionStats 0 false false ∅ ∅.

Definition set_stats (st : ConnectionStats) (c : Connection) : Connection :=
  mkConnection (name c) (settings c) st (connect_id c) (stale c) (drop_logged c) (books c)
    (deribit_books c).
Definition set_books (bs : gmap bytes KrakenBook) (c : Connection) : Connection :=
  mkConnection (name c) (settings c) (stats c) (connect_id c) (stale c) (drop_logged c) bs
    (deribit_books c).
Definition set_deribit_books (bs : gmap bytes DeribitBook) (c : Connection) : Connection :=
  mkConnection (name c) (settings c) (stats c) (connect_id c) (stale c) (drop_logged c) (books c) bs.

Definition count (n : counter) : exec Connection unit := λ c,
  (set_stats (add_to n 1 (stats c)) c, Done tt).
Definition count_time (timed : bool) (n : counter) (elapsed : Z) : exec Connection unit := λ c,
  (if timed then set_stats (add_to n (wrap 64 elapsed) (stats c)) c else c, Done tt).

Definition MarkAllDesynced : exec Connection unit := λ c,
  (set_deribit_books (MarkDesynced <$> deribit_books c) (set_books (MarkDesynced <$> books c) c),
   Done tt).

(** A call on one book of the connection, stored whatever its outcome. *)
Definition on_kraken_book (symbol : bytes) (book : KrakenBook)
    (m : exec (KrakenBook * ConnectionStats) unit) : exec Connection unit := λ c,
  let '((book', st'), r) := m (book, stats c) in
  (set_books (<[symbol := book']> (books c)) (set_stats st' c), r).
Definition on_deribit_book (symbol : bytes) (book : DeribitBook)
    (m : exec (DeribitBook * ConnectionStats) unit) : exec Connection unit := λ c,
  let '((book', st'), r) := m (book, stats c) in
  (set_deribit_books (<[symbol := book']> (deribit_books c)) (set_stats st' c), r).

(** [MarkDesynced] on the book of [symbol], if there is one. *)
Definition desync_kraken (symbol : bytes) : exec Connection unit := λ c,
  (set_books (alter MarkDesynced symbol (books c)) c, Done tt).
Definition desync_deribit (symbol : bytes) : exec Connection unit := λ c,
  (set_deribit_books (alter MarkDesynced symbol (deribit_books c)) c, Done tt).

(** ** The handlers *)

Section adapter.
Context {json : Type} `{!Json json}.
Variable llround_unspecified : double → Z.
Variable hash : bytes → Z.
Variable asserts : bool.

(** The body of [OnKrakenFrame]'s loop over the messages, inside its [try]. *)
Definition apply_kraken_message (message : KrakenL3Message) : exec Connection unit :=
  let! c := exec_get in
  let found := books c !! km_symbol message in
  if km_is_snapshot message then
    run! count snapshots ;;
    let book := default (new_AdapterBook (km_symbol message)
                           (new_KrakenL3Policy (kraken_depth (settings c)))) found in
    on_kraken_book (km_symbol message) book
      (AdapterBook_ApplySnapshot KrakenL3Policy_Best
         (KrakenL3Policy_ApplySnapshot (KrakenL3Message_Snapshot message) (km_meta message)))
  else
    run! count updates ;;
    match found with
    | None => count updates_before_snapshot
    | Some book =>
        if negb (AdapterBook_IsReady book) then count updates_while_desynced
        else on_kraken_book (km_symbol message) book
               (AdapterBook_ApplyBatch KrakenL3Policy_Best
                  (KrakenL3Policy_ApplyBatch (km_orders message) (km_meta message)))
    end.

Definition on_kraken_message (message : KrakenL3Message) : exec Connection unit :=
  try_catch (apply_kraken_message message)
    (run! count apply_errors ;; desync_kraken (km_symbol message)).

Definition parse_kraken_frame (c : Connection) (payload : bytes) : outcome (list KrakenL3Message) :=
  do! message := ParseWirePayload payload in
  ParseKrakenL3Messages llround_unspecified message (scale (settings c)) (HashOrderId hash).

(** [now i] is the [i]-th clock reading while the frame is handled. *)
Definition OnKrakenFrame (timed : bool) (now : nat → Z) (frame : CaptureFrame)
  : exec Connection unit :=
  let! c := exec_get in
  match parse_kraken_frame c (cf_payload frame) with
  | Throws _ =>
      run! count parse_errors ;;
      run! MarkAllDesynced ;;
      count_time timed parse_ns (now 1%nat - now 0%nat)
  | Undef u => exec_lift (Undef u)
  | Done messages =>
      run! count_time timed parse_ns (now 1%nat - now 0%nat) ;;
      run! exec_each on_kraken_message messages ;;
      count_time timed apply_ns (now 2%nat - now 1%nat)
  end.

Definition OnDeribitParseError (error : DeribitFixParseError) : exec Connection unit :=
  run! count parse_errors ;;
  if bool_decide (dpe_symbol error = []) then MarkAllDesynced
  else desync_deribit (dpe_symbol error).

Definition ApplyDeribitSnapshot (message : DeribitFixBookMessage) : exec Connection unit :=
  run! count snapshots ;;
  let! c := exec_get in
  let book := default (new_AdapterBook (dm_symbol message) L2Levels_init)
                (deribit_books c !! dm_symbol message) in
  on_deribit_book (dm_symbol message) book
    (AdapterBook_ApplySnapshot UnsequencedL2Policy_Best
       (UnsequencedL2Policy_ApplySnapshot (dm_snapshot message))).

Definition ApplyDeribitUpdate (message : DeribitFixBookMessage) : exec Connection unit :=
  run! count updates ;;
  let! c := exec_get in
  match deribit_books c !! dm_symbol message with
  | None => count updates_before_snapshot
  | Some book =>
      if negb (AdapterBook_IsReady book) then count updates_while_desynced
      else on_deribit_book (dm_symbol message) book
             (AdapterBook_ApplyBatch UnsequencedL2Policy_Best
                (UnsequencedL2Policy_ApplyBatch asserts (dm_updates message)))
  end.

Definition ApplyDeribitMessage (message : DeribitFixBookMessage) : exec Connection unit :=
  if bool_decide (dm_kind message = kIgnored) then exec_ret tt
  else
    try_catch
      (if bool_decide (dm_kind message = kSnapshot) then ApplyDeribitSnapshot message
       else ApplyDeribitUpdate message)
      (run! count apply_errors ;; desync_deribit (dm_symbol message)).

Definition OnDeribitFixFrame (timed : bool) (now : nat → Z) (frame : CaptureFrame)
  : exec Connection unit :=
  let! c := exec_get in
  run! count_time timed parse_ns (now 1%nat - now 0%nat) ;;
  match ParseDeribitFixMessage llround_unspecified (cf_payload frame) (scale (settings c)) with
  | Unexpected error => OnDeribitParseError error
  | Expected message =>
      run! ApplyDeribitMessage message ;;
      count_time timed apply_ns (now 2%nat - now 1%nat)
  end.

(** [OnConnect], [OnDisconnect], [OnFramesDropped] and [OnFrame] on the
    connection the handle names. *)
Definition conn_OnConnect (id : Z) : exec Connection unit :=
  run! (λ c, (mkConnection (name c) (settings c) (stats c) id false false ∅ ∅, Done tt)) ;;
  count connects.

Definition conn_OnDisconnect : exec Connection unit :=
  run! (λ c, (mkConnection (name c) (settings c) (stats c) (connect_id c) true (drop_logged c)
                (books c) (deribit_books c), Done tt)) ;;
  count disconnects.

Definition conn_OnFramesDropped (n : Z) : exec Connection unit :=
  run! (λ c, (set_stats (add_to drops n (stats c)) c, Done tt)) ;;
  run! MarkAllDesynced ;;
  λ c, (mkConnection (name c) (settings c) (stats c) (connect_id c) (stale c) true (books c)
          (deribit_books c), Done tt).

Definition conn_OnFrame (timed : bool) (now : nat → Z) (frame : CaptureFrame)
  : exec Connection unit :=
  run! count frames ;;
  let! c := exec_get in
  if stale c then count frames_ignored_stale
  else
    match source (settings c) with
    | kKrakenJson => OnKrakenFrame timed now frame
    | kDeribitFix => OnDeribitFixFrame timed now frame
    | kUnknown => count frames_unsupported
    end.

Definition conn_OnEvent (timed : bool) (now : nat → Z) (event : FeedEvent) : exec Connection unit :=
  match event with
  | FrameEvent frame => conn_OnFrame timed now frame
  | ConnectEvent id _ => conn_OnConnect id
  | DisconnectEvent _ => conn_OnDisconnect
  end.

(** ** [BookAdapter] *)

Record BookAdapter := mkBookAdapter {
  measure_timing : bool;
  connections : list Connection;
}.

Definition new_BookAdapter (measure_timing : bool) : BookAdapter := mkBookAdapter measure_timing [].

Definition ConnectionCount (a : BookAdapter) : nat := length (connections a).

Definition AddConnection (nm : bytes) (s : BookSettings) (a : BookAdapter) : BookAdapter * nat :=
  (mkBookAdapter (measure_timing a) (connections a ++ [new_Connection nm s]),
   length (connections a)).

(** [At]: a handle that no connection has is outside what the source defines. *)
Definition At (handle : nat) (a : BookAdapter) : outcome Connection :=
  match connections a !! handle with Some c => Done c | None => Undef EndDereference end.

Definition on_connection (handle : nat) (m : exec Connection unit) : exec BookAdapter unit := λ a,
  match At handle a with
  | Done c =>
      let '(c', r) := m c in
      (mkBookAdapter (measure_timing a) (<[handle := c']> (connections a)), r)
  | Throws e => (a, Throws e)
  | Undef u => (a, Undef u)
  end.

Definition OnConnect (handle : nat) (id : Z) : exec BookAdapter unit :=
  on_connection handle (conn_OnConnect id).
Definition OnDisconnect (handle : nat) : exec BookAdapter unit :=
  on_connection handle conn_OnDisconnect.
Definition OnFramesDropped (handle : nat) (n : Z) : exec BookAdapter unit :=
  if n =? 0 then exec_ret tt else on_connection handle (conn_OnFramesDropped n).
Definition OnFrame (handle : nat) (now : nat → Z) (frame : CaptureFrame) : exec BookAdapter unit :=
  let! a := exec_get in on_connection handle (conn_OnFrame (measure_timing a) now frame).

Definition OnEvent (handle : nat) (now : nat → Z) (event : FeedEvent) : exec BookAdapter unit :=
  match event with
  | FrameEvent frame => OnFrame handle now frame
  | ConnectEvent id _ => OnConnect handle id
  | DisconnectEvent _ => OnDisconnect handle
  end.

(** Queries. *)
Definition FindKrakenBook (handle : nat) (symbol : bytes) (a : BookAdapter)
  : outcome (option KrakenBook) :=
  do! c := At handle a in Done (books c !! symbol).
Definition FindDeribitBook (handle : nat) (symbol : bytes) (a : BookAdapter)
  : outcome (option DeribitBook) :=
  do! c := At handle a in Done (deribit_books c !! symbol).
Definition BookCount (handle : nat) (a : BookAdapter) : outcome nat :=
  do! c := At handle a in Done (size (books c) + size (deribit_books c))%nat.
Definition Stats (handle : nat) (a : BookAdapter) : outcome ConnectionStats :=
  do! c := At handle a in Done (stats c).
Definition Name (handle : nat) (a : BookAdapter) : outcome bytes :=
  do! c := At handle a in Done (name c).
Definition ConnectId (handle : nat) (a : BookAdapter) : outcome Z :=
  do! c := At handle a in Done (connect_id c).
Definition IsStale (handle : nat) (a : BookAdapter) : outcome bool :=
  do! c := At handle a in Done (stale c).
End adapter.
