(* ===== verification/AdapterProofs.v ===== *)
(** * What the adapter guarantees

    No exception leaves it; a frame touches only the books it names; and a book
    that lost the feed is not [Ready] again before a snapshot of its symbol. *)

From S2P Require Import Prelude BookTypes Text Scale LevelMap Engine L2Policy L2Refinement L3Policy.
From S2P Require Import KrakenL3Policy KrakenWire FixMessage DeribitWire Feed BookAdapter.

(** ** Reasoning about handlers

    [guarded I m Q]: from a state in [I], whatever [m] does, short of leaving
    the defined executions, it returns or throws in a state in [Q]. *)

Definition no_throw {S A} (m : exec S A) : Prop := ∀ s e, (m s).2 ≠ Throws e.

Definition preserves {S A} (I : S → Prop) (m : exec S A) : Prop := ∀ s, I s →
  match (m s).2 with Undef _ => True | _ => I (m s).1 end.

Section handlers.
Context {S : Type}.

Lemma no_throw_ret {A} (a : A) : no_throw (S:=S) (exec_ret a).
Proof. done. Qed.
Lemma no_throw_get : no_throw (S:=S) exec_get.
Proof. done. Qed.
Lemma no_throw_bind {A C} (m : exec S A) (k : A → exec S C) :
  no_throw m → (∀ a, no_throw (k a)) → no_throw (exec_bind m k).
Proof.
  intros Hm Hk s e. unfold exec_bind. specialize (Hm s). destruct (m s) as [s' [a|e'|u]]; simpl in *.
  - apply Hk.
  - by destruct (Hm e').
  - done.
Qed.
Lemma no_throw_each {A} (f : A → exec S unit) l : (∀ x, no_throw (f x)) → no_throw (exec_each f l).
Proof. intros Hf. induction l; simpl; [apply no_throw_ret|]. by apply no_throw_bind. Qed.
Lemma no_throw_try {A} (m handler : exec S A) : no_throw handler → no_throw (try_catch m handler).
Proof.
  intros Hh s e. unfold try_catch. destruct (m s) as [s' []]; first [done|apply Hh].
Qed.

Context (I : S → Prop).

Lemma preserves_ret {A} (a : A) : preserves I (exec_ret a).
Proof. by intros s Hs. Qed.
Lemma preserves_get : preserves I exec_get.
Proof. by intros s Hs. Qed.
Lemma preserves_bind {A C} (m : exec S A) (k : A → exec S C) :
  preserves I m → (∀ a, preserves I (k a)) → preserves I (exec_bind m k).
Proof.
  intros Hm Hk s Hs. unfold exec_bind. specialize (Hm s Hs).
  destruct (m s) as [s' [a|e'|u]]; simpl in *; [by apply Hk|done..].
Qed.
(** The same when the first step reads the state. *)
Lemma preserves_get_bind {C} (k : S → exec S C) :
  (∀ s, I s → match (k s s).2 with Undef _ => True | _ => I (k s s).1 end) →
  preserves I (exec_bind exec_get k).
Proof. intros Hk s Hs. by apply Hk. Qed.
Lemma preserves_each {A} (f : A → exec S unit) l :
  (∀ x, x ∈ l → preserves I (f x)) → preserves I (exec_each f l).
Proof.
  induction l as [|x l IH]; intros Hf; simpl; [apply preserves_ret|].
  apply preserves_bind; [apply Hf; set_solver|]. intros _. apply IH. set_solver.
Qed.
Lemma preserves_try {A} (m handler : exec S A) :
  preserves I m → preserves I handler → preserves I (try_catch m handler).
Proof.
  intros Hm Hh s Hs. unfold try_catch. specialize (Hm s Hs).
  destruct (m s) as [s' [a|e'|u]]; simpl in *; [done|by apply Hh|done].
Qed.
End handlers.

Create HintDb adapter.
#[export] Hint Resolve no_throw_ret no_throw_get no_throw_bind no_throw_each no_throw_try : adapter.
#[export] Hint Resolve preserves_ret preserves_get preserves_bind preserves_try : adapter.

(** ** Nothing throws *)

Section adapter_proofs.
Context {json : Type} `{!Json json}.
Context (llround_unspecified : double → Z) (hash : bytes → Z) (asserts : bool).

Abbreviation on_event := (conn_OnEvent llround_unspecified hash asserts).

Lemma no_throw_pure {S} (f : S → S) : no_throw (λ s, (f s, Done tt)).
Proof. done. Qed.
Hint Resolve no_throw_pure : adapter.

Lemma conn_OnFrame_no_throw timed now frame :
  no_throw (conn_OnFrame llround_unspecified hash asserts timed now frame).
Proof.
  unfold conn_OnFrame. apply no_throw_bind; [done|]. intros _. apply no_throw_bind; [done|].
  intros c. destruct (stale c); [done|]. destruct (source (settings c)); [done|..].
  - unfold OnKrakenFrame. apply no_throw_bind; [done|]. intros c'.
    destruct (parse_kraken_frame _ _ _ _) as [ms|e|u].
    + apply no_throw_bind; [done|]. intros _. apply no_throw_bind; [|done].
      apply no_throw_each. intros m. by apply no_throw_try.
    + done.
    + by intros s e.
  - unfold OnDeribitFixFrame. apply no_throw_bind; [done|]. intros c'.
    apply no_throw_bind; [done|]. intros _.
    destruct (ParseDeribitFixMessage _ _ _) as [msg|err].
    + apply no_throw_bind; [|done]. unfold ApplyDeribitMessage.
      case_bool_decide; [done|]. by apply no_throw_try.
    + unfold OnDeribitParseError. apply no_throw_bind; [done|]. intros _. by case_bool_decide.
Qed.

(** ** What happens to one symbol

    [at_symbol st s R]: the connection has the settings [st], and what it holds
    for the symbol [s] is in [R]. *)

Definition at_symbol (st : BookSettings) (s : bytes)
    (R : option KrakenBook → option DeribitBook → Prop) (c : Connection) : Prop :=
  settings c = st ∧ R (books c !! s) (deribit_books c !! s).

(** [R] outlives the adapter giving up on a book. *)
Definition desync_closed (R : option KrakenBook → option DeribitBook → Prop) : Prop :=
  ∀ k d, R k d → R (MarkDesynced <$> k) d ∧ R k (MarkDesynced <$> d).

(** [R] holds of no [Ready] book. *)
Definition not_ready_in (R : option KrakenBook → option DeribitBook → Prop) : Prop :=
  ∀ k d, R k d → (∀ b, k = Some b → GetReadiness b ≠ kReady) ∧
                 (∀ b, d = Some b → GetReadiness b ≠ kReady).

Section symbol.
Context (st : BookSettings) (s : bytes) (R : option KrakenBook → option DeribitBook → Prop).
Abbreviation I := (at_symbol st s R).

Lemma preserves_count n : preserves I (count n).
Proof. by intros c [H1 H2]. Qed.
Lemma preserves_count_time timed n elapsed : preserves I (count_time timed n elapsed).
Proof. intros c [H1 H2]. by destruct timed. Qed.
Hint Resolve preserves_count preserves_count_time : adapter.

Lemma preserves_MarkAllDesynced : desync_closed R → preserves I MarkAllDesynced.
Proof.
  intros HR c [H1 H2]. split; [done|]. simpl. rewrite !lookup_fmap. by apply HR, HR.
Qed.

Lemma preserves_desync_kraken sym : sym ≠ s ∨ desync_closed R → preserves I (desync_kraken sym).
Proof.
  intros HR c [H1 H2]. split; [done|]. simpl. destruct (decide (sym = s)) as [->|Hne].
  - rewrite lookup_alter_eq. destruct HR as [|HR]; [done|]. by apply HR.
  - by rewrite lookup_alter_ne.
Qed.

Lemma preserves_desync_deribit sym : sym ≠ s ∨ desync_closed R → preserves I (desync_deribit sym).
Proof.
  intros HR c [H1 H2]. split; [done|]. simpl. destruct (decide (sym = s)) as [->|Hne].
  - rewrite lookup_alter_eq. destruct HR as [|HR]; [done|]. by apply HR.
  - by rewrite lookup_alter_ne.
Qed.

(** A call on another symbol's book. *)
Lemma preserves_on_kraken_book sym book m : sym ≠ s → preserves I (on_kraken_book sym book m).
Proof.
  intros Hne c [H1 H2]. unfold on_kraken_book. destruct (m (book, stats c)) as [[b' st'] r].
  assert (I (set_books (<[sym:=b']> (books c)) (set_stats st' c))).
  { split; [done|]. simpl. by rewrite lookup_insert_ne. }
  by destruct r.
Qed.

Lemma preserves_on_deribit_book sym book m : sym ≠ s → preserves I (on_deribit_book sym book m).
Proof.
  intros Hne c [H1 H2]. unfold on_deribit_book. destruct (m (book, stats c)) as [[b' st'] r].
  assert (I (set_deribit_books (<[sym:=b']> (deribit_books c)) (set_stats st' c))).
  { split; [done|]. simpl. by rewrite lookup_insert_ne. }
  by destruct r.
Qed.

Lemma counted_then n (m : exec Connection unit) : preserves I m → preserves I (run! count n ;; m).
Proof. intros Hm. apply preserves_bind; [apply preserves_count|done]. Qed.

(** A Kraken message that cannot bring the symbol back: it is for another one,
    or it is an update and [R] holds of no [Ready] book. *)
Lemma preserves_on_kraken_message m :
  km_symbol m ≠ s ∨ (desync_closed R ∧ not_ready_in R ∧ km_is_snapshot m = false) →
  preserves I (on_kraken_message m).
Proof.
  intros Hm. unfold on_kraken_message. apply preserves_try.
  - unfold apply_kraken_message. apply preserves_get_bind. intros c Hc.
    destruct (km_is_snapshot m) eqn:Hs.
    { destruct Hm as [Hne|(_ & _ & ?)]; [|done]. revert c Hc. intros c. apply preserves_bind;
        [apply preserves_count|]. intros _. by apply preserves_on_kraken_book. }
    destruct (books c !! km_symbol m) as [book|] eqn:Hfound; [|by apply counted_then; [apply preserves_count|]].
    destruct (AdapterBook_IsReady book) eqn:Hready; simpl negb; cbv iota; [|by apply counted_then; [apply preserves_count|]].
    apply counted_then; [|done]. apply preserves_on_kraken_book.
    destruct Hm as [|(_ & HR & _)]; [done|]. intros Heq. rewrite Heq in Hfound.
    apply (proj1 (HR _ _ (proj2 Hc)) book Hfound). by apply bool_decide_eq_true in Hready.
  - apply preserves_bind; [apply preserves_count|]. intros _.
    apply preserves_desync_kraken. naive_solver.
Qed.

Lemma preserves_ApplyDeribitMessage msg :
  dm_symbol msg ≠ s ∨ dm_kind msg = kIgnored ∨
    (desync_closed R ∧ not_ready_in R ∧ dm_kind msg ≠ kSnapshot) →
  preserves I (ApplyDeribitMessage asserts msg).
Proof.
  intros Hm. unfold ApplyDeribitMessage.
  case_bool_decide as Hkind; [apply preserves_ret|]. apply preserves_try.
  - case_bool_decide as Hsnap.
    + apply counted_then. apply preserves_get_bind. intros c. apply preserves_on_deribit_book.
      naive_solver.
    + apply counted_then. apply preserves_get_bind. intros c Hc.
      destruct (deribit_books c !! dm_symbol msg) as [book|] eqn:Hfound; [|by apply preserves_count].
      destruct (AdapterBook_IsReady book) eqn:Hready; simpl negb; cbv iota; [|by apply preserves_count].
      apply preserves_on_deribit_book; [|done].
      destruct Hm as [|[|(_ & HR & _)]]; [done..|]. intros Heq. rewrite Heq in Hfound.
      apply (proj2 (HR _ _ (proj2 Hc)) book Hfound). by apply bool_decide_eq_true in Hready.
  - apply counted_then, preserves_desync_deribit. naive_solver.
Qed.

(** *** One frame *)

(** What the frame's payload says about [s]: [untouched] when nothing in it
    concerns [s], [no_snapshot] when no snapshot of [s] is in it. *)
Definition untouched (payload : bytes) : Prop :=
  match source st with
  | kKrakenJson =>
      match parse_kraken_frame llround_unspecified hash (new_Connection [] st) payload with
      | Done ms => Forall (λ m, km_symbol m ≠ s) ms
      | Throws _ => False
      | Undef _ => True
      end
  | kDeribitFix =>
      match ParseDeribitFixMessage llround_unspecified payload (scale st) with
      | Expected msg => dm_kind msg = kIgnored ∨ dm_symbol msg ≠ s
      | Unexpected err => dpe_symbol err ≠ [] ∧ dpe_symbol err ≠ s
      end
  | kUnknown => True
  end.

Definition no_snapshot (payload : bytes) : Prop :=
  match source st with
  | kKrakenJson =>
      match parse_kraken_frame llround_unspecified hash (new_Connection [] st) payload with
      | Done ms => Forall (λ m, km_is_snapshot m = true → km_symbol m ≠ s) ms
      | _ => True
      end
  | kDeribitFix =>
      match ParseDeribitFixMessage llround_unspecified payload (scale st) with
      | Expected msg => dm_kind msg = kSnapshot → dm_symbol msg ≠ s
      | Unexpected _ => True
      end
  | kUnknown => True
  end.

Lemma parse_kraken_frame_settings c c' payload : settings c = settings c' →
  parse_kraken_frame llround_unspecified hash c payload =
  parse_kraken_frame llround_unspecified hash c' payload.
Proof. unfold parse_kraken_frame. by intros ->. Qed.

Lemma preserves_OnKrakenFrame timed now frame :
  match parse_kraken_frame llround_unspecified hash (new_Connection [] st) (cf_payload frame) with
  | Done ms => ∀ m, m ∈ ms → preserves I (on_kraken_message m)
  | Throws _ => desync_closed R
  | Undef _ => True
  end → preserves I (OnKrakenFrame llround_unspecified hash timed now frame).
Proof.
  intros H. unfold OnKrakenFrame. apply preserves_get_bind. intros c Hc.
  rewrite (parse_kraken_frame_settings c (new_Connection [] st)) by apply Hc.
  destruct (parse_kraken_frame _ _ _ _) as [ms|e|u]; [..|done]; revert c Hc; intros c.
  - apply preserves_bind; [apply preserves_count_time|]. intros _.
    apply preserves_bind; [by apply preserves_each|]. intros _. apply preserves_count_time.
  - apply counted_then, preserves_bind; [by apply preserves_MarkAllDesynced|].
    intros _. apply preserves_count_time.
Qed.

Lemma preserves_OnDeribitFixFrame timed now frame :
  match ParseDeribitFixMessage llround_unspecified (cf_payload frame) (scale st) with
  | Expected msg => preserves I (ApplyDeribitMessage asserts msg)
  | Unexpected err => desync_closed R ∨ (dpe_symbol err ≠ [] ∧ dpe_symbol err ≠ s)
  end → preserves I (OnDeribitFixFrame llround_unspecified asserts timed now frame).
Proof.
  intros H. unfold OnDeribitFixFrame. apply preserves_get_bind. intros c Hc.
  replace (scale (settings c)) with (scale st) by (by destruct Hc as [<- _]).
  revert c Hc. intros c. apply preserves_bind; [apply preserves_count_time|]. intros _.
  destruct (ParseDeribitFixMessage _ _ _) as [msg|err].
  - apply preserves_bind; [done|]. intros _. apply preserves_count_time.
  - unfold OnDeribitParseError. apply counted_then. case_bool_decide.
    + apply preserves_MarkAllDesynced. naive_solver.
    + apply preserves_desync_deribit. naive_solver.
Qed.

Lemma preserves_conn_OnFrame timed now frame :
  untouched (cf_payload frame) ∨
    (desync_closed R ∧ not_ready_in R ∧ no_snapshot (cf_payload frame)) →
  preserves I (conn_OnFrame llround_unspecified hash asserts timed now frame).
Proof.
  intros H. unfold conn_OnFrame. apply counted_then. apply preserves_get_bind. intros c Hc.
  destruct (stale c); [by apply preserves_count|].
  unfold untouched, no_snapshot in H. replace (source (settings c)) with (source st)
    by (by destruct Hc as [<- _]).
  destruct (source st); [by apply preserves_count|..]; revert c Hc; intros c.
  - apply preserves_OnKrakenFrame. destruct (parse_kraken_frame _ _ _ _) as [ms|e|u]; [|naive_solver..].
    intros m Hm. apply preserves_on_kraken_message.
    destruct H as [H|(H1 & H2 & H)]; rewrite Forall_forall in H; [by left; apply H|].
    destruct (km_is_snapshot m) eqn:Hs; [left; by apply H|by right].
  - apply preserves_OnDeribitFixFrame. destruct (ParseDeribitFixMessage _ _ _) as [msg|err];
      [|naive_solver]. apply preserves_ApplyDeribitMessage.
    destruct H as [[H|H]|(H1 & H2 & H)]; [by right; left|by left|].
    destruct (decide (dm_kind msg = kSnapshot)); [left; by apply H|right; right; done].
Qed.
End symbol.

(** ** Sequences of calls on the adapter *)

Inductive adapter_call : Type :=
| EventCall (handle : nat) (now : nat → Z) (event : FeedEvent)
| DropCall (handle : nat) (n : Z).

Definition run_call (call : adapter_call) : exec BookAdapter unit :=
  match call with
  | EventCall handle now event => OnEvent llround_unspecified hash asserts handle now event
  | DropCall handle n => OnFramesDropped handle n
  end.

Lemma on_connection_no_throw handle m : no_throw m → no_throw (on_connection handle m).
Proof.
  intros Hm a e. unfold on_connection, At. destruct (connections a !! handle) as [c|]; [|done].
  specialize (Hm c e). by destruct (m c).
Qed.

(** No sequence of frames, connects, disconnects and drop notices makes
    the adapter throw: whatever the parsers and the books throw is caught
    where it can be attributed. *)
Theorem adapter_never_throws calls a e : (exec_each run_call calls a).2 ≠ Throws e.
Proof.
  apply no_throw_each. intros [handle now event|handle n]; simpl.
  - destruct event as [frame|id reason|id]; simpl; [|by apply on_connection_no_throw..].
    apply no_throw_bind; [done|]. intros a'. apply on_connection_no_throw, conn_OnFrame_no_throw.
  - unfold OnFramesDropped. destruct (n =? 0); [done|]. by apply on_connection_no_throw.
Qed.

(** The connection [h] exists and satisfies [I]. *)
Definition at_handle (h : nat) (I : Connection → Prop) (a : BookAdapter) : Prop :=
  ∃ c, connections a !! h = Some c ∧ I c.

Lemma preserves_on_connection h handle m I :
  (handle = h → preserves I m) → preserves (at_handle h I) (on_connection handle m).
Proof.
  intros Hm a (c & Hc & HI). unfold on_connection, At.
  destruct (connections a !! handle) as [c'|] eqn:Hc'; [|done].
  destruct (m c') as [c'' r] eqn:Hrun.
  assert (match r with Undef _ => True | _ =>
    at_handle h I (mkBookAdapter (measure_timing a) (<[handle:=c'']> (connections a))) end) as HJ.
  { destruct (decide (handle = h)) as [->|Hne].
    - simplify_eq. specialize (Hm eq_refl c HI). rewrite Hrun in Hm. simpl in Hm.
      assert (connections (mkBookAdapter (measure_timing a) (<[h:=c'']> (connections a))) !! h =
        Some c'') by (simpl; apply list_lookup_insert_eq; by eapply lookup_lt_Some).
      destruct r; [by exists c''..|done].
    - assert (at_handle h I (mkBookAdapter (measure_timing a) (<[handle:=c'']> (connections a)))).
      { exists c. split; [|done]. simpl. by rewrite list_lookup_insert_ne. }
      by destruct r. }
  by destruct r.
Qed.

(** ** Isolation *)

(** C25: a frame changes nothing for a symbol it does not concern: on its own
    connection, the other symbols' books stay as they were, even when the
    message for one of them is refused or makes its book throw; and the books
    of other connections are not touched at all. *)
Theorem frame_isolation a h c now frame s :
  connections a !! h = Some c → untouched (settings c) s (cf_payload frame) →
  match OnEvent llround_unspecified hash asserts h now (FrameEvent frame) a with
  | (_, Undef _) => True
  | (a', _) =>
      (∃ c', connections a' !! h = Some c' ∧ books c' !! s = books c !! s ∧
         deribit_books c' !! s = deribit_books c !! s) ∧
      ∀ h', h' ≠ h → connections a' !! h' = connections a !! h'
  end.
Proof.
  intros Hc Hun.
  assert (preserves (at_handle h (at_symbol (settings c) s
    (λ k d, k = books c !! s ∧ d = deribit_books c !! s)))
    (OnEvent llround_unspecified hash asserts h now (FrameEvent frame))) as Hpres.
  { intros a'. apply preserves_on_connection. intros _. apply preserves_conn_OnFrame. by left. }
  specialize (Hpres a ltac:(by exists c)). revert Hpres. simpl. unfold OnFrame, exec_bind, exec_get.
  unfold on_connection, At. rewrite Hc. destruct (conn_OnFrame _ _ _ _ _ _ _) as [c' r]. simpl.
  destruct r; [intros (c2 & Hc2 & _ & Hk & Hd)..|done];
    (split; [by exists c2|intros h' Hne; by rewrite list_lookup_insert_ne]).
Qed.

(** ** Losing the feed *)

Definition not_ready (k : option KrakenBook) (d : option DeribitBook) : Prop :=
  (∀ b, k = Some b → GetReadiness b ≠ kReady) ∧ (∀ b, d = Some b → GetReadiness b ≠ kReady).

Lemma not_ready_desync_closed : desync_closed not_ready.
Proof.
  intros k d [Hk Hd]. split; split; try done; intros b.
  - by intros (b' & _ & ->)%fmap_Some.
  - by intros (b' & _ & ->)%fmap_Some.
Qed.

(** A call that leaves no book of the connection trustworthy: frames were
    dropped, the connection restarted, or a payload was refused without saying
    which symbol it was for. *)
Definition loses_feed (h : nat) (c : Connection) (call : adapter_call) : Prop :=
  match call with
  | DropCall h' n => h' = h ∧ n ≠ 0
  | EventCall h' _ (ConnectEvent _ _) => h' = h
  | EventCall h' _ (FrameEvent frame) =>
      h' = h ∧ stale c = false ∧
      match source (settings c) with
      | kKrakenJson =>
          ∃ e, parse_kraken_frame llround_unspecified hash c (cf_payload frame) = Throws e
      | kDeribitFix =>
          ∃ err, ParseDeribitFixMessage llround_unspecified (cf_payload frame)
                   (scale (settings c)) = Unexpected err ∧ dpe_symbol err = []
      | kUnknown => False
      end
  | EventCall _ _ (DisconnectEvent _) => False
  end.

(** A call that brings no snapshot of [s] to the connection [h]. *)
Definition quiet (h : nat) (st : BookSettings) (s : bytes) (call : adapter_call) : Prop :=
  match call with
  | EventCall h' _ (FrameEvent frame) => h' = h → no_snapshot st s (cf_payload frame)
  | _ => True
  end.

Abbreviation lost h st s := (at_handle h (at_symbol st s not_ready)).

Lemma MarkAllDesynced_not_ready c s :
  not_ready (books (MarkAllDesynced c).1 !! s) (deribit_books (MarkAllDesynced c).1 !! s).
Proof.
  simpl. rewrite !lookup_fmap. split; intros b (b' & _ & ->)%fmap_Some; done.
Qed.

Lemma loses_feed_lost h c s call a :
  connections a !! h = Some c → loses_feed h c call →
  match (run_call call a).2 with Undef _ => True | _ => lost h (settings c) s (run_call call a).1 end.
Proof.
  intros Hc Hloss.
  assert (∀ m, (∃ c', m c = (c', Done tt) ∧ at_symbol (settings c) s not_ready c') →
    match (on_connection h m a).2 with Undef _ => True
    | _ => lost h (settings c) s (on_connection h m a).1 end) as Hon.
  { intros m (c' & Hm & Hc'). unfold on_connection, At. rewrite Hc, Hm. simpl.
    exists c'. split; [|done]. apply list_lookup_insert_eq. by eapply lookup_lt_Some. }
  destruct call as [h' now [frame|id reason|id]|h' n]; simpl in Hloss |- *.
  - destruct Hloss as (-> & Hstale & Hpar). apply Hon. unfold conn_OnFrame, exec_bind. simpl.
    rewrite Hstale. destruct (source (settings c)); [done|..].
    + destruct Hpar as [e Hpar]. unfold OnKrakenFrame, exec_bind, exec_get. simpl.
      rewrite (parse_kraken_frame_settings _ c), Hpar by done. simpl.
      eexists. split; [done|]. destruct (measure_timing a);
        (split; [done|apply (MarkAllDesynced_not_ready c)]).
    + destruct Hpar as (err & Hpar & Hsym). unfold OnDeribitFixFrame, exec_bind, exec_get. simpl.
      rewrite Hpar. unfold OnDeribitParseError, exec_bind. simpl.
      rewrite Hsym, bool_decide_eq_true_2 by done. eexists. split; [done|].
      destruct (measure_timing a); (split; [done|apply (MarkAllDesynced_not_ready c)]).
  - subst h'. apply Hon. eexists. split; [done|]. by split.
  - done.
  - destruct Hloss as [-> Hn]. unfold OnFramesDropped. rewrite (proj2 (Z.eqb_neq _ _) Hn).
    apply Hon. eexists. split; [done|]. split; [done|apply (MarkAllDesynced_not_ready c)].
Qed.

Lemma quiet_preserves h st s call : quiet h st s call → preserves (lost h st s) (run_call call).
Proof.
  intros Hq. destruct call as [h' now [frame|id reason|id]|h' n]; simpl in *.
  - intros a. apply preserves_on_connection. intros Heq. apply preserves_conn_OnFrame.
    right. split; [apply not_ready_desync_closed|]. split; [by intros k d|by apply Hq].
  - apply preserves_on_connection. intros _ c [Hst _]. by split.
  - apply preserves_on_connection. intros _ c Hc. exact Hc.
  - unfold OnFramesDropped. destruct (n =? 0); [apply preserves_ret|].
    apply preserves_on_connection. intros _ c [Hst _].
    split; [done|apply (MarkAllDesynced_not_ready c)].
Qed.

End adapter_proofs.
