(* ===== verification/AdapterReady.v ===== *)
(** * Deribit books behind the adapter

    Whatever frames, connects, disconnects and drops reach the adapter, a
    Deribit book it presents as [Ready] is not crossed. *)

From S2P Require Import Prelude BookTypes Text Scale LevelMap Engine L2Policy L2Refinement L3Policy.
From S2P Require Import KrakenL3Policy KrakenWire FixMessage DeribitWire Feed BookAdapter.
From S2P Require Import FixRoundTrip ScaleExact DeribitRoundTrip AdapterProofs.

(** The engine's invariant, for every Deribit book of a connection. *)
Abbreviation l2_engine_inv := (engine_inv (policy_inv:=l2_sorted) (policy_good:=l2_uncrossed)).

Definition deribit_inv (c : Connection) : Prop :=
  map_Forall (λ _ b, l2_engine_inv (ab_book b)) (deribit_books c).

Lemma new_book_inv symbol : l2_engine_inv (ab_book (new_AdapterBook symbol L2Levels_init)).
Proof. split; [apply l2_sorted_init|done]. Qed.

(** With [assert] compiled in, a batch does the same or does not return. *)
Lemma ApplyUpdates_loop_asserts us lv cs :
  ApplyUpdates_loop true us lv cs = ApplyUpdates_loop false us lv cs ∨
  ApplyUpdates_loop true us lv cs = Undef AssertFailed.
Proof.
  revert lv cs. induction us as [|u us IH]; intros lv cs; [by left|]. cbn [ApplyUpdates_loop].
  assert (ApplyOne true (l2u_side u) u (l2_side lv (l2u_side u)) cs =
          ApplyOne false (l2u_side u) u (l2_side lv (l2u_side u)) cs ∨
          ApplyOne true (l2u_side u) u (l2_side lv (l2u_side u)) cs = Undef AssertFailed) as [->| ->].
  { unfold ApplyOne. simpl. repeat case_match; auto. }
  - destruct (ApplyOne _ _ _ _ _) as [[m cs']|e|x]; [apply IH|by left|by left].
  - by right.
Qed.

Lemma ApplyBatch_asserts asserts us p :
  UnsequencedL2Policy_ApplyBatch asserts us p = UnsequencedL2Policy_ApplyBatch false us p ∨
  UnsequencedL2Policy_ApplyBatch asserts us p = (p, Undef AssertFailed).
Proof.
  destruct asserts; [|by left]. unfold UnsequencedL2Policy_ApplyBatch, ApplyUpdates.
  destruct (ApplyUpdates_loop_asserts us p L2ChangeSet_init) as [->| ->]; [by left|by right].
Qed.

(** ** Calls on one book *)

Definition stored (r : DeribitBook * ConnectionStats * outcome unit) : Prop :=
  match r.2 with Undef _ => True | _ => l2_engine_inv (ab_book r.1.1) end.

Lemma engine_inv_calls b calls :
  l2_engine_inv b → l2_engine_inv (mkOrderBook (ob_policy b) (ob_readiness b) calls).
Proof. done. Qed.

Lemma snapshot_stored snapshot (b : DeribitBook) st :
  l2_engine_inv (ab_book b) →
  stored (AdapterBook_ApplySnapshot UnsequencedL2Policy_Best
    (UnsequencedL2Policy_ApplySnapshot snapshot) (b, st)).
Proof.
  intros Hinv. unfold AdapterBook_ApplySnapshot, on_engine.
  destruct (ApplySnapshot _ _ _ _) as [ob r] eqn:Hrun.
  assert (l2_engine_inv ob); [|by destruct r].
  eapply engine_inv_step; [|exact Hinv].
  eapply step_snapshot; [by eexists|exact Hrun].
Qed.

Lemma batch_stored asserts us (b : DeribitBook) st :
  l2_engine_inv (ab_book b) → GetReadiness b = kReady →
  stored (AdapterBook_ApplyBatch UnsequencedL2Policy_Best
    (UnsequencedL2Policy_ApplyBatch asserts us) (b, st)).
Proof.
  intros Hinv Hready. unfold AdapterBook_ApplyBatch, on_engine.
  assert (ob_readiness (ab_book b) = kReady) as Hr.
  { unfold GetReadiness in Hready. by destruct (ab_desynced b). }
  destruct (ApplyBatch _ _ _ _) as [ob r] eqn:Hrun.
  destruct (ApplyBatch_asserts asserts us (ob_policy (ab_book b))) as [Heq|Heq].
  - assert (ApplyBatch book_hooks UnsequencedL2Policy_Best
      (UnsequencedL2Policy_ApplyBatch false us) (ab_book b) = (ob, r)) as Hrun'.
    { rewrite <-Hrun. unfold ApplyBatch, exec_bind, exec_get, on_policy. cbv beta iota.
      rewrite bool_decide_eq_false_2 by auto. cbv beta iota. by rewrite Heq. }
    assert (l2_engine_inv ob); [|by destruct r].
    eapply engine_inv_step; [|exact Hinv]. eapply step_batch; [by eexists|exact Hrun'].
  - unfold ApplyBatch, exec_bind, exec_get, on_policy in Hrun. cbv beta iota in Hrun.
    rewrite bool_decide_eq_false_2 in Hrun by auto. cbv beta iota in Hrun. rewrite Heq in Hrun. injection Hrun as <- <-. done.
Qed.

(** ** Every handler keeps the invariant *)

Section adapter_ready.
Context {json : Type} `{!Json json}.
Context (llround_unspecified : double → Z) (hash : bytes → Z) (asserts : bool).

Lemma keep_desync_deribit symbol : preserves deribit_inv (desync_deribit symbol).
Proof.
  intros c Hc. simpl. intros s b. simpl. destruct (decide (symbol = s)) as [->|Hne].
  - rewrite lookup_alter_eq. intros (b' & Hb & ->)%fmap_Some. by apply (Hc s b').
  - rewrite lookup_alter_ne by done. apply Hc.
Qed.

Lemma keep_MarkAllDesynced : preserves deribit_inv MarkAllDesynced.
Proof.
  intros c Hc s b. simpl. rewrite lookup_fmap. intros (b' & Hb & ->)%fmap_Some. by apply (Hc s b').
Qed.

Lemma keep_on_deribit_book symbol book m c :
  deribit_inv c → stored (m (book, stats c)) →
  match (on_deribit_book symbol book m c).2 with
  | Undef _ => True
  | _ => deribit_inv (on_deribit_book symbol book m c).1
  end.
Proof.
  intros Hc Hs. unfold on_deribit_book. destruct (m (book, stats c)) as [[b' st'] r].
  unfold stored in Hs. simpl in Hs.
  destruct r; [by apply map_Forall_insert_2..|done].
Qed.

Lemma keep_ApplyDeribitMessage msg : preserves deribit_inv (ApplyDeribitMessage asserts msg).
Proof.
  unfold ApplyDeribitMessage. case_bool_decide; [apply preserves_ret|]. apply preserves_try.
  - case_bool_decide; intros c Hc.
    + unfold ApplyDeribitSnapshot, exec_bind. simpl. apply keep_on_deribit_book; [done|].
      apply snapshot_stored. destruct (deribit_books c !! dm_symbol msg) as [b|] eqn:Hb; simpl;
        [by apply (Hc _ _ Hb)|apply (new_book_inv (dm_symbol msg))].
    + unfold ApplyDeribitUpdate, exec_bind. simpl.
      destruct (deribit_books c !! dm_symbol msg) as [b|] eqn:Hb; simpl; [|exact Hc].
      destruct (AdapterBook_IsReady b) eqn:Hr; simpl; [|exact Hc].
      apply keep_on_deribit_book; [done|]. apply batch_stored; [by apply (Hc _ _ Hb)|].
      by apply bool_decide_eq_true in Hr.
  - apply preserves_bind; [by intros c Hc|]. intros _. apply keep_desync_deribit.
Qed.

(** A Kraken message leaves the Deribit books alone. *)
Lemma keep_on_kraken_message m : preserves deribit_inv (on_kraken_message m).
Proof.
  assert (∀ symbol book k, preserves deribit_inv (on_kraken_book symbol book k)) as Hbook.
  { intros symbol book k c Hc. unfold on_kraken_book.
    destruct (k (book, stats c)) as [[b' st'] []]; exact Hc || done. }
  assert (∀ n, preserves deribit_inv (count n)) as Hcount by (by intros n c Hc).
  unfold on_kraken_message. apply preserves_try.
  - unfold apply_kraken_message. apply preserves_get_bind. intros c.
    destruct (km_is_snapshot m); [by apply preserves_bind|].
    apply preserves_bind; [done|]. intros _.
    destruct (books c !! km_symbol m) as [b|]; [|done]. by destruct (negb _).
  - apply preserves_bind; [done|]. intros _ c Hc. exact Hc.
Qed.

Lemma keep_conn_OnFrame timed now frame :
  preserves deribit_inv (conn_OnFrame llround_unspecified hash asserts timed now frame).
Proof.
  assert (∀ n, preserves deribit_inv (count n)) as Hcount by (by intros n c Hc).
  assert (∀ n e, preserves deribit_inv (count_time timed n e)) as Htime
    by (intros n e c Hc; by destruct timed).
  unfold conn_OnFrame. apply preserves_bind; [apply Hcount || apply Htime|]. intros _. apply preserves_get_bind.
  intros c. destruct (stale c); [apply Hcount|]. destruct (source (settings c)); [apply Hcount|..].
  - unfold OnKrakenFrame. apply preserves_bind; [apply preserves_get|]. intros c'.
    destruct (parse_kraken_frame _ _ _ _) as [ms|e|u].
    + apply preserves_bind; [apply Hcount || apply Htime|]. intros _. apply preserves_bind; [|intros _; apply Htime].
      apply preserves_each. intros m _. apply keep_on_kraken_message.
    + apply preserves_bind; [apply Hcount || apply Htime|]. intros _. apply preserves_bind; [apply keep_MarkAllDesynced|intros _; apply Htime].
    + by intros c'' Hc.
  - unfold OnDeribitFixFrame. apply preserves_bind; [apply preserves_get|]. intros c'.
    apply preserves_bind; [apply Hcount || apply Htime|]. intros _.
    destruct (ParseDeribitFixMessage _ _ _) as [msg|err].
    + apply preserves_bind; [apply keep_ApplyDeribitMessage|intros _; apply Htime].
    + unfold OnDeribitParseError. apply preserves_bind; [apply Hcount || apply Htime|]. intros _.
      case_bool_decide; [apply keep_MarkAllDesynced|apply keep_desync_deribit].
Qed.

Lemma keep_run_call h call :
  preserves (at_handle h deribit_inv) (run_call llround_unspecified hash asserts call).
Proof.
  destruct call as [h' now [frame|id reason|id]|h' n]; simpl.
  - intros a. apply preserves_on_connection. intros _. apply keep_conn_OnFrame.
  - apply preserves_on_connection. by intros _ c Hc.
  - apply preserves_on_connection. intros _ c Hc. exact Hc.
  - unfold OnFramesDropped. destruct (n =? 0); [apply preserves_ret|].
    apply preserves_on_connection. intros _ c Hc. apply (keep_MarkAllDesynced c Hc).
Qed.

(** C22: whatever an adapter is told about its connections, a Deribit book it
    presents as [Ready] has no bid at or above an ask. *)
Theorem deribit_ready_uncrossed a h c calls :
  connections a !! h = Some c → deribit_books c = ∅ →
  match exec_each (run_call llround_unspecified hash asserts) calls a with
  | (_, Undef _) => True
  | (a', _) => ∃ c', connections a' !! h = Some c' ∧
      ∀ s b, deribit_books c' !! s = Some b → GetReadiness b = kReady →
        ¬ spec_crossed (l2_abs (ob_policy (ab_book b)))
  end.
Proof.
  intros Hc Hempty.
  pose proof (preserves_each (at_handle h deribit_inv) (run_call llround_unspecified hash asserts)
    calls (λ call _, keep_run_call h call) a) as Hrun.
  destruct (exec_each _ calls a) as [a' r]. simpl in Hrun.
  destruct r; [| |done]; (destruct Hrun as (c' & Hc' & Hinv);
    [exists c; split; [done|by unfold deribit_inv; rewrite Hempty; apply map_Forall_empty]|];
    exists c'; split; [done|]; intros s b Hb Hready;
    destruct (Hinv s b Hb) as [_ Hgood]; unfold GetReadiness in Hready;
    destruct (ab_desynced b); [done|by apply Hgood]).
Qed.
End adapter_ready.

(** ** Example runs *)

(** A JSON library that refuses every payload. *)
#[local] Instance refusing_json : Json unit := {|
  json_parse _ := Throws ExnJson;
  json_contains _ _ := false;
  json_at _ _ := Throws ExnJson;
  json_string _ := Throws ExnJson;
  json_double _ := Throws ExnJson;
  json_uint32 _ := Throws ExnJson;
  json_elements _ := [];
|}.

Definition demo_settings : BookSettings := mkBookSettings kDeribitFix demo_scale 1000.
Definition demo_frame (is_snapshot : bool) (symbol : bytes) : CaptureFrame :=
  mkCaptureFrame
    (BuildMessage (market_fields is_snapshot [mkField tag.kSymbol symbol] demo_wire_levels []))
    1 1 kDeribitFix.
Definition demo_now (_ : nat) : Z := 0.
Definition demo_run (calls : list adapter_call) (a : BookAdapter) : BookAdapter * outcome unit :=
  exec_each (run_call demo_unspecified (λ _, 0) true) calls a.
Definition frame_call (frame : CaptureFrame) : adapter_call := EventCall 0 demo_now (FrameEvent frame).

Definition demo_empty : BookAdapter :=
  (AddConnection (B "deribit") demo_settings (new_BookAdapter false)).1.
Definition demo_synced : BookAdapter := (demo_run [frame_call (demo_frame true (B "BTC"))] demo_empty).1.
Definition demo_conn : Connection :=
  default (new_Connection [] demo_settings) (connections demo_synced !! 0%nat).

Lemma demo_synced_ready :
  connections demo_synced !! 0%nat = Some demo_conn ∧ settings demo_conn = demo_settings ∧
  GetReadiness <$> deribit_books demo_conn !! B "BTC" = Some kReady.
Proof. by vm_compute. Qed.

Lemma frame_isolation_witness :
  match OnEvent demo_unspecified (λ _, 0) true 0%nat demo_now
          (FrameEvent (demo_frame false (B "ETH"))) demo_synced with
  | (_, Undef _) => True
  | (a', _) =>
      (∃ c', connections a' !! 0%nat = Some c' ∧
         books c' !! B "BTC" = books demo_conn !! B "BTC" ∧
         deribit_books c' !! B "BTC" = deribit_books demo_conn !! B "BTC") ∧
      ∀ h', h' ≠ 0%nat → connections a' !! h' = connections demo_synced !! h'
  end.
Proof.
  apply (frame_isolation demo_unspecified (λ _, 0) true demo_synced 0%nat demo_conn demo_now
    (demo_frame false (B "ETH")) (B "BTC")).
  - apply demo_synced_ready.
  - rewrite (proj1 (proj2 demo_synced_ready)). vm_compute. right. discriminate.
Defined.


Lemma deribit_ready_uncrossed_witness :
  match demo_run [frame_call (demo_frame true (B "BTC"))] demo_empty with
  | (_, Undef _) => True
  | (a', _) => ∃ c', connections a' !! 0%nat = Some c' ∧
      ∀ s b, deribit_books c' !! s = Some b → GetReadiness b = kReady →
        ¬ spec_crossed (l2_abs (ob_policy (ab_book b)))
  end.
Proof.
  apply (deribit_ready_uncrossed demo_unspecified (λ _, 0) true demo_empty 0%nat
    (new_Connection (B "deribit") demo_settings)); reflexivity.
Defined.
