(* ===== verification/BookService.v ===== *)
(** * Books behind rings: [book_adapter/ring_sink.h],
      [book_adapter/book_service.{h,cpp}]

    A connection thread pushes into its ring through a [RingSink]; one book
    thread pops every ring and calls the adapter. Pushes and pops are single
    steps, so an execution of the two threads is a sequence of them. A loop that
    runs until the rings are empty takes a bound on its passes. *)

From S2P Require Import Prelude BookTypes Text Scale KrakenWire Feed Ring BookAdapter.

(** ** [RingSink] *)

Record RingEntry := mkRingEntry {
  event : FeedEvent;
  dropped_before : Z;
}.

Section sink.
Context {Q : Type} `{!ReaderWriterQueue Q RingEntry}.
Abbreviation BookRing := (SpscRing Q).

Definition Stamped (ev : FeedEvent) (r : BookRing) : RingEntry := mkRingEntry ev (Dropped r).

Definition RingSink_OnFrame (frame : CaptureFrame) (r : BookRing) : BookRing :=
  (Push (Stamped (MakeFrameEvent frame) r) r).1.
Definition RingSink_OnConnect (id : Z) (reason : bytes) (r : BookRing) : BookRing :=
  PushControl (Stamped (ConnectEvent id reason) r) r.
Definition RingSink_OnDisconnect (id : Z) (r : BookRing) : BookRing :=
  PushControl (Stamped (DisconnectEvent id) r) r.

(** The sink call that hands over one feed event. *)
Definition sink_call (ev : FeedEvent) (r : BookRing) : BookRing :=
  match ev with
  | FrameEvent frame => RingSink_OnFrame frame r
  | ConnectEvent id reason => RingSink_OnConnect id reason r
  | DisconnectEvent id => RingSink_OnDisconnect id r
  end.
End sink.

(** ** [BookService] *)

Definition kBatch : nat := 64.

Section service.
Context {json : Type} `{!Json json}.
Context {Q : Type} `{!ReaderWriterQueue Q RingEntry}.
Variable llround_unspecified : double → Z.
Variable hash : bytes → Z.
Variable asserts : bool.
(** The clock readings made while a frame is handled. *)
Variable now : nat → Z.

Record Feed := mkFeed {
  fd_ring : SpscRing Q;
  fd_handle : nat;
  fd_reported_drops : Z;
}.

Record BookService := mkBookService {
  sv_ring_events : nat;
  sv_adapter : BookAdapter;
  sv_feeds : list Feed;
  sv_internal_errors : Z;
  sv_stopped : bool;
  sv_running : bool;
}.

Definition new_BookService (ring_events : nat) (timing : bool) : BookService :=
  mkBookService ring_events (new_BookAdapter timing) [] 0 false false.

(** The index of the feed whose sink the source returns. *)
Definition Service_AddConnection (nm : bytes) (s : BookSettings) (sv : BookService)
  : BookService * nat :=
  let '(adapter, handle) := AddConnection nm s (sv_adapter sv) in
  (mkBookService (sv_ring_events sv) adapter
     (sv_feeds sv ++ [mkFeed (new_SpscRing (sv_ring_events sv)) handle 0])
     (sv_internal_errors sv) (sv_stopped sv) (sv_running sv), length (sv_feeds sv)).

Definition Start (sv : BookService) : BookService :=
  if bool_decide (sv_feeds sv = []) || sv_running sv || sv_stopped sv then sv
  else mkBookService (sv_ring_events sv) (sv_adapter sv) (sv_feeds sv) (sv_internal_errors sv)
         (sv_stopped sv) true.

Definition set_feed (i : nat) (f : Feed) (sv : BookService) : BookService :=
  mkBookService (sv_ring_events sv) (sv_adapter sv) (<[i := f]> (sv_feeds sv))
    (sv_internal_errors sv) (sv_stopped sv) (sv_running sv).

(** The feed a loop is at. *)
Definition feed_at (i : nat) : exec BookService Feed := λ sv,
  match sv_feeds sv !! i with Some f => (sv, Done f) | None => (sv, Undef EndDereference) end.

Definition on_adapter (m : exec BookAdapter unit) : exec BookService unit := λ sv,
  let '(a, r) := m (sv_adapter sv) in
  (mkBookService (sv_ring_events sv) a (sv_feeds sv) (sv_internal_errors sv) (sv_stopped sv)
     (sv_running sv), r).

Definition CountInternalError : exec BookService unit := λ sv,
  (mkBookService (sv_ring_events sv) (sv_adapter sv) (sv_feeds sv)
     (incr64 (sv_internal_errors sv)) (sv_stopped sv) (sv_running sv), Done tt).

Definition ReportDrops (i : nat) (total : Z) : exec BookService unit :=
  let! f := feed_at i in
  if total <=? fd_reported_drops f then exec_ret tt
  else
    let fresh := wrap 64 (total - fd_reported_drops f) in
    run! (λ sv, (set_feed i (mkFeed (fd_ring f) (fd_handle f) total) sv, Done tt)) ;;
    on_adapter (OnFramesDropped (fd_handle f) fresh).

Definition Dispatch (i : nat) (entry : RingEntry) : exec BookService unit :=
  try_catch
    (run! ReportDrops i (dropped_before entry) ;;
     let! f := feed_at i in
     on_adapter (OnEvent llround_unspecified hash asserts (fd_handle f) now (event entry)))
    CountInternalError.

(** [feed.ring.Pop]. *)
Definition pop_feed (i : nat) : exec BookService (option RingEntry) :=
  let! f := feed_at i in
  let '(r, popped) := Pop (fd_ring f) in
  run! (λ sv, (set_feed i (mkFeed r (fd_handle f) (fd_reported_drops f)) sv, Done tt)) ;;
  exec_ret popped.

(** [Drain]'s loop; [room] is [kBatch - handled]. *)
Fixpoint drain_loop (room : nat) (i : nat) (handled : nat) : exec BookService nat :=
  match room with
  | O => exec_ret handled
  | S room =>
      let! popped := pop_feed i in
      match popped with
      | None => exec_ret handled
      | Some entry => run! Dispatch i entry ;; drain_loop room i (S handled)
      end
  end.

Definition Drain (i : nat) : exec BookService nat := drain_loop kBatch i 0.

Fixpoint drain_pass (indices : list nat) (handled : nat) : exec BookService nat :=
  match indices with
  | [] => exec_ret handled
  | i :: indices => let! n := Drain i in drain_pass indices (handled + n)%nat
  end.

Definition DrainPass : exec BookService nat :=
  let! sv := exec_get in drain_pass (seq 0 (length (sv_feeds sv))) 0.

(** [Poll]; [None] when [fuel] passes were not enough. *)
Fixpoint Poll (fuel : nat) (total : nat) : exec BookService (option nat) :=
  match fuel with
  | O => exec_ret None
  | S fuel =>
      let! handled := DrainPass in
      if (handled =? 0)%nat then exec_ret (Some total) else Poll fuel (total + handled)%nat
  end.

(** One turn of [Run]'s loop, [stopping] being the flag it loaded: whether the
    thread ends. Between two turns the other threads may push. *)
Definition Run_turn (stopping : bool) : exec BookService bool :=
  let! handled := DrainPass in
  exec_ret ((handled =? 0)%nat && stopping).

(** The turns of the thread once the flag is set; [false]: not ended yet. *)
Fixpoint Run_stopping (fuel : nat) : exec BookService bool :=
  match fuel with
  | O => exec_ret false
  | S fuel =>
      let! ended := Run_turn true in
      if ended : bool then exec_ret true else Run_stopping fuel
  end.

Definition ReportTrailingDrops (i : nat) : exec BookService unit :=
  try_catch (let! f := feed_at i in ReportDrops i (Dropped (fd_ring f))) CountInternalError.

(** [Stop]; the result says whether the drain ended within [fuel] passes. *)
Definition Stop (fuel : nat) : exec BookService bool :=
  let! sv := exec_get in
  if sv_stopped sv then exec_ret true
  else
    run! (λ sv, (mkBookService (sv_ring_events sv) (sv_adapter sv) (sv_feeds sv)
                   (sv_internal_errors sv) true (sv_running sv), Done tt)) ;;
    let! ended := (if sv_running sv
                   then
                     let! ended := Run_stopping fuel in
                     run! (λ sv, (mkBookService (sv_ring_events sv) (sv_adapter sv) (sv_feeds sv)
                                    (sv_internal_errors sv) (sv_stopped sv) false, Done tt)) ;;
                     exec_ret ended
                   else
                     let! polled := Poll fuel 0 in exec_ret (bool_decide (is_Some polled))) in
    if ended : bool then
      run! exec_each ReportTrailingDrops (seq 0 (length (sv_feeds sv))) ;; exec_ret true
    else exec_ret false.

(** [Summary]. *)
Definition issue_texts (stats : ConnectionStats) : bytes :=
  foldl (λ text issue,
    if IssueCount stats issue =? 0 then text
    else text ++ (if decide (text = []) then [] else B ", ") ++ ToString issue ++ B "=" ++
         to_string (IssueCount stats issue)) []
    [kGap; kChecksumMismatch; kCrossedBook; kUnknownOrder; kUnknownLevel].

Definition Summary (i : nat) (sv : BookService) : outcome bytes :=
  match sv_feeds sv !! i with
  | None => Undef EndDereference
  | Some f =>
      do! stats := Stats (fd_handle f) (sv_adapter sv) in
      do! nm := Name (fd_handle f) (sv_adapter sv) in
      do! count := BookCount (fd_handle f) (sv_adapter sv) in
      let issues := issue_texts stats in
      let issues := if decide (issues = []) then B "none" else issues in
      Done (B "[" ++ nm ++ B "] books: " ++ to_string (stats frames) ++ B " frames, " ++
            to_string (stats snapshots) ++ B " snapshots, " ++ to_string (stats updates) ++
            B " updates, " ++ to_string (stats drops) ++ B " dropped, " ++
            to_string (stats parse_errors) ++ B " parse errors, " ++
            to_string (stats apply_errors) ++ B " apply errors, integrity issues: " ++ issues ++
            B ", " ++ to_string (Z.of_nat count) ++ B " book(s) at exit")
  end.

Definition InternalErrors (sv : BookService) : Z := sv_internal_errors sv.
End service.
