(* ===== verification/ServiceProofs.v ===== *)
(** * What crosses the ring

    The book thread may lag any number of events behind the connection threads,
    and rings overflow; still the adapter sees, for every connection, what the
    connection's thread handed over, in order, with every refused frame
    reported in the place where it is missing. *)

From S2P Require Import Prelude BookTypes Text Scale KrakenWire Feed BookAdapter AdapterProofs.
From S2P Require Import AdapterReady ScaleExact Ring BookService.

(** ** The specification *)

(** What one connection of the adapter is told. *)
Inductive conn_call : Type :=
| ConnEvent (event : FeedEvent)
| ConnDrop (n : Z).

Definition drop_notice (pending : Z) : list conn_call :=
  if pending =? 0 then [] else [ConnDrop pending].

(** What the books should see of a history of handed-over events, each kept by
    the ring or refused: a run of refused events becomes one notice, before
    the next event that was kept, or at the end. *)
Fixpoint seen (pending : Z) (hist : list (FeedEvent * bool)) : list conn_call :=
  match hist with
  | [] => drop_notice pending
  | (ev, true) :: hist => drop_notice pending ++ ConnEvent ev :: seen 0 hist
  | (_, false) :: hist => seen (pending + 1) hist
  end.

Fixpoint refused (hist : list (FeedEvent * bool)) : Z :=
  match hist with
  | [] => 0
  | (_, kept) :: hist => (if kept : bool then 0 else 1) + refused hist
  end.

(** The entries a history leaves in the ring when [d] frames were refused before it. *)
Fixpoint stamps (d : Z) (hist : list (FeedEvent * bool)) : list RingEntry :=
  match hist with
  | [] => []
  | (ev, true) :: hist => mkRingEntry ev d :: stamps d hist
  | (_, false) :: hist => stamps (d + 1) hist
  end.

(** What dispatching entries tells the connection. *)
Definition entry_calls (reported : Z) (e : RingEntry) : list conn_call :=
  (if dropped_before e <=? reported then [] else [ConnDrop (dropped_before e - reported)]) ++
  [ConnEvent (event e)].
Fixpoint calls_of (reported : Z) (es : list RingEntry) : list conn_call :=
  match es with
  | [] => []
  | e :: es => entry_calls reported e ++ calls_of (Z.max reported (dropped_before e)) es
  end.
Definition last_report (es : list RingEntry) : Z := foldl (λ r e, Z.max r (dropped_before e)) 0 es.

Lemma refused_nonneg hist : 0 <= refused hist.
Proof. induction hist as [|[ev []] hist IH]; simpl; lia. Qed.

Lemma refused_app h1 h2 : refused (h1 ++ h2) = refused h1 + refused h2.
Proof. induction h1 as [|[ev []] h1 IH]; simpl; lia. Qed.

Lemma stamps_app d h1 h2 : stamps d (h1 ++ h2) = stamps d h1 ++ stamps (d + refused h1) h2.
Proof.
  revert d. induction h1 as [|[ev []] h1 IH]; intros d; simpl.
  - by rewrite Z.add_0_r.
  - by rewrite IH.
  - rewrite IH. do 2 f_equal. lia.
Qed.

Lemma calls_of_app r es1 es2 :
  calls_of r (es1 ++ es2) =
    calls_of r es1 ++ calls_of (foldl (λ r e, Z.max r (dropped_before e)) r es1) es2.
Proof. revert r. induction es1 as [|e es1 IH]; intros r; [done|]. simpl. by rewrite IH, app_assoc. Qed.

Lemma last_report_snoc es e : last_report (es ++ [e]) = Z.max (last_report es) (dropped_before e).
Proof. unfold last_report. by rewrite foldl_app. Qed.

(** Dispatching every entry and then reporting the rest is what should be seen. *)
Lemma calls_of_seen r d hist : r <= d →
  calls_of r (stamps d hist) ++
    drop_notice (d + refused hist - foldl (λ r e, Z.max r (dropped_before e)) r (stamps d hist)) =
  seen (d - r) hist.
Proof.
  revert r d. induction hist as [|[ev kept] hist IH]; intros r d Hle; cbn [stamps seen refused].
  { simpl. by rewrite Z.add_0_r. }
  destruct kept.
  - cbn [calls_of foldl dropped_before event]. rewrite Z.max_r by done.
    rewrite Z.add_0_l, <-app_assoc, IH, Z.sub_diag by done. unfold entry_calls, drop_notice. simpl.
    destruct (Z.leb_spec d r), (Z.eqb_spec (d - r) 0); try lia; done.
  - replace (d + (1 + refused hist)) with (d + 1 + refused hist) by lia. rewrite IH by lia.
    f_equal. lia.
Qed.

(** ** One entry *)

Section service_proofs.
Context {json : Type} `{!Json json}.
Context {Q : Type} `{!ReaderWriterQueue Q RingEntry} `{!ReaderWriterQueueLaws Q RingEntry}.
Context (llround_unspecified : double → Z) (hash : bytes → Z) (asserts : bool) (now : nat → Z).

Definition conn_run (timing : bool) (call : conn_call) : exec Connection unit :=
  match call with
  | ConnEvent ev => conn_OnEvent llround_unspecified hash asserts timing now ev
  | ConnDrop n => conn_OnFramesDropped n
  end.

Lemma OnEvent_on_connection h ev a :
  OnEvent llround_unspecified hash asserts h now ev a =
  on_connection h (conn_OnEvent llround_unspecified hash asserts (measure_timing a) now ev) a.
Proof. by destruct ev. Qed.

Definition contents (f : Feed (Q:=Q)) : list RingEntry := queue_contents (ring_queue (fd_ring f)).

(** Feed [j] and connection [j] replaced. *)
Definition updated (j : nat) (f : Feed (Q:=Q)) (c : Connection) (sv : BookService) : BookService :=
  mkBookService (sv_ring_events sv)
    (mkBookAdapter (measure_timing (sv_adapter sv)) (<[j := c]> (connections (sv_adapter sv))))
    (<[j := f]> (sv_feeds sv)) (sv_internal_errors sv) (sv_stopped sv) (sv_running sv).

Definition well_formed (sv : BookService (Q:=Q)) : Prop :=
  (∀ j f, sv_feeds sv !! j = Some f → fd_handle f = j) ∧
  length (connections (sv_adapter sv)) = length (sv_feeds sv).

Lemma on_adapter_connection j m (sv : BookService (Q:=Q)) c :
  connections (sv_adapter sv) !! j = Some c →
  on_adapter (on_connection j m) sv =
    let '(c', r) := m c in
    (mkBookService (sv_ring_events sv)
       (mkBookAdapter (measure_timing (sv_adapter sv)) (<[j := c']> (connections (sv_adapter sv))))
       (sv_feeds sv) (sv_internal_errors sv) (sv_stopped sv) (sv_running sv), r).
Proof. intros Hc. unfold on_adapter, on_connection, At. rewrite Hc. by destruct (m c). Qed.

Definition reported_to (f : Feed (Q:=Q)) (total : Z) : Feed :=
  mkFeed (fd_ring f) (fd_handle f) (Z.max (fd_reported_drops f) total).

Lemma feed_at_run j (sv : BookService (Q:=Q)) f :
  sv_feeds sv !! j = Some f → feed_at j sv = (sv, Done f).
Proof. unfold feed_at. by intros ->. Qed.

Lemma ReportDrops_run j total sv f c :
  well_formed sv → sv_feeds sv !! j = Some f → connections (sv_adapter sv) !! j = Some c →
  0 <= fd_reported_drops f → total < 2 ^ 64 →
  ReportDrops j total sv =
    (updated j (reported_to f total)
       (if total <=? fd_reported_drops f then c
        else (conn_OnFramesDropped (total - fd_reported_drops f) c).1) sv, Done tt).
Proof.
  intros Hwf Hf Hc Hr Ht. unfold ReportDrops, exec_bind. rewrite (feed_at_run _ _ _ Hf).
  unfold updated, reported_to. destruct (Z.leb_spec total (fd_reported_drops f)).
  - rewrite Z.max_l by done. simpl. rewrite !list_insert_id; destruct f; try done.
    by destruct sv as [? [] ? ? ? ?].
  - rewrite Z.max_r by lia. unfold wrap. rewrite Z.mod_small by lia.
    unfold OnFramesDropped. rewrite (proj2 (Z.eqb_neq _ 0)) by lia.
    rewrite (proj1 Hwf j f Hf). rewrite (on_adapter_connection j _ _ c) by done. done.
Qed.

Lemma updated_lookup j f c f0 c0 sv :
  sv_feeds sv !! j = Some f0 → connections (sv_adapter sv) !! j = Some c0 →
  sv_feeds (updated j f c sv) !! j = Some f ∧
  connections (sv_adapter (updated j f c sv)) !! j = Some c.
Proof.
  intros Hf Hc. split; simpl; apply list_lookup_insert_eq; by eapply lookup_lt_Some.
Qed.

Lemma updated_other j i f c sv : i ≠ j →
  sv_feeds (updated j f c sv) !! i = sv_feeds sv !! i ∧
  connections (sv_adapter (updated j f c sv)) !! i = connections (sv_adapter sv) !! i.
Proof. intros Hne. simpl. by rewrite !list_lookup_insert_ne. Qed.

Lemma updated_twice j f1 c1 f2 c2 sv : updated j f2 c2 (updated j f1 c1 sv) = updated j f2 c2 sv.
Proof. unfold updated. simpl. by rewrite !list_insert_insert_eq. Qed.

Lemma updated_well_formed j f c f0 sv :
  well_formed sv → sv_feeds sv !! j = Some f0 → fd_handle f = fd_handle f0 →
  well_formed (updated j f c sv).
Proof.
  intros [Hh Hl] Hf0 Heq. split; simpl; [|by rewrite !length_insert].
  intros i g. destruct (decide (i = j)) as [->|Hne].
  - rewrite list_lookup_insert_eq by (by eapply lookup_lt_Some). intros [= <-].
    rewrite Heq. by apply Hh.
  - rewrite list_lookup_insert_ne by done. apply Hh.
Qed.

Lemma conn_run_no_throw timing call : no_throw (conn_run timing call).
Proof. destruct call as [[]|n]; [apply conn_OnFrame_no_throw|done..]. Qed.

Lemma Dispatch_run j e sv f c :
  well_formed sv → sv_feeds sv !! j = Some f → connections (sv_adapter sv) !! j = Some c →
  0 <= fd_reported_drops f → dropped_before e < 2 ^ 64 →
  match exec_each (conn_run (measure_timing (sv_adapter sv)))
          (entry_calls (fd_reported_drops f) e) c with
  | (c', Done _) =>
      Dispatch llround_unspecified hash asserts now j e sv =
        (updated j (reported_to f (dropped_before e)) c' sv, Done tt)
  | (_, Undef u) => ∃ sv', Dispatch llround_unspecified hash asserts now j e sv = (sv', Undef u)
  | (_, Throws _) => False
  end.
Proof.
  intros Hwf Hf Hc Hr Ht. unfold Dispatch, try_catch.
  set (c1 := if dropped_before e <=? fd_reported_drops f then c
             else (conn_OnFramesDropped (dropped_before e - fd_reported_drops f) c).1).
  assert (exec_each (conn_run (measure_timing (sv_adapter sv)))
            (entry_calls (fd_reported_drops f) e) c =
          exec_each (conn_run (measure_timing (sv_adapter sv))) [ConnEvent (event e)] c1) as ->.
  { unfold entry_calls, c1. by destruct (dropped_before e <=? fd_reported_drops f). }
  unfold exec_bind. rewrite (ReportDrops_run _ _ _ f c) by done. fold c1.
  destruct (updated_lookup j (reported_to f (dropped_before e)) c1 f c sv Hf Hc) as [Hf1 Hc1].
  rewrite (feed_at_run _ _ _ Hf1).
  unfold on_adapter. rewrite OnEvent_on_connection. cbn [reported_to fd_handle].
  rewrite (proj1 Hwf j f Hf). unfold on_connection, At. rewrite Hc1.
  cbn [exec_each conn_run]. unfold exec_bind.
  pose proof (conn_run_no_throw (measure_timing (sv_adapter sv)) (ConnEvent (event e)) c1) as Hnt.
  cbn [conn_run] in Hnt.
  change (measure_timing (sv_adapter (updated j (reported_to f (dropped_before e)) c1 sv)))
    with (measure_timing (sv_adapter sv)).
  destruct (conn_OnEvent _ _ _ _ _ _ c1) as [c2 [[]|ex|u]] eqn:Hrun.
  - simpl. f_equal. rewrite <-(updated_twice j (reported_to f (dropped_before e)) c1).
    unfold updated. simpl. by rewrite !list_insert_insert_eq.
  - by destruct (Hnt ex).
  - by eexists.
Qed.

(** ** The consumer *)

(** One iteration of [Drain]'s loop: whether there was an entry. *)
Definition consume (j : nat) : exec BookService bool :=
  let! popped := pop_feed j in
  match popped with
  | None => exec_ret false
  | Some e => run! Dispatch llround_unspecified hash asserts now j e ;; exec_ret true
  end.

Lemma drain_loop_consume room j handled sv :
  drain_loop llround_unspecified hash asserts now (S room) j handled sv =
  (let! got := consume j in
   if got : bool then drain_loop llround_unspecified hash asserts now room j (S handled)
   else exec_ret handled) sv.
Proof.
  cbn [drain_loop]. unfold consume, exec_bind. destruct (pop_feed j sv) as [sv1 [[e|]|x|u]]; try done.
  by destruct (Dispatch _ _ _ _ _ _ sv1) as [sv2 []].
Qed.

Lemma pop_feed_run j sv f :
  sv_feeds sv !! j = Some f →
  match contents f with
  | [] => pop_feed j sv = (sv, Done None)
  | e :: rest => ∃ q, queue_contents q = rest ∧
      pop_feed j sv = (set_feed j (mkFeed (mkSpscRing q (ring_dropped (fd_ring f))) (fd_handle f)
                                     (fd_reported_drops f)) sv, Done (Some e))
  end.
Proof.
  intros Hf. unfold pop_feed, exec_bind. rewrite (feed_at_run _ _ _ Hf). unfold Pop, contents.
  pose proof (try_dequeue_takes (T:=RingEntry) (ring_queue (fd_ring f))) as Htake.
  destruct (try_dequeue (ring_queue (fd_ring f))) as [[e q]|]; rewrite Htake.
  - exists q. done.
  - simpl. unfold set_feed. rewrite list_insert_id; destruct sv, f as [[] ? ?]; done.
Qed.

(** ** The invariant

    For every feed: the ring holds the stamped entries of its history that were
    not dispatched yet, and its connection is where the dispatched ones lead. *)

Definition feed_ok (timing : bool) (c0 : Connection) (hist : list (FeedEvent * bool))
    (f : Feed (Q:=Q)) (c : Connection) : Prop :=
  ∃ dispatched,
    stamps 0 hist = dispatched ++ contents f ∧ ring_dropped (fd_ring f) = refused hist ∧
    fd_reported_drops f = last_report dispatched ∧
    exec_each (conn_run timing) (calls_of 0 dispatched) c0 = (c, Done tt).

(** What no step of either thread changes. *)
Definition fixed (sv : BookService (Q:=Q)) : bool * Z * bool * bool :=
  (measure_timing (sv_adapter sv), sv_internal_errors sv, sv_stopped sv, sv_running sv).

Record svc_inv (st : bool * Z * bool * bool) (cs0 : list Connection)
    (hists : list (list (FeedEvent * bool))) (sv : BookService (Q:=Q)) : Prop := {
  inv_wf : well_formed sv;
  inv_fixed : fixed sv = st;
  inv_hists : length hists = length (sv_feeds sv);
  inv_cs0 : length cs0 = length (sv_feeds sv);
  inv_small : Forall (λ hist, refused hist < 2 ^ 64) hists;
  inv_feeds j f c hist c0 :
    sv_feeds sv !! j = Some f → connections (sv_adapter sv) !! j = Some c →
    hists !! j = Some hist → cs0 !! j = Some c0 → feed_ok st.1.1.1 c0 hist f c;
}.

(** Everything there is about feed [j]. *)
Lemma svc_inv_lookup st cs0 hists sv j f : svc_inv st cs0 hists sv → sv_feeds sv !! j = Some f →
  ∃ c hist c0, connections (sv_adapter sv) !! j = Some c ∧ hists !! j = Some hist ∧
    cs0 !! j = Some c0 ∧ feed_ok st.1.1.1 c0 hist f c ∧ refused hist < 2 ^ 64.
Proof.
  intros Hinv Hf. pose proof (lookup_lt_Some _ _ _ Hf) as Hlt.
  destruct (lookup_lt_is_Some_2 (connections (sv_adapter sv)) j) as [c Hc].
  { by rewrite (proj2 (inv_wf _ _ _ _ Hinv)). }
  destruct (lookup_lt_is_Some_2 hists j) as [hist Hh]; [by rewrite (inv_hists _ _ _ _ Hinv)|].
  destruct (lookup_lt_is_Some_2 cs0 j) as [c0 Hc0]; [by rewrite (inv_cs0 _ _ _ _ Hinv)|].
  exists c, hist, c0. split_and!; [done..|by eapply inv_feeds|].
  pose proof (inv_small _ _ _ _ Hinv) as Hs. rewrite Forall_forall in Hs.
  eapply Hs, list_elem_of_lookup_2, Hh.
Qed.

(** Replacing feed [j] and its connection by ones that are as they should be. *)
Lemma svc_inv_updated st cs0 hists hists' sv j f0 f c hist c0 :
  svc_inv st cs0 hists sv → sv_feeds sv !! j = Some f0 → fd_handle f = fd_handle f0 →
  cs0 !! j = Some c0 → hists' = <[j := hist]> hists → refused hist < 2 ^ 64 →
  feed_ok st.1.1.1 c0 hist f c → svc_inv st cs0 hists' (updated j f c sv).
Proof.
  intros Hinv Hf0 Hh Hc0 -> Hsmall Hok.
  pose proof (lookup_lt_Some _ _ _ Hf0) as Hlt. split.
  - eapply updated_well_formed; [apply Hinv|done..].
  - apply (inv_fixed _ _ _ _ Hinv).
  - simpl. rewrite !length_insert. apply Hinv.
  - simpl. rewrite length_insert. apply Hinv.
  - apply Forall_insert; [apply Hinv|done].
  - intros i f' c' hist' c0' Hf' Hc' Hh' Hc0'. simpl in *. destruct (decide (i = j)) as [->|Hne].
    + rewrite list_lookup_insert_eq in Hf' by done.
      rewrite list_lookup_insert_eq in Hc' by (by rewrite (proj2 (inv_wf _ _ _ _ Hinv))).
      rewrite list_lookup_insert_eq in Hh' by (by rewrite (inv_hists _ _ _ _ Hinv)).
      by simplify_eq.
    + rewrite list_lookup_insert_ne in Hf' by done. rewrite list_lookup_insert_ne in Hc' by done.
      rewrite list_lookup_insert_ne in Hh' by done.
      by eapply (inv_feeds _ _ _ _ Hinv i).
Qed.

Lemma stamps_bound d hist e : e ∈ stamps d hist → d <= dropped_before e <= d + refused hist.
Proof.
  revert d. induction hist as [|[ev []] hist IH]; intros d; simpl; [by intros ?%elem_of_nil|..].
  - pose proof (refused_nonneg hist). intros [->|He%IH]%elem_of_cons; simpl; lia.
  - intros He%IH. lia.
Qed.

Lemma last_report_nonneg es : 0 <= last_report es.
Proof.
  induction es as [|e es IH] using rev_ind; [done|]. rewrite last_report_snoc. lia.
Qed.

(** What all rings hold together. *)
Definition backlog (sv : BookService (Q:=Q)) : nat :=
  sum_list_with (λ f, length (contents f)) (sv_feeds sv).

Lemma sum_list_with_insert {A} (g : A → nat) l j x y :
  l !! j = Some x → (sum_list_with g (<[j := y]> l) + g x = sum_list_with g l + g y)%nat.
Proof.
  revert j. induction l as [|z l IH]; intros [|j] Hj; simpl in *; simplify_eq; [lia|].
  specialize (IH j Hj). lia.
Qed.

Definition empty_feed (sv : BookService (Q:=Q)) (j : nat) : Prop :=
  ∀ f, sv_feeds sv !! j = Some f → contents f = [].

(** One entry dispatched, or none there. *)
Lemma consume_spec st cs0 hists j sv : svc_inv st cs0 hists sv →
  match consume j sv with
  | (sv', Done true) => svc_inv st cs0 hists sv' ∧ S (backlog sv') = backlog sv
  | (sv', Done false) => sv' = sv ∧ empty_feed sv j
  | (_, Throws _) => False
  | (_, Undef _) => True
  end.
Proof.
  intros Hinv. destruct (sv_feeds sv !! j) as [f|] eqn:Hf.
  2: { unfold consume, pop_feed, exec_bind, feed_at. by rewrite Hf. }
  destruct (svc_inv_lookup _ _ _ _ _ _ Hinv Hf) as (c & hist & c0 & Hc & Hh & Hc0 & Hok & Hsmall).
  pose proof (pop_feed_run j sv f Hf) as Hpop. unfold consume, exec_bind.
  destruct Hok as (dispatched & Hst & Hdr & Hrep & Hrun).
  destruct (contents f) as [|e rest] eqn:Hcont.
  { rewrite Hpop. split; [done|]. intros f' Hf'. by simplify_eq. }
  destruct Hpop as (q & Hq & ->).
  set (f1 := mkFeed _ (fd_handle f) (fd_reported_drops f)).
  assert (set_feed j f1 sv = updated j f1 c sv) as ->.
  { unfold set_feed, updated. f_equal. rewrite list_insert_id by done. by destruct (sv_adapter sv). }
  assert (e ∈ stamps 0 hist) as He by (rewrite Hst; set_solver).
  pose proof (stamps_bound _ _ _ He) as Hbound.
  destruct (updated_lookup j f1 c f c sv Hf Hc) as [Hf1 Hc1].
  pose proof (Dispatch_run j e (updated j f1 c sv) f1 c) as Hd.
  change (fd_reported_drops f1) with (fd_reported_drops f) in Hd. rewrite Hrep in Hd.
  pose proof (last_report_nonneg dispatched).
  specialize (Hd ltac:(by eapply updated_well_formed; [apply Hinv|..]) Hf1 Hc1
    ltac:(lia) ltac:(lia)).
  change (measure_timing (sv_adapter (updated j f1 c sv))) with (fixed sv).1.1.1 in Hd.
  rewrite (inv_fixed _ _ _ _ Hinv) in Hd.
  pose proof (exec_each_app _ _ (entry_calls (last_report dispatched) e) _ _ Hrun) as Hboth.
  destruct (exec_each _ (entry_calls (last_report dispatched) e) c) as [c' [[]|x|u]]; [..|done|].
  - rewrite Hd, updated_twice. cbn [exec_ret]. split.
    2: { pose proof (sum_list_with_insert (λ f, length (contents f)) (sv_feeds sv) j f
           (reported_to f1 (dropped_before e)) Hf) as Hsum.
         cbv beta in Hsum. rewrite Hcont in Hsum.
         replace (contents (reported_to f1 (dropped_before e))) with rest in Hsum by done.
         unfold backlog. simpl in *. lia. }
    apply (svc_inv_updated _ _ hists _ _ _ f _ _ hist c0); try done.
    { by rewrite list_insert_id. }
    exists (dispatched ++ [e]). split_and!.
    + rewrite Hst, <-app_assoc. unfold contents. simpl. by rewrite Hq.
    + done.
    + rewrite last_report_snoc. simpl. by rewrite Hrep.
    + rewrite calls_of_app. simpl. rewrite app_nil_r. exact Hboth.
  - by destruct Hd as [sv' ->].
Qed.

Lemma drain_loop_spec st cs0 hists room j handled sv : svc_inv st cs0 hists sv →
  match drain_loop llround_unspecified hash asserts now room j handled sv with
  | (sv', Done n) => svc_inv st cs0 hists sv' ∧ (handled <= n)%nat ∧
      (backlog sv' + n = backlog sv + handled)%nat ∧
      (room ≠ 0%nat → n = handled → sv' = sv ∧ empty_feed sv j)
  | (_, Throws _) => False
  | (_, Undef _) => True
  end.
Proof.
  revert handled sv. induction room as [|room IH]; intros handled sv Hinv.
  { simpl. split_and!; done || lia. }
  rewrite drain_loop_consume. unfold exec_bind. pose proof (consume_spec _ _ _ j sv Hinv) as Hc.
  destruct (consume j sv) as [sv1 [[]|x|u]]; [|..|done|done].
  - destruct Hc as [Hinv1 Hb]. specialize (IH (S handled) sv1 Hinv1).
    destruct (drain_loop _ _ _ _ room j (S handled) sv1) as [sv2 [n|x|u]]; [|done..].
    destruct IH as (H1 & H2 & H3 & _). split_and!; [done|lia..|]. intros _ ->. lia.
  - destruct Hc as [-> He]. simpl. split_and!; done || lia.
Qed.

Lemma drain_pass_spec st cs0 hists indices handled sv : svc_inv st cs0 hists sv →
  match drain_pass llround_unspecified hash asserts now indices handled sv with
  | (sv', Done n) => svc_inv st cs0 hists sv' ∧ (handled <= n)%nat ∧
      (backlog sv' + n = backlog sv + handled)%nat ∧
      (n = handled → sv' = sv ∧ ∀ j, j ∈ indices → empty_feed sv j)
  | (_, Throws _) => False
  | (_, Undef _) => True
  end.
Proof.
  revert handled sv. induction indices as [|j indices IH]; intros handled sv Hinv; cbn [drain_pass].
  { simpl. split_and!; [done|lia|lia|]. intros _. split; [done|]. intros j []%elem_of_nil. }
  unfold exec_bind, Drain. pose proof (drain_loop_spec _ _ _ kBatch j 0 sv Hinv) as Hd.
  destruct (drain_loop _ _ _ _ kBatch j 0 sv) as [sv1 [n|x|u]]; [|done..].
  destruct Hd as (Hinv1 & _ & Hb & Hz). specialize (IH (handled + n)%nat sv1 Hinv1).
  destruct (drain_pass _ _ _ _ indices _ sv1) as [sv2 [m|x|u]]; [|done..].
  destruct IH as (H1 & H2 & H3 & H4). split_and!; [done|lia..|]. intros ->.
  destruct Hz as [-> Hj]; [done|lia|]. destruct H4 as [-> H4]; [lia|]. split; [done|].
  intros i [->|Hi]%elem_of_cons; [done|by apply H4].
Qed.

Definition all_empty (sv : BookService (Q:=Q)) : Prop := ∀ j, empty_feed sv j.

Lemma DrainPass_spec st cs0 hists sv : svc_inv st cs0 hists sv →
  match DrainPass llround_unspecified hash asserts now sv with
  | (sv', Done n) => svc_inv st cs0 hists sv' ∧ (backlog sv' + n = backlog sv)%nat ∧
      (n = 0%nat → all_empty sv')
  | (_, Throws _) => False
  | (_, Undef _) => True
  end.
Proof.
  intros Hinv. unfold DrainPass, exec_bind, exec_get.
  pose proof (drain_pass_spec _ _ _ (seq 0 (length (sv_feeds sv))) 0 sv Hinv) as Hp.
  destruct (drain_pass _ _ _ _ _ 0 sv) as [sv' [n|x|u]]; [|done..].
  destruct Hp as (H1 & _ & H3 & H4). split_and!; [done|lia|]. intros Hn.
  destruct (H4 Hn) as [-> He]. intros j f Hf. apply (He j); [|done].
  apply elem_of_seq. apply lookup_lt_Some in Hf. lia.
Qed.

(** The drains end, with every ring empty. *)
Lemma Poll_spec st cs0 hists fuel total sv : svc_inv st cs0 hists sv → (backlog sv < fuel)%nat →
  match Poll llround_unspecified hash asserts now fuel total sv with
  | (sv', Done r) => is_Some r ∧ svc_inv st cs0 hists sv' ∧ all_empty sv'
  | (_, Throws _) => False
  | (_, Undef _) => True
  end.
Proof.
  revert total sv. induction fuel as [|fuel IH]; intros total sv Hinv Hfuel; [lia|].
  cbn [Poll]. unfold exec_bind. pose proof (DrainPass_spec _ _ _ sv Hinv) as Hp.
  destruct (DrainPass _ _ _ _ sv) as [sv1 [n|x|u]]; [|done..].
  destruct Hp as (H1 & H2 & H3). destruct (Nat.eqb_spec n 0) as [->|Hn].
  - split_and!; [by eexists|done|by apply H3].
  - apply IH; [done|lia].
Qed.

Lemma Run_stopping_spec st cs0 hists fuel sv : svc_inv st cs0 hists sv → (backlog sv < fuel)%nat →
  match Run_stopping llround_unspecified hash asserts now fuel sv with
  | (sv', Done ended) => ended = true ∧ svc_inv st cs0 hists sv' ∧ all_empty sv'
  | (_, Throws _) => False
  | (_, Undef _) => True
  end.
Proof.
  revert sv. induction fuel as [|fuel IH]; intros sv Hinv Hfuel; [lia|].
  cbn [Run_stopping]. unfold exec_bind, Run_turn, exec_bind.
  pose proof (DrainPass_spec _ _ _ sv Hinv) as Hp.
  destruct (DrainPass _ _ _ _ sv) as [sv1 [n|x|u]]; [|done..].
  destruct Hp as (H1 & H2 & H3). destruct (Nat.eqb_spec n 0) as [->|Hn]; simpl.
  - split_and!; [done..|by apply H3].
  - apply IH; [done|lia].
Qed.

(** ** The producers *)

Definition is_frame (ev : FeedEvent) : Prop := match ev with FrameEvent _ => True | _ => False end.

Lemma sink_call_spec ev (r : SpscRing Q) : ∃ kept : bool,
  queue_contents (ring_queue (sink_call ev r)) =
    queue_contents (ring_queue r) ++ (if kept then [mkRingEntry ev (ring_dropped r)] else []) ∧
  ring_dropped (sink_call ev r) = (if kept then ring_dropped r else incr64 (ring_dropped r)) ∧
  (kept = false → is_frame ev).
Proof.
  destruct ev as [frame|id reason|id].
  - simpl. unfold RingSink_OnFrame, Push, Stamped, MakeFrameEvent. rewrite CopyFrame_id.
    destruct (try_enqueue _ _) as [q|] eqn:Hq.
    + exists true. split_and!; [|done..]. by apply try_enqueue_appends in Hq.
    + exists false. by rewrite app_nil_r.
  - exists true. split_and!; [|done..]. apply enqueue_appends.
  - exists true. split_and!; [|done..]. apply enqueue_appends.
Qed.

(** The connection thread of feed [j] hands over [ev]. *)
Definition produce (j : nat) (ev : FeedEvent) : exec (BookService (Q:=Q)) unit :=
  let! f := feed_at j in
  λ sv, (set_feed j (mkFeed (sink_call ev (fd_ring f)) (fd_handle f) (fd_reported_drops f)) sv,
         Done tt).

Lemma refused_length hist : refused hist <= Z.of_nat (length hist).
Proof. induction hist as [|[ev []] hist IH]; simpl; lia. Qed.

Lemma produce_spec st cs0 hists j ev sv :
  svc_inv st cs0 hists sv →
  (∀ hist, hists !! j = Some hist → Z.of_nat (length hist) + 1 < 2 ^ 64) →
  match produce j ev sv with
  | (sv', Done _) => ∃ hist kept, hists !! j = Some hist ∧ (kept = false → is_frame ev) ∧
      svc_inv st cs0 (<[j := hist ++ [(ev, kept)]]> hists) sv' ∧
      (backlog sv' <= S (backlog sv))%nat
  | (_, Throws _) => False
  | (_, Undef _) => True
  end.
Proof.
  intros Hinv Hroom. unfold produce, exec_bind, feed_at.
  destruct (sv_feeds sv !! j) as [f|] eqn:Hf; [|done].
  destruct (svc_inv_lookup _ _ _ _ _ _ Hinv Hf) as (c & hist & c0 & Hc & Hh & Hc0 & Hok & Hsmall).
  destruct (sink_call_spec ev (fd_ring f)) as (kept & Hcont & Hdr & Hframe).
  exists hist, kept. split_and!; [done..| |].
  - set (f1 := mkFeed _ _ _).
    assert (set_feed j f1 sv = updated j f1 c sv) as ->.
    { unfold set_feed, updated. f_equal. rewrite list_insert_id by done. by destruct (sv_adapter sv). }
    pose proof (refused_length hist). pose proof (refused_nonneg hist). specialize (Hroom hist Hh).
    apply (svc_inv_updated _ _ hists _ _ _ f _ _ (hist ++ [(ev, kept)]) c0); try done.
    { rewrite refused_app. simpl. destruct kept; lia. }
    destruct Hok as (dispatched & Hst & Hd & Hrep & Hrun). exists dispatched. split_and!; [..|done|done].
    + rewrite stamps_app, Hst, <-app_assoc. f_equal. unfold contents. simpl. rewrite Hcont, Hd.
      by destruct kept.
    + simpl. rewrite Hdr, refused_app, Hd. simpl. unfold incr64, wrap.
      destruct kept; [lia|]. rewrite Z.mod_small by lia. lia.
  - pose proof (sum_list_with_insert (λ f, length (contents f)) (sv_feeds sv) j f
      (mkFeed (sink_call ev (fd_ring f)) (fd_handle f) (fd_reported_drops f)) Hf) as Hsum.
    cbv beta in Hsum. unfold contents in Hsum at 4. simpl in Hsum. rewrite Hcont, length_app in Hsum.
    fold (contents f) in Hsum. unfold backlog, set_feed. simpl. destruct kept; simpl in Hsum; lia.
Qed.

(** ** Any interleaving *)

Inductive service_step : Type :=
| Produce (j : nat) (ev : FeedEvent)
| Consume (j : nat).

Definition run_step (step : service_step) : exec (BookService (Q:=Q)) unit :=
  match step with
  | Produce j ev => produce j ev
  | Consume j => run! consume j ;; exec_ret tt
  end.

Fixpoint produced (j : nat) (steps : list service_step) : list FeedEvent :=
  match steps with
  | [] => []
  | Produce j' ev :: steps => if decide (j' = j) then ev :: produced j steps else produced j steps
  | Consume _ :: steps => produced j steps
  end.

(** How a history grew: by these events, only frames of which were refused. *)
Definition grown (hists hists' : list (list (FeedEvent * bool))) (j : nat)
    (evs : list FeedEvent) : Prop :=
  ∀ hist, hists !! j = Some hist → ∃ more, hists' !! j = Some (hist ++ more) ∧ more.*1 = evs ∧
    Forall (λ x, x.2 = false → is_frame x.1) more.

Lemma grown_produce hists hists' j hist ev kept i evs :
  hists !! j = Some hist → (kept = false → is_frame ev) →
  grown (<[j := hist ++ [(ev, kept)]]> hists) hists' i evs →
  grown hists hists' i (if decide (j = i) then ev :: evs else evs).
Proof.
  intros Hj Hkept Hgrown h Hi. destruct (decide (j = i)) as [->|Hne].
  - rewrite Hj in Hi. injection Hi as <-.
    destruct (Hgrown (hist ++ [(ev, kept)])) as (more & Hm & Hevs & Hall).
    { rewrite list_lookup_insert_eq; [done|]. by eapply lookup_lt_Some. }
    exists ((ev, kept) :: more). rewrite <-app_assoc in Hm.
    split_and!; [done|by rewrite fmap_cons, Hevs|by constructor].
  - apply Hgrown. by rewrite list_lookup_insert_ne.
Qed.

(** No history can outgrow the drop counter within [n] more steps. *)
Definition room_for (n : nat) (hists : list (list (FeedEvent * bool))) : Prop :=
  ∀ j hist, hists !! j = Some hist → Z.of_nat (length hist + n) < 2 ^ 64.

Lemma room_for_le n m hists : (m <= n)%nat → room_for n hists → room_for m hists.
Proof. intros Hle Hroom j hist Hj. specialize (Hroom j hist Hj). lia. Qed.

Lemma room_for_produce n hists j hist x :
  hists !! j = Some hist → room_for (S n) hists → room_for n (<[j := hist ++ [x]]> hists).
Proof.
  intros Hj Hroom i h. destruct (decide (i = j)) as [->|Hne].
  - rewrite list_lookup_insert_eq by (by eapply lookup_lt_Some). intros [= <-].
    specialize (Hroom j hist Hj). rewrite length_app. simpl. lia.
  - rewrite list_lookup_insert_ne by done. intros Hi. specialize (Hroom i h Hi). lia.
Qed.

Lemma run_steps_spec st cs0 steps hists sv :
  svc_inv st cs0 hists sv → room_for (length steps) hists →
  match exec_each run_step steps sv with
  | (sv', Done _) => ∃ hists', svc_inv st cs0 hists' sv' ∧
      (backlog sv' <= backlog sv + length steps)%nat ∧
      ∀ j, grown hists hists' j (produced j steps)
  | (_, Throws _) => False
  | (_, Undef _) => True
  end.
Proof.
  revert hists sv. induction steps as [|step steps IH]; intros hists sv Hinv Hroom; cbn [exec_each].
  { simpl. exists hists. split_and!; [done|lia|]. intros j hist Hj. exists [].
    by rewrite app_nil_r. }
  unfold exec_bind at 1. destruct step as [j ev|j]; cbn [run_step length] in *.
  - pose proof (produce_spec _ _ _ j ev sv Hinv) as Hp.
    specialize (Hp ltac:(intros hist Hj; specialize (Hroom j hist Hj); lia)).
    destruct (produce j ev sv) as [sv1 [[]|x|u]]; [|done..].
    destruct Hp as (hist & kept & Hj & Hkept & Hinv1 & Hb).
    specialize (IH _ sv1 Hinv1 ltac:(by apply room_for_produce)).
    destruct (exec_each run_step steps sv1) as [sv2 [[]|x|u]]; [|done..].
    destruct IH as (hists' & Hinv2 & Hb2 & Hgrown). exists hists'.
    split_and!; [done|lia|]. intros i. by eapply grown_produce.
  - unfold exec_bind. pose proof (consume_spec _ _ _ j sv Hinv) as Hc.
    apply (room_for_le _ (length steps)) in Hroom; [|lia].
    assert (match consume j sv with (sv1, Done _) => svc_inv st cs0 hists sv1 ∧
      (backlog sv1 <= backlog sv)%nat | (_, Throws _) => False | _ => True end) as Hc'.
    { destruct (consume j sv) as [sv1 [[]|x|u]]; [|..|done|done];
        [destruct Hc; split; [done|lia]|by destruct Hc as [-> _]]. }
    destruct (consume j sv) as [sv1 [b|x|u]]; [|done..]. destruct Hc' as [Hinv1 Hb].
    cbn [exec_ret]. specialize (IH hists sv1 Hinv1 Hroom).
    destruct (exec_each run_step steps sv1) as [sv2 [[]|x|u]]; [|done..].
    destruct IH as (hists' & ? & ? & ?). exists hists'. split_and!; [done|lia|done].
Qed.

(** ** The end *)

(** What [Stop] owes feed [j]. *)
Definition settled (timing : bool) (c0 : Connection) (hist : list (FeedEvent * bool))
    (f : Feed (Q:=Q)) (c : Connection) : Prop :=
  exec_each (conn_run timing) (seen 0 hist) c0 = (c, Done tt) ∧
  ring_dropped (fd_ring f) = refused hist.

Lemma last_report_le hist : last_report (stamps 0 hist) <= refused hist.
Proof.
  assert (∀ es r n, r <= n → (∀ e, e ∈ es → dropped_before e <= n) →
    foldl (λ r e, Z.max r (dropped_before e)) r es <= n) as Hmax.
  { induction es as [|e es IH]; intros r n Hr Hes; simpl; [done|].
    apply IH; [|set_solver]. specialize (Hes e ltac:(set_solver)). lia. }
  apply Hmax; [apply refused_nonneg|]. intros e He%stamps_bound. lia.
Qed.

Lemma trailing_drops_settle j sv f c timing c0 hist :
  well_formed sv → sv_feeds sv !! j = Some f → connections (sv_adapter sv) !! j = Some c →
  feed_ok timing c0 hist f c → contents f = [] → refused hist < 2 ^ 64 →
  ∃ f' c', ReportTrailingDrops j sv = (updated j f' c' sv, Done tt) ∧
    fd_handle f' = fd_handle f ∧ settled timing c0 hist f' c'.
Proof.
  intros Hwf Hf Hc (dispatched & Hst & Hd & Hrep & Hrun) Hempty Hsmall.
  rewrite Hempty, app_nil_r in Hst. subst dispatched.
  unfold ReportTrailingDrops, try_catch, exec_bind. rewrite (feed_at_run _ _ _ Hf).
  unfold Dropped. pose proof (last_report_nonneg (stamps 0 hist)).
  rewrite (ReportDrops_run _ _ _ f c) by (done || lia).
  eexists _, _. split_and!; [done..|]. split; [|done].
  pose proof (calls_of_seen 0 0 hist ltac:(lia)) as Hseen. rewrite Z.sub_diag, Z.add_0_l in Hseen.
  fold (last_report (stamps 0 hist)) in Hseen. rewrite <-Hseen, (exec_each_app _ _ _ _ _ Hrun).
  rewrite Hd, Hrep. unfold drop_notice. pose proof (last_report_le hist).
  destruct (Z.leb_spec (refused hist) (last_report (stamps 0 hist))),
    (Z.eqb_spec (refused hist - last_report (stamps 0 hist)) 0); try lia; done.
Qed.

(** The state of feed [j] and its connection, and what they stand for. *)
Definition feed_is (ok : bool → Connection → list (FeedEvent * bool) → Feed (Q:=Q) → Connection → Prop)
    (timing : bool) (cs0 : list Connection) (hists : list (list (FeedEvent * bool)))
    (sv : BookService (Q:=Q)) (j : nat) : Prop :=
  ∃ f c hist c0, sv_feeds sv !! j = Some f ∧ connections (sv_adapter sv) !! j = Some c ∧
    hists !! j = Some hist ∧ cs0 !! j = Some c0 ∧ ok timing c0 hist f c.

Definition drained (timing : bool) (c0 : Connection) (hist : list (FeedEvent * bool))
    (f : Feed (Q:=Q)) (c : Connection) : Prop :=
  feed_ok timing c0 hist f c ∧ contents f = [] ∧ refused hist < 2 ^ 64.

Lemma feed_is_other ok timing cs0 hists sv j i f c :
  i ≠ j → feed_is ok timing cs0 hists sv i → feed_is ok timing cs0 hists (updated j f c sv) i.
Proof.
  intros Hne (f' & c' & hist & c0 & Hf & Hc & Hr). exists f', c', hist, c0.
  destruct (updated_other j i f c sv Hne) as [-> ->]. done.
Qed.

Lemma trailing_loop timing cs0 hists l sv :
  well_formed sv → NoDup l → (∀ j, j ∈ l → feed_is drained timing cs0 hists sv j) →
  ∃ sv', exec_each ReportTrailingDrops l sv = (sv', Done tt) ∧
    sv_internal_errors sv' = sv_internal_errors sv ∧
    (∀ j, j ∈ l → feed_is settled timing cs0 hists sv' j) ∧
    ∀ j, j ∉ l → feed_is settled timing cs0 hists sv j → feed_is settled timing cs0 hists sv' j.
Proof.
  revert sv. induction l as [|j l IH]; intros sv Hwf Hnd Hall; cbn [exec_each].
  { exists sv. split_and!; [done..| |by auto]. intros j []%elem_of_nil. }
  apply NoDup_cons in Hnd as [Hj Hnd].
  destruct (Hall j) as (f & c & hist & c0 & Hf & Hc & Hh & Hc0 & Hok & Hempty & Hsmall);
    [set_solver|].
  destruct (trailing_drops_settle j sv f c timing c0 hist) as (f' & c' & Hrun & Hhandle & Hset);
    [done..|].
  unfold exec_bind. rewrite Hrun.
  assert (feed_is settled timing cs0 hists (updated j f' c' sv) j) as Hnow.
  { exists f', c', hist, c0. by destruct (updated_lookup j f' c' f c sv Hf Hc) as [-> ->]. }
  destruct (IH (updated j f' c' sv)) as (sv' & Hrun' & He & Hin & Hout); [|done|..].
  { by eapply updated_well_formed. }
  { intros i Hi. apply feed_is_other; [set_solver|]. apply Hall. set_solver. }
  exists sv'. split_and!; [done..| |].
  - intros i [->|Hi]%elem_of_cons; [by apply Hout|by apply Hin].
  - intros i Hi Hold. apply Hout; [set_solver|]. apply feed_is_other; [set_solver|done].
Qed.

Lemma trailing_all st cs0 hists sv sv' :
  svc_inv st cs0 hists sv → all_empty sv →
  sv_feeds sv' = sv_feeds sv → sv_adapter sv' = sv_adapter sv →
  ∃ sv'', exec_each ReportTrailingDrops (seq 0 (length hists)) sv' = (sv'', Done tt) ∧
    sv_internal_errors sv'' = sv_internal_errors sv' ∧
    ∀ j, (j < length hists)%nat → feed_is settled st.1.1.1 cs0 hists sv'' j.
Proof.
  intros Hinv Hempty Hf' Ha'.
  destruct (trailing_loop st.1.1.1 cs0 hists (seq 0 (length hists)) sv')
    as (sv'' & Hrun & He & Hin & _).
  - unfold well_formed. rewrite Hf', Ha'. apply Hinv.
  - apply NoDup_seq.
  - intros j Hj%elem_of_seq. rewrite (inv_hists _ _ _ _ Hinv) in Hj.
    destruct (lookup_lt_is_Some_2 (sv_feeds sv) j) as [f Hf]; [lia|].
    destruct (svc_inv_lookup _ _ _ _ _ _ Hinv Hf) as (c & hist & c0 & Hc & Hh & Hc0 & Hok & Hs).
    exists f, c, hist, c0. rewrite Hf', Ha'. split_and!; [done..|].
    split_and!; [done|by apply (Hempty j)|done].
  - exists sv''. split_and!; [done..|]. intros j Hj. apply Hin, elem_of_seq. lia.
Qed.

(** [Stop] on a service whose producers ended. *)
Lemma Stop_spec timing e0 running cs0 hists fuel sv :
  svc_inv (timing, e0, false, running) cs0 hists sv → (backlog sv < fuel)%nat →
  match Stop llround_unspecified hash asserts now fuel sv with
  | (sv', Done ended) => ended = true ∧ sv_internal_errors sv' = e0 ∧
      ∀ j, (j < length hists)%nat → feed_is settled timing cs0 hists sv' j
  | (_, Throws _) => False
  | (_, Undef _) => True
  end.
Proof.
  intros Hinv Hfuel. unfold Stop, exec_bind, exec_get.
  pose proof (inv_fixed _ _ _ _ Hinv) as Hfix. injection Hfix as _ _ Hst Hrunning. rewrite Hst.
  rewrite <-(inv_hists _ _ _ _ Hinv). set (sv1 := mkBookService _ _ _ _ true _).
  assert (svc_inv (timing, e0, true, running) cs0 hists sv1) as Hinv1.
  { destruct Hinv as [Hwf Hfx Hlh Hlc Hsm Hfeeds]. split; [exact Hwf| |done..|exact Hfeeds].
    unfold fixed in *. simpl. by injection Hfx as -> -> _ ->. }
  assert (backlog sv1 < fuel)%nat as Hfuel1 by done.
  assert (∀ sv2, svc_inv (timing, e0, true, running) cs0 hists sv2 → sv_internal_errors sv2 = e0) as Herr.
  { intros sv2 Hinv2. pose proof (inv_fixed _ _ _ _ Hinv2) as Hfx2. by injection Hfx2. }
  rewrite Hrunning. destruct running.
  - pose proof (Run_stopping_spec _ _ _ fuel sv1 Hinv1 Hfuel1) as Hrun.
    destruct (Run_stopping _ _ _ _ fuel sv1) as [sv2 [ended|x|u]]; [|done..].
    destruct Hrun as (-> & Hinv2 & Hempty). cbn [exec_ret].
    match goal with |- context [exec_each _ _ ?sv3] =>
      destruct (trailing_all _ _ _ sv2 sv3 Hinv2 Hempty) as (sv4 & -> & He & Hall); [done..|] end.
    cbn [exec_ret]. split_and!; [done| |done]. rewrite He. by apply (Herr sv2).
  - pose proof (Poll_spec _ _ _ fuel 0 sv1 Hinv1 Hfuel1) as Hrun.
    destruct (Poll _ _ _ _ fuel 0 sv1) as [sv2 [polled|x|u]]; [|done..].
    destruct Hrun as (Hsome & Hinv2 & Hempty). cbn [exec_ret].
    rewrite bool_decide_eq_true_2 by done.
    destruct (trailing_all _ _ _ sv2 sv2 Hinv2 Hempty) as (sv4 & -> & He & Hall); [done..|].
    cbn [exec_ret]. split_and!; [done| |done]. rewrite He. by apply (Herr sv2).
Qed.

(** ** A whole run *)

(** The service the wiring builds: its connections added, then started or not. *)
Definition add_all (specs : list (bytes * BookSettings)) (sv : BookService (Q:=Q)) : BookService :=
  foldl (λ sv '(nm, s), (Service_AddConnection nm s sv).1) sv specs.

Definition service_for (ring_events : nat) (timing started : bool)
    (specs : list (bytes * BookSettings)) : BookService (Q:=Q) :=
  let sv := add_all specs (new_BookService ring_events timing) in
  if started then Start sv else sv.

Lemma add_all_shape ring_events timing specs :
  add_all specs (new_BookService ring_events timing) =
    mkBookService ring_events
      (mkBookAdapter timing ((λ '(nm, s), new_Connection nm s) <$> specs))
      (imap (λ j _, mkFeed (new_SpscRing ring_events) j 0) specs) 0 false false.
Proof.
  induction specs as [|[nm s] specs IH] using rev_ind; [done|].
  unfold add_all in *. rewrite foldl_app, IH. unfold Service_AddConnection, AddConnection. simpl.
  rewrite fmap_app, imap_app. simpl. do 2 f_equal. rewrite length_fmap, Nat.add_0_r. done.
Qed.

Lemma service_for_inv ring_events timing started specs :
  ∃ running, let sv := service_for ring_events timing started specs in
    svc_inv (timing, 0, false, running) ((λ '(nm, s), new_Connection nm s) <$> specs)
      (replicate (length specs) []) sv ∧ backlog sv = 0%nat.
Proof.
  set (sv0 := add_all specs (new_BookService ring_events timing)).
  assert (∃ running, service_for ring_events timing started specs =
    mkBookService (sv_ring_events sv0) (sv_adapter sv0) (sv_feeds sv0) (sv_internal_errors sv0)
      (sv_stopped sv0) running) as [running Hsv].
  { unfold service_for. fold sv0. destruct started; [unfold Start; destruct (_ || _)|];
      [exists (sv_running sv0)|exists true|exists (sv_running sv0)]; by destruct sv0. }
  exists running. cbv zeta. rewrite Hsv. subst sv0. rewrite add_all_shape. clear Hsv. simpl.
  assert (∀ j f, imap (λ j (_ : bytes * BookSettings), mkFeed (Q:=Q) (new_SpscRing ring_events) j 0)
    specs !! j = Some f → f = mkFeed (new_SpscRing ring_events) j 0) as Hfeed.
  { intros j f. rewrite list_lookup_imap. by intros (x & _ & ->)%fmap_Some. }
  split; [split|]; simpl.
  - split; simpl; [by intros j f ->%Hfeed|]. by rewrite length_fmap, length_imap.
  - done.
  - by rewrite length_replicate, length_imap.
  - by rewrite length_fmap, length_imap.
  - apply Forall_replicate. done.
  - intros j f c hist c0 ->%Hfeed Hc [-> _]%lookup_replicate Hc0. rewrite Hc in Hc0.
    injection Hc0 as <-. exists []. split_and!; try done. simpl. unfold contents. simpl.
    by rewrite new_queue_empty.
  - unfold backlog. simpl.
    assert (∀ l : list (Feed (Q:=Q)), Forall (λ f, contents f = []) l →
      sum_list_with (λ f, length (contents f)) l = 0%nat) as Hzero.
    { induction 1 as [|f l Hf _ IH]; simpl; [done|]. by rewrite Hf, IH. }
    apply Hzero, Forall_lookup. intros j f ->%Hfeed. unfold contents. simpl.
    by rewrite new_queue_empty.
Qed.

(** C5: however the connection threads and the book thread interleave and
    however often the rings overflow, once the service has stopped every
    connection's books are where reading its events one after the other leads:
    each event the thread handed over in order, except the frames its ring
    refused, which are reported as dropped, exactly as many and exactly where
    they are missing. Connects and disconnects are never lost, the drain ends,
    and no exception was swallowed. *)
Theorem service_delivers ring_events timing started specs steps fuel :
  Z.of_nat (length steps) < 2 ^ 64 → (length steps < fuel)%nat →
  match (run! exec_each run_step steps ;; Stop llround_unspecified hash asserts now fuel)
          (service_for ring_events timing started specs) with
  | (_, Undef _) => True
  | (_, Throws _) => False
  | (sv', Done ended) =>
      ended = true ∧ InternalErrors sv' = 0 ∧
      ∀ j nm s, specs !! j = Some (nm, s) →
        ∃ hist f c,
          hist.*1 = produced j steps ∧ Forall (λ x, x.2 = false → is_frame x.1) hist ∧
          sv_feeds sv' !! j = Some f ∧ Dropped (fd_ring f) = refused hist ∧
          connections (sv_adapter sv') !! j = Some c ∧
          exec_each (conn_run timing) (seen 0 hist) (new_Connection nm s) = (c, Done tt)
  end.
Proof.
  intros Hsteps Hfuel.
  destruct (service_for_inv ring_events timing started specs) as (running & Hinv & Hback).
  set (sv := service_for _ _ _ _) in *. unfold exec_bind.
  assert (room_for (length steps) (replicate (length specs) [])) as Hroom
    by (by intros j hist [-> _]%lookup_replicate).
  pose proof (run_steps_spec _ _ steps _ sv Hinv Hroom) as Hrun.
  destruct (exec_each run_step steps sv) as [sv1 [[]|x|u]]; [|done..].
  destruct Hrun as (hists & Hinv1 & Hb1 & Hgrown).
  pose proof (Stop_spec _ _ _ _ _ fuel sv1 Hinv1 ltac:(lia)) as Hstop.
  destruct (Stop _ _ _ _ fuel sv1) as [sv2 [ended|x|u]]; [|done..].
  destruct Hstop as (-> & He & Hall). split_and!; [done..|]. intros j nm s Hj.
  assert (j < length specs)%nat as Hlt by (by eapply lookup_lt_Some).
  destruct (Hgrown j []) as (hist & Hh & Hevs & Hframes); [by apply lookup_replicate|].
  destruct (Hall j) as (f & c & hist' & c0 & Hf & Hc & Hh' & Hc0 & Hrun & Hd);
    [by eapply lookup_lt_Some|].
  rewrite Hh in Hh'. injection Hh' as <-.
  rewrite list_lookup_fmap, Hj in Hc0. injection Hc0 as <-.
  by exists hist, f, c.
Qed.
End service_proofs.

(** ** An example run *)

#[local] Existing Instance refusing_json.

(** A ring of one event: the second of three frames is refused. *)
Definition demo_steps : list service_step :=
  [Produce 0 (ConnectEvent 1 []); Consume 0; Produce 0 (FrameEvent (demo_frame true []));
   Produce 0 (FrameEvent (demo_frame false [])); Consume 0;
   Produce 0 (FrameEvent (demo_frame false [])); Produce 0 (DisconnectEvent 1)].
Definition demo_service : BookService (Q:=bounded_queue RingEntry) :=
  service_for 1 false true [([], demo_settings)].
Definition demo_service_run : BookService * outcome bool :=
  (run! exec_each (run_step demo_unspecified (λ _, 0) true demo_now) demo_steps ;;
   Stop demo_unspecified (λ _, 0) true demo_now 8) demo_service.

Lemma service_delivers_witness :
  demo_service_run.2 = Done true ∧
  match demo_service_run with
  | (_, Undef _) => True
  | (_, Throws _) => False
  | (sv', Done ended) =>
      ended = true ∧ InternalErrors sv' = 0 ∧
      ∀ j nm s, [([] : bytes, demo_settings)] !! j = Some (nm, s) →
        ∃ hist f c,
          hist.*1 = produced j demo_steps ∧ Forall (λ x, x.2 = false → is_frame x.1) hist ∧
          sv_feeds sv' !! j = Some f ∧ Dropped (fd_ring f) = refused hist ∧
          connections (sv_adapter sv') !! j = Some c ∧
          exec_each (conn_run demo_unspecified (λ _, 0) true demo_now false) (seen 0 hist)
            (new_Connection nm s) = (c, Done tt)
  end.
Proof.
  split; [by vm_compute|].
  apply (service_delivers demo_unspecified (λ _, 0) true demo_now 1 false true
    [([], demo_settings)] demo_steps 8).
  - vm_compute. reflexivity.
  - apply Nat.ltb_lt. reflexivity.
Defined.
