(* ===== verification/KrakenSigning.v ===== *)
(** * Kraken request signing and nonces: [feed_handler/kraken/kraken_signing.{h,cpp}]

    OpenSSL is a parameter: [EVP_EncodeBlock] and [EVP_DecodeBlock] return what
    they write or fail, the digest and the MAC likewise. The nonce state file is
    its contents, [None] when it does not exist or cannot be looked up; how far a
    write gets is decided by the file system, a [write_result]. Log lines are
    left out. *)

From S2P Require Import Prelude Text.

(** ** Encoding *)

Definition kHexDigits : bytes := B "0123456789ABCDEF".
Definition kSha256Bytes : nat := 32.
Definition kSha512Bytes : nat := 64.

(** [std::isalnum] and [std::isspace] in the C locale. *)
Definition isalnum (c : byte) : bool :=
  is_digit c || ((65 <=? byte_val c) && (byte_val c <=? 90)) ||
  ((97 <=? byte_val c) && (byte_val c <=? 122)).
Definition isspace (c : byte) : bool :=
  (byte_val c =? 32) || ((9 <=? byte_val c) && (byte_val c <=? 13)).

Definition IsUnreserved (c : byte) : bool :=
  isalnum c || bool_decide (c ∈ B "-_.~").

Definition hex_digit (n : Z) : byte := default (byte_of 0) (kHexDigits !! Z.to_nat n).

Definition encode_char (c : byte) : bytes :=
  if IsUnreserved c then [c]
  else if byte_val c =? 32 then B "+"
  else [byte_of 37; hex_digit (Z.shiftr (byte_val c) 4); hex_digit (Z.land (byte_val c) 15)].

Definition UrlEncode (value : bytes) : bytes := concat (encode_char <$> value).

Definition EncodePostData (params : list (bytes * bytes)) : bytes :=
  foldl (λ body '(key, value),
    body ++ (if decide (body = []) then [] else B "&") ++ UrlEncode key ++ B "=" ++ UrlEncode value)
    [] params.

Section openssl.
Variable EVP_EncodeBlock : bytes → option bytes.
Variable EVP_DecodeBlock : bytes → option bytes.
Variable EVP_Digest : bytes → option bytes.
Variable EVP_MAC_fetch EVP_MAC_CTX_new : bool.
Variable EVP_MAC_init : bytes → bool.
Variable EVP_MAC_update : bytes → bytes → bool.
Variable EVP_MAC_final : bytes → bytes → option bytes.

(** Empty for an empty input, and when nothing was written. *)
Definition Base64Encode (data : bytes) : bytes :=
  match data with
  | [] => []
  | _ => default [] (EVP_EncodeBlock data)
  end.

(** How many padding characters [text] ends in, at most [limit]. *)
Fixpoint padding (limit : nat) (reversed : bytes) : nat :=
  match limit, reversed with
  | S limit, c :: reversed => if byte_val c =? 61 then S (padding limit reversed) else O
  | _, _ => O
  end.

Definition Base64Decode (text : bytes) : expected bytes bytes :=
  let cleaned := filter (λ c, isspace c = false) text in
  if bool_decide (cleaned = []) || negb (Z.of_nat (length cleaned) mod 4 =? 0)
  then Unexpected (B "kraken: base64 input is not a multiple of 4 characters")
  else
    match EVP_DecodeBlock cleaned with
    | None => Unexpected (B "kraken: base64 input is not valid base64")
    | Some decoded =>
        let length' := (length decoded - padding (length decoded) (rev cleaned))%nat in
        Expected (take length' decoded)
    end.

Definition Sha256 (data : bytes) : expected bytes bytes :=
  match EVP_Digest data with
  | Some digest => if (length digest =? kSha256Bytes)%nat then Expected digest
                   else Unexpected (B "kraken: SHA-256 failed")
  | None => Unexpected (B "kraken: SHA-256 failed")
  end.

(** The calls of the MAC interface, by whether they succeed. *)
Definition HmacSha512 (key message : bytes) : expected bytes bytes :=
  if negb EVP_MAC_fetch then Unexpected (B "kraken: OpenSSL has no HMAC implementation")
  else if negb EVP_MAC_CTX_new then Unexpected (B "kraken: EVP_MAC_CTX_new failed")
  else if negb (EVP_MAC_init key) then Unexpected (B "kraken: EVP_MAC_init failed")
  else if negb (EVP_MAC_update key message) then Unexpected (B "kraken: EVP_MAC_update failed")
  else
    match EVP_MAC_final key message with
    | Some digest => if (length digest =? kSha512Bytes)%nat then Expected digest
                     else Unexpected (B "kraken: EVP_MAC_final failed")
    | None => Unexpected (B "kraken: EVP_MAC_final failed")
    end.

Definition SignPrivateRequest (url_path nonce post_data api_secret_b64 : bytes)
  : expected bytes bytes :=
  match Base64Decode api_secret_b64 with
  | Unexpected _ => Unexpected (B "kraken: API secret is not valid base64")
  | Expected secret =>
      let? body_digest := Sha256 (nonce ++ post_data) in
      let? signature := HmacSha512 secret (url_path ++ body_digest) in
      Expected (Base64Encode signature)
  end.
End openssl.

(** ** Nonces *)

(** [NonceGenerator]: its [last_]. *)
Definition NonceGenerator : Type := Z.
Definition new_NonceGenerator : NonceGenerator := 0.

Definition NonceGenerator_NextFrom (now_micros : Z) (last : NonceGenerator) : NonceGenerator * Z :=
  let last' := Z.max now_micros (wrap 64 (last + 1)) in (last', last').

(** [Next] at the wall-clock reading [now_ns]. *)
Definition NonceGenerator_Next (now_ns : Z) (last : NonceGenerator) : NonceGenerator * Z :=
  NonceGenerator_NextFrom (now_ns / 1000) last.

Definition SeedAtLeast (value : Z) (last : NonceGenerator) : NonceGenerator := Z.max last value.

(** The state file: missing, or there with its contents and readable or not. *)
Record state_file := mkStateFile { sf_contents : bytes; sf_readable : bool }.

Fixpoint drop_space (reversed : bytes) : bytes :=
  match reversed with
  | c :: rest => if isspace c then drop_space rest else reversed
  | [] => []
  end.

(** The mark, and whether a warning is due for a file that could not be used. *)
Definition ReadHighWaterMark (file : option state_file) : option Z * bool :=
  match file with
  | None => (None, false)
  | Some f =>
      if negb (sf_readable f) then (None, true)
      else
        let text := rev (drop_space (rev (sf_contents f))) in
        match text with
        | [] => (None, true)
        | _ => match from_chars 0 u64_max text with
               | Some (value, []) => (Some value, false)
               | _ => (None, true)
               end
        end
  end.

(** How far writing the mark gets. [is_directory] without an error code throws
    when the directory's status cannot be read. *)
Inductive write_result : Type :=
| DirectoryMissing
| DirectoryThrows
| OpenFailed
| WriteFailed
| RenameFailed
| Written.

(** The file afterwards, and whether the write took effect, [None] when the call
    threw: until the rename, only the temporary file is touched. *)
Definition WriteHighWaterMark (result : write_result) (value : Z) (file : option state_file)
  : option state_file * option bool :=
  match result with
  | Written => (Some (mkStateFile (to_string value ++ [byte_of 10]) true), Some true)
  | DirectoryThrows => (file, None)
  | DirectoryMissing | OpenFailed | WriteFailed | RenameFailed => (file, Some false)
  end.

Record PersistentNonceSource := mkPersistentNonceSource {
  ns_generator : NonceGenerator;
  ns_persisting : bool;
  ns_seeded_from : Z;
  ns_write_failed : bool;
}.

(** The constructor; [persisting]: the path is not empty. *)
Definition new_PersistentNonceSource (persisting : bool) (file : option state_file)
  : PersistentNonceSource :=
  if negb persisting then mkPersistentNonceSource new_NonceGenerator false 0 false
  else
    match (ReadHighWaterMark file).1 with
    | None => mkPersistentNonceSource new_NonceGenerator true 0 false
    | Some persisted =>
        mkPersistentNonceSource (SeedAtLeast persisted new_NonceGenerator) true persisted false
    end.

(** The state afterwards, and whether the call returned. *)
Definition Persist (result : write_result) (value : Z)
    (st : PersistentNonceSource * option state_file)
  : (PersistentNonceSource * option state_file) * bool :=
  let '(src, file) := st in
  if negb (ns_persisting src) then (st, true)
  else
    let with_failed failed :=
      mkPersistentNonceSource (ns_generator src) (ns_persisting src) (ns_seeded_from src) failed in
    match WriteHighWaterMark result value file with
    | (file', Some true) => ((with_failed false, file'), true)
    | (file', Some false) => ((with_failed true, file'), true)
    | (file', None) => ((src, file'), false)
    end.

(** The nonce, unless recording it threw. *)
Definition PersistentNonceSource_NextFrom (result : write_result) (now_micros : Z)
    (st : PersistentNonceSource * option state_file)
  : (PersistentNonceSource * option state_file) * option Z :=
  let '(src, file) := st in
  let '(generator, value) := NonceGenerator_NextFrom now_micros (ns_generator src) in
  let '(st', returned) := Persist result value
     (mkPersistentNonceSource generator (ns_persisting src) (ns_seeded_from src)
        (ns_write_failed src), file) in
  (st', if returned : bool then Some value else None).

Definition PersistentNonceSource_Next (result : write_result) (now_ns : Z)
    (st : PersistentNonceSource * option state_file)
  : (PersistentNonceSource * option state_file) * option Z :=
  let '(src, file) := st in
  let '(generator, value) := NonceGenerator_Next now_ns (ns_generator src) in
  let '(st', returned) := Persist result value
     (mkPersistentNonceSource generator (ns_persisting src) (ns_seeded_from src)
        (ns_write_failed src), file) in
  (st', if returned : bool then Some value else None).
