(* ===== verification/KrakenRequests.v ===== *)
(** * What a signed Kraken request carries

    The body is an unambiguous encoding of its parameters, and nonces increase
    strictly, over restarts and crashes too. *)

From S2P Require Import Prelude Text FixRoundTrip KrakenSigning.

(** ** Form encoding: a decoder as the receiving side has it *)

Definition hex_val (c : byte) : option Z :=
  if is_digit c then Some (digit_val c)
  else if (65 <=? byte_val c) && (byte_val c <=? 70) then Some (byte_val c - 55) else None.

Fixpoint url_decode (l : bytes) : option bytes :=
  match l with
  | [] => Some []
  | c :: l' =>
      if byte_val c =? 43 then cons (byte_of 32) <$> url_decode l'
      else if byte_val c =? 37 then
        match l' with
        | h :: d :: l'' =>
            match hex_val h, hex_val d with
            | Some h, Some d => cons (byte_of (16 * h + d)) <$> url_decode l''
            | _, _ => None
            end
        | _ => None
        end
      else cons c <$> url_decode l'
  end.

(** The pieces between the separators. *)
Fixpoint split_on (sep : byte) (l : bytes) : list bytes :=
  match l with
  | [] => [[]]
  | c :: l => if decide (c = sep) then [] :: split_on sep l
              else match split_on sep l with
                   | piece :: pieces => (c :: piece) :: pieces
                   | [] => [[c]]
                   end
  end.

Definition decode_pair (piece : bytes) : option (bytes * bytes) :=
  match split_on (byte_of 61) piece with
  | [key; value] =>
      match url_decode key, url_decode value with
      | Some key, Some value => Some (key, value)
      | _, _ => None
      end
  | _ => None
  end.

Definition form_decode (body : bytes) : option (list (bytes * bytes)) :=
  if decide (body = []) then Some [] else mapM decode_pair (split_on (byte_of 38) body).

(** One encoded character, by cases over all bytes. *)
Definition encoded_ok (c : byte) : bool :=
  bool_decide (url_decode (encode_char c) = Some [c]) &&
  forallb (λ x, negb (byte_val x =? 38) && negb (byte_val x =? 61)) (encode_char c) &&
  match encode_char c with
  | [x] => negb (byte_val x =? 37)
  | [x; h; d] => (byte_val x =? 37) && bool_decide (is_Some (hex_val h)) && bool_decide (is_Some (hex_val d))
  | _ => false
  end.

Lemma encode_char_ok c : encoded_ok c = true.
Proof. destruct c as [[] [] [] [] [] [] [] []]; vm_compute; reflexivity. Qed.

Lemma url_decode_char c rest :
  url_decode (encode_char c ++ rest) = cons c <$> url_decode rest.
Proof.
  pose proof (encode_char_ok c) as Hok. unfold encoded_ok in Hok.
  apply andb_true_iff in Hok as [[Hdec _]%andb_true_iff Hshape].
  apply bool_decide_eq_true in Hdec.
  destruct (encode_char c) as [|x [|h [|d [|]]]]; try done.
  - simpl in *. apply negb_true_iff in Hshape. rewrite Hshape in Hdec |- *.
    destruct (byte_val x =? 43); by simplify_eq.
  - apply andb_true_iff in Hshape as [[Hx Hh]%andb_true_iff Hd]. apply bool_decide_eq_true in Hh, Hd.
    destruct Hh as [vh Hh], Hd as [vd Hd]. simpl in *. apply Z.eqb_eq in Hx. rewrite Hx in Hdec |- *.
    simpl in *. rewrite Hh, Hd in Hdec |- *. simpl in Hdec. by simplify_eq.
Qed.

Lemma url_decode_UrlEncode v : url_decode (UrlEncode v) = Some v.
Proof.
  induction v as [|c v IH]; [done|]. unfold UrlEncode in *. cbn [fmap list_fmap concat].
  by rewrite url_decode_char, IH.
Qed.

Lemma UrlEncode_no_separator v sep :
  byte_val sep = 38 ∨ byte_val sep = 61 → sep ∉ UrlEncode v.
Proof.
  intros Hsep. induction v as [|c v IH]; [by apply not_elem_of_nil|].
  unfold UrlEncode in *. cbn [fmap list_fmap concat]. rewrite elem_of_app. intros [Hin|Hin]; [|done].
  pose proof (encode_char_ok c) as Hok. unfold encoded_ok in Hok.
  apply andb_true_iff in Hok as [[_ Hall]%andb_true_iff _].
  rewrite forallb_forall in Hall. apply list_elem_of_In, Hall in Hin.
  apply andb_true_iff in Hin as [H1 H2]. apply negb_true_iff, Z.eqb_neq in H1, H2. lia.
Qed.

(** ** The body *)

Definition pair_text (p : bytes * bytes) : bytes := UrlEncode p.1 ++ B "=" ++ UrlEncode p.2.

Lemma pair_text_nonempty p : pair_text p ≠ [].
Proof. unfold pair_text. by destruct (UrlEncode p.1). Qed.

Lemma split_on_none sep l : sep ∉ l → split_on sep l = [l].
Proof.
  induction l as [|c l IH]; [done|]. intros Hni. simpl. rewrite decide_False by set_solver.
  by rewrite IH by set_solver.
Qed.

Lemma split_on_app sep a l : sep ∉ a → split_on sep (a ++ sep :: l) = a :: split_on sep l.
Proof.
  induction a as [|c a IH]; intros Hni; simpl; [by rewrite decide_True|].
  rewrite decide_False by set_solver. by rewrite IH by set_solver.
Qed.

Lemma decode_pair_text p : decode_pair (pair_text p) = Some p.
Proof.
  unfold decode_pair, pair_text. change (B "=" ++ UrlEncode p.2) with (byte_of 61 :: UrlEncode p.2).
  rewrite split_on_app by (apply UrlEncode_no_separator; by right).
  rewrite split_on_none by (apply UrlEncode_no_separator; by right).
  rewrite !url_decode_UrlEncode. by destruct p.
Qed.

Lemma pair_text_no_ampersand p : byte_of 38 ∉ pair_text p.
Proof.
  unfold pair_text. rewrite !elem_of_app.
  intros [H|[H|H]]; [by apply UrlEncode_no_separator in H; [|left]| |
    by apply UrlEncode_no_separator in H; [|left]].
  by apply list_elem_of_singleton in H.
Qed.

(** The loop, once there is something in front. *)
Lemma EncodePostData_loop body params : body ≠ [] →
  foldl (λ body '(key, value),
    body ++ (if decide (body = []) then [] else B "&") ++ UrlEncode key ++ B "=" ++ UrlEncode value)
    body params = body ++ concat ((λ p, B "&" ++ pair_text p) <$> params).
Proof.
  revert body. induction params as [|[k v] params IH]; intros body Hne; simpl.
  { by rewrite app_nil_r. }
  rewrite decide_False by done. rewrite IH by (by destruct body). by rewrite <-app_assoc.
Qed.

Lemma split_pairs p params :
  split_on (byte_of 38) (pair_text p ++ concat ((λ p, B "&" ++ pair_text p) <$> params)) =
    pair_text <$> p :: params.
Proof.
  revert p. induction params as [|q params IH]; intros p; simpl.
  - rewrite app_nil_r. apply split_on_none, pair_text_no_ampersand.
  - change (byte_of 38 :: pair_text q ++ concat ((λ p, B "&" ++ pair_text p) <$> params))
      with (byte_of 38 :: (pair_text q ++ concat ((λ p, B "&" ++ pair_text p) <$> params))).
    rewrite (split_on_app (byte_of 38) (pair_text p)) by apply pair_text_no_ampersand.
    by rewrite IH.
Qed.

Lemma decode_pairs ps : mapM decode_pair (pair_text <$> ps) = Some ps.
Proof. apply mapM_fmap_Some. intros p. apply decode_pair_text. Qed.

(** The body that is signed and sent says exactly what it was built from:
    decoding it as a form gives back every parameter, in order, whatever bytes
    the keys and values hold. *)
Theorem EncodePostData_decodes params : form_decode (EncodePostData params) = Some params.
Proof.
  destruct params as [|p params]; [done|]. unfold EncodePostData. cbn [foldl].
  assert ((let '(key, value) := p in [] ++ (if decide (@nil byte = []) then [] else B "&") ++
    UrlEncode key ++ B "=" ++ UrlEncode value) = pair_text p) as -> by (by destruct p).
  rewrite EncodePostData_loop by apply pair_text_nonempty. unfold form_decode.
  rewrite decide_False by (intros [H _]%app_eq_nil; by apply (pair_text_nonempty p)).
  by rewrite split_pairs, decode_pairs.
Qed.

(** ** Nonces over the life of a key *)

(** A nonce is issued; the process restarts; or it dies while a nonce is being
    issued, wherever the write of the mark had got, and restarts. *)
Inductive nonce_event : Type :=
| Issue (now_micros : Z) (result : write_result)
| Restart
| Crash (now_micros : Z) (result : write_result).

Definition restarted (file : option state_file) : PersistentNonceSource * option state_file :=
  (new_PersistentNonceSource true file, file).

Fixpoint issued (evs : list nonce_event) (st : PersistentNonceSource * option state_file)
  : list Z :=
  match evs with
  | [] => []
  | Issue now result :: evs =>
      let '(st', value) := PersistentNonceSource_NextFrom result now st in
      option_list value ++ issued evs st'
  | Restart :: evs => issued evs (restarted st.2)
  | Crash now result :: evs =>
      let '(st', _) := PersistentNonceSource_NextFrom result now st in
      issued evs (restarted st'.2)
  end.

(** The clock is sane, and an issued nonce reached the file, or the call threw
    and there is none. *)
Definition event_ok (m : Z) (ev : nonce_event) : Prop :=
  match ev with
  | Issue now result => 0 <= now <= m ∧ (result = Written ∨ result = DirectoryThrows)
  | Restart => True
  | Crash now _ => 0 <= now <= m
  end.

Definition file_mark (file : option state_file) : Z := default 0 (ReadHighWaterMark file).1.

Lemma drop_space_mark v : 0 <= v →
  rev (drop_space (rev (to_string v ++ [byte_of 10]))) = to_string v.
Proof.
  intros Hv. pose proof (to_string_digits v Hv) as Hall.
  destruct (exists_last (to_string_nonempty v Hv)) as (ds & d & Heq). rewrite Heq in Hall |- *.
  apply Forall_app in Hall as [_ Hd]. apply Forall_inv in Hd.
  assert (isspace d = false) as Hs by (unfold is_digit in Hd; unfold isspace; lia).
  rewrite rev_app_distr, rev_app_distr. simpl. rewrite Hs. simpl. by rewrite rev_involutive.
Qed.

(** A mark that was written is read back. *)
Lemma file_mark_Written v :
  0 <= v < 2 ^ 64 → file_mark (Some (mkStateFile (to_string v ++ [byte_of 10]) true)) = v.
Proof.
  intros Hv. unfold file_mark, ReadHighWaterMark. simpl negb. cbv iota. cbn [sf_contents].
  rewrite drop_space_mark by lia. pose proof (to_string_nonempty v ltac:(lia)) as Hne.
  destruct (to_string v) as [|c l] eqn:Heq; [done|]. rewrite <-Heq, <-(app_nil_r (to_string v)).
  unfold u64_max in *. rewrite from_chars_to_string; [done|lia|lia|done].
Qed.

(** [lo] is below whatever is issued next, now or after a restart. *)
Definition above (lo hi : Z) (st : PersistentNonceSource * option state_file) : Prop :=
  ns_persisting st.1 = true ∧ lo <= ns_generator st.1 <= hi ∧ lo <= file_mark st.2 <= hi.

Lemma above_restarted lo hi st : 0 <= lo → above lo hi st → above lo hi (restarted st.2).
Proof.
  intros Hlo (_ & _ & Hm). unfold above, restarted, new_PersistentNonceSource. simpl.
  revert Hm. unfold file_mark. destruct (ReadHighWaterMark st.2) as [[v|] w]; simpl; intros Hm.
  - split; [done|]. unfold SeedAtLeast, new_NonceGenerator. lia.
  - split; [done|]. unfold new_NonceGenerator. lia.
Qed.

(** Issuing one nonce. *)
Lemma NextFrom_above lo hi m now result st (r := PersistentNonceSource_NextFrom result now st) :
  0 <= lo → m <= hi → hi + 1 < 2 ^ 64 → 0 <= now <= m → above lo hi st →
  above lo (hi + 1) r.1 ∧
  (result = DirectoryThrows → r.2 = None) ∧
  (result = Written → ∃ v, r.2 = Some v ∧ lo < v <= hi + 1 ∧ above v (hi + 1) r.1).
Proof.
  intros Hlo Hm Hhi Hnow (Hp & Hg & Hf). destruct st as [src file]. subst r. simpl in *.
  unfold wrap. rewrite Z.mod_small by lia. rewrite Hp. simpl.
  set (v := Z.max now (ns_generator src + 1)).
  pose proof (file_mark_Written v ltac:(lia)) as Hw. unfold above.
  destruct result; simpl; rewrite ?Hw; split_and!; try done; try lia.
  intros _. exists v. cbn [fst snd]. rewrite ?Hw. split_and!; simpl; done || lia.
Qed.

(** C40: nonces for one key increase strictly. Whatever the clock does between
    calls, across restarts and crashes during the write of the mark, every
    nonce issued is larger than every one before and than the mark the file
    held, as long as the marks of issued nonces reach the file (or recording one
    threw, and it is not used) and the values stay below [2 ^ 64]. *)
Theorem nonces_strictly_increase m file evs :
  0 <= file_mark file <= m → m + Z.of_nat (length evs) < 2 ^ 64 → Forall (event_ok m) evs →
  StronglySorted Z.lt (file_mark file :: issued evs (restarted file)).
Proof.
  intros Hmark Hbound Hok.
  assert (∀ evs lo hi st, 0 <= lo → m <= hi → hi + Z.of_nat (length evs) < 2 ^ 64 →
    Forall (event_ok m) evs → above lo hi st → StronglySorted Z.lt (lo :: issued evs st)) as Hind.
  { clear. intros evs lo hi st Hlo Hm Hhi Hok. revert lo hi st Hlo Hm Hhi.
    induction Hok as [|ev evs Hev _ IH]; intros lo hi st Hlo Hm Hhi Hab;
      [by repeat constructor|]. cbn [length] in Hhi.
    destruct ev as [now result| |now result]; cbn [issued event_ok] in *.
    - destruct Hev as [Hnow Hw].
      destruct (NextFrom_above lo hi m now result st) as (H1 & H2 & H3); [lia..|done|].
      destruct (PersistentNonceSource_NextFrom result now st) as [st' o]. simpl in *.
      destruct Hw as [Hw|Hw]; [|rewrite H2 by done; by apply (IH lo (hi + 1)); [lia..|]].
      destruct (H3 Hw) as (v & -> & Hv & Hab'). simpl.
      assert (StronglySorted Z.lt (v :: issued evs st')) as Hs
        by (apply (IH v (hi + 1)); [lia..|done]).
      constructor; [done|]. apply StronglySorted_inv in Hs as [_ Hall].
      constructor; [lia|]. eapply Forall_impl; [exact Hall|]. simpl. lia.
    - apply (IH lo hi); [lia..|]. by apply above_restarted.
    - destruct (NextFrom_above lo hi m now result st) as (H1 & _); [lia..|done|].
      destruct (PersistentNonceSource_NextFrom result now st) as [st' v]. simpl in *.
      apply (IH lo (hi + 1)); [lia..|]. by apply above_restarted. }
  apply (Hind _ _ m); try done; [lia|].
  assert (above (file_mark file) m (restarted file)) as Hab; [|done].
  apply (above_restarted _ _ (mkPersistentNonceSource (file_mark file) true 0 false, file)); [lia|].
  split_and!; simpl; done || lia.
Qed.

(** Two nonces in the same microsecond, a crash after the mark was replaced, and
    a clock that went back. *)
Lemma nonces_strictly_increase_witness :
  StronglySorted Z.lt (0 :: issued [Issue 1000 Written; Issue 1000 Written; Issue 1000 DirectoryThrows; Crash 2000 Written;
    Issue 500 Written; Crash 3000 RenameFailed; Restart; Issue 10 Written] (restarted None)) ∧
  issued [Issue 1000 Written; Issue 1000 Written; Issue 1000 DirectoryThrows; Crash 2000 Written;
    Issue 500 Written; Crash 3000 RenameFailed; Restart; Issue 10 Written] (restarted None) =
    [1000; 1001; 2001; 2002].
Proof.
  split; [|by vm_compute].
  apply (nonces_strictly_increase 3000 None).
  - vm_compute. split; discriminate.
  - vm_compute. reflexivity.
  - repeat (constructor; [simpl; lia || (split; [lia|first [by left|by right]]) || exact I|]). constructor.
Defined.
