(* ===== verification/JournalDump.v ===== *)
(** * Dumping a Kraken capture: [order_book/tools/kraken_journal_dump.cpp]

    The tool replays one instrument of a journal through the Kraken L3 book and
    writes one frame per message: the book, order by order. A frame is a record
    here; how the JSON library prints the list of frames is the parameter
    [json_text], and the text of an exception the parameter [what]. *)

From S2P Require Import Prelude Text ToolFlags BookTypes Scale Engine L3Policy KrakenChecksum KrakenL3Policy KrakenWire Feed Journal.

(** [Settings] *)
Record DumpSettings := mkDumpSettings {
  ds_price_decimals : Z;
  ds_quantity_decimals : Z;
  ds_depth : Z;
}.
Definition default_DumpSettings : DumpSettings := mkDumpSettings 1 8 10.

(** [NullListener] *)
Definition null_hooks : ListenerHooks := Build_ListenerHooks false false false.

(** ** The frames *)

Record DumpedOrder := mkDumpedOrder { dor_id : bytes; dor_qty : double }.

Record DumpedLevel := mkDumpedLevel {
  dl_price : double;
  dl_total_qty : double;
  dl_orders : list DumpedOrder;
}.

Record DumpedFrame := mkDumpedFrame {
  df_index : Z;
  df_type : bytes;
  df_checksum : Z;
  df_checksum_ok : bool;
  df_bids : list DumpedLevel;
  df_asks : list DumpedLevel;
}.

(** ** [OrderIdNames] *)

Definition OrderIdNames : Type := gmap Z bytes.

Definition NameOf (names : OrderIdNames) (id : OrderId) : bytes :=
  match names !! id with Some name => name | None => to_string id end.

(** The loop of [DumpSide] over one level's orders: the total and the list so
    far. *)
Fixpoint dump_orders (book : L3Policy) (scale : InstrumentScale) (names : OrderIdNames)
    (order_ids : list OrderId) (total : Quantity) (orders : list DumpedOrder)
  : outcome (Quantity * list DumpedOrder) :=
  match order_ids with
  | [] => Done (total, orders)
  | order_id :: order_ids =>
      let quantity := default 0 (OrderQuantity book order_id) in
      do! total := quantity_add total quantity in
      dump_orders book scale names order_ids total
        (orders ++ [mkDumpedOrder (NameOf names order_id) (FromQuantity scale quantity)])
  end.

Fixpoint dump_levels (book : L3Policy) (scale : InstrumentScale) (names : OrderIdNames)
    (levels : list (Price * list OrderId)) : outcome (list DumpedLevel) :=
  match levels with
  | [] => Done []
  | (price, order_ids) :: levels =>
      do! (total, orders) := dump_orders book scale names order_ids 0 [] in
      do! rest := dump_levels book scale names levels in
      Done (mkDumpedLevel (FromPrice scale price) (FromQuantity scale total) orders :: rest)
  end.

Definition DumpSide (book : L3Policy) (side : Side) (scale : InstrumentScale)
    (names : OrderIdNames) : outcome (list DumpedLevel) :=
  dump_levels book scale names (Levels book side).

Definition DumpFrame (index : Z) (type : bytes) (book : OrderBook KrakenL3Policy) (sum : Z)
    (scale : InstrumentScale) (names : OrderIdNames) : outcome DumpedFrame :=
  let l3_book := Book (ob_policy book) in
  do! view := GetBookView l3_book kUnlimitedDepth in
  do! bids := DumpSide l3_book kBid scale names in
  do! asks := DumpSide l3_book kAsk scale names in
  Done (mkDumpedFrame index type sum (KrakenL3Checksum view =? sum) bids asks).

(** ** The flags *)

Definition ParseIntFlag (name value : bytes) : expected bytes Z :=
  match stoi value with
  | Some (n, _) => Expected n
  | None => Unexpected (B "invalid value for " ++ name ++ B ": " ++ value)
  end.

(** The loop of [ParseSettings], two flags at a time. *)
Fixpoint parse_settings (flags : list bytes) (settings : DumpSettings)
  : expected bytes DumpSettings :=
  match flags with
  | [] => Expected settings
  | [flag] => Unexpected (B "missing value for " ++ flag)
  | flag :: text :: flags =>
      let? value := ParseIntFlag flag text in
      if decide (flag = B "--price-decimals") then
        parse_settings flags
          (mkDumpSettings value (ds_quantity_decimals settings) (ds_depth settings))
      else if decide (flag = B "--quantity-decimals") then
        parse_settings flags
          (mkDumpSettings (ds_price_decimals settings) value (ds_depth settings))
      else if decide (flag = B "--depth") then
        if value <=? 0 then Unexpected (B "--depth must be positive")
        else parse_settings flags
               (mkDumpSettings (ds_price_decimals settings) (ds_quantity_decimals settings) value)
      else Unexpected (B "unknown flag: " ++ flag)
  end.

Definition ParseSettings (flags : list bytes) : expected bytes DumpSettings :=
  parse_settings flags default_DumpSettings.

(** ** The run *)

(** The locals of [RunDump] its loop changes. *)
Record dump_state := mkDumpState {
  d_names : OrderIdNames;
  d_book : OrderBook KrakenL3Policy;
  d_frames : list DumpedFrame;
  d_frame_index : Z;
  d_dumped_symbol : bytes;
  d_skipped_other_symbol : Z;
}.

Definition new_dump (depth : Z) : dump_state :=
  mkDumpState ∅ (new_OrderBook (new_KrakenL3Policy depth)) [] 0 [] 0.

Definition set_names (names : OrderIdNames) (s : dump_state) : dump_state :=
  mkDumpState names (d_book s) (d_frames s) (d_frame_index s) (d_dumped_symbol s)
    (d_skipped_other_symbol s).

Definition set_symbol (symbol : bytes) (s : dump_state) : dump_state :=
  mkDumpState (d_names s) (d_book s) (d_frames s) (d_frame_index s) symbol
    (d_skipped_other_symbol s).

(** A call on [book]. *)
Definition on_dump_book (m : exec (OrderBook KrakenL3Policy) unit) : exec dump_state unit := λ s,
  let '(b, r) := m (d_book s) in
  (mkDumpState (d_names s) b (d_frames s) (d_frame_index s) (d_dumped_symbol s)
     (d_skipped_other_symbol s), r).

(** [++n] on an [int]. *)
Definition incr_int (n : Z) : outcome Z := if n <? i32_max then Done (n + 1) else Undef SignedOverflow.

Definition count_skipped : exec dump_state unit :=
  let! s := exec_get in
  let! n := exec_lift (incr_int (d_skipped_other_symbol s)) in
  exec_put (mkDumpState (d_names s) (d_book s) (d_frames s) (d_frame_index s) (d_dumped_symbol s) n).

Definition push_frame (scale : InstrumentScale) (message : KrakenL3Message)
  : exec dump_state unit :=
  let! s := exec_get in
  let! frame := exec_lift
    (DumpFrame (d_frame_index s) (if km_is_snapshot message then B "snapshot" else B "update")
       (d_book s) (checksum (km_meta message)) scale (d_names s)) in
  let! n := exec_lift (incr_int (d_frame_index s)) in
  exec_put (mkDumpState (d_names s) (d_book s) (d_frames s ++ [frame]) n (d_dumped_symbol s)
              (d_skipped_other_symbol s)).

(** The body of the loop over one payload's messages. *)
Definition dump_message (scale : InstrumentScale) (message : KrakenL3Message)
  : exec dump_state unit :=
  run! (λ s, (if decide (d_dumped_symbol s = []) then set_symbol (km_symbol message) s else s, Done tt)) ;;
  let! s := exec_get in
  if bool_decide (km_symbol message ≠ d_dumped_symbol s) then count_skipped
  else if km_is_snapshot message then
    run! on_dump_book (ApplySnapshot null_hooks KrakenL3Policy_Best
           (KrakenL3Policy_ApplySnapshot (KrakenL3Message_Snapshot message) (km_meta message))) ;;
    push_frame scale message
  else if negb (IsReady (d_book s)) then exec_ret tt
  else
    run! on_dump_book (ApplyBatch null_hooks KrakenL3Policy_Best
           (KrakenL3Policy_ApplyBatch (km_orders message) (km_meta message))) ;;
    push_frame scale message.

Section dump.
Context {json : Type} `{!Json json}.
Variable llround_unspecified : double → Z.
Variable hash : bytes → Z.
Variable asserts : bool.
Variable zlib_crc32 : Z → bytes → Z.
Variable json_text : list DumpedFrame → bytes.
Variable what : cpp_exception → bytes.

(** [Intern]; [try_emplace] keeps the name that is there. *)
Definition Intern (names : OrderIdNames) (raw : bytes) : OrderIdNames :=
  let id := HashOrderId hash raw in
  match names !! id with Some _ => names | None => <[id := raw]> names end.

(** The order ids [ParseKrakenL3Messages] hands to its [to_order_id], in the
    order of the calls. *)
Definition side_order_ids (data : json) (key : bytes) : outcome (list bytes) :=
  do! entries := json_at data key in
  outcome_map (λ entry, do! id := json_at entry (B "order_id") in json_string id)
    (json_elements entries).

Definition entry_order_ids (data : json) : outcome (list bytes) :=
  do! bids := side_order_ids data (B "bids") in
  do! asks := side_order_ids data (B "asks") in
  Done (bids ++ asks).

Definition wire_order_ids (message : json) : outcome (list bytes) :=
  if negb (json_contains message (B "channel")) then Done []
  else
    do! channel := json_at message (B "channel") in
    do! channel := json_string channel in
    if bool_decide (channel ≠ B "level3") then Done []
    else
      do! type := json_at message (B "type") in
      do! type := json_string type in
      if bool_decide (type ≠ B "snapshot") && bool_decide (type ≠ B "update") then Done []
      else
        do! entries := json_at message (B "data") in
        do! ids := outcome_map entry_order_ids (json_elements entries) in
        Done (concat ids).

(** [ParseKrakenL3Messages] with [to_order_id] interning the ids. *)
Definition parse_interning (wire : json) (scale : InstrumentScale)
  : exec dump_state (list KrakenL3Message) :=
  let! messages := exec_lift (ParseKrakenL3Messages llround_unspecified wire scale (HashOrderId hash)) in
  let! ids := exec_lift (wire_order_ids wire) in
  let! s := exec_get in
  run! exec_put (set_names (foldl Intern (d_names s) ids) s) ;;
  exec_ret messages.

(** The body of the loop over the journal. A payload that is not JSON is
    skipped. *)
Definition dump_record (scale : InstrumentScale) (record : JournalRecord) : exec dump_state unit :=
  match jrec_type record with
  | kConnect => exec_ret tt
  | kWireMessage =>
      match ParseWirePayload (jrec_payload record) with
      | Throws _ => exec_ret tt
      | Undef u => exec_lift (Undef u)
      | Done wire =>
          let! messages := parse_interning wire scale in
          exec_each (dump_message scale) messages
      end
  end.

(** [while (record = reader->Next())] *)
Fixpoint dump_records (fuel : nat) (scale : InstrumentScale) (reader : JournalReader)
  : exec dump_state JournalReader :=
  match fuel with
  | O => exec_ret reader
  | S fuel =>
      match Next zlib_crc32 reader with
      | (reader, None) => exec_ret reader
      | (reader, Some record) =>
          run! dump_record scale record ;; dump_records fuel scale reader
      end
  end.

Definition line (text : bytes) : bytes := text ++ [byte_of 10].

(** A path on a stream is quoted: the mark and the backslash are escaped. *)
Definition quoted (path : bytes) : bytes :=
  [byte_of 34] ++
  concat ((λ c, if (byte_val c =? 34) || (byte_val c =? 92) then [byte_of 92; c] else [c]) <$> path) ++
  [byte_of 34].

(** [RunDump]; [contents] is the journal, [opens], [room] and [before] are the
    output file's as for the slicing tool. *)
Definition RunDump (journal_path output_path : bytes) (settings : DumpSettings)
    (contents : option bytes) (opens : bool) (room : nat) (before : option bytes)
  : outcome tool_run :=
  match Open zlib_crc32 journal_path contents with
  | Unexpected error =>
      Done (mkToolRun 1 [] (line (B "failed to open journal: " ++ error)) before)
  | Expected reader =>
      do! scale := new_InstrumentScale asserts (ds_price_decimals settings)
                     (ds_quantity_decimals settings) in
      let '(s, r) := dump_records (S (length (jr_in reader))) scale reader
                       (new_dump (ds_depth settings)) in
      do! reader := r in
      let warnings :=
        (if 0 <? d_skipped_other_symbol s
         then line (B "warning: skipped " ++ to_string (d_skipped_other_symbol s) ++
                    B " message(s) for symbols other than " ++ d_dumped_symbol s) else []) ++
        (if StoppedEarly reader
         then line (B "warning: journal reader stopped early: " ++ jr_stop_reason reader) else []) in
      let text := json_text (d_frames s) in
      let after := if opens then Some (take room text) else before in
      if opens && (length text <=? room)%nat then
        Done (mkToolRun 0 []
                (warnings ++ line (B "wrote " ++ to_string (Z.of_nat (length (d_frames s))) ++
                                   B " frames to " ++ quoted output_path)) after)
      else Done (mkToolRun 1 [] (warnings ++ line (B "failed to write " ++ quoted output_path)) after)
  end.

(** [main]; [args] is the command line without the program's name. *)
Definition dump_main (args : list bytes) (disk : bytes → option bytes) (opens : bool) (room : nat)
    (before : option bytes) : outcome tool_run :=
  match args with
  | journal_path :: output_path :: flags =>
      match ParseSettings flags with
      | Unexpected error => Done (mkToolRun 1 [] (line (B "error: " ++ error)) before)
      | Expected settings =>
          match RunDump journal_path output_path settings (disk journal_path) opens room before with
          | Throws e => Done (mkToolRun 1 [] (line (B "error: " ++ what e)) before)
          | r => r
          end
      end
  | _ =>
      Done (mkToolRun 1 []
              (line (B "usage: kraken_journal_dump <journal_path> <output_json_path>" ++
                     B " [--price-decimals N] [--quantity-decimals N] [--depth N]")) before)
  end.
End dump.
