(* ===== verification/DumpProofs.v ===== *)
(** * The dump shows what the book holds

    Every frame of a dump is the book after one message of the dumped
    instrument, order by order and in arrival order, with the verdict of the
    message's checksum; and an update is only ever shown on a book whose last
    checksum agreed. *)

From S2P Require Import Prelude Text ToolFlags BookTypes LevelMap Scale Engine L3Policy L3Refinement L3Ready KrakenChecksum KrakenL3Policy KrakenWire Feed Journal JournalDump.

(** ** The checksum of the whole view *)

(** Beyond the tenth level nothing is read. *)
Lemma AppendTopLevels_cut (levels : list (Price * list Quantity)) seen current out :
  NoDup levels.*1 → Forall (λ l, l.2 ≠ []) levels →
  (match current with Some pr => pr ∉ levels.*1 | None => True end) →
  0 <= seen <= kKrakenChecksumLevels →
  AppendTopLevels_loop (concat (level_view <$> levels)) seen current out =
    out ++ concat (entry_token <$>
      concat (level_view <$> take (Z.to_nat (kKrakenChecksumLevels - seen)) levels)).
Proof.
  revert seen current out. induction levels as [|[pr [|q qs]] levels IH];
    intros seen current out Hnd Hne Hcur Hseen.
  { rewrite take_nil. cbn. by rewrite app_nil_r. }
  { apply Forall_cons in Hne as [Hq _]. done. }
  rewrite fmap_cons in Hnd, Hcur. apply NoDup_cons in Hnd as [Hpr Hnd].
  apply Forall_cons in Hne as [_ Hne]. cbn [fst] in *. rewrite fmap_cons. cbn [concat].
  change (level_view (pr, q :: qs)) with (mkBookEntry pr q :: level_view (pr, qs)).
  cbn [app AppendTopLevels_loop be_price].
  rewrite decide_False by (destruct current; set_solver).
  destruct (Z.ltb_spec kKrakenChecksumLevels (seen + 1)) as [Hlt|Hge].
  { replace (Z.to_nat _) with 0%nat by lia. cbn. by rewrite app_nil_r. }
  replace (Z.to_nat (kKrakenChecksumLevels - seen))
    with (S (Z.to_nat (kKrakenChecksumLevels - (seen + 1)))) by lia.
  change (level_view (pr, qs)) with (mkBookEntry pr <$> qs). rewrite AppendTopLevels_level.
  rewrite IH by (done || lia). rewrite firstn_cons, fmap_cons. cbn [concat].
  rewrite fmap_app, concat_app.
  change (level_view (pr, q :: qs)) with (mkBookEntry pr q :: (mkBookEntry pr <$> qs)).
  rewrite fmap_cons. cbn [concat]. unfold entry_token at 3. cbn [be_price be_quantity].
  by rewrite <-!app_assoc.
Qed.

Lemma AppendTopLevels_view_cut s n arr out :
  10 <= n → AppendTopLevels out (l3_view s n arr) = out ++ side_text s arr.
Proof.
  intros Hn. unfold AppendTopLevels.
  set (levels := (λ pr, (pr, (λ x : OrderId * OrderRecord, or_quantity x.2) <$> orders_at s pr arr)) <$>
    take (Z.to_nat n) (side_prices s arr)).
  assert (l3_view s n arr = concat (level_view <$> levels)) as ->.
  { unfold l3_view, levels. rewrite <-list_fmap_compose. f_equal. apply list_fmap_ext.
    intros i pr _. unfold level_view. simpl. by rewrite <-list_fmap_compose. }
  rewrite AppendTopLevels_cut; [| | |done|done].
  - rewrite side_text_view, l3_view_top_levels. do 4 f_equal. unfold levels, top_levels.
    change (Z.to_nat (kKrakenChecksumLevels - 0)) with 10%nat.
    by rewrite <-fmap_take, take_take, Nat.min_l by lia.
  - unfold levels. rewrite <-list_fmap_compose. unfold compose. simpl. rewrite list_fmap_id.
    eapply sublist_NoDup; [|apply sublist_take].
    eapply (lm_sorted_NoDup (level_before s)), side_levels_sorted.
  - apply Forall_fmap, Forall_forall. intros pr Hpr. simpl. intros Hnil%fmap_nil_inv.
    eapply side_prices_orders; [|done]. by eapply elem_of_sublist, sublist_take.
Qed.

Lemma checksum_whole_view p arr :
  l3_rel p arr →
  ∃ view, GetBookView p kUnlimitedDepth = Done view ∧
    KrakenL3Checksum view = kraken_checksum_spec arr.
Proof.
  intros Hrel. eexists. split; [apply GetBookView_spec; [done|unfold kUnlimitedDepth, u64_max; lia]|].
  unfold KrakenL3Checksum, kraken_checksum_spec. simpl Entries.
  by rewrite !AppendTopLevels_view_cut by (unfold kUnlimitedDepth, u64_max; lia).
Qed.

(** ** One frame *)

(** The levels a frame shows of an arrival list. *)
Definition shown_level (scale : InstrumentScale) (names : OrderIdNames) (s : Side)
    (arr : arrivals) (pr : Price) : DumpedLevel :=
  mkDumpedLevel (FromPrice scale pr) (FromQuantity scale (total (orders_at s pr arr)))
    ((λ x : OrderId * OrderRecord, mkDumpedOrder (NameOf names x.1) (FromQuantity scale (or_quantity x.2))) <$>
       orders_at s pr arr).

Definition shown_side (scale : InstrumentScale) (names : OrderIdNames) (s : Side) (arr : arrivals)
  : list DumpedLevel := shown_level scale names s arr <$> side_prices s arr.

Lemma dump_orders_spec p scale names (xs : arrivals) acc orders :
  (∀ x, x ∈ xs → l3_order_index p !! x.1 = Some x.2) →
  Z.abs acc + exposure xs <= i64_max →
  dump_orders p scale names xs.*1 acc orders =
    Done (acc + total xs, orders ++ ((λ x : OrderId * OrderRecord,
      mkDumpedOrder (NameOf names x.1) (FromQuantity scale (or_quantity x.2))) <$> xs)).
Proof.
  revert acc orders. induction xs as [|[id r] xs IH]; intros acc orders Hin Hb.
  { cbn. by rewrite app_nil_r, Z.add_0_r. }
  rewrite fmap_cons. cbn [dump_orders fst].
  assert (OrderQuantity p id = Some (or_quantity r)) as ->.
  { unfold OrderQuantity. pose proof (Hin (id, r) ltac:(set_solver)) as Hid. cbn in Hid. by rewrite Hid. }
  change (default 0 (Some (or_quantity r))) with (or_quantity r).
  change (exposure ((id, r) :: xs)) with (Z.abs (or_quantity r) + exposure xs) in Hb.
  pose proof (exposure_nonneg xs).
  unfold quantity_add, add_i64. replace (in_i64 _) with true.
  2: { symmetry. unfold in_i64, i64_min, i64_max in *. lia. }
  cbn [outcome_bind]. rewrite IH by (set_solver || lia). rewrite <-app_assoc. cbn. by rewrite Z.add_assoc.
Qed.

Lemma DumpSide_spec p arr s scale names :
  l3_rel p arr → exposure arr <= i64_max →
  DumpSide p s scale names = Done (shown_side scale names s arr).
Proof.
  intros Hrel Hb. unfold DumpSide, shown_side.
  rewrite (Levels_ladder _ _ s (rel_queues _ _ Hrel)). unfold l3_ladder.
  induction (side_prices s arr) as [|pr prices IH]; [done|].
  rewrite !fmap_cons. cbn [dump_levels]. rewrite dump_orders_spec.
  - cbn [outcome_bind]. rewrite IH. cbn [outcome_bind]. by rewrite Z.add_0_l.
  - intros [id r] [_ Hin]%list_elem_of_filter. rewrite (rel_index _ _ Hrel).
    by apply index_elem; [apply Hrel|].
  - pose proof (exposure_filter (at_level s pr) arr). unfold orders_at. lia.
Qed.

Lemma DumpFrame_spec index type (b : OrderBook KrakenL3Policy) arr sum scale names :
  l3_rel (ob_policy b) arr → exposure arr <= i64_max →
  DumpFrame index type b sum scale names =
    Done (mkDumpedFrame index type sum (kraken_checksum_spec arr =? sum)
            (shown_side scale names kBid arr) (shown_side scale names kAsk arr)).
Proof.
  intros Hrel Hb. unfold DumpFrame, Book. cbv zeta.
  destruct (checksum_whole_view _ _ Hrel) as (view & -> & Hc). cbn [outcome_bind].
  by rewrite !(DumpSide_spec _ arr), Hc.
Qed.

(** ** One message on the book *)

Lemma l3_apply_NoDup u arr : NoDup arr.*1 → NoDup (l3_apply arr u).*1.
Proof.
  intros Hnd. unfold l3_apply. destruct (l3u_event u).
  - by apply l3_add_NoDup.
  - by rewrite l3_modify_fst.
  - by apply l3_delete_NoDup.
Qed.

Lemma l3_applies_exposure us arr :
  NoDup arr.*1 → exposure (l3_applies arr us) <= exposure arr + updates_exposure us.
Proof.
  revert arr. induction us as [|u us IH]; intros arr Hnd; [change (exposure arr <= exposure arr + 0); lia|].
  change (l3_applies arr (u :: us)) with (l3_applies (l3_apply arr u) us).
  change (updates_exposure (u :: us)) with (Z.abs (l3u_quantity u) + updates_exposure us).
  pose proof (l3_apply_exposure u arr Hnd). pose proof (IH _ (l3_apply_NoDup u arr Hnd)). lia.
Qed.

(** The arrival list a message leaves. *)
Definition message_arrivals (depth : Z) (arr : arrivals) (m : KrakenL3Message) (new : arrivals) : Prop :=
  if km_is_snapshot m
  then new = l3_truncates depth (l3_applies [] (as_added ∘ ku_update <$> km_orders m))
  else ∃ out, AddsInArrivalOrder (km_orders m) = Done out ∧
         new = l3_truncates depth (l3_applies arr out).

Definition message_exposure (m : KrakenL3Message) : Z := kraken_exposure (km_orders m).

(** No bid at or above an ask. *)
Definition arrivals_uncrossed (arr : arrivals) : Prop :=
  ∀ x y, x ∈ arr → y ∈ arr → or_side x.2 = kBid → or_side y.2 = kAsk → or_price x.2 < or_price y.2.

(** What the tool does to the book with a message. *)
Definition apply_message (m : KrakenL3Message) : exec (OrderBook KrakenL3Policy) unit :=
  if km_is_snapshot m
  then ApplySnapshot null_hooks KrakenL3Policy_Best
         (KrakenL3Policy_ApplySnapshot (KrakenL3Message_Snapshot m) (km_meta m))
  else ApplyBatch null_hooks KrakenL3Policy_Best
         (KrakenL3Policy_ApplyBatch (km_orders m) (km_meta m)).

(** The policy's part of it: the new list, and no issue only when the checksum
    agrees and the sides do not cross. *)
Definition policy_message (m : KrakenL3Message) : exec KrakenL3Policy L3ChangeSet :=
  if km_is_snapshot m
  then KrakenL3Policy_ApplySnapshot (KrakenL3Message_Snapshot m) (km_meta m)
  else KrakenL3Policy_ApplyBatch (km_orders m) (km_meta m).

Lemma uncrossed_arrivals p arr : l3_rel p arr → orders_uncrossed p → arrivals_uncrossed arr.
Proof.
  intros Hrel Hu [id1 r1] [id2 r2] H1 H2. apply (index_elem _ _ _ (rel_NoDup _ _ Hrel)) in H1, H2.
  rewrite <-(rel_index _ _ Hrel) in H1, H2. by eapply Hu.
Qed.

Lemma verified p new cs meta d :
  l3_rel p new → l3_max_depth p = d → (l3_integrity_issue cs = None → orders_uncrossed p) →
  wp (VerifyChecksum cs meta) p (λ cs' p',
    l3_rel p' new ∧ l3_max_depth p' = d ∧
    (reported_issue cs' = None → kraken_checksum_spec new = checksum meta ∧ arrivals_uncrossed new)).
Proof.
  intros Hrel Hd Hu. eapply wp_mono; [by apply (VerifyChecksum_wp _ new)|]. intros cs' p' [-> ->].
  split_and!; [done..|]. unfold reported_issue. simpl. case_bool_decide as Hc.
  - intros H. split; [done|]. by eapply uncrossed_arrivals; [|apply Hu].
  - by intros ?%ReportIssue_not_None.
Qed.

Lemma policy_message_wp m p arr :
  l3_rel p arr → 0 <= l3_max_depth p → exposure arr + message_exposure m <= i64_max →
  wp (policy_message m) p (λ cs p', ∃ new,
    (l3_rel p' new ∧ l3_max_depth p' = l3_max_depth p ∧
     (reported_issue cs = None →
        kraken_checksum_spec new = checksum (km_meta m) ∧ arrivals_uncrossed new)) ∧
    message_arrivals (l3_max_depth p) arr m new ∧
    exposure new <= exposure arr + message_exposure m).
Proof.
  intros Hrel Hd Hb. pose proof (exposure_nonneg arr). unfold policy_message, message_arrivals.
  unfold message_exposure, kraken_exposure in *. destruct (km_is_snapshot m).
  - unfold KrakenL3Policy_ApplySnapshot. apply wp_bind.
    eapply wp_mono; [apply L3Policy_ApplySnapshot_wp; [|done]|].
    { change (updates_exposure (ku_update <$> km_orders m) <= i64_max). lia. }
    cbv zeta.
    change (as_added <$> l3s_orders (KrakenL3Message_Snapshot m))
      with (as_added <$> (ku_update <$> km_orders m)). rewrite <-list_fmap_compose.
    set (us := as_added ∘ ku_update <$> km_orders m).
    intros cs p' (Hrel' & Hd' & _ & _ & ->).
    eapply wp_mono; [apply (verified _ _ _ _ (l3_max_depth p) Hrel' Hd')|].
    { intros Hn. by eapply l3_finish_uncrossed. }
    intros cs' p2 H2. eexists. split; [exact H2|]. split; [done|].
    etrans; [apply l3_truncates_exposure|]. etrans; [apply l3_applies_exposure; constructor|].
    subst us. rewrite list_fmap_compose, updates_exposure_as_added.
    change (exposure []) with 0. lia.
  - destruct (AddsInArrivalOrder_placed (km_orders m)) as (out & Hrun & _ & _ & _ & Hp).
    rewrite <-(updates_exposure_perm _ _ Hp) in Hb |- *.
    unfold KrakenL3Policy_ApplyBatch. apply wp_bind. eapply wp_lift; [done|]. apply wp_bind.
    eapply wp_mono; [by apply (L3Policy_ApplyBatch_wp out p arr)|].
    intros cs p' (Hrel' & Hd' & _ & _ & ->).
    eapply wp_mono; [apply (verified _ _ _ _ (l3_max_depth p) Hrel' Hd')|].
    { intros Hn. by eapply l3_finish_uncrossed. }
    intros cs' p2 H2. eexists. split; [exact H2|]. split; [by exists out|].
    etrans; [apply l3_truncates_exposure|]. apply l3_applies_exposure, Hrel.
Qed.

Lemma apply_message_run m (b : OrderBook KrakenL3Policy) arr :
  l3_rel (ob_policy b) arr → 0 <= l3_max_depth (ob_policy b) →
  exposure arr + message_exposure m <= i64_max →
  (km_is_snapshot m = true ∨ ob_readiness b = kReady) →
  ∃ b' new, apply_message m b = (b', Done tt) ∧
    l3_rel (ob_policy b') new ∧ l3_max_depth (ob_policy b') = l3_max_depth (ob_policy b) ∧
    message_arrivals (l3_max_depth (ob_policy b)) arr m new ∧
    exposure new <= exposure arr + message_exposure m ∧
    (ob_readiness b' = kReady →
       kraken_checksum_spec new = checksum (km_meta m) ∧ arrivals_uncrossed new).
Proof.
  intros Hrel Hd Hb Hgo.
  destruct (proj1 (wp_run _ _ _) (policy_message_wp m _ arr Hrel Hd Hb))
    as (p' & cs & Hrun & new & (Hrel' & Hd' & Hok) & Harr & Hex).
  assert (∀ side, KrakenL3Policy_Best p' side = Done (l3_best side new)) as Hbest.
  { intros side. apply L3Policy_Best_spec; [done|lia]. }
  assert (apply_message m b =
    (mkOrderBook p' (readiness_after kReady cs)
       (ob_calls b ++ notifications null_hooks (λ side, l3_best side new) cs), Done tt)) as ->.
  { unfold apply_message, policy_message in *. destruct (km_is_snapshot m).
    - by apply ApplySnapshot_run.
    - destruct Hgo as [?|Hr]; [done|]. by apply ApplyBatch_run. }
  eexists _, new. split; [done|]. cbn [ob_policy ob_readiness]. split_and!; [done..|].
  rewrite readiness_after_ready. done.
Qed.

(** ** Names *)

Section dump_proofs.
Context {json : Type} `{!Json json}.
Context (llround_unspecified : double → Z) (hash : bytes → Z) (asserts : bool).
Context (zlib_crc32 : Z → bytes → Z).
Context (json_text : list DumpedFrame → bytes) (what : cpp_exception → bytes).

(** A name is a text that hashes to its id. *)
Definition names_ok (names : OrderIdNames) : Prop :=
  ∀ id raw, names !! id = Some raw → HashOrderId hash raw = id.

Lemma Intern_ok names raw :
  names_ok names →
  names_ok (Intern hash names raw) ∧
  (∀ id, is_Some (names !! id) → is_Some (Intern hash names raw !! id)) ∧
  is_Some (Intern hash names raw !! HashOrderId hash raw).
Proof.
  intros Hok. unfold Intern. cbv zeta. destruct (names !! HashOrderId hash raw) as [x|] eqn:Hx; [by eauto|].
  split_and!.
  - intros id raw' [[<- <-]|[_ H]]%(lookup_insert_Some (M:=gmap Z)); [done|]. by apply Hok.
  - intros id H. destruct (decide (id = HashOrderId hash raw)) as [->|Hne].
    + eexists. apply (lookup_insert_eq (M:=gmap Z)).
    + destruct H as [y Hy]. exists y. rewrite <-Hy. by apply (lookup_insert_ne (M:=gmap Z)).
  - eexists. apply (lookup_insert_eq (M:=gmap Z)).
Qed.

Lemma Intern_all names ids :
  names_ok names →
  names_ok (foldl (Intern hash) names ids) ∧
  (∀ id, is_Some (names !! id) → is_Some (foldl (Intern hash) names ids !! id)) ∧
  (∀ raw, raw ∈ ids → is_Some (foldl (Intern hash) names ids !! HashOrderId hash raw)).
Proof.
  revert names. induction ids as [|raw ids IH]; intros names Hok; cbn [foldl].
  { split_and!; [done..|]. intros raw. by rewrite elem_of_nil. }
  destruct (Intern_ok names raw Hok) as (H1 & H2 & H3).
  destruct (IH _ H1) as (H4 & H5 & H6). split_and!; [done|auto|].
  intros raw' [->|H]%elem_of_cons; auto.
Qed.

(** The ids the parser saw are the texts interned. *)
Definition update_ids (us : list KrakenL3Update) : list OrderId := l3u_order_id ∘ ku_update <$> us.
Definition message_ids (ms : list KrakenL3Message) : list OrderId :=
  concat (update_ids ∘ km_orders <$> ms).

Lemma outcome_bind_Done {A C} (r : outcome A) (k : A → outcome C) c :
  outcome_bind r k = Done c → ∃ a, r = Done a ∧ k a = Done c.
Proof. destruct r; [eauto|done..]. Qed.

Lemma outcome_map_pair {A C D} (f : A → outcome C) (g : A → outcome D) (R : C → D → Prop) l cs :
  (∀ a c, f a = Done c → ∃ d, g a = Done d ∧ R c d) →
  outcome_map f l = Done cs → ∃ ds, outcome_map g l = Done ds ∧ Forall2 R cs ds.
Proof.
  intros Hfg. revert cs. induction l as [|a l IH]; intros cs; cbn [outcome_map].
  { intros [= <-]. exists []. split; [done|constructor]. }
  intros (c & Hc & (cs' & Hcs & [= <-])%outcome_bind_Done)%outcome_bind_Done.
  destruct (Hfg _ _ Hc) as (d & Hd & HR), (IH _ Hcs) as (ds & Hds & HRs).
  exists (d :: ds). rewrite Hd. cbn [outcome_bind]. rewrite Hds. split; [done|by constructor].
Qed.

Lemma parse_order_id f side scale entry u :
  parse_order llround_unspecified side scale f entry = Done u →
  ∃ raw, (do! id := json_at entry (B "order_id") in json_string id) = Done raw ∧
    l3u_order_id (ku_update u) = f raw.
Proof.
  unfold parse_order. intros (event & _ & H)%outcome_bind_Done.
  apply outcome_bind_Done in H as (id & Hid & H). apply outcome_bind_Done in H as (raw & Hraw & H).
  exists raw. rewrite Hid. split; [exact Hraw|].
  repeat (apply outcome_bind_Done in H as (? & _ & H)). by injection H as <-.
Qed.

Lemma AppendSide_ids f out data side key scale us :
  AppendSide llround_unspecified out data side key scale f = Done us →
  ∃ ids, side_order_ids data key = Done ids ∧ update_ids us = update_ids out ++ (f <$> ids).
Proof.
  unfold AppendSide, side_order_ids. intros (entries & He & H)%outcome_bind_Done.
  apply outcome_bind_Done in H as (orders & Ho & [= <-]). rewrite He. cbn [outcome_bind].
  destruct (outcome_map_pair _ (λ entry, do! id := json_at entry (B "order_id") in json_string id)
    (λ u raw, l3u_order_id (ku_update u) = f raw) _ _ ltac:(intros ??; apply parse_order_id) Ho)
    as (ids & Hids & HR). exists ids. split; [done|].
  unfold update_ids. rewrite fmap_app. f_equal.
  clear -HR. induction HR as [|u raw us ids Hu _ IH]; [done|].
  rewrite !fmap_cons. by f_equal.
Qed.

Lemma parse_entry_ids f is_snapshot scale data m :
  parse_entry llround_unspecified is_snapshot scale f data = Done m →
  ∃ ids, entry_order_ids data = Done ids ∧ update_ids (km_orders m) = f <$> ids.
Proof.
  unfold parse_entry, entry_order_ids. intros H.
  do 4 (apply outcome_bind_Done in H as (? & _ & H)).
  apply outcome_bind_Done in H as (bids & Hb & H). apply outcome_bind_Done in H as (us & Ha & [= <-]).
  apply AppendSide_ids in Hb as (ids1 & -> & H1). apply AppendSide_ids in Ha as (ids2 & -> & H2).
  cbn [outcome_bind km_orders]. exists (ids1 ++ ids2). split; [done|]. by rewrite H2, H1, fmap_app.
Qed.

(** Every call of [to_order_id] is in the list, in order, for any such function. *)
Lemma ParseKrakenL3Messages_ids f wire scale ms :
  ParseKrakenL3Messages llround_unspecified wire scale f = Done ms →
  ∃ ids, wire_order_ids wire = Done ids ∧ message_ids ms = f <$> ids.
Proof.
  unfold ParseKrakenL3Messages, wire_order_ids. destruct (negb _).
  { intros [= <-]. by exists []. }
  intros (c & Hc & H)%outcome_bind_Done. rewrite Hc. cbn [outcome_bind].
  apply outcome_bind_Done in H as (ch & Hch & H). rewrite Hch. cbn [outcome_bind].
  destruct (bool_decide (ch ≠ _)). { injection H as <-. by exists []. }
  apply outcome_bind_Done in H as (t & Ht & H). rewrite Ht. cbn [outcome_bind].
  apply outcome_bind_Done in H as (ty & Hty & H). rewrite Hty. cbn [outcome_bind].
  destruct (_ && _). { injection H as <-. by exists []. }
  apply outcome_bind_Done in H as (entries & He & H). rewrite He. cbn [outcome_bind].
  destruct (outcome_map_pair _ entry_order_ids (λ m ids, update_ids (km_orders m) = f <$> ids)
    _ _ ltac:(intros ??; apply parse_entry_ids) H) as (idss & -> & HR).
  exists (concat idss). split; [done|]. clear -HR. unfold message_ids.
  induction HR as [|m ids ms idss Hm _ IH]; [done|]. rewrite fmap_cons. cbn [concat].
  rewrite fmap_app. by f_equal.
Qed.

(** ** The history a dump shows *)

(** The messages of the dumped instrument: the first symbol seen. *)
Definition pick (acc : bytes * list KrakenL3Message) (m : KrakenL3Message)
  : bytes * list KrakenL3Message :=
  let symbol := if decide (acc.1 = []) then km_symbol m else acc.1 in
  (symbol, if decide (km_symbol m = symbol) then acc.2 ++ [m] else acc.2).
Definition picked (ms : list KrakenL3Message) : bytes * list KrakenL3Message := foldl pick ([], []) ms.

Lemma picked_snoc ms m : picked (ms ++ [m]) = pick (picked ms) m.
Proof. unfold picked. by rewrite foldl_app. Qed.

(** The [i]th frame, of message [m], when the arrival list is [arr]. *)
Definition shows (scale : InstrumentScale) (i : nat) (m : KrakenL3Message) (arr : arrivals)
    (f : DumpedFrame) : Prop :=
  ∃ names, names_ok names ∧ (∀ x, x ∈ arr → is_Some (names !! x.1)) ∧
    f = mkDumpedFrame (Z.of_nat i) (if km_is_snapshot m then B "snapshot" else B "update")
          (checksum (km_meta m)) (kraken_checksum_spec arr =? checksum (km_meta m))
          (shown_side scale names kBid arr) (shown_side scale names kAsk arr).

(** The frames shown for the messages, the arrival list behind the last one, and
    whether updates are taken. *)
Inductive dumped (scale : InstrumentScale) (depth : Z)
  : list KrakenL3Message → list DumpedFrame → arrivals → bool → Prop :=
| dumped_start : dumped scale depth [] [] [] false
| dumped_frame ms frames arr ready m f new ready' :
    dumped scale depth ms frames arr ready → km_is_snapshot m = true ∨ ready = true →
    message_arrivals depth arr m new → shows scale (length frames) m new f →
    (ready' = true → df_checksum_ok f = true ∧ arrivals_uncrossed new) →
    dumped scale depth (ms ++ [m]) (frames ++ [f]) new ready'
| dumped_ignored ms frames arr m :
    dumped scale depth ms frames arr false → km_is_snapshot m = false →
    dumped scale depth (ms ++ [m]) frames arr false.

Lemma l3_applies_ids arr us x :
  x ∈ l3_applies arr us → x.1 ∈ arr.*1 ∨ x.1 ∈ l3u_order_id <$> us.
Proof.
  revert arr. induction us as [|u us IH]; intros arr Hx.
  { left. by apply list_elem_of_fmap_2. }
  change (l3_applies arr (u :: us)) with (l3_applies (l3_apply arr u) us) in Hx.
  rewrite fmap_cons, elem_of_cons. apply IH in Hx as [Hx|Hx]; [|tauto].
  unfold l3_apply, l3_add, l3_delete in Hx. destruct (l3u_event u).
  - rewrite fmap_app, elem_of_app in Hx. destruct Hx as [Hx|Hx]; [|set_solver].
    left. apply list_elem_of_fmap in Hx as (y & -> & [_ Hy]%list_elem_of_filter). by apply list_elem_of_fmap_2.
  - rewrite l3_modify_fst in Hx. by left.
  - left. apply list_elem_of_fmap in Hx as (y & -> & [_ Hy]%list_elem_of_filter). by apply list_elem_of_fmap_2.
Qed.

Lemma l3_truncates_sub d arr x : x ∈ l3_truncates d arr → x ∈ arr.
Proof.
  unfold l3_truncates, l3_truncate. intros Hx.
  repeat match type of Hx with
    | context [if ?c then _ else _] => destruct c
    | _ ∈ filter _ _ => apply list_elem_of_filter in Hx as [_ Hx]
    end; done.
Qed.

Lemma message_arrivals_ids d arr m new x :
  message_arrivals d arr m new → x ∈ new → x.1 ∈ arr.*1 ∨ x.1 ∈ update_ids (km_orders m).
Proof.
  unfold message_arrivals, update_ids. destruct (km_is_snapshot m).
  - intros -> [Hx|Hx]%l3_truncates_sub%l3_applies_ids; [by apply elem_of_nil in Hx|]. right.
    rewrite <-list_fmap_compose in Hx. done.
  - intros (out & Hout & ->) [Hx|Hx]%l3_truncates_sub%l3_applies_ids; [by left|]. right.
    destruct (AddsInArrivalOrder_placed (km_orders m)) as (out' & Hout' & _ & _ & _ & Hp).
    assert (out' = out) as -> by congruence. rewrite Hp in Hx. by rewrite <-list_fmap_compose in Hx.
Qed.

Definition messages_exposure (ms : list KrakenL3Message) : Z :=
  foldr (λ m acc, message_exposure m + acc) 0 ms.

Lemma message_exposure_nonneg m : 0 <= message_exposure m.
Proof. apply updates_exposure_nonneg. Qed.

Lemma messages_exposure_app ms ms' :
  messages_exposure (ms ++ ms') = messages_exposure ms + messages_exposure ms'.
Proof.
  unfold messages_exposure. induction ms as [|m ms IH]; [done|]. cbn [app foldr]. lia.
Qed.

Lemma messages_exposure_nonneg ms : 0 <= messages_exposure ms.
Proof.
  unfold messages_exposure. induction ms as [|m ms IH]; [done|].
  pose proof (message_exposure_nonneg m). cbn [foldr]. lia.
Qed.

(** ** The loop *)

Record dump_inv (scale : InstrumentScale) (depth : Z) (ms : list KrakenL3Message) (s : dump_state)
    (arr : arrivals) : Prop := {
  di_dumped : dumped scale depth (picked ms).2 (d_frames s) arr (IsReady (d_book s));
  di_symbol : d_dumped_symbol s = (picked ms).1;
  di_index : d_frame_index s = Z.of_nat (length (d_frames s));
  di_frames : (length (d_frames s) <= length ms)%nat;
  di_skipped : 0 <= d_skipped_other_symbol s <= Z.of_nat (length ms);
  di_rel : l3_rel (ob_policy (d_book s)) arr;
  di_depth : l3_max_depth (ob_policy (d_book s)) = depth;
  di_exposure : exposure arr <= messages_exposure ms;
  di_names_ok : names_ok (d_names s);
  di_named : ∀ x, x ∈ arr → is_Some (d_names s !! x.1);
}.

Section loop.
Context (scale : InstrumentScale) (depth : Z) (Hdepth : 0 <= depth).

Definition keeps_names (s s' : dump_state) : Prop := d_names s' = d_names s.

Lemma push_frame_wp ms m s b' arr new :
  dump_inv scale depth ms s arr →
  (km_is_snapshot m = true ∨ IsReady (d_book s) = true) →
  (picked (ms ++ [m])).2 = (picked ms).2 ++ [m] →
  l3_rel (ob_policy b') new → l3_max_depth (ob_policy b') = depth →
  message_arrivals depth arr m new → exposure new <= exposure arr + message_exposure m →
  (ob_readiness b' = kReady →
     kraken_checksum_spec new = checksum (km_meta m) ∧ arrivals_uncrossed new) →
  (∀ id, id ∈ update_ids (km_orders m) → is_Some (d_names s !! id)) →
  messages_exposure (ms ++ [m]) <= i64_max → Z.of_nat (length ms) < i32_max →
  wp (push_frame scale m)
    (mkDumpState (d_names s) b' (d_frames s) (d_frame_index s) (picked (ms ++ [m])).1
       (d_skipped_other_symbol s))
    (λ _ s', dump_inv scale depth (ms ++ [m]) s' new ∧ keeps_names s s').
Proof.
  intros [Hdu Hsy Hix Hfr Hsk Hrel Hde Hex Hnk Hna] Hgo Hpick Hrel' Hde' Harr Hex' Hok Hids Hb Hn.
  rewrite messages_exposure_app in Hb. change (messages_exposure [m]) with (message_exposure m + 0) in Hb.
  assert (∀ x, x ∈ new → is_Some (d_names s !! x.1)) as Hnew.
  { intros x Hx. destruct (message_arrivals_ids _ _ _ _ _ Harr Hx) as [H|H]; [|auto].
    apply list_elem_of_fmap in H as (y & -> & Hy). auto. }
  unfold push_frame. apply wp_bind, wp_get. cbn [d_frame_index d_book d_names]. apply wp_bind.
  eapply wp_lift; [by apply (DumpFrame_spec _ _ _ new); [|lia]|]. apply wp_bind.
  eapply wp_lift. { unfold incr_int. by rewrite (proj2 (Z.ltb_lt _ _)) by lia. }
  apply wp_put. split; [|done]. set (f := mkDumpedFrame _ _ _ _ _ _).
  split; cbn [d_frames d_dumped_symbol d_frame_index d_skipped_other_symbol d_book d_names].
  - rewrite Hpick. apply (dumped_frame _ _ _ _ arr (IsReady (d_book s))); [done..| |].
    + exists (d_names s). split_and!; [done..|]. subst f. by rewrite Hix.
    + unfold IsReady. intros Hr%bool_decide_eq_true. destruct (Hok Hr) as [Hc Hu].
      split; [|done]. cbn. by apply Z.eqb_eq.
  - done.
  - rewrite length_app, Hix. cbn [length]. lia.
  - rewrite !length_app. cbn [length]. lia.
  - rewrite length_app. cbn [length]. lia.
  - done.
  - done.
  - rewrite messages_exposure_app. change (messages_exposure [m]) with (message_exposure m + 0). lia.
  - done.
  - done.
Qed.

(** The state once the symbol is chosen. *)
Definition chosen (ms : list KrakenL3Message) (m : KrakenL3Message) (s : dump_state) : dump_state :=
  mkDumpState (d_names s) (d_book s) (d_frames s) (d_frame_index s) (picked (ms ++ [m])).1
    (d_skipped_other_symbol s).

Lemma choose_symbol ms m s arr :
  dump_inv scale depth ms s arr →
  (if decide (d_dumped_symbol s = []) then set_symbol (km_symbol m) s else s) = chosen ms m s.
Proof.
  intros Hinv. pose proof (di_symbol _ _ _ _ _ Hinv) as Hs. unfold chosen. rewrite picked_snoc.
  unfold pick. cbn [fst]. rewrite <-Hs. destruct (decide (d_dumped_symbol s = [])); [done|]. by destruct s.
Qed.

(** A message that adds no frame: of another symbol, or an update on a book that
    is not ready. *)
Lemma dump_inv_pass ms m s arr skipped :
  dump_inv scale depth ms s arr →
  dumped scale depth (picked (ms ++ [m])).2 (d_frames s) arr (IsReady (d_book s)) →
  0 <= skipped <= Z.of_nat (length ms) + 1 →
  dump_inv scale depth (ms ++ [m])
    (mkDumpState (d_names s) (d_book s) (d_frames s) (d_frame_index s) (picked (ms ++ [m])).1 skipped) arr.
Proof.
  intros [Hdu Hsy Hix Hfr Hsk Hrel Hde Hex Hnk Hna] Hd Hs. pose proof (message_exposure_nonneg m).
  split; cbn [d_frames d_dumped_symbol d_frame_index d_skipped_other_symbol d_book d_names]; try done.
  - rewrite length_app. cbn [length]. lia.
  - rewrite length_app. cbn [length]. lia.
  - rewrite messages_exposure_app. change (messages_exposure [m]) with (message_exposure m + 0). lia.
Qed.

Lemma on_book_frame_wp ms m s arr :
  dump_inv scale depth ms s arr →
  (km_is_snapshot m = true ∨ IsReady (d_book s) = true) →
  (picked (ms ++ [m])).2 = (picked ms).2 ++ [m] →
  (∀ id, id ∈ update_ids (km_orders m) → is_Some (d_names s !! id)) →
  messages_exposure (ms ++ [m]) <= i64_max → Z.of_nat (length ms) < i32_max →
  wp (run! on_dump_book (apply_message m) ;; push_frame scale m) (chosen ms m s)
    (λ _ s', ∃ new, dump_inv scale depth (ms ++ [m]) s' new ∧ keeps_names s s').
Proof.
  intros Hinv Hgo Hpick Hids Hb Hn. pose proof Hinv as [_ _ _ _ _ Hrel Hde Hex _ _].
  destruct (apply_message_run m (d_book s) arr Hrel) as (b' & new & Hrun & Hrel' & Hde' & Harr & Hex' & Hok).
  - by rewrite Hde.
  - rewrite messages_exposure_app in Hb. change (messages_exposure [m]) with (message_exposure m + 0) in Hb. lia.
  - destruct Hgo as [?|Hr]; [by left|right]. by apply bool_decide_eq_true in Hr.
  - rewrite Hde in Hde', Harr. apply wp_bind. unfold wp at 1, on_dump_book. cbn [chosen d_book]. rewrite Hrun.
    eapply wp_mono; [by apply (push_frame_wp ms m s b' arr new)|]. intros [] s' H. by exists new.
Qed.

Lemma dump_message_wp ms m s arr :
  dump_inv scale depth ms s arr →
  (∀ id, id ∈ update_ids (km_orders m) → is_Some (d_names s !! id)) →
  messages_exposure (ms ++ [m]) <= i64_max → Z.of_nat (length ms) < i32_max →
  wp (dump_message scale m) s
    (λ _ s', ∃ new, dump_inv scale depth (ms ++ [m]) s' new ∧ keeps_names s s').
Proof.
  intros Hinv Hids Hb Hn. pose proof (choose_symbol ms m s arr Hinv) as Hc.
  pose proof (di_skipped _ _ _ _ _ Hinv) as Hsk. pose proof (di_dumped _ _ _ _ _ Hinv) as Hdu.
  unfold dump_message. apply wp_bind. unfold wp at 1. rewrite Hc.
  apply wp_bind, wp_get. cbn [chosen d_dumped_symbol d_book].
  assert ((picked (ms ++ [m])).2 = if decide (km_symbol m = (picked (ms ++ [m])).1)
    then (picked ms).2 ++ [m] else (picked ms).2) as Hp2 by (by rewrite picked_snoc).
  revert Hp2. destruct (decide (km_symbol m = (picked (ms ++ [m])).1)) as [Heq|Hne]; intros Hp2.
  2: { rewrite bool_decide_eq_true_2 by done. unfold count_skipped. apply wp_bind, wp_get.
       apply wp_bind. cbn [chosen d_skipped_other_symbol]. eapply wp_lift.
       { unfold incr_int. by rewrite (proj2 (Z.ltb_lt _ _)) by lia. }
       apply wp_put. exists arr. split; [|done].
       apply (dump_inv_pass ms m s arr); [done|by rewrite Hp2|lia]. }
  rewrite bool_decide_eq_false_2 by auto.
  destruct (km_is_snapshot m) eqn:Hsn.
  { pose proof (on_book_frame_wp ms m s arr Hinv (or_introl Hsn) Hp2 Hids Hb Hn) as H.
    unfold apply_message in H. by rewrite Hsn in H. }
  destruct (IsReady (d_book s)) eqn:Hr; cbn [negb].
  - pose proof (on_book_frame_wp ms m s arr Hinv (or_intror Hr) Hp2 Hids Hb Hn) as H.
    unfold apply_message in H. by rewrite Hsn in H.
  - apply wp_ret. exists arr. split; [|done]. apply (dump_inv_pass ms m s arr); [done| |lia].
    rewrite Hp2, Hr. by apply dumped_ignored.
Qed.

Lemma dump_messages_wp ms todo s arr :
  dump_inv scale depth ms s arr →
  (∀ id, id ∈ message_ids todo → is_Some (d_names s !! id)) →
  messages_exposure (ms ++ todo) <= i64_max → Z.of_nat (length (ms ++ todo)) <= i32_max →
  wp (exec_each (dump_message scale) todo) s
    (λ _ s', ∃ new, dump_inv scale depth (ms ++ todo) s' new).
Proof.
  revert ms s arr. induction todo as [|m todo IH]; intros ms s arr Hinv Hids Hb Hn.
  { apply wp_ret. exists arr. by rewrite app_nil_r. }
  rewrite cons_middle, app_assoc in Hb, Hn |- *.
  pose proof (messages_exposure_nonneg todo) as Hnn. rewrite messages_exposure_app in Hb.
  rewrite length_app, length_app in Hn. cbn [length] in Hn. cbn [exec_each]. apply wp_bind.
  assert (∀ id, id ∈ update_ids (km_orders m) ∨ id ∈ message_ids todo →
    is_Some (d_names s !! id)) as Hids'.
  { intros id Hid. apply Hids. unfold message_ids. rewrite fmap_cons. cbn [concat].
    rewrite elem_of_app. exact Hid. }
  eapply wp_mono; [apply (dump_message_wp ms m s arr Hinv); [auto|lia|lia]|].
  intros [] s' (new & Hinv' & Hk). apply (IH _ _ new Hinv').
  - intros id Hid. unfold keeps_names in Hk. rewrite Hk. auto.
  - rewrite messages_exposure_app. lia.
  - rewrite !length_app. cbn [length]. lia.
Qed.

(** Interning more names changes nothing else. *)
Lemma dump_inv_names ms s arr names :
  dump_inv scale depth ms s arr → names_ok names →
  (∀ id, is_Some (d_names s !! id) → is_Some (names !! id)) →
  dump_inv scale depth ms (set_names names s) arr.
Proof. intros [Hdu Hsy Hix Hfr Hsk Hrel Hde Hex Hnk Hna] Hok Hmono. split; cbn; auto. Qed.

(** The messages in a record, and in a journal. *)
Definition record_messages (record : JournalRecord) : outcome (list KrakenL3Message) :=
  match jrec_type record with
  | kConnect => Done []
  | kWireMessage =>
      match ParseWirePayload (jrec_payload record) with
      | Throws _ => Done []
      | Undef u => Undef u
      | Done wire => ParseKrakenL3Messages llround_unspecified wire scale (HashOrderId hash)
      end
  end.

Definition journal_messages (records : list JournalRecord) : outcome (list KrakenL3Message) :=
  do! messages := outcome_map record_messages records in Done (concat messages).

Lemma dump_record_wp ms todo record s arr :
  dump_inv scale depth ms s arr → record_messages record = Done todo →
  messages_exposure (ms ++ todo) <= i64_max → Z.of_nat (length (ms ++ todo)) <= i32_max →
  wp (dump_record llround_unspecified hash scale record) s
    (λ _ s', ∃ new, dump_inv scale depth (ms ++ todo) s' new).
Proof.
  intros Hinv Hm Hb Hn. unfold dump_record, record_messages in *.
  assert (Done (A:=list KrakenL3Message) [] = Done todo →
    wp (exec_ret tt) s (λ _ s', ∃ new, dump_inv scale depth (ms ++ todo) s' new)) as Hnone.
  { intros [= <-]. apply wp_ret. exists arr. by rewrite app_nil_r. }
  destruct (jrec_type record); [|by apply Hnone].
  destruct (ParseWirePayload (jrec_payload record)) as [wire|e|u]; [|by apply Hnone|done].
  destruct (ParseKrakenL3Messages_ids _ _ _ _ Hm) as (ids & Hids & Hmi).
  apply wp_bind. unfold parse_interning. apply wp_bind. eapply wp_lift; [done|].
  apply wp_bind. eapply wp_lift; [done|]. apply wp_bind, wp_get. apply wp_bind, wp_put, wp_ret.
  destruct (Intern_all (d_names s) ids (di_names_ok _ _ _ _ _ Hinv)) as (H1 & H2 & H3).
  apply (dump_messages_wp ms todo _ arr); [by apply dump_inv_names| |done|done].
  intros id. rewrite Hmi. intros (raw & -> & Hraw)%list_elem_of_fmap. by apply H3.
Qed.

Lemma dump_records_wp fuel reader ms todo s arr :
  dump_inv scale depth ms s arr →
  journal_messages (read_all zlib_crc32 fuel reader).2 = Done todo →
  messages_exposure (ms ++ todo) <= i64_max → Z.of_nat (length (ms ++ todo)) <= i32_max →
  wp (dump_records llround_unspecified hash zlib_crc32 fuel scale reader) s
    (λ r s', r = (read_all zlib_crc32 fuel reader).1 ∧
       ∃ new, dump_inv scale depth (ms ++ todo) s' new).
Proof.
  revert reader ms todo s arr. induction fuel as [|fuel IH]; intros reader ms todo s arr Hinv Hm Hb Hn;
    cbn [dump_records read_all] in *.
  { injection Hm as <-. apply wp_ret. split; [done|]. exists arr. by rewrite app_nil_r. }
  destruct (Next zlib_crc32 reader) as [reader' [record|]].
  2: { injection Hm as <-. apply wp_ret. split; [done|]. exists arr. by rewrite app_nil_r. }
  specialize (IH reader'). destruct (read_all zlib_crc32 fuel reader') as [r records]. cbn [fst snd] in *.
  unfold journal_messages in Hm. cbn [outcome_map] in Hm.
  apply outcome_bind_Done in Hm as (mss & Hm & [= <-]).
  apply outcome_bind_Done in Hm as (now & Hnow & Hm).
  apply outcome_bind_Done in Hm as (later & Hlater & [= <-]). cbn [concat] in *.
  rewrite app_assoc in Hb, Hn |- *.
  assert (Z.of_nat (length (ms ++ now)) <= i32_max) as Hn1 by (rewrite length_app in Hn; lia).
  assert (messages_exposure (ms ++ now) <= i64_max) as Hb1.
  { rewrite messages_exposure_app in Hb. pose proof (messages_exposure_nonneg (concat later)). lia. }
  apply wp_bind. eapply wp_mono; [by apply (dump_record_wp ms now record s arr)|].
  intros [] s' (new & Hinv'). apply (IH _ _ _ new Hinv'); [|done..].
  unfold journal_messages. by rewrite Hlater.
Qed.
End loop.

(** An update frame follows a frame whose checksum agreed. *)
Lemma dumped_updates scale depth ms frames arr ready :
  dumped scale depth ms frames arr ready →
  (ready = true → ∃ f, last frames = Some f ∧ df_checksum_ok f = true) ∧
  ∀ i f g, frames !! i = Some f → frames !! S i = Some g → df_type g = B "update" →
    df_checksum_ok f = true.
Proof.
  induction 1 as [|ms frames arr ready m f new ready' Hd [IH1 IH2] Hgo _ (names & _ & _ & ->) Hok|
                  ms frames arr m Hd [IH1 IH2] Hs]; [done| |by split].
  split.
  { intros Hr. eexists. rewrite last_snoc. split; [done|]. by apply Hok. }
  intros i f g Hf Hg Ht. apply lookup_app_Some in Hg as [Hg|[Hl Hg]].
  { rewrite lookup_app_l in Hf by (apply lookup_lt_Some in Hg; lia). by eapply IH2. }
  apply list_lookup_singleton_Some in Hg as [Hi <-]. cbn [df_type] in Ht.
  destruct (km_is_snapshot m); [done|]. destruct Hgo as [?|Hr]; [done|].
  destruct (IH1 Hr) as (f' & Hlast & Hf').
  rewrite lookup_app_l in Hf by lia.
  rewrite last_lookup in Hlast. replace (pred (length frames)) with i in Hlast by lia. congruence.
Qed.

Lemma new_dump_inv scale depth : dump_inv scale depth [] (new_dump depth) [].
Proof.
  split; try done; try (cbn; lia).
  - constructor.
  - apply l3_rel_empty.
  - intros x ?%elem_of_nil. done.
Qed.

(** A scale the constructor's assertion lets through does not depend on it. *)
Lemma new_InstrumentScale_any p q scale a :
  new_InstrumentScale true p q = Done scale → new_InstrumentScale a p q = Done scale.
Proof.
  unfold new_InstrumentScale, Pow10. destruct a; [done|]. cbn [andb].
  destruct (negb _); [done|]. cbn [outcome_bind]. destruct (negb _); done.
Qed.

Lemma parse_settings_depth n flags settings settings' :
  (length flags <= n)%nat → 0 < ds_depth settings →
  parse_settings flags settings = Expected settings' → 0 < ds_depth settings'.
Proof.
  revert flags settings. induction n as [|n IH]; intros [|flag [|text flags]] settings Hl Hd;
    cbn [length] in Hl; try lia; cbn [parse_settings]; try (by intros [= <-]); try done.
  destruct (ParseIntFlag flag text) as [value|]; cbn [expected_bind]; [|done].
  destruct (decide _); [apply IH; [lia|done]|]. destruct (decide _); [apply IH; [lia|done]|].
  destruct (decide _); [|done]. destruct (Z.leb_spec value 0); [done|]. apply IH; [lia|done].
Qed.

End dump_proofs.

(** ** A capture of four messages *)

(** A stand-in for the JSON library: values, and payloads that name them. *)
Inductive demo_value : Type :=
| DText (text : bytes)
| DNumber (x : double)
| DSum (n : Z)
| DObject (fields : list (bytes * demo_value))
| DArray (elements : list demo_value).

Definition demo_field (v : demo_value) (key : bytes) : option demo_value :=
  match v with
  | DObject fields => snd <$> find (λ kv, bool_decide (kv.1 = key)) fields
  | _ => None
  end.

Definition demo_order (event id : bytes) (price qty : Z) (time : bytes) : demo_value :=
  DObject [(B "event", DText event); (B "order_id", DText id); (B "limit_price", DNumber (Finite price 0));
           (B "order_qty", DNumber (Finite qty 0)); (B "timestamp", DText time)].

Definition demo_level3 (type symbol : bytes) (sum : Z) (bids asks : list demo_value) : demo_value :=
  DObject [(B "channel", DText (B "level3")); (B "type", DText type);
           (B "data", DArray [DObject [(B "symbol", DText symbol); (B "checksum", DSum sum);
                                       (B "bids", DArray bids); (B "asks", DArray asks)]])].

(** The sum of one bid of 5 at 100 and one ask of 3 at 101. *)
Definition demo_book_sum : Z := Crc32 (B "10131005").

(** A snapshot with the right sum, an update of another instrument, an update
    with a wrong sum, and an update that is then ignored. *)
Definition demo_payload (payload : bytes) : outcome demo_value :=
  if decide (payload = B "1") then
    Done (demo_level3 (B "snapshot") (B "BTC/USD") demo_book_sum
            [demo_order (B "add") (B "OA") 100 5 (B "1")] [demo_order (B "add") (B "OBB") 101 3 (B "1")])
  else if decide (payload = B "2") then Done (demo_level3 (B "update") (B "ETH/USD") 7 [] [])
  else if decide (payload = B "3") then
    Done (demo_level3 (B "update") (B "BTC/USD") 7 [demo_order (B "add") (B "OCCC") 99 2 (B "2")] [])
  else if decide (payload = B "4") then Done (demo_level3 (B "update") (B "BTC/USD") 7 [] [])
  else Throws ExnJson.

#[local] Instance demo_Json : Json demo_value := {|
  json_parse := demo_payload;
  json_contains v key := bool_decide (is_Some (demo_field v key));
  json_at v key := match demo_field v key with Some x => Done x | None => Throws ExnJson end;
  json_string v := match v with DText text => Done text | _ => Throws ExnJson end;
  json_double v := match v with DNumber x => Done x | _ => Throws ExnJson end;
  json_uint32 v := match v with DSum n => Done n | _ => Throws ExnJson end;
  json_elements v := match v with DArray elements => elements | _ => [] end;
|}.

Definition demo_name_hash (raw : bytes) : Z := Z.of_nat (length raw).
Definition demo_tool_crc (running : Z) (data : bytes) : Z := running + Z.of_nat (length data).

Definition demo_record (i : Z) (payload : bytes) : bytes :=
  let header := record_header kWireMessage (mkCaptureFrame payload i i kKrakenJson) in
  header ++ payload ++ StoreLe 4 (record_crc demo_tool_crc header payload).

Definition demo_kraken_journal : bytes :=
  file_header demo_tool_crc (B "kraken") 1 5 6 ++
  concat [demo_record 1 (B "1"); demo_record 2 (B "2"); demo_record 3 (B "3");
          demo_record 4 (B "not JSON"); demo_record 5 (B "4")].

Definition demo_flags : list bytes := [B "--price-decimals"; B "0"; B "--quantity-decimals"; B "0"].

(** The library's printer, for the example: one byte per frame. *)
Definition demo_json_text (frames : list DumpedFrame) : bytes :=
  (λ f, if df_checksum_ok f then byte_of 43 else byte_of 45) <$> frames.

Definition demo_dump (flags : list bytes) (room : nat) : outcome tool_run :=
  dump_main (λ _, 0) demo_name_hash true demo_tool_crc demo_json_text (λ _, []) (B "j" :: B "o" :: flags)
    (λ _, Some demo_kraken_journal) true room None.

(** Two frames: the snapshot and the update whose sum is wrong. *)
Example demo_dump_written :
  (tr_exit <$> match demo_dump demo_flags 9 with Done run => Some run | _ => None end) = Some 0 ∧
  (tr_output <$> match demo_dump demo_flags 9 with Done run => Some run | _ => None end) =
    Some (Some (B "+-")).
Proof. by vm_compute. Qed.

(** What the example goes through on the way. *)
Definition demo_settings : DumpSettings := mkDumpSettings 0 0 10.
Definition demo_scale : InstrumentScale := mkInstrumentScale (Finite 1 0) (Finite 1 0).
Definition demo_journal_reader : JournalReader :=
  match Open demo_tool_crc (B "j") (Some demo_kraken_journal) with
  | Expected reader => reader
  | Unexpected _ => mkJournalReader [] (mkJournalFileHeader 0 0 0 [] 0) [] 0 true true
  end.
Definition demo_messages : list KrakenL3Message :=
  match journal_messages (λ _, 0) demo_name_hash demo_scale (ReadAll demo_tool_crc demo_journal_reader).2 with
  | Done messages => messages
  | _ => []
  end.


(** ** What the flags let through *)

(** Decimals are not checked: a value beyond the scale's range runs into its
    assertion. *)
Example decimals_unchecked : demo_dump [B "--price-decimals"; B "40"] 9 = Undef AssertFailed.
Proof. by vm_compute. Qed.

(** Text behind a number is ignored. *)
Example trailing_text_accepted :
  ParseSettings [B "--depth"; B "10x"] = Expected default_DumpSettings.
Proof. by vm_compute. Qed.
