(* ===== verification/JournalReplay.v ===== *)
(** * Replaying journals: [book_adapter/journal_replay.{h,cpp}]

    The journals of one connection are read in order and handed to a fresh
    adapter, without rings or threads. A file is its path and its contents,
    [None] when it cannot be opened. The state is [adapter_]. The report's text is
    in [ReplayTool]. *)

From S2P Require Import Prelude Text BookTypes Scale KrakenWire Feed Journal BookAdapter.

Record ReplayOptions := mkReplayOptions {
  ro_scale : InstrumentScale;
  ro_kraken_depth : Z;
  ro_measure_timing : bool;
}.

Record ReplayFileReport := mkReplayFileReport {
  rf_path : bytes;
  rf_exchange : bytes;
  rf_connect_id : Z;
  rf_records : Z;
  rf_wire_messages : Z;
  rf_stopped_early : bool;
  rf_stop_reason : bytes;
}.

Record ReplayReport := mkReplayReport {
  rr_files : list ReplayFileReport;
  rr_wire_messages : Z;
  rr_stats : ConnectionStats;
  rr_timed : bool;
  rr_total_ns : Z;
}.

Definition ReplayReport_StoppedEarly (report : ReplayReport) : bool :=
  existsb rf_stopped_early (rr_files report).

Definition ReadNs (report : ReplayReport) : Z :=
  if negb (rr_timed report) then 0
  else
    let accounted := wrap 64 (rr_stats report parse_ns + rr_stats report apply_ns) in
    if accounted <? rr_total_ns report then rr_total_ns report - accounted else 0.

Definition SourceForExchange (exchange : bytes) : option FrameSource :=
  if decide (exchange = B "kraken") then Some kKrakenJson
  else if decide (exchange = B "deribit") then Some kDeribitFix
  else None.

Definition kConnection : nat := 0.

(** The locals of [Run] that live across files. *)
Record progress := mkProgress {
  pr_exchange : bytes;
  pr_open_connect_id : option Z;
  pr_files : list ReplayFileReport;
  pr_wire_messages : Z;
}.

Section replay.
Context {json : Type} `{!Json json}.
Variable llround_unspecified : double → Z.
Variable hash : bytes → Z.
Variable asserts : bool.
Variable zlib_crc32 : Z → bytes → Z.
(** The clock readings made while a frame is handled. *)
Variable now : nat → Z.

Definition counted (wire : bool) (file : ReplayFileReport) : ReplayFileReport :=
  mkReplayFileReport (rf_path file) (rf_exchange file) (rf_connect_id file)
    (incr64 (rf_records file))
    (if wire then incr64 (rf_wire_messages file) else rf_wire_messages file)
    (rf_stopped_early file) (rf_stop_reason file).

(** One record: the connect open afterwards, and the file's report. *)
Definition replay_record (header : JournalFileHeader) (src : FrameSource) (record : JournalRecord)
    (open_id : option Z) (file : ReplayFileReport)
  : exec BookAdapter (option Z * ReplayFileReport) :=
  match jrec_type record with
  | kConnect =>
      run! (match open_id with Some _ => OnDisconnect kConnection | None => exec_ret tt end) ;;
      run! OnConnect kConnection (jh_connect_id header) ;;
      exec_ret (Some (jh_connect_id header), counted false file)
  | kWireMessage =>
      run! OnFrame llround_unspecified hash asserts kConnection now
             (mkCaptureFrame (jrec_payload record) (jrec_capture_sequence record)
                (jrec_monotonic_ns record) src) ;;
      exec_ret (open_id, counted true file)
  end.

(** [while (record = reader->Next())]; every record is at least its header. *)
Fixpoint replay_records (fuel : nat) (reader : JournalReader) (header : JournalFileHeader)
    (src : FrameSource) (open_id : option Z) (file : ReplayFileReport)
  : exec BookAdapter (JournalReader * option Z * ReplayFileReport) :=
  match fuel with
  | O => exec_ret (reader, open_id, file)
  | S fuel =>
      match Next zlib_crc32 reader with
      | (reader, None) => exec_ret (reader, open_id, file)
      | (reader, Some record) =>
          let! (open_id, file) := replay_record header src record open_id file in
          replay_records fuel reader header src open_id file
      end
  end.

Definition replay_file (path : bytes) (header : JournalFileHeader) (src : FrameSource)
    (reader : JournalReader) (p : progress) : exec BookAdapter progress :=
  let file := mkReplayFileReport path (jh_exchange header) (jh_connect_id header) 0 0 false [] in
  let! (reader, open_id, file) :=
    replay_records (S (length (jr_in reader))) reader header src (pr_open_connect_id p) file in
  let file :=
    mkReplayFileReport (rf_path file) (rf_exchange file) (rf_connect_id file) (rf_records file)
      (rf_wire_messages file) (StoppedEarly reader) (jr_stop_reason reader) in
  exec_ret (mkProgress (pr_exchange p) open_id (pr_files p ++ [file])
              (wrap 64 (pr_wire_messages p + rf_wire_messages file))).

(** One turn of the loop over the paths. *)
Definition replay_path (options : ReplayOptions) (path : bytes) (contents : option bytes)
    (p : progress) : exec BookAdapter (expected bytes progress) :=
  match Open zlib_crc32 path contents with
  | Unexpected error => exec_ret (Unexpected (path ++ B ": " ++ error))
  | Expected reader =>
      let header := jr_header reader in
      match SourceForExchange (jh_exchange header) with
      | None =>
          exec_ret (Unexpected (path ++ B ": no book for exchange tag '" ++ jh_exchange header ++
                                B "'"))
      | Some src =>
          if decide (pr_exchange p = []) then
            let settings := mkBookSettings src (ro_scale options) (ro_kraken_depth options) in
            let! handle := λ a, let '(a, h) := AddConnection (jh_exchange header) settings a in
                                (a, Done h) in
            run! (if asserts && negb (handle =? kConnection)%nat
                  then exec_lift (Undef AssertFailed) else exec_ret tt) ;;
            let! p := replay_file path header src reader
                        (mkProgress (jh_exchange header) (pr_open_connect_id p) (pr_files p)
                           (pr_wire_messages p)) in
            exec_ret (Expected p)
          else if decide (jh_exchange header ≠ pr_exchange p) then
            exec_ret (Unexpected (path ++ B ": exchange '" ++ jh_exchange header ++
                                  B "' differs from '" ++ pr_exchange p ++
                                  B "', journals of one connection only"))
          else
            let! p := replay_file path header src reader p in exec_ret (Expected p)
      end
  end.

Fixpoint replay_paths (options : ReplayOptions) (paths : list (bytes * option bytes))
    (p : progress) : exec BookAdapter (expected bytes progress) :=
  match paths with
  | [] => exec_ret (Expected p)
  | (path, contents) :: paths =>
      let! r := replay_path options path contents p in
      match r with
      | Unexpected error => exec_ret (Unexpected error)
      | Expected p => replay_paths options paths p
      end
  end.

(** [Run]; [start_ns] and [end_ns] are its clock readings. *)
Definition Replay_Run (options : ReplayOptions) (start_ns end_ns : Z)
    (paths : list (bytes * option bytes)) : exec BookAdapter (expected bytes ReplayReport) :=
  if decide (paths = []) then exec_ret (Unexpected (B "no journal files given"))
  else
    run! exec_put (new_BookAdapter (ro_measure_timing options)) ;;
    let! r := replay_paths options paths (mkProgress [] None [] 0) in
    match r with
    | Unexpected error => exec_ret (Unexpected error)
    | Expected p =>
        run! (match pr_open_connect_id p with
              | Some _ => OnDisconnect kConnection
              | None => exec_ret tt
              end) ;;
        let! a := exec_get in
        let! stats := exec_lift (Stats kConnection a) in
        exec_ret (Expected (mkReplayReport (pr_files p) (pr_wire_messages p) stats
                              (ro_measure_timing options) (wrap 64 (end_ns - start_ns))))
    end.
End replay.
