(* ===== verification/ReplayProofs.v ===== *)
(** * A replay rebuilds the live books

    The journals a capture session leaves behind, replayed, take an adapter
    through exactly the calls the session's sinks received. *)

From S2P Require Import Prelude Text BookTypes Scale KrakenWire Feed Ring Journal JournalProofs.
From S2P Require Import JournalCrash DeribitRoundTrip ScaleExact BookAdapter AdapterProofs AdapterReady JournalThread.
From S2P Require Import CaptureSession ThreadProofs SessionProofs JournalReplay.

Section replay_proofs.
Context {json : Type} `{!Json json}.
Context (llround_unspecified : double → Z) (hash : bytes → Z) (asserts : bool).
Context (zlib_crc32 : Z → bytes → Z) (now : nat → Z).

(** The adapter told live events. *)
Definition live (evs : list FeedEvent) : exec BookAdapter unit :=
  exec_each (OnEvent llround_unspecified hash asserts kConnection now) evs.

Lemma live_app evs1 evs2 a : live (evs1 ++ evs2) a = (run! live evs1 ;; live evs2) a.
Proof. apply exec_each_bind. Qed.

Lemma OnEvent_length h ev a a' r :
  OnEvent llround_unspecified hash asserts h now ev a = (a', r) →
  length (connections a') = length (connections a).
Proof.
  assert (∀ m, on_connection h m a = (a', r) → length (connections a') = length (connections a))
    as Hm.
  { intros m. unfold on_connection, At. destruct (connections a !! h) as [c|]; [|by intros [= <- _]].
    destruct (m c) as [c' r']. intros [= <- _]. cbn. apply length_insert. }
  destruct ev; apply Hm.
Qed.

Lemma live_length evs a a' r :
  live evs a = (a', r) → length (connections a') = length (connections a).
Proof.
  revert a. induction evs as [|ev evs IH]; intros a; [by intros [= <- _]|].
  cbn [live exec_each]. unfold exec_bind.
  destruct (OnEvent _ _ _ _ _ ev a) as [a1 [[]|e|u]] eqn:Hev; apply OnEvent_length in Hev.
  - rewrite <-Hev. apply IH.
  - by intros [= <- _].
  - by intros [= <- _].
Qed.

(** ** One file *)

Abbreviation replay_record := (replay_record llround_unspecified hash asserts now).

Fixpoint replay_list (header : JournalFileHeader) (src : FrameSource) (records : list JournalRecord)
    (open_id : option Z) (file : ReplayFileReport) : exec BookAdapter (option Z * ReplayFileReport) :=
  match records with
  | [] => exec_ret (open_id, file)
  | record :: records =>
      let! (open_id, file) := replay_record header src record open_id file in
      replay_list header src records open_id file
  end.

(** The loop handles the records the reader returns. *)
Lemma replay_records_list fuel reader header src open_id file a :
  replay_records llround_unspecified hash asserts zlib_crc32 now fuel reader header src open_id file a =
  (let! (open_id, file) :=
     replay_list header src (read_all zlib_crc32 fuel reader).2 open_id file in
   exec_ret ((read_all zlib_crc32 fuel reader).1, open_id, file)) a.
Proof.
  revert reader open_id file a. induction fuel as [|fuel IH]; intros reader open_id file a; [done|].
  cbn [replay_records read_all]. destruct (Next zlib_crc32 reader) as [reader' [record|]]; [|done].
  destruct (read_all zlib_crc32 fuel reader') as [r recs] eqn:Hr. cbn [snd fst replay_list].
  rewrite exec_bind_assoc. apply exec_bind_ext; [done|]. intros [o f] a'.
  rewrite IH, Hr. done.
Qed.

(** A frame's source is not looked at. *)
Lemma OnFrame_payload f src a :
  OnFrame llround_unspecified hash asserts kConnection now
    (mkCaptureFrame (cf_payload f) (cf_capture_sequence f) (cf_monotonic_ns f) src) a =
  OnFrame llround_unspecified hash asserts kConnection now f a.
Proof. reflexivity. Qed.

(** [n] more records, [k] of them messages. *)
Definition reported (n k : Z) (file : ReplayFileReport) : ReplayFileReport :=
  mkReplayFileReport (rf_path file) (rf_exchange file) (rf_connect_id file)
    (wrap 64 (rf_records file + n)) (wrap 64 (rf_wire_messages file + k))
    (rf_stopped_early file) (rf_stop_reason file).

Lemma wrap_incr n k : wrap 64 (wrap 64 (n + k) + 1) = wrap 64 (n + (k + 1)).
Proof. unfold wrap. rewrite Zplus_mod_idemp_l. f_equal. lia. Qed.

Lemma wrap_step n k : wrap 64 (incr64 n + k) = wrap 64 (n + (k + 1)).
Proof. unfold incr64, wrap. rewrite Zplus_mod_idemp_l. f_equal. lia. Qed.

Lemma replay_frames header src frames open_id file a :
  u64 (rf_records file) → u64 (rf_wire_messages file) →
  replay_list header src (as_record <$> frame_entries frames) open_id file a =
  (run! live (FrameEvent <$> frames) ;;
   exec_ret (open_id, reported (Z.of_nat (length frames)) (Z.of_nat (length frames)) file)) a.
Proof.
  revert file a. induction frames as [|f frames IH]; intros file a Hr Hw.
  { cbn. unfold reported, wrap. rewrite !Z.add_0_r.
    unfold u64, u64_max in *. rewrite !Z.mod_small by lia. by destruct file. }
  cbn [frame_entries fmap list_fmap replay_list live exec_each]. rewrite exec_bind_assoc.
  unfold replay_record at 1, JournalReplay.replay_record. cbn [jrec_type as_record fst].
  rewrite exec_bind_assoc. apply exec_bind_ext; [by apply OnFrame_payload|]. intros [] a'.
  change (exec_bind (exec_ret ?x) ?k) with (k x). cbv beta iota.
  fold (frame_entries frames). rewrite IH by (split; cbn; unfold incr64, wrap, u64_max;
    [apply Z.mod_pos_bound; lia|]; pose proof (Z.mod_pos_bound (rf_records file + 1) (2 ^ 64));
    pose proof (Z.mod_pos_bound (rf_wire_messages file + 1) (2 ^ 64)); lia).
  apply exec_bind_ext; [done|]. intros [] a''. unfold reported, counted. cbn [length rf_records
    rf_wire_messages rf_path rf_exchange rf_connect_id rf_stopped_early rf_stop_reason].
  rewrite !wrap_step, Nat2Z.inj_succ. done.
Qed.

(** The disconnect a replay infers when the next connect begins. *)
Definition inferred (open_id : option Z) : list FeedEvent := DisconnectEvent <$> option_list open_id.

Lemma live_inferred open_id a :
  match open_id with Some _ => OnDisconnect kConnection | None => exec_ret tt end a =
  live (inferred open_id) a.
Proof.
  destruct open_id as [id|]; [|done]. cbn. unfold exec_bind.
  by destruct (OnDisconnect kConnection a) as [a' [[]| |]].
Qed.

Lemma replay_entries header src c open_id file a :
  jh_connect_id header = c_id c → u64 (rf_records file) → u64 (rf_wire_messages file) →
  replay_list header src (as_record <$> entries c) open_id file a =
  (run! live (inferred open_id ++ connect_calls false c) ;;
   exec_ret (Some (c_id c), reported (Z.of_nat (length (c_frames c)) + 1)
                              (Z.of_nat (length (c_frames c))) file)) a.
Proof.
  intros Hid Hr Hw. unfold entries, connect_calls. cbn [fmap list_fmap replay_list].
  unfold JournalReplay.replay_record. cbn [jrec_type as_record fst]. rewrite app_nil_r, Hid.
  rewrite exec_bind_assoc.
  erewrite (exec_bind_ext (live (_ ++ _))); [|apply live_app|done].
  rewrite exec_bind_assoc. apply exec_bind_ext; [apply live_inferred|]. intros [] a1.
  rewrite exec_bind_assoc. cbn [live exec_each]. rewrite exec_bind_assoc.
  apply exec_bind_ext; [done|]. intros [] a2.
  change (exec_bind (exec_ret ?x) ?k) with (k x). cbv beta iota.
  rewrite replay_frames; [|unfold counted, incr64, wrap, u64, u64_max; cbn;
    pose proof (Z.mod_pos_bound (rf_records file + 1) (2 ^ 64)); lia|done].
  apply exec_bind_ext; [done|]. intros [] a3. unfold reported, counted. cbn. by rewrite wrap_step.
Qed.

(** [w] holds all of [c], whole. *)
Definition complete (exchange : bytes) (c : connect) (file : OpenFile) : Prop :=
  file.1 = c_path c ∧ reads_as zlib_crc32 exchange c file.2 (entries c) false.

Lemma replay_file_complete header src c reader r path p :
  jh_connect_id header = c_id c → ReadAll zlib_crc32 reader = (r, as_record <$> entries c) →
  StoppedEarly r = false →
  ∃ report, rf_stopped_early report = false ∧ ∀ a,
  replay_file llround_unspecified hash asserts zlib_crc32 now path header src reader p a =
  (run! live (inferred (pr_open_connect_id p) ++ connect_calls false c) ;;
   exec_ret (mkProgress (pr_exchange p) (Some (c_id c)) (pr_files p ++ [report])
               (wrap 64 (pr_wire_messages p + Z.of_nat (length (c_frames c)))))) a.
Proof.
  intros Hid Hall Hs. unfold replay_file. set (file := mkReplayFileReport _ _ _ _ _ _ _).
  set (total := reported (Z.of_nat (length (c_frames c)) + 1) (Z.of_nat (length (c_frames c))) file).
  exists (mkReplayFileReport (rf_path total) (rf_exchange total) (rf_connect_id total)
    (rf_records total) (rf_wire_messages total) (StoppedEarly r) (jr_stop_reason r)). split; [done|].
  intros a. unfold ReadAll in Hall.
  erewrite exec_bind_ext; [|apply replay_records_list|done]. rewrite Hall. cbn [fst snd].
  erewrite exec_bind_ext; [|eapply (exec_bind_ext _ _ _ _ a); [apply replay_entries; [done| |];
    unfold file, u64, u64_max; simpl; lia|done]|done].
  rewrite !exec_bind_assoc. apply exec_bind_ext; [done|]. intros [] a'.
  cbn. unfold exec_bind, exec_ret. do 3 f_equal. unfold wrap. rewrite Zplus_mod_idemp_r. done.
Qed.

(** ** All files *)

Definition on_disk (files : list OpenFile) : list (bytes * option bytes) :=
  (λ file : OpenFile, (file.1, Some (jw_file file.2))) <$> files.

Fixpoint between (open_id : option Z) (cs : list connect) : list FeedEvent :=
  match cs with
  | [] => []
  | c :: cs => (inferred open_id ++ connect_calls false c) ++ between (Some (c_id c)) cs
  end.
Definition last_open (open_id : option Z) (cs : list connect) : option Z :=
  foldl (λ _ c, Some (c_id c)) open_id cs.

(** With the last connect ended, these are the calls made live. *)
Lemma between_live open_id cs :
  between open_id cs ++ inferred (last_open open_id cs) =
    inferred open_id ++ concat (connect_calls true <$> cs).
Proof.
  revert open_id. induction cs as [|c cs IH]; intros open_id; cbn [between last_open foldl].
  { by rewrite app_nil_r. }
  rewrite <-!app_assoc. fold (last_open (Some (c_id c)) cs). rewrite IH. f_equal.
  cbn [fmap list_fmap concat]. rewrite app_assoc. f_equal.
  unfold connect_calls. cbn. by rewrite app_nil_r.
Qed.

Definition total_frames (cs : list connect) : Z :=
  Z.of_nat (sum_list_with (λ c, length (c_frames c)) cs).

Lemma wrap_wrap a b : wrap 64 (wrap 64 a + b) = wrap 64 (a + b).
Proof. unfold wrap. apply Zplus_mod_idemp_l. Qed.

(** What a replay of complete files makes of the locals of [Run]. *)
Definition after (cs : list connect) (p p' : progress) : Prop :=
  pr_exchange p' = pr_exchange p ∧
  pr_open_connect_id p' = last_open (pr_open_connect_id p) cs ∧
  pr_wire_messages p' = wrap 64 (pr_wire_messages p + total_frames cs) ∧
  ∃ reports, pr_files p' = pr_files p ++ reports ∧ length reports = length cs ∧
    Forall (λ report, rf_stopped_early report = false) reports.

Variable exchange : bytes.
Variable src : FrameSource.
Hypothesis Hsrc : SourceForExchange exchange = Some src.

Lemma exchange_nonempty : exchange ≠ [].
Proof. intros ->. by cbv in Hsrc. Qed.

(** A file of the exchange already seen. *)
Lemma replay_path_next options c file p :
  complete exchange c file → pr_exchange p = exchange →
  ∃ report, rf_stopped_early report = false ∧ ∀ a,
  replay_path llround_unspecified hash asserts zlib_crc32 now options file.1
    (Some (jw_file file.2)) p a =
  (run! live (inferred (pr_open_connect_id p) ++ connect_calls false c) ;;
   exec_ret (Expected (mkProgress (pr_exchange p) (Some (c_id c)) (pr_files p ++ [report])
               (wrap 64 (pr_wire_messages p + Z.of_nat (length (c_frames c))))))) a.
Proof.
  intros [Hp (r0 & r & Hopen & Hh & Hall & Hs)] Hex. unfold replay_path. rewrite Hp, Hopen, Hh.
  cbn [jh_exchange]. rewrite Hsrc, Hex.
  rewrite decide_False by apply exchange_nonempty. rewrite decide_False by (by intros []).
  destruct (replay_file_complete (mkJournalFileHeader kFormatVersion (c_realtime c) (c_monotonic c)
    exchange (c_id c)) src c r0 r (c_path c) p) as (report & Hr & Hrun); [done..|].
  exists report. split; [done|]. intros a.
  erewrite exec_bind_ext; [|apply Hrun|done]. rewrite exec_bind_assoc, Hex.
  apply exec_bind_ext; [done|]. done.
Qed.

Lemma replay_paths_complete options cs files p :
  Forall2 (complete exchange) cs files → pr_exchange p = exchange →
  0 <= pr_wire_messages p < 2 ^ 64 →
  ∃ p', after cs p p' ∧ ∀ a,
    replay_paths llround_unspecified hash asserts zlib_crc32 now options (on_disk files) p a =
    (run! live (between (pr_open_connect_id p) cs) ;; exec_ret (Expected p')) a.
Proof.
  intros Hcs. revert p. induction Hcs as [|c file cs files Hc _ IH]; intros p Hex Hw.
  { exists p. split; [|done]. split_and!; [done..| |].
    - cbn. rewrite Z.add_0_r. unfold wrap. by rewrite Z.mod_small.
    - exists []. by rewrite app_nil_r. }
  destruct (replay_path_next options c file p Hc Hex) as (report & Hrep & Hrun).
  set (p1 := mkProgress _ _ _ _) in Hrun.
  destruct (IH p1 Hex) as (p' & (E1 & E2 & E3 & reports & E4 & E5 & E6) & Hrest).
  { cbn. unfold wrap. apply Z.mod_pos_bound. lia. }
  exists p'. split.
  - split_and!; [done|done| |].
    + rewrite E3. cbn [pr_wire_messages p1]. rewrite wrap_wrap. unfold total_frames. cbn. f_equal. lia.
    + exists (report :: reports). split_and!; [|by cbn; rewrite E5|by constructor].
      rewrite E4. cbn. by rewrite <-app_assoc.
  - intros a. cbn [on_disk fmap list_fmap replay_paths].
    erewrite exec_bind_ext; [|apply Hrun|done]. rewrite exec_bind_assoc. cbn [between].
    erewrite (exec_bind_ext (live (_ ++ between _ _))); [|apply live_app|done].
    rewrite exec_bind_assoc. apply exec_bind_ext; [done|]. intros [] a'. apply Hrest.
Qed.

(** The adapter a replay starts from. *)
Definition fresh (options : ReplayOptions) : BookAdapter :=
  (AddConnection exchange (mkBookSettings src (ro_scale options) (ro_kraken_depth options))
     (new_BookAdapter (ro_measure_timing options))).1.

(** The first file adds the connection. *)
Lemma replay_path_first options c file :
  complete exchange c file →
  ∃ report, rf_stopped_early report = false ∧
  replay_path llround_unspecified hash asserts zlib_crc32 now options file.1
    (Some (jw_file file.2)) (mkProgress [] None [] 0) (new_BookAdapter (ro_measure_timing options)) =
  (run! live (connect_calls false c) ;;
   exec_ret (Expected (mkProgress exchange (Some (c_id c)) [report]
               (wrap 64 (Z.of_nat (length (c_frames c))))))) (fresh options).
Proof.
  intros [Hp (r0 & r & Hopen & Hh & Hall & Hs)]. unfold replay_path. rewrite Hp, Hopen, Hh.
  cbn [jh_exchange pr_exchange]. rewrite Hsrc. rewrite decide_True by done.
  destruct (replay_file_complete (mkJournalFileHeader kFormatVersion (c_realtime c) (c_monotonic c)
    exchange (c_id c)) src c r0 r (c_path c) (mkProgress exchange None [] 0))
    as (report & Hr & Hrun); [done..|].
  exists report. split; [done|]. unfold exec_bind at 1. cbn [AddConnection].
  change (length (connections (new_BookAdapter (ro_measure_timing options)))) with kConnection.
  cbn [Nat.eqb kConnection negb]. rewrite andb_false_r.
  unfold exec_bind at 1, exec_ret at 1.
  erewrite exec_bind_ext; [|apply Hrun|done]. rewrite exec_bind_assoc. done.
Qed.

(** Replaying complete journals does to an adapter what the live calls do. *)
Lemma Replay_Run_complete options start_ns end_ns cs files a0 a :
  Forall2 (complete exchange) cs files → cs ≠ [] →
  live (concat (connect_calls true <$> cs)) (fresh options) = (a, Done tt) →
  ∃ report,
    Replay_Run llround_unspecified hash asserts zlib_crc32 now options start_ns end_ns
      (on_disk files) a0 = (a, Done (Expected report)) ∧
    ReplayReport_StoppedEarly report = false ∧ length (rr_files report) = length cs ∧
    rr_wire_messages report = wrap 64 (total_frames cs) ∧
    Stats kConnection a = Done (rr_stats report).
Proof.
  intros Hcs Hne Hlive. destruct Hcs as [|c file cs files Hc Hcs]; [done|].
  destruct (replay_path_first options c file Hc) as (report & Hrep & Hfirst).
  set (p1 := mkProgress exchange _ _ _) in Hfirst.
  destruct (replay_paths_complete options cs files p1 Hcs eq_refl)
    as (p' & (E1 & E2 & E3 & reports & E4 & E5 & E6) & Hrest).
  { cbn. unfold wrap. apply Z.mod_pos_bound. lia. }
  assert (∃ st, Stats kConnection a = Done st) as [st Hst].
  { apply live_length in Hlive. unfold Stats, At. destruct (connections a) as [|c0 ?] eqn:Ha; [done|].
    cbn. by eexists. }
  unfold Replay_Run. rewrite decide_False by done.
  change (exec_bind (exec_put ?x) ?k a0) with (k tt x). cbv beta.
  cbn [on_disk fmap list_fmap replay_paths].
  rewrite exec_bind_assoc. unfold exec_bind at 1. rewrite Hfirst.
  assert (concat (connect_calls true <$> c :: cs) =
    (connect_calls false c ++ between (Some (c_id c)) cs) ++
    inferred (last_open (Some (c_id c)) cs)) as Hcalls.
  { symmetry. apply (between_live None (c :: cs)). }
  rewrite Hcalls in Hlive. clear Hcalls.
  rewrite !live_app in Hlive. unfold exec_bind in Hlive |- *.
  rewrite live_app in Hlive. unfold exec_bind in Hlive.
  destruct (live (connect_calls false c) (fresh options)) as [a1 [[]|e|u]]; [|done..].
  cbn [exec_ret]. fold (on_disk files). rewrite Hrest. unfold exec_bind. cbn [pr_open_connect_id p1].
  destruct (live (between (Some (c_id c)) cs) a1) as [a2 [[]|e|u]]; [|done..].
  cbn [exec_ret]. rewrite E2. cbn [pr_open_connect_id p1]. rewrite live_inferred.
  fold (last_open (Some (c_id c)) cs) in Hlive.
  change (last_open None (c :: cs)) with (last_open (Some (c_id c)) cs) in Hlive. rewrite Hlive.
  unfold exec_get, exec_lift. rewrite Hst. eexists. split; [done|]. cbn [rr_files rr_wire_messages
    rr_stats ReplayReport_StoppedEarly]. rewrite E3, E4. cbn [pr_files p1 pr_wire_messages].
  split_and!; [|by cbn; rewrite E5| |done].
  - apply not_true_is_false. intros (f & Hin & Hf)%existsb_exists. apply list_elem_of_In in Hin.
    assert (Forall (λ report, rf_stopped_early report = false) ([report] ++ reports)) as Hall
      by (by constructor).
    rewrite Forall_forall in Hall. by rewrite (Hall _ Hin) in Hf.
  - rewrite wrap_wrap. unfold total_frames. cbn. f_equal. lia.
Qed.

Lemma exchange_fits :
  (length exchange <= kExchangeFieldSize)%nat ∧ byte_of 0 ∉ exchange.
Proof.
  unfold SourceForExchange in Hsrc. repeat case_decide; subst; try done.
  all: split; [vm_compute; lia|].
  - apply (bool_decide_eq_true_1 (byte_of 0 ∉ B "kraken")). by vm_compute.
  - apply (bool_decide_eq_true_1 (byte_of 0 ∉ B "deribit")). by vm_compute.
Qed.

Lemma journal_of_complete cfg c file :
  cfg_exchange cfg = exchange → journal_of zlib_crc32 cfg c file → c_journaled c = true →
  jw_error file.2 = [] → complete exchange c file.
Proof.
  intros <- [Hp (ys & torn & Hr & _ & Hall)] Hj He. destruct (Hall Hj He) as [-> ->].
  by split.
Qed.

(** C13: replaying a capture rebuilds the live books. Whatever a client of a
    session for a known exchange did, whenever the journal thread ran and
    whatever the disk refused: if every message was reported as journaled and
    no file's writer failed, then replaying the files takes an adapter to the
    very state the session's sink calls take it to, connects and disconnects
    included, counts every message and stops early nowhere. *)
Theorem replay_rebuilds_live {Q} `{!ReaderWriterQueue Q JournalEvent}
    `{!ReaderWriterQueueLaws Q JournalEvent} cfg n steps env options start_ns end_ns a0 :
  cfg_exchange cfg = exchange → Forall step_ok steps → Z.of_nat (length steps) + 2 < 2 ^ 64 →
  ∃ s g s' files left,
    run zlib_crc32 (Q:=Q) cfg steps (session_with cfg n, mkLog [] None) = Some (s, g) ∧
    Close zlib_crc32 env s = Some s' ∧ closed_files s' = files ++ left ∧
    let calls := concat (connect_calls true <$> connects g) in
    cs_sinks s' = replicate n calls ∧
    (connects g ≠ [] → Forall (λ c, c_journaled c = true) (connects g) →
     Forall (λ file : OpenFile, jw_error file.2 = []) files →
     ∀ a, live calls (fresh options) = (a, Done tt) →
     ∃ report,
       Replay_Run llround_unspecified hash asserts zlib_crc32 now options start_ns end_ns
         (on_disk files) a0 = (a, Done (Expected report)) ∧
       ReplayReport_StoppedEarly report = false ∧ length (rr_files report) = length (connects g) ∧
       rr_wire_messages report = wrap 64 (total_frames (connects g)) ∧
       Stats kConnection a = Done (rr_stats report)).
Proof.
  intros Hex Hok Hlen. destruct exchange_fits as [Hfit Hnul]. rewrite <-Hex in Hfit, Hnul.
  destruct (capture_run zlib_crc32 (Q:=Q) cfg n steps env Hfit Hnul Hok Hlen)
    as (s & g & s' & files & left & Hrun & Hclose & _ & Hsinks & Hfiles & _ & Hj & _).
  exists s, g, s', files, left. split_and!; [done..|]. cbv zeta.
  split; [done|]. intros Hne Hjd Herr a Hlive.
  apply (Replay_Run_complete options start_ns end_ns (connects g) files a0 a); [|done..].
  apply Forall2_same_length_lookup. split; [by eapply Forall2_length|]. intros i c file Hc Hf.
  eapply (journal_of_complete cfg); [done|by eapply Forall2_lookup_lr| |].
  - by eapply (Forall_lookup_1 (λ c, c_journaled c = true)).
  - by eapply (Forall_lookup_1 (λ file : OpenFile, jw_error file.2 = [])).
Qed.
End replay_proofs.

(** ** An example: a snapshot and an update captured inline, then replayed *)

#[local] Existing Instance refusing_json.

Definition demo_capture : list client_step :=
  [DoConnect demo_connect (B "startup") kDeribitFix;
   DoMessage (mkFrameEnv 4 4000) (cf_payload (demo_frame true (B "BTC"))) kDeribitFix;
   DoMessage (mkFrameEnv 5 4000) (cf_payload (demo_frame false (B "BTC"))) kDeribitFix].
Definition demo_deribit_cfg : Config := mkConfig (B "journal") (B "deribit") [] false 1 true.
Definition demo_options : ReplayOptions := mkReplayOptions demo_scale 1000 false.
(** What a run leaves, for inspection. *)
Definition outcome_of (r : option (CaptureSession (bounded_queue JournalEvent) * log))
  : option (list FeedEvent * bool * list bytes) :=
  match r with
  | Some (s, g) =>
      match Close demo_crc (mkCloseEnv true demo_io) s with
      | Some s' => Some (concat (connect_calls true <$> connects g), forallb c_journaled (connects g),
                         (λ file : OpenFile, jw_error file.2) <$> closed_files s')
      | None => None
      end
  | None => None
  end.

Definition demo_calls_live : list FeedEvent :=
  [ConnectEvent 1 (B "startup");
   FrameEvent (mkCaptureFrame (cf_payload (demo_frame true (B "BTC"))) 2 4 kDeribitFix);
   FrameEvent (mkCaptureFrame (cf_payload (demo_frame false (B "BTC"))) 3 5 kDeribitFix);
   DisconnectEvent 1].

Lemma demo_outcome :
  outcome_of (run demo_crc (Q:=bounded_queue JournalEvent) demo_deribit_cfg demo_capture
    (session_with demo_deribit_cfg 1, mkLog [] None)) = Some (demo_calls_live, true, [[]]).
Proof. vm_compute. reflexivity. Qed.

Lemma split_done {A} (x : A * outcome unit) : x.2 = Done tt → ∃ a, x = (a, Done tt).
Proof. destruct x as [a r]. simpl. intros ->. by exists a. Qed.

Lemma demo_live_done :
  (live demo_unspecified (λ _, 0) false demo_now demo_calls_live
     (fresh (B "deribit") kDeribitFix demo_options)).2 = Done tt.
Proof. vm_compute. reflexivity. Qed.

Lemma replay_rebuilds_live_witness :
  ∃ files a report,
    live demo_unspecified (λ _, 0) false demo_now demo_calls_live
      (fresh (B "deribit") kDeribitFix demo_options) = (a, Done tt) ∧
    Replay_Run demo_unspecified (λ _, 0) false demo_crc demo_now demo_options 0 7 (on_disk files)
      (new_BookAdapter false) = (a, Done (Expected report)) ∧
    ReplayReport_StoppedEarly report = false.
Proof.
  destruct (replay_rebuilds_live demo_unspecified (λ _, 0) false demo_crc demo_now (B "deribit")
    kDeribitFix eq_refl (Q:=bounded_queue JournalEvent) demo_deribit_cfg 1 demo_capture
    (mkCloseEnv true demo_io) demo_options 0 7 (new_BookAdapter false))
    as (s & g & s' & files & left & Hrun & Hclose & Hfiles & _ & Hreplay).
  - reflexivity.
  - repeat (apply Forall_cons; split; [cbn; unfold u64, u64_max; lia || exact I|]).
    apply Forall_nil. exact I.
  - vm_compute. reflexivity.
  - pose proof demo_outcome as Hout. rewrite Hrun in Hout. cbn [outcome_of] in Hout.
    rewrite Hclose in Hout.
    injection Hout as Hcalls Hj He. rewrite Hcalls in Hreplay. rewrite Hfiles, fmap_app in He.
    destruct (split_done _ demo_live_done) as [a Hl]. exists files, a.
    destruct (Hreplay) with (a := a) as (report & H1 & H2 & _).
    + intros Hn. rewrite Hn in Hcalls. discriminate Hcalls.
    + apply Forall_forall. intros c Hc. rewrite forallb_forall in Hj. apply Hj, list_elem_of_In, Hc.
    + destruct files as [|f1 [|f2 files]]; cbn in He.
      * apply Forall_nil. exact I.
      * injection He as He _. apply Forall_cons. split; [exact He|]. apply Forall_nil. exact I.
      * discriminate He.
    + exact Hl.
    + exists report. split; [exact Hl|]. split; [exact H1|exact H2].
Defined.
