(* ===== verification/ReplayTool.v ===== *)
(** * The replay tool: [book_adapter/tools/journal_replay.cpp] and the report of
      [book_adapter/journal_replay.cpp]

    Flags, the run and the printed report. A [double] is printed with a fixed
    number of decimals from its exact value, ties to even, as [std::format]
    does. *)

From S2P Require Import Prelude Text ToolFlags BookTypes Scale KrakenWire Feed Journal BookAdapter AdapterProofs JournalReplay.

(** ** The report *)

(** [n] as [width] digits or more, zeros in front. *)
Definition padded (width : nat) (n : Z) : bytes :=
  let text := to_string n in replicate (width - length text) (byte_of 48) ++ text.

(** [std::format("{:.<places>f}", x)] of a number that is not negative. *)
Definition format_fixed (places : nat) (x : double) : bytes :=
  match x with
  | Finite m e =>
      let '(d, n) := ratio_scale 1 (m * 10 ^ Z.of_nat places) e in
      let units := half_even n d in
      to_string (units / 10 ^ Z.of_nat places) ++ B "." ++
      padded places (units mod 10 ^ Z.of_nat places)
  | Infinite _ => B "inf"
  | NaN => B "nan"
  end.

Definition Milliseconds (nanoseconds : Z) : bytes :=
  format_fixed 3 (div_double (double_of_Z nanoseconds) (Finite 1000000 0)) ++ B " ms".

Definition PerUnit (nanoseconds count : Z) (unit : bytes) : bytes :=
  if count =? 0 then []
  else B " (" ++ format_fixed 1 (div_double (double_of_Z nanoseconds) (double_of_Z count)) ++
       B " ns/" ++ unit ++ B ")".

Definition report_line (text : bytes) : bytes := text ++ [byte_of 10].

Definition kIntegrityIssues : list IntegrityIssue :=
  [kGap; kChecksumMismatch; kCrossedBook; kUnknownOrder; kUnknownLevel].

Definition print_file (file : ReplayFileReport) : bytes :=
  report_line (B "  " ++ rf_path file ++ B ": " ++ rf_exchange file ++ B " connect_id " ++
               to_string (rf_connect_id file) ++ B ", " ++ to_string (rf_records file) ++
               B " records, " ++ to_string (rf_wire_messages file) ++ B " wire messages") ++
  (if rf_stopped_early file
   then report_line (B "  STOPPED EARLY: " ++ rf_stop_reason file ++
                     B " (the rest of this file was not replayed)") else []).

(** The loop over the kinds of issue. *)
Fixpoint print_issues (first : bool) (stats : ConnectionStats) (kinds : list IntegrityIssue) : bytes :=
  match kinds with
  | [] => []
  | issue :: kinds =>
      (if first then B " (" else B ", ") ++ ToString issue ++ B " " ++
      to_string (IssueCount stats issue) ++ print_issues false stats kinds
  end.

Definition applied_updates (stats : ConnectionStats) : Z :=
  wrap 64 (wrap 64 (stats updates - stats updates_before_snapshot) - stats updates_while_desynced).

Definition PrintReport (report : ReplayReport) : bytes :=
  let stats := rr_stats report in
  let n c := to_string (stats c) in
  report_line (B "files: " ++ to_string (Z.of_nat (length (rr_files report)))) ++
  concat (print_file <$> rr_files report) ++
  report_line (B "wire messages: " ++ to_string (rr_wire_messages report)) ++
  report_line (B "connects: " ++ n connects ++ B ", disconnects: " ++ n disconnects) ++
  report_line (B "snapshots: " ++ n snapshots) ++
  report_line (B "updates: " ++ n updates ++ B " (applied " ++ to_string (applied_updates stats) ++
               B ", before a snapshot " ++ n updates_before_snapshot ++ B ", while desynced " ++
               n updates_while_desynced ++ B ")") ++
  report_line (B "integrity issues: " ++ to_string (TotalIssues stats) ++
               print_issues true stats kIntegrityIssues ++ B ")") ++
  report_line (B "parse errors: " ++ n parse_errors ++ B ", apply errors: " ++ n apply_errors ++
               B ", unsupported frames: " ++ n frames_unsupported ++ B ", ignored while stale: " ++
               n frames_ignored_stale) ++
  (if rr_timed report then
     report_line (B "parse time: " ++ Milliseconds (stats parse_ns) ++
                  PerUnit (stats parse_ns) (stats frames) (B "frame")) ++
     report_line (B "apply time: " ++ Milliseconds (stats apply_ns) ++
                  PerUnit (stats apply_ns) (wrap 64 (stats snapshots + stats updates)) (B "entry")) ++
     report_line (B "read and other: " ++ Milliseconds (ReadNs report))
   else report_line (B "parse and apply time: not measured")) ++
  report_line (B "total time: " ++ Milliseconds (rr_total_ns report)).

(** ** The flags *)

Definition kExitOk : Z := 0.
Definition kExitError : Z := 1.
Definition kExitStoppedEarly : Z := 2.
Definition kDefaultPriceDecimals : Z := 1.
Definition kDefaultQuantityDecimals : Z := 8.
Definition kMaxDecimals : Z := 15.
(** [feed_handler::kraken::kDefaultDepth] *)
Definition kDefaultKrakenDepth : Z := 10.

(** [Arguments] *)
Record ReplayArguments := mkReplayArguments {
  ra_price_decimals : Z;
  ra_quantity_decimals : Z;
  ra_depth : Z;
  ra_measure_timing : bool;
  ra_journals : list bytes;
}.

Definition default_ReplayArguments : ReplayArguments :=
  mkReplayArguments kDefaultPriceDecimals kDefaultQuantityDecimals kDefaultKrakenDepth true [].

Definition ParseDecimals (flag text : bytes) : expected bytes Z :=
  let? value := ParseFlagValue stoi flag text in
  if (value <? 0) || (kMaxDecimals <? value)
  then Unexpected (flag ++ B " must be between 0 and " ++ to_string kMaxDecimals)
  else Expected value.

Definition ParseDepth (flag text : bytes) : expected bytes Z :=
  let? value := ParseFlagValue stoi flag text in
  if value <=? 0 then Unexpected (B "--depth must be positive") else Expected value.

(** The loop of [ParseArguments]. *)
Fixpoint parse_replay_args (args : list bytes) (a : ReplayArguments) : expected bytes ReplayArguments :=
  match args with
  | [] => Expected a
  | arg :: args =>
      if decide (arg = B "--no-timing") then
        parse_replay_args args
          (mkReplayArguments (ra_price_decimals a) (ra_quantity_decimals a) (ra_depth a) false
             (ra_journals a))
      else if decide (arg = B "--price-decimals" ∨ arg = B "--quantity-decimals" ∨ arg = B "--depth") then
        match args with
        | [] => Unexpected (B "missing value for " ++ arg)
        | value :: args =>
            if decide (arg = B "--price-decimals") then
              let? n := ParseDecimals arg value in
              parse_replay_args args
                (mkReplayArguments n (ra_quantity_decimals a) (ra_depth a) (ra_measure_timing a)
                   (ra_journals a))
            else if decide (arg = B "--quantity-decimals") then
              let? n := ParseDecimals arg value in
              parse_replay_args args
                (mkReplayArguments (ra_price_decimals a) n (ra_depth a) (ra_measure_timing a)
                   (ra_journals a))
            else
              let? n := ParseDepth arg value in
              parse_replay_args args
                (mkReplayArguments (ra_price_decimals a) (ra_quantity_decimals a) n
                   (ra_measure_timing a) (ra_journals a))
        end
      else if starts_with (B "--") arg then Unexpected (B "unknown flag: " ++ arg)
      else
        parse_replay_args args
          (mkReplayArguments (ra_price_decimals a) (ra_quantity_decimals a) (ra_depth a)
             (ra_measure_timing a) (ra_journals a ++ [arg]))
  end.

Definition ParseReplayArguments (args : list bytes) : expected bytes ReplayArguments :=
  let? a := parse_replay_args args default_ReplayArguments in
  if decide (ra_journals a = []) then Unexpected (B "no journal given") else Expected a.

(** ** The run *)

Section tool.
Context {json : Type} `{!Json json}.
Variable llround_unspecified : double → Z.
Variable hash : bytes → Z.
Variable asserts : bool.
Variable zlib_crc32 : Z → bytes → Z.
Variable now : nat → Z.
(** The clock at the start and the end of the replay. *)
Variable start_ns end_ns : Z.
Variable what : cpp_exception → bytes.

(** [Run]; [disk] gives the contents of the files that can be opened. *)
Definition ReplayTool_Run (arguments : ReplayArguments) (disk : bytes → option bytes) : outcome tool_run :=
  do! scale := new_InstrumentScale asserts (ra_price_decimals arguments) (ra_quantity_decimals arguments) in
  let options := mkReplayOptions scale (ra_depth arguments) (ra_measure_timing arguments) in
  do! report := (Replay_Run llround_unspecified hash asserts zlib_crc32 now options start_ns end_ns
                   ((λ path, (path, disk path)) <$> ra_journals arguments)
                   (new_BookAdapter (ra_measure_timing arguments))).2 in
  match report with
  | Unexpected error => Done (mkToolRun kExitError [] (report_line (B "error: " ++ error)) None)
  | Expected report =>
      if ReplayReport_StoppedEarly report
      then Done (mkToolRun kExitStoppedEarly (PrintReport report)
                   (report_line (B "warning: a journal stopped early, the counts above are not the whole " ++
                                 B "capture")) None)
      else Done (mkToolRun kExitOk (PrintReport report) [] None)
  end.

(** [main]; [args] is the command line without the program's name. *)
Definition replay_main (args : list bytes) (disk : bytes → option bytes) : outcome tool_run :=
  let failed error :=
    Done (mkToolRun kExitError []
            (report_line (B "error: " ++ error) ++
             report_line (B "usage: journal_replay [--price-decimals N] [--quantity-decimals N] " ++
                          B "[--depth N] [--no-timing] <journal> [<journal> ...]")) None) in
  match ParseReplayArguments args with
  | Unexpected error => failed error
  | Expected arguments =>
      match ReplayTool_Run arguments disk with
      | Throws e => failed (what e)
      | r => r
      end
  end.
End tool.

(** ** The flags keep the scale in range *)

Definition arguments_ok (a : ReplayArguments) : Prop :=
  0 <= ra_price_decimals a <= kMaxDecimals ∧ 0 <= ra_quantity_decimals a <= kMaxDecimals ∧
  0 < ra_depth a <= i32_max.

Lemma ParseFlagValue_stoi_range flag text n :
  ParseFlagValue stoi flag text = Expected n → i32_min <= n <= i32_max.
Proof. intros H%ParseFlagValue_whole. by eapply stoi_range. Qed.

Lemma ParseDecimals_range flag text n :
  ParseDecimals flag text = Expected n → 0 <= n <= kMaxDecimals.
Proof.
  unfold ParseDecimals. destruct (ParseFlagValue _ _ _) as [v|]; cbn [expected_bind]; [|done].
  destruct (_ || _) eqn:Hr; [done|]. intros [= <-]. apply orb_false_iff in Hr. lia.
Qed.

Lemma ParseDepth_range flag text n : ParseDepth flag text = Expected n → 0 < n <= i32_max.
Proof.
  unfold ParseDepth. destruct (ParseFlagValue _ _ _) as [v|] eqn:Hv; cbn [expected_bind]; [|done].
  apply ParseFlagValue_stoi_range in Hv. destruct (Z.leb_spec v 0); [done|]. intros [= <-]. lia.
Qed.

Lemma parse_replay_args_ok n args a a' :
  (length args <= n)%nat → arguments_ok a → parse_replay_args args a = Expected a' → arguments_ok a'.
Proof.
  revert args a. induction n as [|n IH]; intros [|arg args] a Hl Ha; cbn [length] in Hl; try lia;
    cbn [parse_replay_args]; try (by intros [= <-]).
  destruct Ha as (Hp & Hq & Hd).
  destruct (decide (arg = B "--no-timing")); [apply IH; [lia|unfold arguments_ok; cbn; lia]|].
  destruct (decide _).
  - destruct args as [|text args]; [done|]. cbn [length] in Hl.
    destruct (decide (arg = B "--price-decimals")); [|destruct (decide (arg = B "--quantity-decimals"))].
    1, 2: destruct (ParseDecimals arg text) as [v|] eqn:Hv; cbn [expected_bind]; [|done];
      apply ParseDecimals_range in Hv; apply IH; [lia|unfold arguments_ok; cbn; lia].
    destruct (ParseDepth arg text) as [v|] eqn:Hv; cbn [expected_bind]; [|done].
    apply ParseDepth_range in Hv. apply IH; [lia|unfold arguments_ok; cbn; lia].
  - destruct (starts_with _ _); [done|]. apply IH; [lia|unfold arguments_ok; cbn; lia].
Qed.

Lemma ParseReplayArguments_ok args a :
  ParseReplayArguments args = Expected a → arguments_ok a ∧ ra_journals a ≠ [].
Proof.
  unfold ParseReplayArguments.
  destruct (parse_replay_args args default_ReplayArguments) as [a'|] eqn:Ha; cbn [expected_bind]; [|done].
  destruct (decide (ra_journals a' = [])); [done|]. intros [= <-]. split; [|done].
  by eapply parse_replay_args_ok, Ha.
Qed.

(** Within the range the scale's assertion holds. *)
Lemma scale_defined a :
  arguments_ok a →
  ∃ scale, ∀ asserts,
    new_InstrumentScale asserts (ra_price_decimals a) (ra_quantity_decimals a) = Done scale.
Proof.
  intros (Hp & Hq & _). unfold kMaxDecimals in *. unfold new_InstrumentScale, Pow10. eexists.
  intros asserts.
  rewrite (proj2 (Z.leb_le 0 _)), (proj2 (Z.leb_le _ 15)), (proj2 (Z.leb_le 0 _)),
    (proj2 (Z.leb_le _ 15)) by lia.
  rewrite !andb_false_r. reflexivity.
Qed.

(** ** No exception leaves a replay *)

Section no_throw.
Context {json : Type} `{!Json json}.
Context (llround_unspecified : double → Z) (hash : bytes → Z) (asserts : bool).
Context (zlib_crc32 : Z → bytes → Z) (now : nat → Z).

Lemma no_throw_OnDisconnect h : no_throw (OnDisconnect h).
Proof. by apply on_connection_no_throw. Qed.

Lemma no_throw_OnFrame h frame : no_throw (OnFrame llround_unspecified hash asserts h now frame).
Proof.
  apply no_throw_bind; [done|]. intros a. apply on_connection_no_throw, conn_OnFrame_no_throw.
Qed.

Lemma no_throw_replay_record header src record open_id file :
  no_throw (replay_record llround_unspecified hash asserts now header src record open_id file).
Proof.
  unfold replay_record. destruct (jrec_type record).
  - by apply no_throw_bind; [apply no_throw_OnFrame|].
  - apply no_throw_bind; [by destruct open_id; [apply no_throw_OnDisconnect|]|]. intros [].
    apply no_throw_bind; [by apply on_connection_no_throw|done].
Qed.

Lemma no_throw_replay_records fuel reader header src open_id file :
  no_throw (replay_records llround_unspecified hash asserts zlib_crc32 now fuel reader header src
              open_id file).
Proof.
  revert reader open_id file. induction fuel as [|fuel IH]; intros reader open_id file; [done|].
  cbn [replay_records]. destruct (Next zlib_crc32 reader) as [reader' [record|]]; [|done].
  apply no_throw_bind; [apply no_throw_replay_record|]. intros [o f]. apply IH.
Qed.

Lemma no_throw_replay_paths options paths p :
  no_throw (replay_paths llround_unspecified hash asserts zlib_crc32 now options paths p).
Proof.
  assert (∀ path header src reader p, no_throw
    (replay_file llround_unspecified hash asserts zlib_crc32 now path header src reader p)) as Hfile.
  { intros. apply no_throw_bind; [apply no_throw_replay_records|]. by intros [[? ?] ?]. }
  revert p. induction paths as [|[path contents] paths IH]; intros p; [done|]. cbn [replay_paths].
  apply no_throw_bind; [|by intros []]. unfold replay_path.
  destruct (Open zlib_crc32 path contents) as [reader|]; [|done]. cbv zeta.
  destruct (SourceForExchange _) as [src|]; [|done]. destruct (decide _).
  - apply no_throw_bind; [done|]. intros h. apply no_throw_bind; [by destruct (_ && _)|]. intros [].
    by apply no_throw_bind.
  - destruct (decide _); [done|]. by apply no_throw_bind.
Qed.

Lemma no_throw_Replay_Run options start_ns end_ns paths :
  no_throw (Replay_Run llround_unspecified hash asserts zlib_crc32 now options start_ns end_ns paths).
Proof.
  unfold Replay_Run. destruct (decide _); [done|]. apply no_throw_bind; [done|]. intros [].
  apply no_throw_bind; [apply no_throw_replay_paths|]. intros [p|]; [|done].
  apply no_throw_bind; [by destruct (pr_open_connect_id p); [apply no_throw_OnDisconnect|]|]. intros [].
  apply no_throw_bind; [done|]. intros a. apply no_throw_bind; [|done].
  unfold Stats, At. intros s e. cbn. by destruct (_ !! _).
Qed.
End no_throw.

(** ** What the tool does on any command line *)

Section outcome.
Context {json : Type} `{!Json json}.
Context (llround_unspecified : double → Z) (hash : bytes → Z) (asserts : bool).
Context (zlib_crc32 : Z → bytes → Z) (now : nat → Z) (start_ns end_ns : Z).
Context (what : cpp_exception → bytes).

Abbreviation run_main := (replay_main llround_unspecified hash asserts zlib_crc32 now start_ns end_ns what).

(** The run on a fresh adapter of accepted arguments, at their scale. *)
Definition replayed (a : ReplayArguments) (scale : InstrumentScale) (disk : bytes → option bytes)
  : outcome (expected bytes ReplayReport) :=
  (Replay_Run llround_unspecified hash asserts zlib_crc32 now
     (mkReplayOptions scale (ra_depth a) (ra_measure_timing a)) start_ns end_ns
     ((λ path, (path, disk path)) <$> ra_journals a) (new_BookAdapter (ra_measure_timing a))).2.

(** How the process ends, given the replay's result. *)
Definition ended (result : expected bytes ReplayReport) (run : tool_run) : Prop :=
  match result with
  | Unexpected error =>
      run = mkToolRun kExitError [] (report_line (B "error: " ++ error)) None
  | Expected report =>
      tr_stdout run = PrintReport report ∧
      (tr_exit run = kExitOk ↔ Forall (λ file, rf_stopped_early file = false) (rr_files report)) ∧
      (tr_exit run = kExitStoppedEarly ↔ Exists (λ file, rf_stopped_early file = true) (rr_files report)) ∧
      (tr_exit run = kExitOk ∨ tr_exit run = kExitStoppedEarly)
  end.

Lemma StoppedEarly_Forall report :
  ReplayReport_StoppedEarly report = false ↔
  Forall (λ file, rf_stopped_early file = false) (rr_files report).
Proof.
  unfold ReplayReport_StoppedEarly. induction (rr_files report) as [|file files IH]; cbn [existsb].
  - by split; [constructor|].
  - by rewrite orb_false_iff, Forall_cons, IH.
Qed.

Lemma StoppedEarly_Exists report :
  ReplayReport_StoppedEarly report = true ↔
  Exists (λ file, rf_stopped_early file = true) (rr_files report).
Proof.
  unfold ReplayReport_StoppedEarly. induction (rr_files report) as [|file files IH]; cbn [existsb].
  - by rewrite Exists_nil.
  - by rewrite orb_true_iff, Exists_cons, IH.
Qed.

End outcome.

(** ** Examples *)

Example decimals_refused :
  ParseReplayArguments [B "--price-decimals"; B "16"; B "j"] =
    Unexpected (B "--price-decimals must be between 0 and 15").
Proof. by vm_compute. Qed.

Example half_read_number_refused :
  ParseReplayArguments [B "--depth"; B "10x"; B "j"] =
    Unexpected (B "invalid value for --depth: 10x").
Proof. by vm_compute. Qed.

(** Times are printed from their binary64 quotient. *)
Example times_printed :
  Milliseconds 1234567 = B "1.235 ms" ∧ PerUnit 10 3 (B "frame") = B " (3.3 ns/frame)" ∧
  PerUnit 10 0 (B "frame") = [].
Proof. by vm_compute. Qed.
