(* ===== verification/ClientBase.v ===== *)
(** * What the capture clients share

    [feed_handler/staleness_watchdog.h], [stop_signal.h], [symbols.h] and the
    line format of [logging.h], with the monad of a client's thread: code that
    talks to the world, may be left by an exception, and may not have returned
    yet. *)

From S2P Require Import Prelude Text.

(** ** [StalenessWatchdog] *)

Record StalenessWatchdog := mkWatchdog {
  wd_timeout_ns : Z;
  wd_last_activity_ns : Z;
  wd_armed : bool;
}.

Definition new_StalenessWatchdog (timeout_ns : Z) : StalenessWatchdog := mkWatchdog timeout_ns 0 false.
Definition NoteActivity (now_ns : Z) (w : StalenessWatchdog) : StalenessWatchdog :=
  mkWatchdog (wd_timeout_ns w) now_ns true.
Definition Disarm (w : StalenessWatchdog) : StalenessWatchdog :=
  mkWatchdog (wd_timeout_ns w) (wd_last_activity_ns w) false.
Definition IsStale (now_ns : Z) (w : StalenessWatchdog) : bool :=
  if (wd_timeout_ns w =? 0) || negb (wd_armed w) then false
  else
    let last := wd_last_activity_ns w in
    (last <? now_ns) && (wd_timeout_ns w <=? now_ns - last).

(** ** [StopSignal]

    The two latches; the mutex and the condition variable are what lets another
    thread's step end a wait ([FixClient.WaitFor]). *)

Record StopSignal := mkStopSignal { ss_stop_requested : bool; ss_fatal : bool }.

Definition new_StopSignal : StopSignal := mkStopSignal false false.
(** The signal, and whether this call made the request. *)
Definition RequestStop (s : StopSignal) : StopSignal * bool :=
  (mkStopSignal true (ss_fatal s), negb (ss_stop_requested s)).
Definition LatchFatal (s : StopSignal) : StopSignal := mkStopSignal (ss_stop_requested s) true.
Definition Stopping (s : StopSignal) : bool := ss_stop_requested s || ss_fatal s.

(** ** Texts *)

Fixpoint join_symbols (joined : bytes) (symbols : list bytes) : bytes :=
  match symbols with
  | [] => joined
  | symbol :: symbols =>
      join_symbols (joined ++ (if decide (joined = []) then [] else B ",") ++ symbol) symbols
  end.
Definition JoinSymbols (symbols : list bytes) : bytes := join_symbols [] symbols.

Inductive LogLevel : Type := kInfo | kWarn | kError.

(** [TaggedLog::Write]: the line a message becomes. *)
Definition tagged (tag message : bytes) : bytes := B "[" ++ tag ++ B "] " ++ message.

(** ** A client's thread

    [Unfinished]: the thread has not returned after the steps allowed it, or
    waits for something that does not come. [Raised]: an exception left the
    thread's function. The state is what it was at that point. *)

Inductive progress (A : Type) : Type :=
| Returned (a : A)
| Raised
| Unfinished.
Arguments Returned {A} a.
Arguments Raised {A}.
Arguments Unfinished {A}.

Definition io (S A : Type) : Type := S → S * progress A.

Definition io_ret {S A} (a : A) : io S A := λ s, (s, Returned a).
Definition io_raise {S A} : io S A := λ s, (s, Raised).
Definition io_wait {S A} : io S A := λ s, (s, Unfinished).
Definition io_gets {S A} (f : S → A) : io S A := λ s, (s, Returned (f s)).
Definition io_update {S} (f : S → S) : io S unit := λ s, (f s, Returned tt).
Definition io_bind {S A C} (m : io S A) (k : A → io S C) : io S C := λ s,
  match m s with
  | (s', Returned a) => k a s'
  | (s', Raised) => (s', Raised)
  | (s', Unfinished) => (s', Unfinished)
  end.

Declare Scope io_scope.
Delimit Scope io_scope with io.
Notation "'let*' x := m 'in' k" := (io_bind m (λ x, k))
  (at level 10, x pattern, m at level 200, k at level 200) : io_scope.
Notation "'do*' m ;; k" := (io_bind m (λ _, k))
  (at level 10, m at level 99, k at level 200) : io_scope.

(** ** Triples

    [triple m s Q R]: run from [s], [m] either returns and satisfies [Q], or is
    left or still at work in a state that satisfies [R]. *)

Definition triple {S A} (m : io S A) (s : S) (Q : A → S → Prop) (R : S → Prop) : Prop :=
  match m s with
  | (s', Returned a) => Q a s'
  | (s', _) => R s'
  end.

(** [returns m s Q]: [m] returns. *)
Definition returns {S A} (m : io S A) (s : S) (Q : A → S → Prop) : Prop :=
  triple m s Q (λ _, False).

Section triple.
Context {S : Type}.

Lemma triple_ret {A} (a : A) (s : S) (Q : A → S → Prop) R : Q a s → triple (io_ret a) s Q R.
Proof. done. Qed.
Lemma triple_raise {A} (s : S) (Q : A → S → Prop) (R : S → Prop) : R s → triple io_raise s Q R.
Proof. done. Qed.
Lemma triple_wait {A} (s : S) (Q : A → S → Prop) (R : S → Prop) : R s → triple io_wait s Q R.
Proof. done. Qed.
Lemma triple_gets {A} (f : S → A) (s : S) (Q : A → S → Prop) R : Q (f s) s → triple (io_gets f) s Q R.
Proof. done. Qed.
Lemma triple_update (f : S → S) (s : S) (Q : unit → S → Prop) R :
  Q tt (f s) → triple (io_update f) s Q R.
Proof. done. Qed.
Lemma triple_bind {A C} (m : io S A) (k : A → io S C) s Q R :
  triple m s (λ a s', triple (k a) s' Q R) R → triple (io_bind m k) s Q R.
Proof. unfold triple, io_bind. by destruct (m s) as [s' []]. Qed.
Lemma triple_assoc {A C D} (m : io S A) (k : A → io S C) (k' : C → io S D) s Q R :
  triple (io_bind (io_bind m k) k') s Q R → triple (io_bind m (λ x, io_bind (k x) k')) s Q R.
Proof. unfold triple, io_bind. by destruct (m s) as [s' []]. Qed.
Lemma triple_mono {A} (m : io S A) s (Q Q' : A → S → Prop) (R R' : S → Prop) :
  triple m s Q R → (∀ a s', Q a s' → Q' a s') → (∀ s', R s' → R' s') → triple m s Q' R'.
Proof. unfold triple. destruct (m s) as [s' []]; naive_solver. Qed.
End triple.

(** ** Invariants

    [keeps I m]: however [m] ends, [I] holds afterwards if it did before. *)

Definition keeps {S A} (I : S → Prop) (m : io S A) : Prop := ∀ s, I s → I (m s).1.

Create HintDb keeps.

Section keeps.
Context {S : Type} (I : S → Prop).

Lemma keeps_ret {A} (a : A) : keeps I (io_ret a).
Proof. by intros s. Qed.
Lemma keeps_raise {A} : keeps I (io_raise : io S A).
Proof. by intros s. Qed.
Lemma keeps_wait {A} : keeps I (io_wait : io S A).
Proof. by intros s. Qed.
Lemma keeps_gets {A} (f : S → A) : keeps I (io_gets f).
Proof. by intros s. Qed.
Lemma keeps_update (f : S → S) : (∀ s, I s → I (f s)) → keeps I (io_update f).
Proof. intros Hf s. apply Hf. Qed.
Lemma keeps_bind {A C} (m : io S A) (k : A → io S C) :
  keeps I m → (∀ a, keeps I (k a)) → keeps I (io_bind m k).
Proof.
  intros Hm Hk s Hs. specialize (Hm s Hs). unfold io_bind.
  destruct (m s) as [s' [a| |]]; [by apply Hk|done..].
Qed.
End keeps.
#[export] Hint Resolve keeps_ret keeps_raise keeps_wait keeps_gets keeps_bind : keeps.

(** ** Two runs side by side

    [coupled Rel m m']: from related states both do the same, into related
    states. *)

Definition coupled {S A} (Rel : S → S → Prop) (m m' : io S A) : Prop :=
  ∀ s s', Rel s s' → Rel (m s).1 (m' s').1 ∧ (m s).2 = (m' s').2.

Section coupled.
Context {S : Type} (Rel : S → S → Prop).

Lemma coupled_ret {A} (a : A) : coupled Rel (io_ret a) (io_ret a).
Proof. done. Qed.
Lemma coupled_raise {A} : coupled Rel (io_raise : io S A) io_raise.
Proof. done. Qed.
Lemma coupled_wait {A} : coupled Rel (io_wait : io S A) io_wait.
Proof. done. Qed.
Lemma coupled_update (f f' : S → S) :
  (∀ s s', Rel s s' → Rel (f s) (f' s')) → coupled Rel (io_update f) (io_update f').
Proof. intros H s s' Hs. split; [by apply H|done]. Qed.
Lemma coupled_bind {A C} (m m' : io S A) (k k' : A → io S C) :
  coupled Rel m m' → (∀ a, coupled Rel (k a) (k' a)) → coupled Rel (io_bind m k) (io_bind m' k').
Proof.
  intros Hm Hk s s' Hs. destruct (Hm s s' Hs) as [H1 H2]. unfold io_bind.
  destruct (m s) as [s1 r], (m' s') as [s1' r']. simpl in H1, H2. subst r'.
  destruct r as [a| |]; [by apply Hk|done..].
Qed.
Lemma coupled_gets {A} (f f' : S → A) :
  (∀ s s', Rel s s' → f s = f' s') → coupled Rel (io_gets f) (io_gets f').
Proof. intros H s s' Hs. split; [done|]. simpl. by rewrite (H _ _ Hs). Qed.
End coupled.

(** ** Runs that come to an end

    [settles m s P]: with enough fuel for its loops, [m] no longer depends on
    it and returns, and [P] holds. *)

Definition settles {S A} (m : nat → nat → io S A) (s : S) (P : A → S → Prop) : Prop :=
  ∃ N s' a, (∀ turns fuel, (N <= turns)%nat → (N <= fuel)%nat → m turns fuel s = (s', Returned a)) ∧
    P a s'.

Section settles.
Context {S : Type}.

Lemma settles_now {A} (m : io S A) (s : S) (P : A → S → Prop) :
  returns m s P → settles (λ _ _, m) s P.
Proof.
  unfold returns, triple. destruct (m s) as [s' [a| |]] eqn:Hm; [|done..].
  intros HP. by exists O, s', a.
Qed.

Lemma settles_mono {A} (m : nat → nat → io S A) s (P P' : A → S → Prop) :
  settles m s P → (∀ a s', P a s' → P' a s') → settles m s P'.
Proof. intros (N & s' & a & Hm & Ha) HP. exists N, s', a. auto. Qed.

Lemma settles_bind {A C} (m : nat → nat → io S A) (k : nat → nat → A → io S C) s P :
  settles m s (λ a s', settles (λ turns fuel, k turns fuel a) s' P) →
  settles (λ turns fuel, io_bind (m turns fuel) (k turns fuel)) s P.
Proof.
  intros (N & s' & a & Hm & N' & s'' & c & Hk & HP). exists (N + N')%nat, s'', c. split; [|done].
  intros turns fuel H1 H2. unfold io_bind. rewrite Hm by lia. apply Hk; lia.
Qed.

Lemma settles_ret {A} (a : A) (s : S) (P : A → S → Prop) : P a s → settles (λ _ _, io_ret a) s P.
Proof. intros HP. by apply settles_now. Qed.
Lemma settles_update (f : S → S) (s : S) (P : unit → S → Prop) :
  P tt (f s) → settles (λ _ _, io_update f) s P.
Proof. intros HP. by apply settles_now. Qed.
Lemma settles_update_bind {A} (f : S → S) (k : nat → nat → unit → io S A) s P :
  settles (λ turns fuel, k turns fuel tt) (f s) P →
  settles (λ turns fuel, io_bind (io_update f) (k turns fuel)) s P.
Proof. done. Qed.
Lemma settles_gets_bind {A C} (f : S → A) (k : nat → nat → A → io S C) s P :
  settles (λ turns fuel, k turns fuel (f s)) s P →
  settles (λ turns fuel, io_bind (io_gets f) (k turns fuel)) s P.
Proof. done. Qed.

(** A turn of a loop. *)
Lemma settles_turn {A} (m loop : nat → nat → io S A) s P :
  (∀ turns fuel, loop (Datatypes.S turns) fuel = m turns fuel) → settles m s P → settles loop s P.
Proof.
  intros Hloop (N & s' & r & Hm & Hr). exists (Datatypes.S N), s', r. split; [|done].
  intros [|turns] fuel H1 H2; [lia|]. rewrite Hloop. apply Hm; lia.
Qed.

(** A loop entered with the fuel. *)
Lemma settles_enter {A} (m : nat → nat → io S A) s P :
  settles m s P → settles (λ _ fuel, m fuel fuel) s P.
Proof. intros (N & s' & r & Hm & Hr). exists N, s', r. split; [|done]. auto. Qed.
Lemma settles_swap {A} (m : nat → nat → io S A) s P :
  settles m s P → settles (λ turns fuel, m fuel turns) s P.
Proof. intros (N & s' & r & Hm & Hr). exists N, s', r. split; [|done]. auto. Qed.
End settles.

Create HintDb client.
#[export] Hint Resolve triple_ret triple_gets triple_raise triple_wait : client.
#[export] Hint Resolve coupled_ret coupled_raise coupled_wait : client.
