(* ===== verification/FixClient.v ===== *)
(** * The Deribit connection: [feed_handler/deribit/deribit_fix_client.{h,cpp}]

    One thread: connect, log on, read until the session ends, back off, repeat.
    What the outside answers at the [n]-th question put to it is [world n]:
    clocks, sockets, the random source, the disk under the journal, and what
    other threads did meanwhile (a stop request, turns of the journal thread).
    The trace lists what the thread did to the outside. Loops whose end depends
    on the outside take fuel and are [Unfinished] without it. *)

From S2P Require Import Prelude Text FixMessage FixSession Feed Ring Journal JournalThread.
From S2P Require Import CaptureSession ClientBase.
Open Scope io_scope.

Definition kMaxBackoffDoublings : Z := 10.
Definition kWireSource : FrameSource := kDeribitFix.
(** [EINPROGRESS], [EINTR], [EAGAIN]; [EWOULDBLOCK] is [EAGAIN]. *)
Definition EINPROGRESS : Z := 115.
Definition EINTR : Z := 4.
Definition EAGAIN : Z := 11.

(** ** What to do about a message *)

Inductive InboundKind : Type :=
| kUnknown
| kLogonAck
| kHeartbeat
| kTestRequest
| kLogout
| kSessionReject
| kMarketDataSnapshot
| kMarketDataIncremental
| kMarketDataRequestReject.

#[export] Instance InboundKind_eq_dec : EqDecision InboundKind.
Proof. solve_decision. Defined.

Inductive InboundAction : Type :=
| kNone
| kSendMarketDataRequest
| kAnswerTestRequest
| kReconnect.

#[export] Instance InboundAction_eq_dec : EqDecision InboundAction.
Proof. solve_decision. Defined.

Record InboundDecision := mkInboundDecision {
  id_kind : InboundKind;
  id_action : InboundAction;
  id_detail : bytes;
}.

Definition KindOf (msg_type : bytes) : InboundKind :=
  if decide (msg_type = msg_type.kLogon) then kLogonAck
  else if decide (msg_type = msg_type.kHeartbeat) then kHeartbeat
  else if decide (msg_type = msg_type.kTestRequest) then kTestRequest
  else if decide (msg_type = msg_type.kLogout) then kLogout
  else if decide (msg_type = msg_type.kReject) then kSessionReject
  else if decide (msg_type = msg_type.kMarketDataSnapshotFullRefresh) then kMarketDataSnapshot
  else if decide (msg_type = msg_type.kMarketDataIncrementalRefresh) then kMarketDataIncremental
  else if decide (msg_type = msg_type.kMarketDataRequestReject) then kMarketDataRequestReject
  else kUnknown.

Definition InboundKind_ToString (kind : InboundKind) : bytes :=
  match kind with
  | kLogonAck => B "Logon"
  | kHeartbeat => B "Heartbeat"
  | kTestRequest => B "TestRequest"
  | kLogout => B "Logout"
  | kSessionReject => B "Reject"
  | kMarketDataSnapshot => B "MarketDataSnapshotFullRefresh"
  | kMarketDataIncremental => B "MarketDataIncrementalRefresh"
  | kMarketDataRequestReject => B "MarketDataRequestReject"
  | kUnknown => B "unknown"
  end.

Definition ClassifyInbound (message : ParsedMessage) (check : InboundCheck) : InboundDecision :=
  let kind := KindOf (MsgType message) in
  if SessionBroken check then mkInboundDecision kind kReconnect (Describe check)
  else
    match kind with
    | kLogonAck => mkInboundDecision kind kSendMarketDataRequest []
    | kTestRequest =>
        mkInboundDecision kind kAnswerTestRequest (default [] (Get message tag.kTestReqId))
    | kLogout =>
        mkInboundDecision kind kReconnect (default (B "logged out") (Get message tag.kText))
    | kSessionReject | kMarketDataRequestReject =>
        mkInboundDecision kind kNone (default [] (Get message tag.kText))
    | kHeartbeat | kMarketDataSnapshot | kMarketDataIncremental | kUnknown =>
        mkInboundDecision kind kNone []
    end.

Definition ReconnectDelayMs (consecutive_failures min_ms max_ms : Z) : Z :=
  if consecutive_failures =? 0 then 0
  else
    let doublings := Z.min (consecutive_failures - 1) kMaxBackoffDoublings in
    Z.min max_ms (wrap 64 (Z.shiftl min_ms doublings)).

Record FixClientConfig := mkFixClientConfig {
  fcc_id : bytes;
  fcc_host : bytes;
  fcc_port : Z;
  fcc_symbols : list bytes;
  fcc_md_req_id : bytes;
  fcc_connect_timeout_ms : Z;
  fcc_recv_timeout_ms : Z;
  fcc_staleness_timeout_ns : Z;
  fcc_min_reconnect_wait_ms : Z;
  fcc_max_reconnect_wait_ms : Z;
}.

(** ** The outside *)

(** The calls made for one resolved address: an [errno] where one failed. *)
Inductive poll_result : Type :=
| PollReady
| PollTimedOut
| PollFailed (errno : Z).

Record candidate := mkCandidate {
  cd_socket : option Z;
  cd_connect : option Z;
  cd_poll : poll_result;
  cd_getsockopt : option Z;
  cd_so_error : Z;
  cd_getfl : option Z;
  cd_setfl : option Z;
  cd_rcvtimeo : option Z;
  cd_nodelay : option Z;
}.

Inductive recv_result : Type :=
| RecvBytes (data : bytes)
| RecvErrno (errno : Z).

Inductive send_result : Type :=
| SendAccepted (count : nat)
| SendErrno (errno : Z).

Inductive other_thread : Type :=
| AskStop
| TurnJournal (d : disk).

Record moment := mkMoment {
  mo_others : list other_thread;
  mo_monotonic : Z;
  mo_realtime : Z;
  mo_random : option bytes;
  mo_addresses : expected bytes (list candidate);
  mo_recv : recv_result;
  mo_send : send_result;
  mo_connect : connect_env;
  mo_close : close_env;
  mo_frame : frame_env;
}.

(** What the thread does to the outside. [SocketReady]: a connected socket is
    taken into use. *)
Inductive deed : Type :=
| Logged (level : LogLevel) (line : bytes)
| SocketOpened
| SocketClosed
| SocketReady
| BytesReceived (data : bytes)
| BytesSent (data : bytes)
| SendGaveUp.

Section client.
Variable zlib_crc32 : Z → bytes → Z.
Context {Q : Type} `{!ReaderWriterQueue Q JournalEvent}.
Variable EVP_EncodeBlock EVP_Digest : bytes → option bytes.
(** [std::system_category().message]. *)
Variable ErrnoText : Z → bytes.
Variable world : nat → moment.

Record counters := mkCounters {
  ct_messages_received : Z;
  ct_snapshots_received : Z;
  ct_incrementals_received : Z;
  ct_connection_attempts : Z;
  ct_forced_reconnects : Z;
}.

(** The part of the fatal latch the journal sets is [cs_latched] of the capture
    session, whose handler the constructor routes to the stop signal. *)
Record FixClient := mkFixClient {
  fc_cfg : FixClientConfig;
  fc_capture : CaptureSession Q;
  fc_session : FixSession;
  fc_watchdog : StalenessWatchdog;
  fc_framer : Framer;
  fc_logged_on : bool;
  fc_subscribed : bool;
  fc_last_outbound_ns : Z;
  fc_stop_signal : StopSignal;
  fc_counters : counters;
  fc_tick : nat;
  fc_trace : list deed;
}.

Definition new_FixClient (session_cfg : SessionConfig) (capture : CaptureSession Q)
    (cfg : FixClientConfig) : FixClient :=
  mkFixClient cfg (RouteFatalToStopSignal capture) (new_FixSession session_cfg)
    (new_StalenessWatchdog (fcc_staleness_timeout_ns cfg)) (new_Framer kMaxBodyLength)
    false false 0 new_StopSignal (mkCounters 0 0 0 0 0) 0 [].

(** ** Assignments to the members *)

Definition set_capture (c : CaptureSession Q) (s : FixClient) : FixClient :=
  mkFixClient (fc_cfg s) c (fc_session s) (fc_watchdog s) (fc_framer s) (fc_logged_on s)
    (fc_subscribed s) (fc_last_outbound_ns s) (fc_stop_signal s) (fc_counters s) (fc_tick s)
    (fc_trace s).
Definition set_session (fs : FixSession) (s : FixClient) : FixClient :=
  mkFixClient (fc_cfg s) (fc_capture s) fs (fc_watchdog s) (fc_framer s) (fc_logged_on s)
    (fc_subscribed s) (fc_last_outbound_ns s) (fc_stop_signal s) (fc_counters s) (fc_tick s)
    (fc_trace s).
Definition set_watchdog (w : StalenessWatchdog) (s : FixClient) : FixClient :=
  mkFixClient (fc_cfg s) (fc_capture s) (fc_session s) w (fc_framer s) (fc_logged_on s)
    (fc_subscribed s) (fc_last_outbound_ns s) (fc_stop_signal s) (fc_counters s) (fc_tick s)
    (fc_trace s).
Definition set_framer (f : Framer) (s : FixClient) : FixClient :=
  mkFixClient (fc_cfg s) (fc_capture s) (fc_session s) (fc_watchdog s) f (fc_logged_on s)
    (fc_subscribed s) (fc_last_outbound_ns s) (fc_stop_signal s) (fc_counters s) (fc_tick s)
    (fc_trace s).
Definition set_logged_on (b : bool) (s : FixClient) : FixClient :=
  mkFixClient (fc_cfg s) (fc_capture s) (fc_session s) (fc_watchdog s) (fc_framer s) b
    (fc_subscribed s) (fc_last_outbound_ns s) (fc_stop_signal s) (fc_counters s) (fc_tick s)
    (fc_trace s).
Definition set_subscribed (b : bool) (s : FixClient) : FixClient :=
  mkFixClient (fc_cfg s) (fc_capture s) (fc_session s) (fc_watchdog s) (fc_framer s)
    (fc_logged_on s) b (fc_last_outbound_ns s) (fc_stop_signal s) (fc_counters s) (fc_tick s)
    (fc_trace s).
Definition set_last_outbound (ns : Z) (s : FixClient) : FixClient :=
  mkFixClient (fc_cfg s) (fc_capture s) (fc_session s) (fc_watchdog s) (fc_framer s)
    (fc_logged_on s) (fc_subscribed s) ns (fc_stop_signal s) (fc_counters s) (fc_tick s)
    (fc_trace s).
Definition set_stop_signal (sig : StopSignal) (s : FixClient) : FixClient :=
  mkFixClient (fc_cfg s) (fc_capture s) (fc_session s) (fc_watchdog s) (fc_framer s)
    (fc_logged_on s) (fc_subscribed s) (fc_last_outbound_ns s) sig (fc_counters s) (fc_tick s)
    (fc_trace s).
Definition set_counters (c : counters) (s : FixClient) : FixClient :=
  mkFixClient (fc_cfg s) (fc_capture s) (fc_session s) (fc_watchdog s) (fc_framer s)
    (fc_logged_on s) (fc_subscribed s) (fc_last_outbound_ns s) (fc_stop_signal s) c (fc_tick s)
    (fc_trace s).
Definition advance (s : FixClient) : FixClient :=
  mkFixClient (fc_cfg s) (fc_capture s) (fc_session s) (fc_watchdog s) (fc_framer s)
    (fc_logged_on s) (fc_subscribed s) (fc_last_outbound_ns s) (fc_stop_signal s) (fc_counters s)
    (S (fc_tick s)) (fc_trace s).
Definition did (d : deed) (s : FixClient) : FixClient :=
  mkFixClient (fc_cfg s) (fc_capture s) (fc_session s) (fc_watchdog s) (fc_framer s)
    (fc_logged_on s) (fc_subscribed s) (fc_last_outbound_ns s) (fc_stop_signal s) (fc_counters s)
    (fc_tick s) (fc_trace s ++ [d]).

Definition count_message (c : counters) : counters :=
  mkCounters (incr64 (ct_messages_received c)) (ct_snapshots_received c)
    (ct_incrementals_received c) (ct_connection_attempts c) (ct_forced_reconnects c).
Definition count_snapshot (c : counters) : counters :=
  mkCounters (ct_messages_received c) (incr64 (ct_snapshots_received c))
    (ct_incrementals_received c) (ct_connection_attempts c) (ct_forced_reconnects c).
Definition count_incremental (c : counters) : counters :=
  mkCounters (ct_messages_received c) (ct_snapshots_received c)
    (incr64 (ct_incrementals_received c)) (ct_connection_attempts c) (ct_forced_reconnects c).
Definition count_attempt (c : counters) : counters :=
  mkCounters (ct_messages_received c) (ct_snapshots_received c)
    (ct_incrementals_received c) (incr64 (ct_connection_attempts c)) (ct_forced_reconnects c).
Definition count_forced (c : counters) : counters :=
  mkCounters (ct_messages_received c) (ct_snapshots_received c)
    (ct_incrementals_received c) (ct_connection_attempts c) (incr64 (ct_forced_reconnects c)).

(** ** Talking to the outside *)

Definition other (o : other_thread) (s : FixClient) : FixClient :=
  match o with
  | AskStop => set_stop_signal (RequestStop (fc_stop_signal s)).1 s
  | TurnJournal d => set_capture (journal_turn zlib_crc32 d (fc_capture s)) s
  end.

Definition ask : io FixClient moment := λ s,
  let m := world (fc_tick s) in
  (advance (foldl (λ s o, other o s) s (mo_others m)), Returned m).

Definition act (d : deed) : io FixClient unit := io_update (did d).

Definition say (level : LogLevel) (message : bytes) : io FixClient unit :=
  let* id := io_gets (fcc_id ∘ fc_cfg) in act (Logged level (tagged id message)).

Definition MonotonicNowNs : io FixClient Z := let* m := ask in io_ret (mo_monotonic m).
Definition RealtimeNowNs : io FixClient Z := let* m := ask in io_ret (mo_realtime m).

Definition count (f : counters → counters) : io FixClient unit :=
  io_update (λ s, set_counters (f (fc_counters s)) s).

(** [stop_signal_.Fatal()] and [stop_signal_.Stopping()]. *)
Definition Fatal (s : FixClient) : bool := ss_fatal (fc_stop_signal s) || cs_latched (fc_capture s).
Definition client_stopping (s : FixClient) : bool :=
  ss_stop_requested (fc_stop_signal s) || Fatal s.
Definition ask_stopping : io FixClient bool := do* ask ;; io_gets client_stopping.

(** [stop_signal_.WaitFor]: others act while it waits; the predicate decides. *)
Definition WaitFor : io FixClient bool :=
  let* stopping := io_gets client_stopping in
  if stopping : bool then io_ret true else ask_stopping.

(** A call of the session that builds a message at one reading of its clock. *)
Definition build_with (f : Z → FixSession → FixSession * bytes) : io FixClient bytes :=
  let* now := RealtimeNowNs in
  let* fs := io_gets fc_session in
  do* io_update (set_session (f now fs).1) ;;
  io_ret (f now fs).2.

(** ** [SendAll] *)

Fixpoint send_loop (fuel : nat) (rest : bytes) : io FixClient bool :=
  match rest with
  | [] =>
      let* now := MonotonicNowNs in
      do* io_update (set_last_outbound now) ;;
      io_ret true
  | _ :: _ =>
      match fuel with
      | O => io_wait
      | S fuel =>
          let* m := ask in
          match mo_send m with
          | SendErrno errno =>
              if errno =? EINTR then send_loop fuel rest
              else
                do* act SendGaveUp ;;
                do* say kWarn (B "send failed: " ++ ErrnoText errno) ;;
                io_ret false
          | SendAccepted written =>
              do* act (BytesSent (take written rest)) ;;
              send_loop fuel (drop written rest)
          end
      end
  end.

Definition SendAll (fuel : nat) (message : bytes) : io FixClient bool := send_loop fuel message.

Definition SendHeartbeatIfDue (fuel : nat) : io FixClient bool :=
  let* logged_on := io_gets fc_logged_on in
  let* interval := io_gets (heartbeat_interval_seconds ∘ fs_cfg ∘ fc_session) in
  if negb logged_on || (interval <=? 0) then io_ret true
  else
    let interval_ns := wrap 64 (interval * kNanosPerSecond) in
    let* now := MonotonicNowNs in
    let* last := io_gets fc_last_outbound_ns in
    if wrap 64 (now - last) <? interval_ns then io_ret true
    else
      let* message := build_with BuildHeartbeat in
      SendAll fuel message.

(** ** Inbound messages *)

Definition JournalMessage (raw : bytes) : io FixClient bool :=
  let* m := ask in
  let* r := io_gets (OnWireMessage zlib_crc32 (mo_frame m) raw kWireSource ∘ fc_capture) in
  do* io_update (set_capture r.1) ;;
  if r.2 : bool then io_ret true
  else
    let* error := io_gets (Session_Error ∘ fc_capture) in
    do* (if decide (error = []) then say kError (B "dropped a message: no journal file open")
         else io_ret tt) ;;
    io_ret false.

(** The switch over the kind. *)
Definition note_kind (parsed : ParsedMessage) (decision : InboundDecision) : io FixClient unit :=
  match id_kind decision with
  | kLogonAck => do* io_update (set_logged_on true) ;; say kInfo (B "Logon accepted")
  | kMarketDataSnapshot =>
      do* count count_snapshot ;;
      say kInfo (B "received a " ++ InboundKind_ToString (id_kind decision) ++ B " for " ++
                 default (B "<no symbol>") (Get parsed tag.kSymbol))
  | kMarketDataIncremental => count count_incremental
  | kMarketDataRequestReject =>
      say kError (B "deribit rejected the MarketDataRequest: " ++ id_detail decision)
  | kSessionReject => say kError (B "deribit rejected a session message: " ++ id_detail decision)
  | kHeartbeat | kTestRequest | kLogout | kUnknown => io_ret tt
  end.

(** The switch over the action: whether the session goes on. *)
Definition take_action (fuel : nat) (decision : InboundDecision) : io FixClient bool :=
  match id_action decision with
  | kSendMarketDataRequest =>
      let* subscribed := io_gets fc_subscribed in
      if subscribed : bool then io_ret true
      else
        let* cfg := io_gets fc_cfg in
        let* message := build_with (BuildMarketDataRequest (fcc_md_req_id cfg) (fcc_symbols cfg)) in
        let* sent := SendAll fuel message in
        if negb sent then io_ret false
        else
          do* io_update (set_subscribed true) ;;
          do* say kInfo (B "sent MarketDataRequest for " ++
                         to_string (Z.of_nat (length (fcc_symbols cfg))) ++ B " symbol(s): " ++
                         JoinSymbols (fcc_symbols cfg)) ;;
          io_ret true
  | kAnswerTestRequest =>
      let* message := build_with (BuildHeartbeatResponse (id_detail decision)) in
      SendAll fuel message
  | kReconnect =>
      do* say kWarn (B "dropping the session (" ++ InboundKind_ToString (id_kind decision) ++
                     B "): " ++ id_detail decision) ;;
      io_ret false
  | kNone => io_ret true
  end.

(** One message: journaled, then parsed and checked. *)
Definition on_framed (fuel : nat) (framed : bytes) : io FixClient bool :=
  do* count count_message ;;
  let* journaled := JournalMessage framed in
  if negb journaled then io_ret false
  else
    match ParseMessage framed with
    | Unexpected error =>
        do* say kError (B "invalid message, dropping the connection: " ++ error) ;;
        io_ret false
    | Expected parsed =>
        let* fs := io_gets fc_session in
        do* io_update (set_session (OnInbound parsed fs).1) ;;
        let decision := ClassifyInbound parsed (OnInbound parsed fs).2 in
        do* note_kind parsed decision ;;
        take_action fuel decision
    end.

(** [while (true)]; every message is some bytes of the buffer. *)
Fixpoint drain_loop (turns fuel : nat) : io FixClient bool :=
  match turns with
  | O => io_wait
  | S turns =>
      let* r := io_gets (NextMessage ∘ fc_framer) in
      do* io_update (set_framer r.1) ;;
      match r.2 with
      | None =>
          if negb (Good r.1) then
            do* say kError (B "framing lost, dropping the connection: " ++ fr_error r.1) ;;
            io_ret false
          else io_ret true
      | Some framed =>
          let* on := on_framed fuel framed in
          if on : bool then drain_loop turns fuel else io_ret false
      end
  end.

Definition DrainFramedMessages (fuel : nat) : io FixClient bool :=
  let* buffered := io_gets (BufferedBytes ∘ fc_framer) in
  drain_loop (S buffered) fuel.

(** ** [ConnectSocket] *)

(** One address: the error that makes it unusable. *)
Definition try_candidate (c : candidate) : io FixClient (option bytes) :=
  match cd_socket c with
  | Some errno => io_ret (Some (B "socket() failed: " ++ ErrnoText errno))
  | None =>
      do* act SocketOpened ;;
      let* cfg := io_gets fc_cfg in
      let connecting :=
        match cd_connect c with
        | None => None
        | Some errno =>
            if negb (errno =? EINPROGRESS) then Some (B "connect() failed: " ++ ErrnoText errno)
            else
              match cd_poll c with
              | PollTimedOut =>
                  Some (B "connect() timed out after " ++
                        to_string (fcc_connect_timeout_ms cfg) ++ B "ms")
              | PollFailed errno => Some (B "poll() failed while connecting: " ++ ErrnoText errno)
              | PollReady =>
                  match cd_getsockopt c with
                  | Some errno => Some (B "connect() failed: " ++ ErrnoText errno)
                  | None =>
                      if cd_so_error c =? 0 then None
                      else Some (B "connect() failed: " ++ ErrnoText (cd_so_error c))
                  end
              end
        end in
      let failed :=
        match connecting, cd_getfl c, cd_setfl c, cd_rcvtimeo c with
        | Some error, _, _, _ => Some error
        | None, Some errno, _, _ | None, None, Some errno, _ =>
            Some (B "cannot clear O_NONBLOCK: " ++ ErrnoText errno)
        | None, None, None, Some errno => Some (B "cannot set SO_RCVTIMEO: " ++ ErrnoText errno)
        | None, None, None, None => None
        end in
      match failed with
      | Some error => do* act SocketClosed ;; io_ret (Some error)
      | None =>
          do* (match cd_nodelay c with
               | Some errno => say kWarn (B "cannot set TCP_NODELAY: " ++ ErrnoText errno)
               | None => io_ret tt
               end) ;;
          do* act SocketReady ;;
          io_ret None
      end
  end.

Fixpoint try_candidates (cs : list candidate) (last_error : bytes) : io FixClient (option bytes) :=
  match cs with
  | [] => io_ret (Some last_error)
  | c :: cs =>
      let* error := try_candidate c in
      match error with
      | Some error => try_candidates cs error
      | None => io_ret None
      end
  end.

(** The error, or a socket. *)
Definition ConnectSocket : io FixClient (option bytes) :=
  let* m := ask in
  let* cfg := io_gets fc_cfg in
  match mo_addresses m with
  | Unexpected reason => io_ret (Some (B "cannot resolve " ++ fcc_host cfg ++ B ": " ++ reason))
  | Expected cs =>
      let* error := try_candidates cs (B "no address for " ++ fcc_host cfg) in
      match error with
      | None => io_ret None
      | Some error =>
          io_ret (Some (B "cannot connect to " ++ fcc_host cfg ++ B ":" ++
                        to_string (fcc_port cfg) ++ B ": " ++ error))
      end
  end.

(** ** [RunOneConnection] *)

(** The read loop; whether it ended because the client is stopping. *)
Fixpoint read_loop (turns fuel : nat) : io FixClient bool :=
  match turns with
  | O => io_wait
  | S turns =>
      let* stopping := ask_stopping in
      if stopping : bool then io_ret true
      else
        let* on := SendHeartbeatIfDue fuel in
        if negb on then io_ret false
        else
          let* m := ask in
          match mo_recv m with
          | RecvErrno errno =>
              if errno =? EINTR then read_loop turns fuel
              else if errno =? EAGAIN then
                let* now := MonotonicNowNs in
                let* watchdog := io_gets fc_watchdog in
                if IsStale now watchdog then
                  do* count count_forced ;;
                  do* io_update (set_watchdog (Disarm watchdog)) ;;
                  let* cfg := io_gets fc_cfg in
                  do* say kWarn (B "forcing reconnect: no inbound message in " ++
                                 to_string (fcc_staleness_timeout_ns cfg / kNanosPerSecond) ++
                                 B "s") ;;
                  io_ret false
                else read_loop turns fuel
              else do* say kWarn (B "recv failed: " ++ ErrnoText errno) ;; io_ret false
          | RecvBytes [] => do* say kWarn (B "deribit closed the connection") ;; io_ret false
          | RecvBytes data =>
              let* now := MonotonicNowNs in
              do* io_update (λ s, set_watchdog (NoteActivity now (fc_watchdog s)) s) ;;
              do* act (BytesReceived data) ;;
              do* io_update (λ s, set_framer (Append data (fc_framer s)) s) ;;
              let* on := DrainFramedMessages fuel in
              if on : bool then read_loop turns fuel else io_ret false
          end
  end.

(** The Logon, the read loop and the Logout. *)
Definition session_loop (fuel : nat) (logon : expected bytes bytes) : io FixClient unit :=
  match logon with
  | Unexpected error => say kError error
  | Expected message =>
      let* sent := SendAll fuel message in
      if negb sent then io_ret tt
      else
        do* say kInfo (B "sent Logon") ;;
        let* now := MonotonicNowNs in
        do* io_update (λ s, set_watchdog (NoteActivity now (fc_watchdog s)) s) ;;
        let* stopping := read_loop fuel fuel in
        let* logged_on := io_gets fc_logged_on in
        let* requested := io_gets (ss_stop_requested ∘ fc_stop_signal) in
        if (stopping : bool) && logged_on && requested then
          let* message := build_with (BuildLogout (B "shutting down")) in
          do* SendAll fuel message ;;
          say kInfo (B "sent Logout")
        else io_ret tt
  end.

(** From the Logon to the end of the session. *)
Definition converse (fuel : nat) : io FixClient unit :=
  let* m := ask in
  let* now := RealtimeNowNs in
  let* now' := RealtimeNowNs in
  let* fs := io_gets fc_session in
  let logon := BuildLogon EVP_EncodeBlock EVP_Digest (mo_random m) now now' fs in
  do* io_update (set_session logon.1) ;;
  session_loop fuel logon.2.

(** The per-connection members. *)
Definition reset_connection (now : Z) (s : FixClient) : FixClient :=
  set_last_outbound now
    (set_subscribed false
       (set_logged_on false
          (set_session (ResetSequenceNumbers (fc_session s))
             (set_framer (new_Framer kMaxBodyLength) s)))).

Definition connect_reason (cfg : FixClientConfig) : bytes :=
  B "deribit fix " ++ JoinSymbols (fcc_symbols cfg) ++ B " connected to " ++ fcc_host cfg ++
  B ":" ++ to_string (fcc_port cfg).

(** The connection while both guards are in scope. *)
Definition guarded (fuel : nat) : io FixClient unit :=
  let* cfg := io_gets fc_cfg in
  do* say kInfo (B "connected to " ++ fcc_host cfg ++ B ":" ++ to_string (fcc_port cfg)) ;;
  let* now := MonotonicNowNs in
  do* io_update (reset_connection now) ;;
  let* m := ask in
  let* begun := io_gets (BeginConnect zlib_crc32 (mo_connect m) (connect_reason cfg) kWireSource
                           ∘ fc_capture) in
  match begun with
  | None => io_wait
  | Some (capture, r) =>
      do* io_update (set_capture capture) ;;
      match r with
      | Threw => io_raise
      | Refused error =>
          do* say kError (B "cannot start capture: " ++ error) ;;
          io_update (λ s, set_stop_signal (LatchFatal (fc_stop_signal s)) s)
      | Connected path =>
          let* id := io_gets (cs_connect_id ∘ fc_capture) in
          do* say kInfo (B "connect_id " ++ to_string id ++ B " started, journaling to " ++ path) ;;
          converse fuel
      end
  end.

(** [~ScopedCapture]. *)
Definition close_capture : io FixClient unit :=
  let* m := ask in
  let* closed := io_gets (Close zlib_crc32 (mo_close m) ∘ fc_capture) in
  match closed with
  | None => io_wait
  | Some capture => io_update (set_capture capture)
  end.

Definition RunOneConnection (fuel : nat) : io FixClient unit :=
  do* count count_attempt ;;
  let* error := ConnectSocket in
  match error with
  | Some error => say kError error
  | None =>
      do* guarded fuel ;;
      do* close_capture ;;
      act SocketClosed
  end.

(** ** [Run] *)

Fixpoint run_loop (turns fuel : nat) (consecutive_failures : Z) : io FixClient unit :=
  match turns with
  | O => io_wait
  | S turns =>
      let* stopping := ask_stopping in
      if stopping : bool then io_ret tt
      else
        let* cfg := io_gets fc_cfg in
        let delay_ms :=
          ReconnectDelayMs consecutive_failures (fcc_min_reconnect_wait_ms cfg)
            (fcc_max_reconnect_wait_ms cfg) in
        let* stop :=
          if delay_ms =? 0 then io_ret false
          else
            do* say kInfo (B "waiting " ++ to_string delay_ms ++ B "ms before reconnecting") ;;
            WaitFor in
        if stop : bool then io_ret tt
        else
          let* before := io_gets (ct_messages_received ∘ fc_counters) in
          do* RunOneConnection fuel ;;
          let* after := io_gets (ct_messages_received ∘ fc_counters) in
          run_loop turns fuel (if before <? after then 0 else incr64 consecutive_failures)
  end.

Definition Run (fuel : nat) : io FixClient unit := run_loop fuel fuel 0.
End client.
Arguments FixClient : clear implicits.
