(* ===== verification/Logging.v ===== *)
(** * Log lines: [feed_handler/logging.{h,cpp}]

    Any number of threads log. A call takes its timestamp, waits for the mutex,
    and puts the line on [std::clog] piece by piece; the step relation lets the
    threads act in any order. The terminal is the list of bytes the stream has
    taken. *)

From S2P Require Import Prelude Text FixTime ClientBase.

Definition kNanosPerSecond : Z := 1000000000.
Definition kNanosPerMilli : Z := 1000000.

Definition LevelTag (level : LogLevel) : bytes :=
  match level with
  | kWarn => B "WARN "
  | kError => B "ERROR"
  | kInfo => B "INFO "
  end.

(** [UtcTimestamp]; [now_ns] is the clock's reading. *)
Definition UtcTimestamp (now_ns : Z) : bytes :=
  let utc := gmtime (now_ns / kNanosPerSecond) in
  let millis := now_ns mod kNanosPerSecond / kNanosPerMilli in
  padded 4 (tm_year utc) ++ B "-" ++ padded 2 (tm_mon utc) ++ B "-" ++ padded 2 (tm_mday utc) ++
  B "T" ++ padded 2 (tm_hour utc) ++ B ":" ++ padded 2 (tm_min utc) ++ B ":" ++
  padded 2 (tm_sec utc) ++ B "." ++ padded 3 millis ++ B "Z".

(** What [LogMessage] puts on the stream, one [<<] at a time. *)
Definition line_pieces (prefix : bytes) (level : LogLevel) (message : bytes) : list bytes :=
  [prefix; B " "; LevelTag level; B " "; message; [byte_of 10]].

(** ** Threads that log *)

(** A call: its level, its message and the clock's reading. *)
Record log_call := mkLogCall { lc_level : LogLevel; lc_message : bytes; lc_now_ns : Z }.

Definition call_pieces (call : log_call) : list bytes :=
  line_pieces (UtcTimestamp (lc_now_ns call)) (lc_level call) (lc_message call).
Definition log_line (call : log_call) : bytes := concat (call_pieces call).

Inductive logger : Type :=
| Quiet
| Stamped (call : log_call)
| Putting (call : log_call) (rest : list bytes).

(** The stream, [LogMutex] and where each thread stands in [LogMessage]. *)
Record log_state := mkLogState {
  ls_clog : bytes;
  ls_holder : option nat;
  ls_threads : nat → logger;
}.

Definition new_log : log_state := mkLogState [] None (λ _, Quiet).

Definition set_logger (i : nat) (l : logger) (threads : nat → logger) : nat → logger := λ j,
  if decide (j = i) then l else threads j.

(** One step of one thread, and the call it returns from. *)
Inductive log_step : log_state → option log_call → log_state → Prop :=
| log_stamp i call s :
    ls_threads s i = Quiet →
    log_step s None (mkLogState (ls_clog s) (ls_holder s) (set_logger i (Stamped call) (ls_threads s)))
| log_lock i call s :
    ls_threads s i = Stamped call → ls_holder s = None →
    log_step s None
      (mkLogState (ls_clog s) (Some i) (set_logger i (Putting call (call_pieces call)) (ls_threads s)))
| log_put i call piece rest s :
    ls_threads s i = Putting call (piece :: rest) →
    log_step s None
      (mkLogState (ls_clog s ++ piece) (ls_holder s) (set_logger i (Putting call rest) (ls_threads s)))
| log_unlock i call s :
    ls_threads s i = Putting call [] →
    log_step s (Some call) (mkLogState (ls_clog s) None (set_logger i Quiet (ls_threads s))).

(** A run, with the calls that have returned, in order. *)
Inductive log_run : log_state → list log_call → Prop :=
| log_run_start : log_run new_log []
| log_run_step s calls s' returned :
    log_run s calls → log_step s returned s' → log_run s' (calls ++ option_list returned).

(** ** Lines stay whole *)

(** The mutex: only its holder is putting; and what is on the stream. *)
Definition log_inv (s : log_state) (calls : list log_call) : Prop :=
  (∀ i call rest, ls_threads s i = Putting call rest → ls_holder s = Some i) ∧
  match ls_holder s with
  | None => ls_clog s = concat (log_line <$> calls)
  | Some i =>
      ∃ call rest written, ls_threads s i = Putting call rest ∧
        ls_clog s = concat (log_line <$> calls) ++ written ∧ written ++ concat rest = log_line call
  end.

Lemma set_logger_at i l threads : set_logger i l threads i = l.
Proof. unfold set_logger. by rewrite decide_True. Qed.

Lemma set_logger_putting i l threads j call rest :
  set_logger i l threads j = Putting call rest →
  (j = i ∧ l = Putting call rest) ∨ (j ≠ i ∧ threads j = Putting call rest).
Proof. unfold set_logger. destruct (decide (j = i)); auto. Qed.

Lemma log_step_inv s calls returned s' :
  log_inv s calls → log_step s returned s' → log_inv s' (calls ++ option_list returned).
Proof.
  intros Hinv Hstep. revert Hinv.
  destruct Hstep as [i call s1 Hq|i call s1 Hs Hh|i call piece rest s1 Hp|i call s1 Hp];
    intros [Hmutex Hclog]; unfold log_inv; cbn [ls_threads ls_holder ls_clog option_list]; rewrite ?app_nil_r.
  - split.
    { intros j c r [[_ ?]|[_ H]]%set_logger_putting; [done|]. by eapply Hmutex. }
    destruct (ls_holder s1) as [j|]; [|done]. destruct Hclog as (c & r & w & Hj & H1 & H2).
    exists c, r, w. split; [|done]. unfold set_logger. rewrite decide_False; [done|]. congruence.
  - rewrite Hh in *. split.
    { intros j c r [[-> _]|[_ H]]%set_logger_putting; [done|]. by apply Hmutex in H. }
    exists call, (call_pieces call), []. rewrite set_logger_at, app_nil_r. by split_and!.
  - pose proof (Hmutex _ _ _ Hp) as Hh. rewrite Hh in *. split.
    { intros j c r [[-> _]|[_ H]]%set_logger_putting; [done|]. by eapply Hmutex. }
    destruct Hclog as (c & r & w & Hj & H1 & H2). rewrite Hp in Hj. injection Hj as <- <-.
    exists call, rest, (w ++ piece). rewrite set_logger_at, H1, <-!app_assoc. by split_and!.
  - pose proof (Hmutex _ _ _ Hp) as Hh. rewrite Hh in *. split.
    { intros j c r [[_ ?]|[Hne H]]%set_logger_putting; [done|]. apply Hmutex in H. congruence. }
    destruct Hclog as (c & r & w & Hj & H1 & H2). rewrite Hp in Hj. injection Hj as <- <-.
    rewrite H1, fmap_app, concat_app. cbn. rewrite app_nil_r in *. by rewrite H2.
Qed.

(** C28: threads do not interleave half-lines. However the threads that log are
    scheduled, the stream holds the whole lines of the calls that have returned,
    in the order they returned, followed by the head of the line of at most one
    call, that of the thread in possession of the mutex; with the mutex free,
    exactly the whole lines. *)
Theorem log_lines_whole s calls :
  log_run s calls →
  ∃ written, ls_clog s = concat (log_line <$> calls) ++ written ∧
    match ls_holder s with
    | None => written = []
    | Some i => ∃ call rest, ls_threads s i = Putting call rest ∧ written `prefix_of` log_line call
    end.
Proof.
  intros Hrun. assert (log_inv s calls) as [_ Hclog].
  { induction Hrun as [|s calls s' returned _ IH Hstep]; [|by eapply log_step_inv]. by split. }
  destruct (ls_holder s) as [i|].
  - destruct Hclog as (call & rest & written & Hi & H1 & H2). exists written. split; [done|].
    exists call, rest. split; [done|]. rewrite <-H2. by apply prefix_app_r.
  - exists []. by rewrite app_nil_r.
Qed.

Definition demo_call : log_call := mkLogCall kWarn (B "[kraken] resync") 1709210096789000000.

Example demo_line : log_line demo_call = B "2024-02-29T12:34:56.789Z WARN  [kraken] resync" ++ [byte_of 10].
Proof. by vm_compute. Qed.

(** Two threads: one has put its timestamp, the other waits. *)
Definition demo_half : log_state :=
  mkLogState (UtcTimestamp 0) (Some 0%nat)
    (set_logger 0 (Putting (mkLogCall kInfo (B "a") 0) (drop 1 (call_pieces (mkLogCall kInfo (B "a") 0))))
       (set_logger 0 (Putting (mkLogCall kInfo (B "a") 0) (call_pieces (mkLogCall kInfo (B "a") 0)))
          (set_logger 1 (Stamped demo_call)
             (set_logger 0 (Stamped (mkLogCall kInfo (B "a") 0)) (λ _, Quiet))))).

Lemma demo_half_run : log_run demo_half [].
Proof.
  set (call := mkLogCall kInfo (B "a") 0).
  eapply (log_run_step _ [] _ None).
  2: { apply (log_put 0 call (UtcTimestamp 0) (drop 1 (call_pieces call))
         (mkLogState [] (Some 0%nat) _)). reflexivity. }
  eapply (log_run_step _ [] _ None).
  2: { apply (log_lock 0 call (mkLogState [] None _)); reflexivity. }
  eapply (log_run_step _ [] _ None).
  2: { apply (log_stamp 1 demo_call (mkLogState [] None _)). reflexivity. }
  eapply (log_run_step _ [] _ None).
  2: { apply (log_stamp 0 call (mkLogState [] None _)). reflexivity. }
  constructor.
Qed.

Lemma log_lines_whole_witness :
  ∃ written, ls_clog demo_half = written ∧
    written `prefix_of` log_line (mkLogCall kInfo (B "a") 0).
Proof.
  destruct (log_lines_whole demo_half [] demo_half_run) as (written & H1 & call & rest & H2 & H3).
  exists written. split; [exact H1|]. injection H2 as <- _. exact H3.
Defined.
