(* ===== verification/FixFuzz.v ===== *)
(** * The fuzzing entry point: [feed_handler/fix/fuzz/fix_framer_fuzzer.cpp]

    Any bytes are framed, and every framed message is parsed. What the harness
    watches for, a run that does not come back, is shown not to happen. *)

From S2P Require Import Prelude Text FixMessage FixRoundTrip FixSound FixFramer FixClient.

(** The loop: the framer it ends with and the results of the parses, or nothing
    if [fuel] turns were not enough. *)
Fixpoint fuzz_loop (fuel : nat) (framer : Framer) : option (Framer * list (expected bytes ParsedMessage)) :=
  match fuel with
  | O => None
  | S fuel =>
      if Good framer then
        match NextMessage framer with
        | (framer, None) => Some (framer, [])
        | (framer, Some message) =>
            match fuzz_loop fuel framer with
            | Some (framer, parsed) => Some (framer, ParseMessage message :: parsed)
            | None => None
            end
        end
      else Some (framer, [])
  end.

(** [LLVMFuzzerTestOneInput]; every message takes bytes off the framer. *)
Definition LLVMFuzzerTestOneInput (data : bytes) : option (Framer * list (expected bytes ParsedMessage)) :=
  fuzz_loop (S (length data)) (Append data (new_Framer kMaxBodyLength)).

Lemma fuzz_loop_drain fuel framer v n max :
  framer_is framer max v [] n → (length v < fuel)%nat →
  ∃ framer', drain fuel framer = (framer', cut_messages (cut_stream max v)) ∧
    fuzz_loop fuel framer = Some (framer', ParseMessage <$> cut_messages (cut_stream max v)).
Proof.
  revert framer v n. induction fuel as [|fuel IH]; intros framer v n Hf Hlen; [lia|].
  pose proof Hf as (Hv & He & Hm & Hn). cbn [drain fuzz_loop].
  unfold NextMessage, Good. rewrite He, bool_decide_eq_true_2 by done. cbn [negb]. fold (view framer).
  rewrite Hv, Hm, (cut_stream_step max v).
  destruct (scan_head max v) as [|reason|k] eqn:Hs; cbn zeta; cbn [cut_messages]; [by eexists..|].
  pose proof (scan_head_framed _ _ _ Hs). set (f1 := mkFramer _ _ _ _ _).
  destruct (IH f1 (drop k v) (incr64 n)) as (framer' & Hd & Hl).
  - subst f1. unfold framer_is, view. simpl. rewrite Hn. split_and!; try done.
    rewrite <-Hv. unfold view. by rewrite drop_drop.
  - rewrite length_drop. lia.
  - exists framer'. by rewrite Hd, Hl.
Qed.

(** Cutting loses nothing. *)
Lemma cut_whole max v : concat (cut_messages (cut_stream max v)) ++ cut_rest (cut_stream max v) = v.
Proof.
  induction v as [v IH] using (cut_stream_ind max). rewrite cut_stream_step.
  destruct (scan_head max v) as [|reason|n] eqn:Hs; [done..|]. cbn zeta. cbn [cut_messages cut_rest concat].
  rewrite <-app_assoc, (IH n eq_refl). apply take_drop.
Qed.

(** C29: the harness comes back from any input. The framer's loop ends; the
    messages parsed are exactly those the stream cuts into, whole and in order;
    every parse ends within its own bound, in a message or in one of the
    parser's errors; and what is left in the framer is the rest of the input. *)
Theorem harness_returns data :
  ∃ framer parsed, LLVMFuzzerTestOneInput data = Some (framer, parsed) ∧
    parsed = ParseMessage <$> cut_messages (cut_stream kMaxBodyLength data) ∧
    Forall (λ result, result ≠ Unexpected (B "model: out of fuel")) parsed ∧
    concat (cut_messages (cut_stream kMaxBodyLength data)) ++ view framer = data.
Proof.
  assert (framer_is (new_Framer kMaxBodyLength) kMaxBodyLength [] [] 0) as Hnew by done.
  destruct (Append_is _ _ _ _ _ data Hnew) as [Hf _].
  destruct (fuzz_loop_drain (S (length data)) _ _ _ _ Hf ltac:(cbn; lia)) as (framer & Hd & Hl).
  destruct (drain_spec (S (length data)) _ _ _ _ Hf ltac:(cbn; lia)) as (framer' & Hd' & Hv & _).
  assert (framer' = framer) as -> by congruence.
  exists framer, (ParseMessage <$> cut_messages (cut_stream kMaxBodyLength data)). split_and!.
  - exact Hl.
  - done.
  - apply Forall_fmap, Forall_forall. intros message _. apply ParseMessage_terminates.
  - rewrite Hv. apply cut_whole.
Qed.

(** Two messages, the second with a wrong sum, and the head of a third. *)
Example harness_on_three :
  match LLVMFuzzerTestOneInput
    (BuildMessage demo_fields ++ B "8=FIX.4.4" ++ [kSoh] ++ B "9=5" ++ [kSoh] ++ B "35=0" ++ [kSoh] ++
     B "10=000" ++ [kSoh] ++ B "8=FIX") with
  | Some (framer, [Expected _; Unexpected _]) => bool_decide (view framer = B "8=FIX")
  | _ => false
  end = true.
Proof. by vm_compute. Qed.
