(* ===== verification/FixClientSpec.v ===== *)
(** * What a Deribit connection promises

    The reference a connection is measured against: which messages of a byte
    stream are obeyed, what each obeyed message is owed in reply, and what an
    account of one connection consists of. No client state appears here. *)

From S2P Require Import Prelude Text FixMessage FixFramer FixSession FixLink Feed Journal ThreadProofs.
From S2P Require Import FixClient.

(** ** Messages that keep the session going *)

(** Message [m] when [n] is the number expected: the number expected next,
    unless [m] ends the session. *)
Definition follows (n : Z) (m : bytes) : option Z :=
  match ParseMessage m with
  | Unexpected _ => None
  | Expected p =>
      match GetInt p tag.kMsgSeqNum with
      | None => None
      | Some k =>
          if (k <? 0) || bool_decide (MsgType p = msg_type.kLogout) then None
          else if bool_decide (Get p tag.kPossDupFlag = Some (B "Y")) then Some n
          else if k =? n then Some (incr64 n)
          else None
      end
  end.

Fixpoint follow_all (n : Z) (ms : list bytes) : option Z :=
  match ms with
  | [] => Some n
  | m :: ms => n ← follows n m; follow_all n ms
  end.

(** The messages up to the first that ends the session. *)
Fixpoint followed (n : Z) (ms : list bytes) : list bytes :=
  match ms with
  | [] => []
  | m :: ms =>
      match follows n m with
      | Some n => m :: followed n ms
      | None => []
      end
  end.

Lemma follow_all_app n ms ms' :
  follow_all n (ms ++ ms') = (n' ← follow_all n ms; follow_all n' ms').
Proof.
  revert n. induction ms as [|m ms IH]; intros n; [done|]. cbn.
  destruct (follows n m); [apply IH|done].
Qed.

Lemma followed_app n ms n' ms' :
  follow_all n ms = Some n' → followed n (ms ++ ms') = ms ++ followed n' ms'.
Proof.
  revert n. induction ms as [|m ms IH]; intros n; cbn; [by intros [= ->]|].
  destruct (follows n m); [|done]. cbn. intros H. by rewrite (IH _ H).
Qed.

Lemma followed_all n ms n' : follow_all n ms = Some n' → followed n ms = ms.
Proof. intros H. rewrite <-(app_nil_r ms) at 1. rewrite (followed_app _ _ _ _ H). cbn. apply app_nil_r. Qed.

Lemma followed_snoc n ms m n' :
  follow_all n ms = Some n' →
  followed n (ms ++ [m]) = ms ++ (if follows n' m then [m] else []).
Proof. intros H. rewrite (followed_app _ _ _ _ H). cbn. by destruct (follows n' m). Qed.

(** ** What the exchange is owed *)

Inductive reply : Type :=
| Subscribe
| Answer (test_req_id : bytes).

#[export] Instance reply_eq_dec : EqDecision reply.
Proof. solve_decision. Defined.

(** The first Logon is owed a subscription, every TestRequest its answer. *)
Definition owed_to (subscribed : bool) (m : bytes) : list reply :=
  match ParseMessage m with
  | Unexpected _ => []
  | Expected p =>
      if decide (MsgType p = msg_type.kLogon) then if subscribed then [] else [Subscribe]
      else if decide (MsgType p = msg_type.kTestRequest)
      then [Answer (default [] (Get p tag.kTestReqId))]
      else []
  end.

Definition subscribes (rs : list reply) : bool := bool_decide (Subscribe ∈ rs).

Definition owed_after (rs : list reply) (m : bytes) : list reply :=
  rs ++ owed_to (subscribes rs) m.
Definition owed (ms : list bytes) : list reply := foldl owed_after [] ms.

Lemma owed_snoc ms m : owed (ms ++ [m]) = owed ms ++ owed_to (subscribes (owed ms)) m.
Proof. unfold owed. by rewrite foldl_app. Qed.

Lemma owed_app ms ms' : owed ms `prefix_of` owed (ms ++ ms').
Proof.
  induction ms' as [|m ms' IH] using rev_ind; [by rewrite app_nil_r|].
  rewrite (assoc app), owed_snoc. by apply prefix_app_r.
Qed.

(** ** What a connection says *)

(** The replies among the messages sent; scheduled heartbeats, the Logon and the
    Logout are not replies. *)
Definition reply_of (r : request) : option reply :=
  match r with
  | ReqMarketData _ _ _ => Some Subscribe
  | ReqHeartbeatResponse id _ => Some (Answer id)
  | ReqLogon _ _ _ | ReqHeartbeat _ | ReqTestRequest _ _ | ReqLogout _ _ => None
  end.
Definition replies (rs : list request) : list reply := omap reply_of rs.

(** Between the Logon and the Logout. *)
Definition ordinary (cfg : FixClientConfig) (r : request) : Prop :=
  match r with
  | ReqMarketData id symbols _ => id = fcc_md_req_id cfg ∧ symbols = fcc_symbols cfg
  | ReqHeartbeat _ | ReqHeartbeatResponse _ _ => True
  | ReqLogon _ _ _ | ReqTestRequest _ _ | ReqLogout _ _ => False
  end.

(** Nothing, or a Logon, then requests of the session, then at most a Logout. *)
Definition script (cfg : FixClientConfig) (rs : list request) : Prop :=
  rs = [] ∨
  ∃ ts nonce now said bye,
    rs = ReqLogon ts nonce now :: said ++ bye ∧ Forall (ordinary cfg) said ∧
    (bye = [] ∨ ∃ now', bye = [ReqLogout (B "shutting down") now']).

(** ** One connection *)

(** What passed over a socket, and whether a send failed on it. *)
Record talk := mkTalk { tk_received : bytes; tk_sent : bytes; tk_gave_up : bool }.

(** The sockets taken into use, the latest first. *)
Definition hear (ts : list talk) (d : deed) : list talk :=
  match d, ts with
  | SocketReady, _ => mkTalk [] [] false :: ts
  | BytesReceived data, t :: ts => mkTalk (tk_received t ++ data) (tk_sent t) (tk_gave_up t) :: ts
  | BytesSent data, t :: ts => mkTalk (tk_received t) (tk_sent t ++ data) (tk_gave_up t) :: ts
  | SendGaveUp, t :: ts => mkTalk (tk_received t) (tk_sent t) true :: ts
  | _, _ => ts
  end.
Definition talks (trace : list deed) : list talk := foldl hear [] trace.

Lemma talks_snoc trace d : talks (trace ++ [d]) = hear (talks trace) d.
Proof. unfold talks. by rewrite foldl_app. Qed.

Definition payloads (c : connect) : list bytes := cf_payload <$> c_frames c.
Definition messages_of (stream : bytes) : list bytes :=
  cut_messages (cut_stream kMaxBodyLength stream).

Section account.
Variable EVP_EncodeBlock EVP_Digest : bytes → option bytes.
Variable session_cfg : SessionConfig.
Variable cfg : FixClientConfig.

(** The bytes of what a session says, from its first number on. *)
Definition wire (rs : list request) : bytes :=
  concat (build_all EVP_EncodeBlock EVP_Digest rs (new_FixSession session_cfg)).2.

(** [accounted ended c t]: the capture [c] and the socket [t] are one
    connection's. *)
Record accounted (ended : bool) (c : connect) (t : talk) : Prop := {
  ac_marker : cf_payload (c_marker c) = connect_reason cfg;
  ac_source : Forall (λ f, cf_source f = kDeribitFix) (c_frames c);
  ac_captured : payloads c `prefix_of` messages_of (tk_received t);
  ac_stops : (length (payloads c) <= S (length (followed 1 (payloads c))))%nat;
  ac_all : ended = true → tk_gave_up t = false → c_journaled c = true →
    payloads c = messages_of (tk_received t) ∨ followed 1 (payloads c) ≠ payloads c;
  ac_said : ∃ rs, script cfg rs ∧ tk_sent t `prefix_of` wire rs ∧
    replies rs `prefix_of` owed (followed 1 (payloads c)) ∧
    (rs = [] → tk_received t = []) ∧
    (ended = true → tk_gave_up t = false → c_journaled c = true → rs ≠ [] →
       tk_sent t = wire rs ∧ replies rs = owed (followed 1 (payloads c)));
}.
End account.
