(* ===== verification/FixClientProofs.v ===== *)
(** * A connection does what it promises

    Invariants of the connection thread, for any behaviour of the outside: what
    it captures and what it says, connection by connection. *)

From S2P Require Import Prelude Text FixMessage FixFramer FixSession FixLink Feed Ring Journal.
From S2P Require Import JournalProofs JournalCrash JournalThread CaptureSession ThreadProofs.
From S2P Require Import SessionProofs.
From S2P Require Import ClientBase FixClient FixClientSpec.

(** ** Framing, one message at a time *)

Definition prepend (ms : list bytes) (c : cut) : cut :=
  mkCut (ms ++ cut_messages c) (cut_rest c) (cut_error c).

(** The framer of a connection that received [stream] and was handed [ms]. *)
Definition framing (stream : bytes) (ms : list bytes) (f : Framer) : Prop :=
  fr_max_body_length f = kMaxBodyLength ∧ fr_error f = [] ∧
  cut_stream kMaxBodyLength stream = prepend ms (cut_stream kMaxBodyLength (view f)).

Lemma framing_new : framing [] [] (new_Framer kMaxBodyLength).
Proof. done. Qed.

Lemma framing_Append stream ms f data :
  framing stream ms f → framing (stream ++ data) ms (Append data f).
Proof.
  intros (Hm & He & Hc).
  destruct (Append_is f kMaxBodyLength (view f) [] (fr_messages_framed f) data) as [(Hv & He' & Hm' & _) _].
  { done. }
  split_and!; [done..|]. rewrite Hv, (cut_stream_app _ stream), (cut_stream_app _ (view f)), Hc. unfold prepend.
  cbn [cut_messages cut_rest cut_error]. case_decide; cbn [cut_messages cut_rest cut_error]; [|done].
  by rewrite <-app_assoc.
Qed.

Lemma framing_next stream ms f :
  framing stream ms f →
  match NextMessage f with
  | (f', Some m) => framing stream (ms ++ [m]) f' ∧ (BufferedBytes f' < BufferedBytes f)%nat
  | (f', None) =>
      cut_messages (cut_stream kMaxBodyLength stream) = ms ∧
      (Good f' = true → framing stream ms f')
  end.
Proof.
  intros (Hm & He & Hc). unfold NextMessage, Good. rewrite (bool_decide_eq_true_2 (fr_error f = [])) by done.
  cbn [negb]. fold (view f). rewrite Hm. rewrite Hc, (cut_stream_step _ (view f)).
  destruct (scan_head kMaxBodyLength (view f)) as [|reason|n] eqn:Hs.
  - cbn. rewrite app_nil_r. split; [done|]. intros _. split_and!; [done..|].
    rewrite Hc, (cut_stream_step _ (view f)), Hs. done.
  - cbn. rewrite app_nil_r. split; [done|]. unfold Good, Framer_Fail. cbn. rewrite He, decide_True by done.
    intros Hg%bool_decide_eq_true. subst reason. by apply scan_head_reason in Hs.
  - pose proof (scan_head_framed _ _ _ Hs) as Hn. split; [split_and!; [done..|]|].
    + rewrite Hc, (cut_stream_step _ (view f)), Hs.
      assert (view (mkFramer (fr_buffer f) (fr_error f) (fr_consumed f + n) kMaxBodyLength
                (incr64 (fr_messages_framed f))) = drop n (view f)) as ->
        by (unfold view; cbn; by rewrite drop_drop).
      unfold prepend. cbn. by rewrite <-app_assoc.
    + unfold BufferedBytes, view in *. rewrite length_drop in Hn. cbn. lia.
Qed.

(** ** What a session builds depends on its number and configuration *)

Section client_proofs.
Variable zlib_crc32 : Z → bytes → Z.
Context {Q : Type} `{!ReaderWriterQueue Q JournalEvent, !ReaderWriterQueueLaws Q JournalEvent}.
Variable EVP_EncodeBlock EVP_Digest : bytes → option bytes.
Variable ErrnoText : Z → bytes.
Variable world : nat → moment.
(** Clock readings are 64-bit. *)
Hypothesis world_clocks : ∀ n,
  u64 (fe_now (mo_frame (world n))) ∧ u64 (ce_header_realtime (mo_connect (world n))) ∧
  u64 (ce_header_monotonic (mo_connect (world n))) ∧ u64 (ce_marker_now (mo_connect (world n))).
Variable capture_cfg : Config.
Variable session_cfg : SessionConfig.
Variable cfg : FixClientConfig.

Abbreviation build := (FixLink.build EVP_EncodeBlock EVP_Digest).
Abbreviation build_all := (FixLink.build_all EVP_EncodeBlock EVP_Digest).
Abbreviation wire := (wire EVP_EncodeBlock EVP_Digest session_cfg).
Abbreviation accounted := (accounted EVP_EncodeBlock EVP_Digest session_cfg cfg).

(** The sessions that build the same messages. *)
Definition same_voice (s s' : FixSession) : Prop :=
  fs_cfg s = fs_cfg s' ∧ fs_next_outbound s = fs_next_outbound s'.

Lemma build_voice r s s' :
  same_voice s s' → same_voice (build r s).1 (build r s').1 ∧ (build r s).2 = (build r s').2.
Proof.
  intros [H1 H2]. rewrite !build_Send, H1. unfold Send, NextHeader, same_voice. cbn.
  by rewrite H1, H2.
Qed.

Lemma build_all_snoc rs r s :
  build_all (rs ++ [r]) s =
    ((build r (build_all rs s).1).1, (build_all rs s).2 ++ [(build r (build_all rs s).1).2]).
Proof.
  revert s. induction rs as [|r' rs IH]; intros s; cbn.
  { by destruct (build r s). }
  destruct (build r' s) as [s' m]. rewrite IH. by destruct (build_all rs s').
Qed.

Lemma wire_snoc rs r :
  wire (rs ++ [r]) = wire rs ++ (build r (build_all rs (new_FixSession session_cfg)).1).2.
Proof. 
  unfold FixClientSpec.wire. rewrite build_all_snoc. cbn [snd].
  by rewrite concat_app, concat_cons, app_nil_r.
 Qed.

(** The session after it said [rs]. *)
Definition voiced (rs : list request) (s : FixSession) : Prop :=
  same_voice s (build_all rs (new_FixSession session_cfg)).1.

Lemma voiced_build rs r s :
  voiced rs s → voiced (rs ++ [r]) (build r s).1 ∧ wire (rs ++ [r]) = wire rs ++ (build r s).2.
Proof.
  intros Hv. destruct (build_voice r _ _ Hv) as [H1 H2]. unfold voiced.
  by rewrite wire_snoc, build_all_snoc, H2.
Qed.

Lemma OnInbound_voice m s : same_voice (OnInbound m s).1 s.
Proof.
  unfold OnInbound, OnInboundSeqNum, same_voice. repeat case_match; done.
Qed.

(** ** The decision taken about a message *)

Lemma classify_follows m p s :
  ParseMessage m = Expected p →
  let decision := ClassifyInbound p (OnInbound p s).2 in
  if decide (id_action decision = kReconnect)
  then follows (fs_expected_inbound s) m = None
  else follows (fs_expected_inbound s) m = Some (fs_expected_inbound (OnInbound p s).1).
Proof.
  intros Hp. unfold follows. rewrite Hp. unfold ClassifyInbound.
  assert (KindOf (MsgType p) = kLogout ↔ MsgType p = msg_type.kLogout) as Hout.
  { unfold KindOf. split; [repeat case_decide; done|]. intros ->. reflexivity. }
  assert (∀ check, SessionBroken check = false →
    (id_action (ClassifyInbound p check) = kReconnect ↔ MsgType p = msg_type.kLogout)) as Hact.
  { intros check Hb. unfold ClassifyInbound. rewrite Hb, <-Hout. by destruct (KindOf (MsgType p)). }
  unfold ClassifyInbound in Hact.
  unfold OnInbound. destruct (GetInt p tag.kMsgSeqNum) as [k|]; [|done].
  destruct (k <? 0); [done|]. cbn [orb].
  unfold OnInboundSeqNum. destruct (bool_decide (Get _ _ = _)).
  - cbn [fst snd]. specialize (Hact _ (eq_refl : SessionBroken (mkInboundCheck
      kPossibleDuplicate (fs_expected_inbound s) k 0) = false)).
    case_decide as Ha; rewrite Hact in Ha; [by rewrite bool_decide_eq_true_2|].
    by rewrite bool_decide_eq_false_2.
  - destruct (k =? fs_expected_inbound s).
    + cbn [fst snd]. specialize (Hact _ (eq_refl : SessionBroken (mkInboundCheck
        kInSequence (fs_expected_inbound s) k 0) = false)).
      case_decide as Ha; rewrite Hact in Ha; [by rewrite bool_decide_eq_true_2|].
      by rewrite bool_decide_eq_false_2.
    + destruct (k <? fs_expected_inbound s); cbn; by case_bool_decide.
Qed.

(** The reply an action stands for. *)
Definition reply_to (subscribed : bool) (decision : InboundDecision) : list reply :=
  match id_action decision with
  | kSendMarketDataRequest => if subscribed then [] else [Subscribe]
  | kAnswerTestRequest => [Answer (id_detail decision)]
  | kNone | kReconnect => []
  end.

Lemma classify_owed m p check subscribed :
  ParseMessage m = Expected p → id_action (ClassifyInbound p check) ≠ kReconnect →
  owed_to subscribed m = reply_to subscribed (ClassifyInbound p check).
Proof.
  intros Hp. unfold owed_to. rewrite Hp. unfold ClassifyInbound, reply_to.
  destruct (SessionBroken check); [done|]. intros _.
  assert (msg_type.kTestRequest ≠ msg_type.kHeartbeat) as Hne by done.
  unfold KindOf. repeat case_decide; try done; congruence.
Qed.

(** ** The capture *)

Abbreviation inv := (SessionProofs.inv zlib_crc32 capture_cfg).
Abbreviation closed_as := (SessionProofs.closed_as zlib_crc32 capture_cfg).

(** The feed the sinks were told is [g]'s, and its ended connects are on disk. *)
Record capture_ok (s : CaptureSession Q) (g : log) : Prop := {
  co_sinks : Forall (λ calls, calls = sink_calls g) (cs_sinks s);
  co_numbered : ∀ i c, connects g !! i = Some c → numbered i c;
  co_files : ∃ files left, closed_files s = files ++ left ∧ Forall2 closed_as (lg_ended g) files;
}.

Lemma inv_ok s g : inv s g → capture_ok s g.
Proof. intros []. split; [done..|]. exists (closed_files s), []. by rewrite app_nil_r. Qed.

(** The capture could not begin a connect. *)
Record dead (s : CaptureSession Q) (g : log) : Prop := {
  dd_ok : capture_ok s g;
  dd_open : lg_open g = None;
  dd_announced : cs_announced s = false;
  dd_journal_open : cs_journal_open s = false;
}.

Lemma over_dead s g : over zlib_crc32 capture_cfg s g → dead s g.
Proof.
  intros []. split; try done. split; [done..|]. exists (closed_files s), []. by rewrite app_nil_r.
Qed.

Lemma assign_writer_closed w (t : JournalThread Q) : jt_closed t `prefix_of` jt_closed (assign_writer w t).
Proof. cbn. by apply prefix_app_r. Qed.

Lemma Turn_closed d (t : JournalThread Q) : jt_closed t `prefix_of` jt_closed (Turn zlib_crc32 d t).1.
Proof.
  assert (∀ w (t : JournalThread Q), jt_closed (AfterWrite w t) = jt_closed t) as Haw
    by (intros; apply AfterWrite_frame).
  unfold Turn. destruct (negb _); [done|]. destruct (Pop (jt_ring t)) as [r [ev|]]; [|done].
  unfold Handle. destruct ev as [frame|[path w] marker| |].
  - cbn. destruct (jt_writer t) as [[path w]|]; [|done]. cbn. by rewrite Haw.
  - cbn [fst]. rewrite Haw. apply (assign_writer_closed _ (set_ring r t)).
  - cbn. destruct (jt_writer t) as [[path w]|]; [|done]. cbn. rewrite Haw. cbn. by apply prefix_app_r.
  - apply (assign_writer_closed _ (set_ring r t)).
Qed.

Lemma dead_turn d s g : dead s g → dead (journal_turn zlib_crc32 d s) g.
Proof.
  intros [[] ]. unfold journal_turn. destruct (cs_journal s) as [t|] eqn:Hj; [|by split].
  pose proof (journal_moved_moves (Turn zlib_crc32 d t).1 s) as []. split; try congruence.
  split; [congruence|done|]. destruct co_files0 as (files & left & Hf & Hcl).
  unfold closed_files in *. rewrite Hj in Hf. rewrite moved_journal. cbn.
  destruct (Turn_closed d t) as [more ->]. exists files, (left ++ more). by rewrite Hf, <-app_assoc.
Qed.

Lemma dead_Close env s g : dead s g → ∃ s', Close zlib_crc32 env s = Some s' ∧ dead s' g.
Proof.
  intros [[] ]. destruct co_files0 as (files & left & Hf & Hcl). unfold Close.
  destruct (cs_writer s) as [[path w]|]; cbn; destruct (cs_journal s) as [t|] eqn:Hj; cbn;
    rewrite ?dd_journal_open0; cbn; rewrite dd_announced0; cbn; (eexists; split; [done|]);
    split; try done; split; try done; unfold closed_files in *; cbn; rewrite Hj in *.
  - by exists files, left.
  - exists files. eexists. by rewrite Hf, <-app_assoc.
  - by exists files, left.
  - by exists files, left.
Qed.
(** ** The invariant of an open connection *)

(** Fewer questions to the outside than a 64-bit counter holds. *)
Definition bounded (s : FixClient Q) : Prop := Z.of_nat (fc_tick s) + 2 < 2 ^ 64.

(** [rs] was said, [ms] captured and obeyed. On the way: [unchecked] is captured
    and not yet obeyed, [pend] handed out by the framer and not yet captured,
    [owing] the replies not yet built, [unsent] the bytes not yet sent; with
    [lag], [subscribed_] is not yet set; when [drained], the framer holds no
    whole message. *)
Record live_at (s : FixClient Q) (g : log) (c : connect) (t : talk) (ts : list talk)
    (rs : list request) (ms pend unchecked : list bytes) (owing : list reply) (unsent : bytes)
    (lag drained : bool) : Prop := {
  la_inv : inv (fc_capture s) g;
  la_open : lg_open g = Some c;
  la_talks : talks (fc_trace s) = t :: ts;
  la_past : Forall2 (accounted true) (reverse (lg_ended g)) ts;
  la_size : (log_size g <= fc_tick s)%nat;
  la_cfg : fc_cfg s = cfg;
  la_marker : cf_payload (c_marker c) = connect_reason cfg;
  la_source : Forall (λ f, cf_source f = kDeribitFix) (c_frames c);
  la_frames : payloads c = ms ++ unchecked;
  la_framing : framing (tk_received t) (ms ++ unchecked ++ pend) (fc_framer s);
  la_drained : drained = true → messages_of (tk_received t) = ms ++ unchecked ++ pend;
  la_follow : follow_all 1 ms = Some (fs_expected_inbound (fc_session s));
  la_journaled : c_journaled c = true;
  la_gave_up : tk_gave_up t = false;
  la_voice : voiced rs (fc_session s);
  la_script : ∃ stamp nonce now said,
    rs = ReqLogon stamp nonce now :: said ∧ Forall (ordinary cfg) said;
  la_replies : replies rs ++ owing = owed ms;
  la_subscribed : fc_subscribed s = subscribes (replies rs) && negb lag;
  la_lag : lag = true → subscribes (replies rs) = true;
  la_sent : tk_sent t ++ unsent = wire rs;
}.

Definition live (s : FixClient Q) (pend unchecked : list bytes) (owing : list reply)
    (unsent : bytes) (lag drained : bool) : Prop :=
  bounded s → ∃ g c t ts rs ms, live_at s g c t ts rs ms pend unchecked owing unsent lag drained.

(** Nothing on the way, after a pass over the framer. *)
Definition quiet (s : FixClient Q) : Prop := live s [] [] [] [] false true.

Definition configured (s : FixClient Q) : Prop :=
  fc_cfg s = cfg ∧ fs_cfg (fc_session s) = session_cfg.

(** The connection is over, its capture still open. *)
Definition ended_at (s : FixClient Q) (g : log) (c : connect) (t : talk) (ts : list talk) : Prop :=
  inv (fc_capture s) g ∧ lg_open g = Some c ∧ talks (fc_trace s) = t :: ts ∧
  Forall2 (accounted true) (reverse (lg_ended g)) ts ∧
  accounted true c t ∧
  (log_size g <= fc_tick s)%nat ∧ configured s.
Definition ended (s : FixClient Q) : Prop := bounded s → ∃ g c t ts, ended_at s g c t ts.

(** No connection. *)
Definition idle (s : FixClient Q) : Prop :=
  bounded s → ∃ g, inv (fc_capture s) g ∧ lg_open g = None ∧
    Forall2 (accounted true) (reverse (lg_ended g)) (talks (fc_trace s)) ∧
    (log_size g <= fc_tick s)%nat ∧ configured s.

(** A connected socket, no capture yet. *)
Definition connected (s : FixClient Q) : Prop :=
  bounded s → ∃ g ts, inv (fc_capture s) g ∧ lg_open g = None ∧
    talks (fc_trace s) = mkTalk [] [] false :: ts ∧
    Forall2 (accounted true) (reverse (lg_ended g)) ts ∧
    (log_size g <= fc_tick s)%nat ∧ configured s.

(** The capture has begun, nothing is said yet. *)
Definition starting (s : FixClient Q) : Prop :=
  bounded s → ∃ g c ts, inv (fc_capture s) g ∧ lg_open g = Some c ∧
    talks (fc_trace s) = mkTalk [] [] false :: ts ∧
    Forall2 (accounted true) (reverse (lg_ended g)) ts ∧ (log_size g <= fc_tick s)%nat ∧
    configured s ∧ cf_payload (c_marker c) = connect_reason cfg ∧ c_frames c = [] ∧
    c_journaled c = true ∧ fc_framer s = new_Framer kMaxBodyLength ∧ fc_subscribed s = false ∧
    fs_next_outbound (fc_session s) = 1 ∧ fs_expected_inbound (fc_session s) = 1.

(** The capture failed to begin. *)
Definition failed (s : FixClient Q) : Prop :=
  bounded s → ∃ g t ts, dead (fc_capture s) g ∧ talks (fc_trace s) = t :: ts ∧
    Forall2 (accounted true) (reverse (lg_ended g)) ts ∧ (length (connects g) <= fc_tick s)%nat.

(** What holds at any time. *)
Definition told (s : FixClient Q) : Prop :=
  bounded s → ∃ g extra ts, capture_ok (fc_capture s) g ∧ (length (connects g) <= fc_tick s)%nat ∧
    talks (fc_trace s) = extra ++ ts ∧ Forall2 (accounted true) (reverse (lg_ended g)) ts ∧
    match lg_open g with
    | Some c => ∃ t, extra = [t] ∧ accounted false c t
    | None => (length extra <= 1)%nat
    end.

(** What these predicates look at. *)
Definition core (s : FixClient Q) :=
  (fc_capture s, talks (fc_trace s), fc_framer s, fc_session s, fc_subscribed s, fc_cfg s,
   fc_tick s).

Lemma live_core s s' pend unchecked owing unsent lag drained :
  core s = core s' → live s pend unchecked owing unsent lag drained →
  live s' pend unchecked owing unsent lag drained.
Proof.
  intros [= H1 H2 H3 H4 H5 H6 H7] Hl Hb. unfold bounded in Hb. rewrite <-H7 in Hb.
  destruct (Hl Hb) as (g & c & t & ts & rs & ms & []). exists g, c, t, ts, rs, ms.
  split; try done; congruence.
Qed.

Lemma ended_core s s' : core s = core s' → ended s → ended s'.
Proof.
  intros [= H1 H2 H3 H4 H5 H6 H7] Hl Hb. unfold bounded in Hb. rewrite <-H7 in Hb.
  destruct (Hl Hb) as (g & c & t & ts & Ha). exists g, c, t, ts.
  unfold ended_at, configured in *. by rewrite <-H1, <-H2, <-H4, <-H6, <-H7.
Qed.

Lemma core_said level line s : core s = core (did (Logged level line) s).
Proof. unfold core. cbn. by rewrite talks_snoc. Qed.

Lemma ended_said level line s : ended s → ended (did (Logged level line) s).
Proof. apply ended_core, core_said. Qed.

Lemma live_said level line s pend unchecked owing unsent lag drained :
  live s pend unchecked owing unsent lag drained →
  live (did (Logged level line) s) pend unchecked owing unsent lag drained.
Proof. apply live_core, core_said. Qed.

(** *** At rest, and over *)

Lemma accounted_intro c t f rs ms pend unchecked owing unsent n :
  cf_payload (c_marker c) = connect_reason cfg →
  Forall (λ f, cf_source f = kDeribitFix) (c_frames c) → payloads c = ms ++ unchecked →
  framing (tk_received t) (ms ++ unchecked ++ pend) f → follow_all 1 ms = Some n →
  (∃ stamp nonce now said, rs = ReqLogon stamp nonce now :: said ∧ Forall (ordinary cfg) said) →
  replies rs ++ owing = owed ms → tk_sent t ++ unsent = wire rs → (length unchecked <= 1)%nat →
  accounted false c t.
Proof.
  intros Hmark Hsrc Hfr (_ & _ & Hcut) Hfol (a & n' & w & said & -> & Hs) Hrep Hsent Hun.
  split; try done.
  - unfold messages_of. rewrite Hcut, Hfr. cbn.
    rewrite <-!app_assoc, (app_assoc ms). by apply prefix_app_r.
  - rewrite Hfr, (followed_app _ _ _ _ Hfol), !length_app. lia.
  - eexists. split_and!.
    + right. exists a, n', w, said, []. rewrite app_nil_r. split_and!; [done..|by left].
    + rewrite <-Hsent. by apply prefix_app_r.
    + rewrite Hfr, (followed_app _ _ _ _ Hfol).
      etrans; [|apply owed_app]. rewrite <-Hrep. by apply prefix_app_r.
    + done.
    + done.
Qed.

Lemma live_accounted s g c t ts rs ms pend unchecked owing unsent lag drained :
  live_at s g c t ts rs ms pend unchecked owing unsent lag drained → (length unchecked <= 1)%nat →
  accounted false c t.
Proof. intros [] Hun. by eapply accounted_intro. Qed.

(** A session that said everything it owed, and stopped for a reason. *)
Lemma live_over s g c t ts rs ms unchecked drained :
  live_at s g c t ts rs ms [] unchecked [] [] false drained →
  (unchecked = [] ∧ drained = true) ∨
    (∃ m, unchecked = [m] ∧ follows (fs_expected_inbound (fc_session s)) m = None) →
  accounted true c t.
Proof.
  intros Hl Hwhy. pose proof (live_accounted _ _ _ _ _ _ _ _ _ _ _ _ _ Hl) as Hacc.
  destruct Hl. assert (followed 1 (payloads c) = ms) as Hfol.
  { rewrite la_frames0. destruct Hwhy as [[-> _]|(m & -> & Hm)].
    - rewrite app_nil_r. by apply (followed_all _ _ _ la_follow0).
    - rewrite (followed_snoc _ _ _ _ la_follow0), Hm. by rewrite app_nil_r. }
  destruct Hacc as [H1 H2 H3 H4 _ _]; [by destruct Hwhy as [[-> _]|(m & -> & _)]; cbn; lia|].
  rewrite app_nil_r in la_sent0, la_replies0. split; try done.
  - intros _ _ _. rewrite Hfol, la_frames0. destruct Hwhy as [[-> ->]|(m & -> & _)].
    + left. by rewrite la_drained0.
    + right. intros Heq. apply (f_equal length) in Heq. rewrite length_app in Heq. cbn in Heq. lia.
  - exists rs. rewrite Hfol. split_and!; try done.
    + destruct la_script0 as (a & n & w & said & -> & Hs).
      right. exists a, n, w, said, []. rewrite app_nil_r. split_and!; [done..|by left].
    + by rewrite la_sent0.
    + by rewrite la_replies0.
    + by destruct la_script0 as (a & n & w & said & -> & Hs).
Qed.

(** A connection excused from the rest. *)
Lemma accounted_excused c t :
  accounted false c t → tk_gave_up t = true ∨ c_journaled c = false → accounted true c t.
Proof.
  intros [H1 H2 H3 H4 _ (rs & R1 & R2 & R3 & R4 & _)] Hwhy. split; try done.
  - intros _ Hg Hj. destruct Hwhy; congruence.
  - exists rs. split_and!; try done. intros _ Hg Hj. destruct Hwhy; congruence.
Qed.

Lemma accounted_weaken c t : accounted true c t → accounted false c t.
Proof. intros [H1 H2 H3 H4 _ (rs & R1 & R2 & R3 & R4 & _)]. split; try done. by exists rs. Qed.

Lemma voiced_cfg rs s : voiced rs s → fs_cfg s = session_cfg.
Proof.
  intros [-> _]. induction rs as [|r rs IH] using rev_ind; [done|].
  rewrite build_all_snoc. cbn. by rewrite build_Send.
Qed.

Lemma live_configured s g c t ts rs ms pend unchecked owing unsent lag drained :
  live_at s g c t ts rs ms pend unchecked owing unsent lag drained → configured s.
Proof. intros []. split; [done|]. by eapply voiced_cfg. Qed.

Lemma log_size_connects g n : (log_size g <= n)%nat → (length (connects g) <= n)%nat.
Proof. unfold log_size. lia. Qed.

(** Every state has a tale to tell. *)
Lemma live_told s pend unchecked owing unsent lag drained :
  live s pend unchecked owing unsent lag drained → (length unchecked <= 1)%nat → told s.
Proof.
  intros Hl Hun Hb. destruct (Hl Hb) as (g & c & t & ts & rs & ms & Ha).
  exists g, [t], ts. split_and!.
  - apply inv_ok, Ha.
  - apply log_size_connects, Ha.
  - apply Ha.
  - apply Ha.
  - rewrite (la_open _ _ _ _ _ _ _ _ _ _ _ _ _ Ha). exists t. split; [done|].
    by eapply live_accounted.
Qed.

Lemma ended_told s : ended s → told s.
Proof.
  intros Hl Hb. destruct (Hl Hb) as (g & c & t & ts & Hi & Ho & Ht & Hp & Ha & Hz & _).
  exists g, [t], ts. split_and!; [by apply inv_ok|by apply log_size_connects|done..|]. rewrite Ho. exists t. split; [done|].
  by apply accounted_weaken.
Qed.

Lemma idle_told s : idle s → told s.
Proof.
  intros Hl Hb. destruct (Hl Hb) as (g & Hi & Ho & Hp & Hz & _). exists g, [], (talks (fc_trace s)).
  split_and!; [by apply inv_ok|by apply log_size_connects|done..|]. rewrite Ho. cbn. lia.
Qed.

Lemma connected_told s : connected s → told s.
Proof.
  intros Hl Hb. destruct (Hl Hb) as (g & ts & Hi & Ho & Ht & Hp & Hz & _). eexists g, [_], ts.
  split_and!; [by apply inv_ok|by apply log_size_connects|done..|]. rewrite Ho. cbn. lia.
Qed.

Lemma failed_told s : failed s → told s.
Proof.
  intros Hl Hb. destruct (Hl Hb) as (g & t & ts & Hd & Ht & Hp & Hz). exists g, [t], ts.
  split_and!; [by apply Hd|done..|]. rewrite (dd_open _ _ Hd). cbn. lia.
Qed.

(** *** Asking the outside *)

Definition asked (s : FixClient Q) : FixClient Q := (ask zlib_crc32 world s).1.
Arguments asked : simpl never.

Lemma triple_ask s (P : moment → FixClient Q → Prop) R :
  P (world (fc_tick s)) (asked s) → triple (ask zlib_crc32 world) s P R.
Proof. done. Qed.

Record heard (s s' : FixClient Q) : Prop := {
  hd_tick : fc_tick s' = S (fc_tick s);
  hd_trace : fc_trace s' = fc_trace s;
  hd_framer : fc_framer s' = fc_framer s;
  hd_session : fc_session s' = fc_session s;
  hd_subscribed : fc_subscribed s' = fc_subscribed s;
  hd_cfg : fc_cfg s' = fc_cfg s;
  hd_inv : ∀ g, inv (fc_capture s) g → inv (fc_capture s') g;
  hd_dead : ∀ g, dead (fc_capture s) g → dead (fc_capture s') g;
  hd_fatal : ss_fatal (fc_stop_signal s') = ss_fatal (fc_stop_signal s);
}.

Lemma asked_heard s : heard s (asked s).
Proof.
  unfold asked, ask. cbn [fst]. set (m := world (fc_tick s)).
  assert (∀ os s', let s'' := foldl (λ s o, other zlib_crc32 o s) s' os in
    fc_tick s'' = fc_tick s' ∧ fc_trace s'' = fc_trace s' ∧ fc_framer s'' = fc_framer s' ∧
    fc_session s'' = fc_session s' ∧ fc_subscribed s'' = fc_subscribed s' ∧
    fc_cfg s'' = fc_cfg s' ∧ (∀ g, inv (fc_capture s') g → inv (fc_capture s'') g) ∧
    (∀ g, dead (fc_capture s') g → dead (fc_capture s'') g) ∧
    ss_fatal (fc_stop_signal s'') = ss_fatal (fc_stop_signal s')) as H.
  { intros os. induction os as [|o os IH]; intros s'; [done|]. cbn [foldl].
    destruct (IH (other zlib_crc32 o s')) as (H1 & H2 & H3 & H4 & H5 & H6 & H7 & H8 & H9).
    split_and!; [by rewrite ?H1, ?H2, ?H3, ?H4, ?H5, ?H6; destruct o..| | |].
    - intros g Hg. apply H7. destruct o; [done|]. by apply journal_turn_inv.
    - intros g Hg. apply H8. destruct o; [done|]. by apply dead_turn.
    - rewrite H9. by destruct o. }
  destruct (H (mo_others m) s) as (H1 & H2 & H3 & H4 & H5 & H6 & H7 & H8 & H9).
  by split; cbn; rewrite ?H1.
Qed.

Lemma bounded_heard s s' : heard s s' → bounded s' → bounded s.
Proof. intros [] Hb. unfold bounded in *. lia. Qed.

Lemma live_heard s s' pend unchecked owing unsent lag drained :
  heard s s' → live s pend unchecked owing unsent lag drained →
  live s' pend unchecked owing unsent lag drained.
Proof.
  intros Hh Hl Hb. destruct (Hl (bounded_heard _ _ Hh Hb)) as (g & c & t & ts & rs & ms & []).
  destruct Hh. exists g, c, t, ts, rs, ms. split; try done; first [by auto|congruence|lia].
Qed.

Lemma configured_heard s s' : heard s s' → configured s → configured s'.
Proof. intros [] []. split; congruence. Qed.

Lemma ended_heard s s' : heard s s' → ended s → ended s'.
Proof.
  intros Hh Hl Hb. destruct (Hl (bounded_heard _ _ Hh Hb)) as (g & c & t & ts & H1 & H2 & H3 & H4 & H5 & H6 & H7).
  exists g, c, t, ts. pose proof (configured_heard _ _ Hh H7). destruct Hh.
  split_and!; try done; first [by auto|congruence|lia].
Qed.

Lemma idle_heard s s' : heard s s' → idle s → idle s'.
Proof.
  intros Hh Hl Hb. destruct (Hl (bounded_heard _ _ Hh Hb)) as (g & H1 & H2 & H3 & H4 & H5).
  exists g. pose proof (configured_heard _ _ Hh H5). destruct Hh.
  split_and!; try done; first [by auto|congruence|lia].
Qed.

Lemma connected_heard s s' : heard s s' → connected s → connected s'.
Proof.
  intros Hh Hl Hb. destruct (Hl (bounded_heard _ _ Hh Hb)) as (g & ts & H1 & H2 & H3 & H4 & H5 & H6).
  exists g, ts. pose proof (configured_heard _ _ Hh H6). destruct Hh.
  split_and!; try done; first [by auto|congruence|lia].
Qed.

Lemma failed_heard s s' : heard s s' → failed s → failed s'.
Proof.
  intros Hh Hl Hb. destruct (Hl (bounded_heard _ _ Hh Hb)) as (g & t & ts & H1 & H2 & H3 & H4).
  exists g, t, ts. destruct Hh. split_and!; try done; first [by auto|congruence|lia].
Qed.

Lemma starting_heard s s' : heard s s' → starting s → starting s'.
Proof.
  intros Hh Hl Hb. destruct (Hl (bounded_heard _ _ Hh Hb))
    as (g & c & ts & H1 & H2 & H3 & H4 & H5 & H6 & H7 & H8 & H9 & H10 & H11 & H12 & H13).
  exists g, c, ts. pose proof (configured_heard _ _ Hh H6). destruct Hh.
  split_and!; try done; first [by auto|congruence|lia].
Qed.

(** A connection on which nothing was said. *)
Lemma accounted_silent c :
  cf_payload (c_marker c) = connect_reason cfg → c_frames c = [] →
  accounted true c (mkTalk [] [] false).
Proof.
  intros H1 H2. assert (payloads c = []) as Hp by (unfold payloads; by rewrite H2).
  split; rewrite ?Hp; try done.
  - by rewrite H2.
  - cbn. lia.
  - by left.
  - exists []. split_and!; try done. by left.
Qed.

Lemma starting_ended s : starting s → ended s.
Proof.
  intros Hl Hb. destruct (Hl Hb) as (g & c & ts & H1 & H2 & H3 & H4 & H5 & H6 & H7 & H8 & _).
  exists g, c, (mkTalk [] [] false), ts. split_and!; try done. by apply accounted_silent.
Qed.

(** ** Sending *)

Lemma triple_say level line s (P : unit → FixClient Q → Prop) R :
  (∀ line, P tt (did (Logged level line) s)) → triple (say level line) s P R.
Proof. intros H. apply H. Qed.

(** [P w]: [w] is still to be sent. *)
Lemma send_loop_spec (P : bytes → FixClient Q → Prop) (G R : FixClient Q → Prop) :
  (∀ w s, P w s → P w (asked s)) →
  (∀ w n s, P w s → P (drop n w) (did (BytesSent (take n w)) s)) →
  (∀ w s, P w s → G (did SendGaveUp s)) →
  (∀ level line s, G s → G (did (Logged level line) s)) →
  (∀ w ns s, P w s → P w (set_last_outbound ns s)) →
  (∀ w s, P w s → R s) →
  ∀ fuel w s, P w s →
    triple (SendAll zlib_crc32 ErrnoText world fuel w) s (λ ok s', if ok then P [] s' else G s') R.
Proof.
  intros Hask Hsent Hgave Hlog Hset Hr fuel. unfold SendAll.
  induction fuel as [|fuel IH]; intros w s Hw; (destruct w as [|b w];
    [do 2 apply triple_bind; apply triple_ask, triple_ret, triple_bind, triple_update, triple_ret;
     by apply Hset, Hask|]).
  { by apply triple_wait, (Hr (b :: w)). }
  cbn [send_loop]. apply triple_bind, triple_ask. apply Hask in Hw.
  destruct (mo_send _) as [n|errno].
  - apply triple_bind, triple_update, IH. by apply Hsent.
  - destruct (errno =? EINTR); [by apply IH|].
    apply triple_bind, triple_update, triple_bind, triple_say. intros line.
    apply triple_ret. apply Hlog. by apply (Hgave (b :: w)).
Qed.

Lemma accounted_talk c t t' e :
  accounted e c t → tk_received t' = tk_received t → tk_sent t' = tk_sent t → e = false →
  accounted e c t'.
Proof. intros [H1 H2 H3 H4 H5 H6] E1 E2 ->. split; try done; rewrite ?E1, ?E2; try done.
  destruct H6 as (rs & R1 & R2 & R3 & R4 & _). by exists rs.
Qed.

Lemma live_sent s owing w n lag drained :
  live s [] [] owing w lag drained →
  live (did (BytesSent (take n w)) s) [] [] owing (drop n w) lag drained.
Proof.
  intros Hl Hb. destruct (Hl Hb) as (g & c & t & ts & rs & ms & []).
  exists g, c, (mkTalk (tk_received t) (tk_sent t ++ take n w) (tk_gave_up t)), ts, rs, ms.
  split; try done.
  - cbn. by rewrite talks_snoc, la_talks0.
  - cbn. by rewrite <-app_assoc, take_drop.
Qed.

Lemma live_gave_up s owing w lag drained :
  live s [] [] owing w lag drained → ended (did SendGaveUp s).
Proof.
  intros Hl Hb. destruct (Hl Hb) as (g & c & t & ts & rs & ms & Ha).
  pose proof (live_accounted _ _ _ _ _ _ _ _ _ _ _ _ _ Ha) as Hacc.
  pose proof (live_configured _ _ _ _ _ _ _ _ _ _ _ _ _ Ha) as Hcfg. destruct Ha.
  exists g, c, (mkTalk (tk_received t) (tk_sent t) true), ts. split_and!; try done.
  - cbn. by rewrite talks_snoc, la_talks0.
  - apply accounted_excused; [|by left].
    apply (accounted_talk _ t); [by apply Hacc; cbn; lia|done..].
Qed.

Lemma SendAll_live fuel w s owing lag drained :
  live s [] [] owing w lag drained →
  triple (SendAll zlib_crc32 ErrnoText world fuel w) s
    (λ ok s', if ok then live s' [] [] owing [] lag drained else ended s') told.
Proof.
  apply (send_loop_spec (λ w s, live s [] [] owing w lag drained)).
  - intros w' s' H. eapply live_heard; [apply asked_heard|done].
  - intros w' n s'. apply live_sent.
  - intros w' s'. apply live_gave_up.
  - intros level line s'. apply ended_said.
  - intros w' ns s'. by apply live_core.
  - intros w' s' H. eapply live_told; [done|cbn; lia].
Qed.

(** A message the session builds, between Logon and Logout. *)
Lemma live_build s r rep owing drained :
  live s [] [] (rep ++ owing) [] false drained → (bounded s → ordinary cfg r) → option_list (reply_of r) = rep →
  (rep = [Subscribe] → fc_subscribed s = false) →
  live (set_session (build r (fc_session s)).1 s) [] [] owing (build r (fc_session s)).2
    (bool_decide (rep = [Subscribe])) drained.
Proof.
  intros Hl Ho <- Hsub Hb. destruct (Hl Hb) as (g & c & t & ts & rs & ms & []).
  destruct (voiced_build rs r _ la_voice0) as [V1 V2].
  assert (fs_expected_inbound (build r (fc_session s)).1 = fs_expected_inbound (fc_session s)) as He
    by by rewrite build_Send.
  assert (replies (rs ++ [r]) = replies rs ++ option_list (reply_of r)) as Hrep.
  { unfold replies. rewrite omap_app. cbn. by destruct (reply_of r). }
  exists g, c, t, ts, (rs ++ [r]), ms. split; try done; cbn.
  - by rewrite He.
  - destruct la_script0 as (a & n & w & said & -> & Hs). exists a, n, w, (said ++ [r]).
    split; [done|]. apply Forall_app. split; [done|]. by constructor; [apply Ho|].
  - by rewrite Hrep, <-app_assoc.
  - rewrite Hrep. unfold subscribes in *. rewrite la_subscribed0 in Hsub |- *.
    destruct (reply_of r) as [[|id]|]; cbn in *.
    + rewrite Hsub by done. by rewrite andb_false_r.
    + rewrite (bool_decide_eq_false_2 (_ = _)) by done. f_equal. apply bool_decide_ext. set_solver.
    + by rewrite app_nil_r.
  - intros Hd%bool_decide_eq_true. rewrite Hrep, Hd. unfold subscribes.
    apply bool_decide_eq_true. set_solver.
  - rewrite V2. rewrite app_nil_r in la_sent0. by rewrite la_sent0.
Qed.

(** Asks that only read a clock. *)
Lemma triple_monotonic s (P : Z → FixClient Q → Prop) R :
  (∀ now, P now (asked s)) → triple (MonotonicNowNs zlib_crc32 world) s P R.
Proof. intros H. apply H. Qed.
Lemma triple_realtime s (P : Z → FixClient Q → Prop) R :
  (∀ now, P now (asked s)) → triple (RealtimeNowNs zlib_crc32 world) s P R.
Proof. intros H. apply H. Qed.

Lemma triple_build f s (P : bytes → FixClient Q → Prop) R :
  (∀ now, P (f now (fc_session (asked s))).2 (set_session (f now (fc_session (asked s))).1 (asked s))) →
  triple (build_with zlib_crc32 world f) s P R.
Proof. intros H. apply H. Qed.

Lemma live_asked s pend unchecked owing unsent lag drained :
  live s pend unchecked owing unsent lag drained →
  live (asked s) pend unchecked owing unsent lag drained.
Proof. apply live_heard, asked_heard. Qed.

Lemma send_built fuel (r : Z → request) f s rep owing drained :
  (∀ now fs, f now fs = build (r now) fs) → (bounded s → ∀ now, ordinary cfg (r now)) →
  (∀ now, option_list (reply_of (r now)) = rep) → (rep = [Subscribe] → fc_subscribed s = false) →
  live s [] [] (rep ++ owing) [] false drained →
  triple (let* message := build_with zlib_crc32 world f in
          SendAll zlib_crc32 ErrnoText world fuel message)%io s
    (λ ok s', if ok then live s' [] [] owing [] (bool_decide (rep = [Subscribe])) drained
              else ended s') told.
Proof.
  intros Hf Ho Hrep Hsub Hl. apply triple_bind, triple_build. intros now. rewrite !Hf.
  apply SendAll_live, live_build; [by apply live_asked| |done|].
  { intros Hb. apply Ho. by apply (bounded_heard _ _ (asked_heard s)). }
  by rewrite (hd_subscribed _ _ (asked_heard s)).
Qed.

Lemma SendHeartbeatIfDue_spec fuel s :
  quiet s →
  triple (SendHeartbeatIfDue zlib_crc32 ErrnoText world fuel) s
    (λ ok s', if ok then quiet s' else ended s') told.
Proof.
  intros Hq. unfold SendHeartbeatIfDue. do 2 apply triple_bind, triple_gets.
  destruct (_ || _); [by apply triple_ret|].
  apply triple_bind, triple_monotonic. intros now. apply triple_bind, triple_gets.
  apply live_asked in Hq. destruct (_ <? _); [by apply triple_ret|].
  by apply (send_built fuel ReqHeartbeat BuildHeartbeat _ [] [] true).
Qed.

(** ** Receiving *)

(** What the bookkeeping around a message leaves alone. *)
Lemma note_kind_keeps (P : FixClient Q → Prop) parsed decision s R :
  (∀ s s', core s = core s' → P s → P s') → P s →
  triple (note_kind parsed decision) s (λ _ s', P s') R.
Proof.
  intros HP Hs. assert (∀ level line s, P s → P (did (Logged level line) s)) as Hsay
    by (intros; eapply HP; [apply core_said|done]).
  unfold note_kind. destruct (id_kind decision).
  - done.
  - apply triple_bind, triple_update, triple_say. intros line. by apply Hsay, (HP s).
  - done.
  - done.
  - done.
  - apply triple_say. intros line. by apply Hsay.
  - apply triple_bind, triple_update, triple_say. intros line. by apply Hsay, (HP s).
  - apply triple_update. by apply (HP s).
  - apply triple_say. intros line. by apply Hsay.
Qed.

(** The message enters the capture. *)
Lemma live_journal s m drained :
  live s [m] [] [] [] false drained →
  let r := OnWireMessage zlib_crc32 (mo_frame (world (fc_tick s))) m kWireSource
             (fc_capture (asked s)) in
  if r.2 then live (set_capture r.1 (asked s)) [] [m] [] [] false drained
  else ended (set_capture r.1 (asked s)).
Proof.
  intros Hl r.
  assert (bounded (set_capture r.1 (asked s)) → ∃ g c t ts rs ms,
    live_at (asked s) g c t ts rs ms [m] [] [] [] false drained ∧ (log_size g <= fc_tick s)%nat ∧
    inv r.1 (mkLog (lg_ended g) (Some (log_frame (mo_frame (world (fc_tick s))) m kWireSource r.2 c))))
    as Hstep.
  { intros Hb. pose proof (asked_heard s) as Hh. pose proof (bounded_heard _ _ Hh Hb) as Hb0.
    destruct (Hl Hb0) as (g & c & t & ts & rs & ms & Ha).
    destruct (live_asked _ _ _ _ _ _ _ Hl Hb) as (g' & c' & t' & ts' & rs' & ms' & _).
    exists g, c, t, ts, rs, ms. pose proof (la_size _ _ _ _ _ _ _ _ _ _ _ _ _ Ha) as Hsz.
    destruct Ha. destruct Hh. split_and!; [|done|].
    - split; try done; first [by auto|congruence|lia].
    - pose proof (OnWireMessage_inv zlib_crc32 capture_cfg (mo_frame (world (fc_tick s))) m kWireSource
        _ _ (hd_inv0 _ la_inv0)) as Hw.
      subst r. destruct (OnWireMessage _ _ _ _ (fc_capture (asked s))) as [cap j].
      rewrite la_open0 in Hw. apply Hw; [apply world_clocks|].
      intros c0 [= <-]. unfold log_size in Hsz. rewrite la_open0 in Hsz. cbn in Hsz.
      unfold bounded in Hb0. lia. }
  assert (∀ g c j, lg_open g = Some c → (log_size g <= fc_tick s)%nat →
    (log_size (mkLog (lg_ended g) (Some (log_frame (mo_frame (world (fc_tick s))) m kWireSource j c))) <=
       fc_tick (asked s))%nat) as Hsize.
  { intros g c j Ho Hsz. unfold log_size, connects in *. rewrite Ho in Hsz. cbn in *.
    rewrite (hd_tick _ _ (asked_heard s)). rewrite length_app in Hsz. rewrite !length_app.
    cbn in *. lia. }
  clearbody r. destruct r as [cap j]. cbn [fst snd] in *. destruct j; intros Hb;
    destruct (Hstep Hb) as (g & c & t & ts & rs & ms & Ha & Hsz & Hi).
  - exists (mkLog (lg_ended g) (Some (log_frame (mo_frame (world (fc_tick s))) m kWireSource true c))),
      (log_frame (mo_frame (world (fc_tick s))) m kWireSource true c), t, ts, rs, ms.
    destruct Ha. split; try done; cbn.
    + by apply Hsize.
    + apply Forall_app. by repeat constructor.
    + unfold payloads in *. cbn. rewrite fmap_app, la_frames0, app_nil_r. done.
    + by rewrite la_journaled0.
  - pose proof (live_configured _ _ _ _ _ _ _ _ _ _ _ _ _ Ha) as Hcfg. destruct Ha.
    eexists _, (log_frame (mo_frame (world (fc_tick s))) m kWireSource false c), t, ts.
    split_and!; try done; [|by apply Hsize].
    apply accounted_excused; [|right; cbn; by rewrite andb_false_r].
    eapply (accounted_intro _ _ _ _ ms [] [m]); try done; cbn.
    + apply Forall_app. by repeat constructor.
    + unfold payloads in *. cbn. by rewrite fmap_app, la_frames0, app_nil_r.
Qed.

Lemma JournalMessage_spec m s drained :
  live s [m] [] [] [] false drained →
  triple (JournalMessage zlib_crc32 world m) s
    (λ ok s', if ok then live s' [] [m] [] [] false drained else ended s') told.
Proof.
  intros Hl. apply live_journal in Hl. cbv zeta in Hl.
  unfold JournalMessage. apply triple_bind, triple_ask, triple_bind, triple_gets.
  apply triple_bind, triple_update. unfold compose.
  destruct (OnWireMessage _ _ _ _ _) as [cap []]; cbn [fst snd] in *; [by apply triple_ret|].
  apply triple_bind, triple_gets, triple_bind. case_decide.
  - apply triple_say. intros line. apply triple_ret. by apply ended_said.
  - by do 2 apply triple_ret.
Qed.

(** A captured message that ends the session. *)
Lemma live_breaks s m drained :
  live s [] [m] [] [] false drained →
  (bounded s → follows (fs_expected_inbound (fc_session s)) m = None) → ended s.
Proof.
  intros Hl Hm Hb. destruct (Hl Hb) as (g & c & t & ts & rs & ms & Ha).
  pose proof (live_configured _ _ _ _ _ _ _ _ _ _ _ _ _ Ha) as Hcfg.
  exists g, c, t, ts. split_and!; try apply Ha; [|done..].
  eapply live_over; [exact Ha|]. right. exists m. split; [done|]. by apply Hm.
Qed.

Lemma ended_session s fs :
  fs_cfg fs = fs_cfg (fc_session s) → ended s → ended (set_session fs s).
Proof.
  intros Hfs Hl Hb. destruct (Hl Hb) as (g & c & t & ts & H1 & H2 & H3 & H4 & H5 & H6 & [H7 H8]).
  exists g, c, t, ts. split_and!; try done. split; [done|]. cbn. congruence.
Qed.

(** A captured message that is obeyed. *)
Lemma live_follows s m p drained :
  live s [] [m] [] [] false drained → ParseMessage m = Expected p →
  let decision := ClassifyInbound p (OnInbound p (fc_session s)).2 in
  id_action decision ≠ kReconnect →
  live (set_session (OnInbound p (fc_session s)).1 s) [] [] (reply_to (fc_subscribed s) decision) []
    false drained.
Proof.
  intros Hl Hp decision Hact Hb. destruct (Hl Hb) as (g & c & t & ts & rs & ms & []).
  pose proof (classify_follows m p (fc_session s) Hp) as Hfol. cbv zeta in Hfol.
  rewrite decide_False in Hfol by done.
  exists g, c, t, ts, rs, (ms ++ [m]). split; try done; cbn.
  - by rewrite app_nil_r.
  - by rewrite app_nil_r in *.
  - intros Hd. rewrite app_nil_r in *. by apply la_drained0.
  - rewrite follow_all_app, la_follow0. cbn. by rewrite Hfol.
  - destruct (OnInbound_voice p (fc_session s)), la_voice0. split; congruence.
  - rewrite app_nil_r in la_replies0. rewrite owed_snoc, <-la_replies0, la_subscribed0, andb_true_r.
    f_equal. symmetry. by apply classify_owed.
Qed.

Lemma live_subscribed s drained :
  live s [] [] [] [] true drained → live (set_subscribed true s) [] [] [] [] false drained.
Proof.
  intros Hl Hb. destruct (Hl Hb) as (g & c & t & ts & rs & ms & []).
  exists g, c, t, ts, rs, ms. split; try done. cbn. by rewrite la_lag0.
Qed.

Lemma take_action_spec fuel decision s drained :
  live s [] [] (reply_to (fc_subscribed s) decision) [] false drained →
  id_action decision ≠ kReconnect →
  triple (take_action zlib_crc32 ErrnoText world fuel decision) s
    (λ ok s', if ok then live s' [] [] [] [] false drained else ended s') told.
Proof.
  intros Hl Hact. unfold take_action, reply_to in *. destruct (id_action decision); [done| | |done].
  - apply triple_bind, triple_gets. destruct (fc_subscribed s) eqn:Hsub; [by apply triple_ret|].
    apply triple_bind, triple_gets, triple_assoc, triple_bind. eapply triple_mono;
      [apply (send_built fuel (ReqMarketData (fcc_md_req_id (fc_cfg s)) (fcc_symbols (fc_cfg s)))
                _ _ [Subscribe] [] drained); try done| |done].
    { intros Hb now. destruct (Hl Hb) as (? & ? & ? & ? & ? & ? & []). cbn. by rewrite la_cfg0. }
    intros ok s1 Hs1. destruct ok; cbn [negb]; [|by apply triple_ret].
    apply triple_bind, triple_update, triple_bind, triple_say. intros line. apply triple_ret.
    by apply live_said, live_subscribed.
  - by apply (send_built fuel (ReqHeartbeatResponse (id_detail decision)) _ _
                [Answer (id_detail decision)] [] drained).
Qed.

Lemma on_framed_spec fuel m s drained :
  live s [m] [] [] [] false drained →
  triple (on_framed zlib_crc32 ErrnoText world fuel m) s
    (λ ok s', if ok then live s' [] [] [] [] false drained else ended s') told.
Proof.
  intros Hl. unfold on_framed. apply triple_bind, triple_update.
  apply triple_bind. eapply triple_mono; [apply JournalMessage_spec; by eapply live_core, Hl| |done].
  intros ok s1 Hok. destruct ok; cbn [negb]; [|by apply triple_ret].
  destruct (ParseMessage m) as [p|error] eqn:Hp.
  - apply triple_bind, triple_gets, triple_bind, triple_update.
    set (decision := ClassifyInbound p (OnInbound p (fc_session s1)).2).
    pose proof (classify_follows m p (fc_session s1) Hp) as Hfol. cbv zeta in Hfol.
    fold decision in Hfol. case_decide as Hact.
    + assert (ended (set_session (OnInbound p (fc_session s1)).1 s1)) as He.
      { apply ended_session; [apply OnInbound_voice|]. by apply (live_breaks s1 m drained). }
      apply triple_bind. eapply triple_mono; [by apply (note_kind_keeps ended); [apply ended_core|]| |done].
      intros [] s2 Hs2. unfold take_action. rewrite Hact. apply triple_bind, triple_say.
      intros line. apply triple_ret. by apply ended_said.
    + pose proof (live_follows s1 m p drained Hok Hp Hact) as Hlive. fold decision in Hlive.
      apply triple_bind. eapply triple_mono; [apply (note_kind_keeps
        (λ s', live s' [] [] (reply_to (fc_subscribed s') decision) [] false drained))| |done].
      * intros s' s'' Heq Hs'. pose proof Heq as [= _ _ _ _ <- _ _]. by eapply live_core.
      * done.
      * intros [] s2 Hs2. by apply take_action_spec.
  - apply triple_bind, triple_say. intros line. apply triple_ret.
    apply ended_said, (live_breaks s1 m drained); [done..|].
    intros _. unfold follows. by rewrite Hp.
Qed.

(** A pass over the framer. *)
Lemma live_next s :
  live s [] [] [] [] false false →
  match NextMessage (fc_framer s) with
  | (f, Some m) => live (set_framer f s) [m] [] [] [] false false
  | (f, None) => if Good f then quiet (set_framer f s) else ended (set_framer f s)
  end.
Proof.
  intros Hl. destruct (NextMessage (fc_framer s)) as [f [m|]] eqn:Hn.
  - intros Hb. destruct (Hl Hb) as (g & c & t & ts & rs & ms & []).
    pose proof (framing_next _ _ _ la_framing0) as Hf. rewrite Hn, app_nil_r in Hf.
    exists g, c, t, ts, rs, ms. split; try done. apply Hf.
  - assert (∀ g c t ts rs ms, live_at s g c t ts rs ms [] [] [] [] false false →
      messages_of (tk_received t) = ms ∧ (Good f = true → framing (tk_received t) ms f)) as Hdr.
    { intros g c t ts rs ms []. pose proof (framing_next _ _ _ la_framing0) as Hf.
      by rewrite Hn, app_nil_r in Hf. }
    destruct (Good f) eqn:Hg; intros Hb; destruct (Hl Hb) as (g & c & t & ts & rs & ms & Ha);
      destruct (Hdr _ _ _ _ _ _ Ha) as [Hms Hfr].
    + exists g, c, t, ts, rs, ms. destruct Ha. split; try done; cbn.
      * rewrite app_nil_r. by apply Hfr.
      * intros _. by rewrite app_nil_r.
    + pose proof (live_configured _ _ _ _ _ _ _ _ _ _ _ _ _ Ha) as Hcfg.
      exists g, c, t, ts. split_and!; try apply Ha; [|done..].
      apply (live_over s g c t ts rs ms [] true); [|by left]. destruct Ha. split; try done.
      intros _. by rewrite app_nil_r.
Qed.

Lemma drain_passes_spec turns fuel s :
  live s [] [] [] [] false false →
  triple (drain_loop zlib_crc32 ErrnoText world turns fuel) s
    (λ ok s', if ok then quiet s' else ended s') told.
Proof.
  revert s. induction turns as [|turns IH]; intros s Hl.
  { apply triple_wait. eapply live_told; [done|cbn; lia]. }
  cbn [drain_loop]. apply triple_bind, triple_gets, triple_bind, triple_update.
  pose proof (live_next s Hl) as Hn. unfold compose.
  destruct (NextMessage (fc_framer s)) as [f [m|]]; cbn [fst snd].
  - apply triple_bind. eapply triple_mono; [by apply on_framed_spec| |done].
    intros ok s1 Hs1. destruct ok; [by apply IH|by apply triple_ret].
  - destruct (Good f); cbn [negb]; [by apply triple_ret|].
    apply triple_bind, triple_say. intros line. by apply triple_ret, ended_said.
Qed.

Lemma DrainFramedMessages_spec fuel s :
  live s [] [] [] [] false false →
  triple (DrainFramedMessages zlib_crc32 ErrnoText world fuel) s
    (λ ok s', if ok then quiet s' else ended s') told.
Proof. intros Hl. apply triple_bind, triple_gets. by apply drain_passes_spec. Qed.

(** ** The read loop *)

Lemma quiet_told s : quiet s → told s.
Proof. intros Hl. eapply live_told; [done|cbn; lia]. Qed.

Lemma quiet_ended s : quiet s → ended s.
Proof.
  intros Hl Hb. destruct (Hl Hb) as (g & c & t & ts & rs & ms & Ha).
  pose proof (live_configured _ _ _ _ _ _ _ _ _ _ _ _ _ Ha) as Hcfg.
  exists g, c, t, ts. split_and!; try apply Ha; [|done..].
  eapply live_over; [exact Ha|by left].
Qed.

Lemma quiet_received s data :
  quiet s →
  live (set_framer (Append data (fc_framer s)) (did (BytesReceived data) s)) [] [] [] [] false false.
Proof.
  intros Hl Hb. destruct (Hl Hb) as (g & c & t & ts & rs & ms & []).
  exists g, c, (mkTalk (tk_received t ++ data) (tk_sent t) (tk_gave_up t)), ts, rs, ms.
  split; try done; cbn.
  - by rewrite talks_snoc, la_talks0.
  - by apply framing_Append.
Qed.

Lemma read_loop_spec turns fuel s :
  quiet s →
  triple (read_loop zlib_crc32 ErrnoText world turns fuel) s
    (λ stopping s', if stopping then quiet s' else ended s') told.
Proof.
  revert s. induction turns as [|turns IH]; intros s Hq.
  { apply triple_wait. by apply quiet_told. }
  cbn [read_loop]. apply live_asked in Hq as Hq1.
  apply triple_bind, triple_bind, triple_ask, triple_gets.
  destruct (client_stopping (asked s)); [by apply triple_ret|].
  apply triple_bind. eapply triple_mono; [by apply SendHeartbeatIfDue_spec| |done].
  intros ok s2 Hs2. destruct ok; cbn [negb]; [|by apply triple_ret].
  apply live_asked in Hs2 as Hs3. fold (quiet (asked s2)) in Hs3.
  apply triple_bind, triple_ask.
  destruct (mo_recv _) as [[|b data]|errno].
  - apply triple_bind, triple_say. intros line. by apply triple_ret, ended_said, quiet_ended.
  - apply triple_bind, triple_monotonic. intros now. apply live_asked in Hs3 as Hs4.
    do 3 apply triple_bind, triple_update.
    apply triple_bind. eapply triple_mono; [apply DrainFramedMessages_spec| |done].
    + refine (quiet_received (set_watchdog (NoteActivity now (fc_watchdog (asked (asked s2))))
        (asked (asked s2))) (b :: data) _). by eapply live_core, Hs4.
    + intros ok s5 Hs5. destruct ok; [by apply IH|by apply triple_ret].
  - destruct (errno =? EINTR); [by apply IH|].
    destruct (errno =? EAGAIN).
    + apply triple_bind, triple_monotonic. intros now. apply live_asked in Hs3 as Hs4.
      apply triple_bind, triple_gets. destruct (IsStale _ _); [|by apply IH].
      do 2 apply triple_bind, triple_update. apply triple_bind, triple_gets, triple_bind, triple_say.
      intros line. apply triple_ret, ended_said. eapply (ended_core (asked (asked s2))); [done|].
      by apply quiet_ended.
    + apply triple_bind, triple_say. intros line. by apply triple_ret, ended_said, quiet_ended.
Qed.

(** ** Saying goodbye *)

(** The Logout is on its way. *)
Definition leaving (w : bytes) (s : FixClient Q) : Prop :=
  bounded s → ∃ g c t ts rs, inv (fc_capture s) g ∧ lg_open g = Some c ∧
    talks (fc_trace s) = t :: ts ∧ Forall2 (accounted true) (reverse (lg_ended g)) ts ∧
    (log_size g <= fc_tick s)%nat ∧ configured s ∧
    cf_payload (c_marker c) = connect_reason cfg ∧
    Forall (λ f, cf_source f = kDeribitFix) (c_frames c) ∧
    payloads c = messages_of (tk_received t) ∧ followed 1 (payloads c) = payloads c ∧
    script cfg rs ∧ rs ≠ [] ∧ replies rs = owed (payloads c) ∧ tk_sent t ++ w = wire rs.

Lemma leaving_ended s : leaving [] s → ended s.
Proof.
  intros Hl Hb. destruct (Hl Hb) as (g & c & t & ts & rs & H1 & H2 & H3 & H4 & H5 & H6 & H7 & H8 &
    H9 & H10 & H11 & H12 & H13 & H14). rewrite app_nil_r in H14.
  exists g, c, t, ts. split_and!; try done. split; try done.
  - by rewrite H9.
  - rewrite H10. lia.
  - intros. by left.
  - exists rs. rewrite H10. split_and!; try done; [by rewrite H14|by rewrite H13].
Qed.

Lemma leaving_accounted s w : leaving w s → bounded s → ∃ g c t ts,
  inv (fc_capture s) g ∧ lg_open g = Some c ∧ talks (fc_trace s) = t :: ts ∧
  Forall2 (accounted true) (reverse (lg_ended g)) ts ∧ (log_size g <= fc_tick s)%nat ∧
  configured s ∧ accounted false c t.
Proof.
  intros Hl Hb. destruct (Hl Hb) as (g & c & t & ts & rs & H1 & H2 & H3 & H4 & H5 & H6 & H7 & H8 &
    H9 & H10 & H11 & H12 & H13 & H14). exists g, c, t, ts. split_and!; try done. split; try done.
  - by rewrite H9.
  - rewrite H10. lia.
  - exists rs. rewrite H10. split_and!; try done; [rewrite <-H14; by apply prefix_app_r|by rewrite H13].
Qed.

Lemma leaving_told s w : leaving w s → told s.
Proof.
  intros Hl Hb. destruct (leaving_accounted _ _ Hl Hb) as (g & c & t & ts & H1 & H2 & H3 & H4 & H5 & _ & H7).
  exists g, [t], ts. split_and!; [by apply inv_ok|by apply log_size_connects|done..|]. rewrite H2. by exists t.
Qed.

Lemma leaving_gave_up s w : leaving w s → ended (did SendGaveUp s).
Proof.
  intros Hl Hb. destruct (leaving_accounted _ _ Hl Hb) as (g & c & t & ts & H1 & H2 & H3 & H4 & H5 & H6 & H7).
  exists g, c, (mkTalk (tk_received t) (tk_sent t) true), ts. split_and!; try done.
  - cbn. by rewrite talks_snoc, H3.
  - apply accounted_excused; [|by left]. by apply (accounted_talk _ t).
Qed.

Lemma leaving_sent s w n : leaving w s → leaving (drop n w) (did (BytesSent (take n w)) s).
Proof.
  intros Hl Hb. destruct (Hl Hb) as (g & c & t & ts & rs & H1 & H2 & H3 & H4 & H5 & H6 & H7 & H8 &
    H9 & H10 & H11 & H12 & H13 & H14).
  exists g, c, (mkTalk (tk_received t) (tk_sent t ++ take n w) (tk_gave_up t)), ts, rs.
  split_and!; try done; cbn; [by rewrite talks_snoc, H3|by rewrite <-app_assoc, take_drop].
Qed.

Lemma leaving_heard s s' w : heard s s' → leaving w s → leaving w s'.
Proof.
  intros Hh Hl Hb. destruct (Hl (bounded_heard _ _ Hh Hb)) as (g & c & t & ts & rs & H1 & H2 & H3 &
    H4 & H5 & H6 & H7). exists g, c, t, ts, rs. pose proof (configured_heard _ _ Hh H6). destruct Hh.
  split_and!; try done; first [by auto|congruence|lia|apply H7].
Qed.

Lemma quiet_leaving s now :
  quiet s → let r := BuildLogout (B "shutting down") now (fc_session s) in
  leaving r.2 (set_session r.1 s).
Proof.
  intros Hl r Hb. destruct (Hl Hb) as (g & c & t & ts & rs & ms & Ha).
  pose proof (live_configured _ _ _ _ _ _ _ _ _ _ _ _ _ Ha) as [Hc1 Hc2]. destruct Ha.
  destruct (voiced_build rs (ReqLogout (B "shutting down") now) _ la_voice0) as [V1 V2].
  rewrite app_nil_r in *. exists g, c, t, ts, (rs ++ [ReqLogout (B "shutting down") now]).
  split_and!; try done.
  - rewrite la_frames0. by rewrite la_drained0.
  - rewrite la_frames0. by apply (followed_all _ _ _ la_follow0).
  - destruct la_script0 as (a & n & w & said & -> & Hs). right.
    exists a, n, w, said, [ReqLogout (B "shutting down") now]. split_and!; [done..|]. right. eauto.
  - by destruct rs.
  - unfold replies. rewrite omap_app. cbn. by rewrite app_nil_r, la_frames0.
  - rewrite V2, la_sent0. done.
Qed.

Lemma send_logout fuel w s :
  leaving w s →
  triple (SendAll zlib_crc32 ErrnoText world fuel w) s (λ _ s', ended s') told.
Proof.
  intros Hl. eapply triple_mono; [apply (send_loop_spec leaving ended told); [..|exact Hl]| |done].
  - intros w' s' H. eapply leaving_heard; [apply asked_heard|done].
  - intros w' n s'. apply leaving_sent.
  - intros w' s'. apply leaving_gave_up.
  - intros level line s'. apply ended_said.
  - done.
  - intros w' s'. apply leaving_told.
  - intros ok s' H. destruct ok; [by apply leaving_ended|done].
Qed.

(** ** A connection from its Logon to its end *)

Lemma starting_logon s stamp nonce now :
  starting s → let r := build (ReqLogon stamp nonce now) (fc_session s) in
  live (set_session r.1 s) [] [] [] r.2 false true.
Proof.
  intros Hl r Hb. destruct (Hl Hb) as (g & c & ts & H1 & H2 & H3 & H4 & H5 & H6 & H7 & H8 & H9 &
    H10 & H11 & H12 & H13). destruct H6 as [H6 H6'].
  assert (voiced [] (fc_session s)) as Hv by done.
  destruct (voiced_build [] (ReqLogon stamp nonce now) _ Hv) as [V1 V2].
  exists g, c, (mkTalk [] [] false), ts, [ReqLogon stamp nonce now], [].
  split; try done; cbn.
  - by rewrite H8.
  - unfold payloads. by rewrite H8.
  - rewrite H10. apply framing_new.
  - by rewrite H13.
  - by exists stamp, nonce, now, [].
Qed.

Lemma converse_spec fuel s :
  starting s →
  triple (converse zlib_crc32 EVP_EncodeBlock EVP_Digest ErrnoText world fuel) s
    (λ _ s', ended s') told.
Proof.
  intros Hs. unfold converse.
  assert (∀ s, starting s → starting (asked s)) as Hask.
  { intros s' H. eapply starting_heard; [apply asked_heard|done]. }
  apply triple_bind, triple_ask. apply Hask in Hs.
  apply triple_bind, triple_realtime. intros now. apply Hask in Hs.
  apply triple_bind, triple_realtime. intros now'. apply Hask in Hs.
  apply triple_bind, triple_gets, triple_bind, triple_update.
  set (s3 := asked _) in *. unfold BuildLogon, session_loop.
  destruct (mo_random _) as [nonce|]; cbn [GenerateLogonNonce].
  - pose proof (starting_logon s3 (now / 1000000) nonce now' Hs) as Hl. cbv zeta in Hl.
    cbn [FixLink.build] in Hl.
    destruct (BuildLogonWithNonce _ _ _ _ _ _) as [fs message]. cbn [fst snd] in *.
    apply triple_bind. eapply triple_mono; [by apply SendAll_live| |done].
    intros ok s4 Hs4. destruct ok; cbn [negb]; [|by apply triple_ret].
    apply triple_bind, triple_say. intros line.
    apply triple_bind, triple_monotonic. intros now2.
    apply triple_bind, triple_update.
    apply triple_bind. eapply triple_mono; [apply read_loop_spec| |done].
    { eapply live_core; [|by apply live_asked, (live_said kInfo line)]. done. }
    intros stopping s5 Hs5. do 2 apply triple_bind, triple_gets.
    destruct stopping; cbn [andb]; [|by apply triple_ret].
    destruct (_ && _); [|by apply triple_ret, quiet_ended].
    apply triple_bind, triple_build. intros now3. apply triple_bind.
    eapply triple_mono; [apply send_logout, quiet_leaving; by apply live_asked| |done].
    intros ok s6 Hs6. apply triple_say. intros line'. by apply ended_said.
  - cbn [fst snd]. apply triple_say. intros line. apply ended_said.
    exact (starting_ended _ Hs).
Qed.

(** ** Connecting and closing *)

Lemma failed_core s s' : core s = core s' → failed s → failed s'.
Proof.
  intros [= H1 H2 H3 H4 H5 H6 H7] Hl Hb. unfold bounded in Hb. rewrite <-H7 in Hb.
  destruct (Hl Hb) as (g & t & ts & Ha). exists g, t, ts. by rewrite <-H1, <-H2, <-H7.
Qed.

Lemma idle_core s s' : core s = core s' → idle s → idle s'.
Proof.
  intros [= H1 H2 H3 H4 H5 H6 H7] Hl Hb. unfold bounded in Hb. rewrite <-H7 in Hb.
  destruct (Hl Hb) as (g & Ha). exists g. unfold configured in *.
  by rewrite <-H1, <-H2, <-H4, <-H6, <-H7.
Qed.

Lemma connected_core s s' : core s = core s' → connected s → connected s'.
Proof.
  intros [= H1 H2 H3 H4 H5 H6 H7] Hl Hb. unfold bounded in Hb. rewrite <-H7 in Hb.
  destruct (Hl Hb) as (g & ts & Ha). exists g, ts. unfold configured in *.
  by rewrite <-H1, <-H2, <-H4, <-H6, <-H7.
Qed.

Lemma starting_core s s' : core s = core s' → starting s → starting s'.
Proof.
  intros [= H1 H2 H3 H4 H5 H6 H7] Hl Hb. unfold bounded in Hb. rewrite <-H7 in Hb.
  destruct (Hl Hb) as (g & c & ts & Ha). exists g, c, ts. unfold configured in *.
  by rewrite <-H1, <-H2, <-H3, <-H4, <-H5, <-H6, <-H7.
Qed.

(** The socket calls leave no trace among the talks until a socket is ready. *)
Definition unheard (d : deed) : Prop := ∀ ts, hear ts d = ts.

Lemma core_unheard d s : unheard d → core s = core (did d s).
Proof. intros Hd. unfold core. cbn. by rewrite talks_snoc, Hd. Qed.

Lemma idle_ready s : idle s → connected (did SocketReady s).
Proof.
  intros Hl Hb. destruct (Hl Hb) as (g & H1 & H2 & H3 & H4 & H5). exists g, (talks (fc_trace s)).
  split_and!; try done. cbn. by rewrite talks_snoc.
Qed.

Lemma try_candidate_spec c s :
  idle s →
  triple (try_candidate ErrnoText c) s
    (λ r s', match r with None => connected s' | Some _ => idle s' end) told.
Proof.
  intros Hs. unfold try_candidate. destruct (cd_socket c); [by apply triple_ret|].
  apply triple_bind, triple_update, triple_bind, triple_gets.
  assert (idle (did SocketOpened s)) as Ho by by eapply idle_core, Hs; apply core_unheard.
  set (s1 := did SocketOpened s) in *. clearbody s1.
  match goal with |- context [match ?x with Some e => _ | None => _ end] => destruct x as [e|] end.
  - apply triple_bind, triple_update, triple_ret. by eapply idle_core, Ho; apply core_unheard.
  - apply triple_bind. destruct (cd_nodelay c) as [errno|].
    + apply triple_say. intros line. apply triple_bind, triple_update, triple_ret, idle_ready.
      by eapply idle_core, Ho; apply core_said.
    + by apply triple_ret, triple_bind, triple_update, triple_ret, idle_ready.
Qed.

Lemma try_candidates_spec cs e s :
  idle s →
  triple (try_candidates ErrnoText cs e) s
    (λ r s', match r with None => connected s' | Some _ => idle s' end) told.
Proof.
  revert e s. induction cs as [|c cs IH]; intros e s Hs; [by apply triple_ret|].
  cbn. apply triple_bind. eapply triple_mono; [by apply try_candidate_spec| |done].
  intros [e'|] s1 Hs1; [by apply IH|by apply triple_ret].
Qed.

Lemma ConnectSocket_spec s :
  idle s →
  triple (ConnectSocket zlib_crc32 ErrnoText world) s
    (λ r s', match r with None => connected s' | Some _ => idle s' end) told.
Proof.
  intros Hs. unfold ConnectSocket. apply triple_bind, triple_ask, triple_bind, triple_gets.
  apply (idle_heard _ _ (asked_heard s)) in Hs. destruct (mo_addresses _) as [cs|reason];
    [|by apply triple_ret].
  apply triple_bind. eapply triple_mono; [by apply try_candidates_spec| |done].
  intros [e|] s1 Hs1; by apply triple_ret.
Qed.

Lemma reverse_connects g c : lg_open g = Some c → reverse (connects g) = c :: reverse (lg_ended g).
Proof. intros Ho. unfold connects. rewrite Ho. cbn. by rewrite reverse_snoc. Qed.

Lemma connects_closed g : lg_open g = None → connects g = lg_ended g.
Proof. intros Ho. unfold connects. by rewrite Ho, app_nil_r. Qed.

Lemma log_size_closed g : (log_size (mkLog (connects g) None) <= log_size g)%nat.
Proof. unfold log_size. rewrite connects_ended. cbn. lia. Qed.

(** The capture of a connection begins, or fails. *)
Lemma connected_begin s now reason :
  connected s → (bounded s → reason = connect_reason cfg) →
  let s1 := reset_connection now s in let s2 := asked s1 in
  match BeginConnect zlib_crc32 (mo_connect (world (fc_tick s1))) reason kWireSource
          (fc_capture s2) with
  | None => ¬ bounded s2
  | Some (cap, Connected _) => starting (set_capture cap s2)
  | Some (cap, _) => failed (set_capture cap s2)
  end.
Proof.
  intros Hl Hre s1 s2.
  assert (heard s1 s2) as Hh by apply asked_heard.
  assert (bounded s2 → ∃ g ts, inv (fc_capture s2) g ∧ lg_open g = None ∧
    talks (fc_trace s2) = mkTalk [] [] false :: ts ∧
    Forall2 (accounted true) (reverse (lg_ended g)) ts ∧ (S (log_size g) <= fc_tick s2)%nat ∧
    configured s1 ∧ ∃ cap r, BeginConnect zlib_crc32 (mo_connect (world (fc_tick s1)))
        reason kWireSource (fc_capture s2) = Some (cap, r) ∧
      match r with
      | Connected _ => inv cap (mkLog (connects g)
          (Some (log_connect capture_cfg (mo_connect (world (fc_tick s1))) reason
                   kWireSource g)))
      | _ => over zlib_crc32 capture_cfg cap (mkLog (connects g) None)
      end) as Hstep.
  { intros Hb. pose proof (bounded_heard _ _ Hh Hb) as Hb1.
    destruct (Hl Hb1) as (g & ts & H1 & H2 & H3 & H4 & H5 & H6). exists g, ts.
    destruct Hh. split_and!; try done; [by auto|by rewrite hd_trace0|by rewrite hd_tick0; apply le_n_S|].
    apply BeginConnect_inv; [done|by auto|by destruct (world_clocks (fc_tick s1)) as (_ & ? & ? & ?)|].
    unfold bounded in Hb1. unfold log_size in H5. change (fc_tick s1) with (fc_tick s) in Hb1. lia. }
  destruct (BeginConnect _ _ _ _ _) as [[cap r]|] eqn:Hbc.
  2:{ intros Hb. destruct (Hstep Hb) as (g & ts & _ & _ & _ & _ & _ & _ & cap & r & Hr & _). done. }
  assert ((∀ path, r ≠ Connected path) → failed (set_capture cap s2)) as Hfail.
  { intros Hr Hb. destruct (Hstep Hb) as (g & ts & H1 & H2 & H3 & H4 & H5 & H6 & cap' & r' & [= <- <-] & Hi).
    exists (mkLog (connects g) None), (mkTalk [] [] false), ts. split_and!; try done.
    - apply over_dead. destruct r; [by destruct (Hr path)|done..].
    - cbn. by rewrite (connects_closed _ H2).
    - rewrite connects_ended. cbn. unfold log_size in H5. lia. }
  destruct r as [path|error|]; [|by apply Hfail..].
  intros Hb. destruct (Hstep Hb) as (g & ts & H1 & H2 & H3 & H4 & H5 & H6 & cap' & r' & [= <- <-] & Hi).
  eexists _, _, ts. split; [exact Hi|]. split; [reflexivity|]. destruct H6, Hh. split_and!; try done.
  - cbn. by rewrite (connects_closed _ H2).
  - unfold log_size in *. rewrite H2 in H5. unfold connects at 1. cbn in *. rewrite length_app. cbn. lia.
  - split; cbn; congruence.
  - cbn. apply Hre. apply (bounded_heard s1 s2); [apply asked_heard|done].
  - cbn. by rewrite hd_session0.
  - cbn. by rewrite hd_session0.
Qed.

(** Capture has failed for good. *)
Definition given_up (s : FixClient Q) : Prop := failed s ∧ ss_fatal (fc_stop_signal s) = true.

Lemma guarded_spec fuel s :
  connected s →
  triple (guarded zlib_crc32 EVP_EncodeBlock EVP_Digest ErrnoText world fuel) s
    (λ _ s', ended s' ∨ given_up s') told.
Proof.
  intros Hs. unfold guarded. apply triple_bind, triple_gets, triple_bind, triple_say. intros line.
  assert (connected (did (Logged kInfo line) s)) as Hs1 by by eapply connected_core, Hs; apply core_said.
  apply triple_bind, triple_monotonic. intros now.
  apply (connected_heard _ _ (asked_heard _)) in Hs1.
  apply triple_bind, triple_update, triple_bind, triple_ask, triple_bind, triple_gets.
  pose proof (connected_begin _ now (connect_reason (fc_cfg s)) Hs1) as Hbegin.
  cbv zeta in Hbegin. unfold compose. set (s2 := asked (reset_connection _ _)) in *.
  specialize (Hbegin ltac:(intros Hb; destruct (Hs1 Hb) as (? & ? & _ & _ & _ & _ & _ & Hc & _);
    by rewrite <-Hc, (hd_cfg _ _ (asked_heard _)))).
  destruct (BeginConnect _ _ _ _ _) as [[cap r]|]; [|by apply triple_wait; intros Hb].
  apply triple_bind, triple_update. destruct r as [path|error|].
  - apply triple_bind, triple_gets, triple_bind, triple_say. intros line'.
    eapply triple_mono; [apply converse_spec|by auto|done].
    eapply starting_core; [apply core_said|done].
  - apply triple_bind, triple_say. intros line'. apply triple_update. right. split; [|done].
    eapply (failed_core (did _ _)); [done|]. by eapply failed_core, Hbegin; apply core_said.
  - by apply triple_raise, failed_told.
Qed.

(** The capture is closed on every way out. *)
Lemma close_capture_spec s :
  ended s ∨ given_up s →
  triple (close_capture zlib_crc32 world) s (λ _ s', idle s' ∨ given_up s') told.
Proof.
  intros Hs. unfold close_capture. apply triple_bind, triple_ask, triple_bind, triple_gets.
  unfold compose. set (env := mo_close _). clearbody env. destruct Hs as [Hs|[Hs Hf]].
  - apply (ended_heard _ _ (asked_heard s)) in Hs. set (s1 := asked s) in *. clearbody s1.
    assert (∀ cap, Close zlib_crc32 env (fc_capture s1) = Some cap → idle (set_capture cap s1)) as Hc.
    { intros cap Hcap Hb. destruct (Hs Hb) as (g & c & t & ts & H1 & H2 & H3 & H4 & H5 & H6 & H7).
      destruct (Close_inv _ _ env _ _ H1) as (cap' & Hcap' & Hi). rewrite Hcap in Hcap'.
      injection Hcap' as <-. exists (mkLog (connects g) None). split_and!; try done.
      - cbn [lg_ended fc_trace set_capture]. rewrite (reverse_connects _ _ H2), H3. by constructor.
      - cbn [fc_tick set_capture]. pose proof (log_size_closed g). lia. }
    destruct (Close _ _ _) as [cap|] eqn:Hcl; [left; by apply Hc|]. apply triple_wait. intros Hb.
    destruct (Hs Hb) as (g & c & t & ts & H1 & _). by destruct (Close_inv _ _ env _ _ H1) as (? & ? & _);
      simplify_eq.
  - rewrite <-(hd_fatal _ _ (asked_heard s)) in Hf. apply (failed_heard _ _ (asked_heard s)) in Hs.
    set (s1 := asked s) in *. clearbody s1.
    destruct (Close _ _ _) as [cap|] eqn:Hcl.
    + apply triple_update. right. split.
      * intros Hb. destruct (Hs Hb) as (g & t & ts & H1 & H2 & H3 & H4). exists g, t, ts.
        destruct (dead_Close env _ _ H1) as (cap' & Hcap' & Hd). simplify_eq. done.
      * done.
    + apply triple_wait. intros Hb. destruct (Hs Hb) as (g & t & ts & H1 & H2 & H3).
      destruct (dead_Close env _ _ H1) as (cap' & Hcap' & Hd). simplify_eq.
Qed.

(** ** The thread *)

Lemma RunOneConnection_spec fuel s :
  idle s →
  triple (RunOneConnection zlib_crc32 EVP_EncodeBlock EVP_Digest ErrnoText world fuel) s
    (λ _ s', idle s' ∨ given_up s') told.
Proof.
  intros Hs. unfold RunOneConnection. apply triple_bind, triple_update, triple_bind.
  eapply triple_mono; [apply ConnectSocket_spec; by eapply idle_core, Hs| |done].
  intros [e|] s1 Hs1.
  - apply triple_say. intros line. left. by eapply idle_core, Hs1; apply core_said.
  - apply triple_bind. eapply triple_mono; [by apply guarded_spec| |done].
    intros [] s2 Hs2. apply triple_bind. eapply triple_mono; [by apply close_capture_spec| |done].
    intros [] s3 Hs3. apply triple_update.
    assert (core s3 = core (did SocketClosed s3)) as Hc by by apply core_unheard.
    destruct Hs3 as [Hs3|[Hs3 Hf]]; [left; by eapply idle_core|right].
    split; [by eapply failed_core|done].
Qed.

Lemma run_loop_spec turns fuel failures s :
  idle s ∨ given_up s →
  triple (run_loop zlib_crc32 EVP_EncodeBlock EVP_Digest ErrnoText world turns fuel failures) s
    (λ _ s', told s') told.
Proof.
  assert (∀ s, idle s ∨ given_up s → told s) as Htold.
  { intros s' [H|[H _]]; [by apply idle_told|by apply failed_told]. }
  revert failures s. induction turns as [|turns IH]; intros failures s Hs.
  { by apply triple_wait, Htold. }
  cbn [run_loop]. apply triple_bind, triple_bind, triple_ask, triple_gets.
  assert (idle (asked s) ∨ given_up (asked s)) as Hs1.
  { destruct Hs as [Hs|[Hs Hf]]; [left; by eapply idle_heard, Hs; apply asked_heard|right].
    split; [by eapply failed_heard, Hs; apply asked_heard|by rewrite (hd_fatal _ _ (asked_heard s))]. }
  destruct (client_stopping (asked s)) eqn:Hstop; [by apply triple_ret, Htold|].
  assert (idle (asked s)) as Hs2.
  { destruct Hs1 as [|[_ Hf]]; [done|]. unfold client_stopping, Fatal in Hstop.
    rewrite Hf, orb_true_r in Hstop. done. }
  clear Hs Hs1 Hstop. set (s1 := asked s) in *. clearbody s1.
  apply triple_bind, triple_gets, triple_bind.
  eapply (triple_mono _ _ (λ _, idle) _ told); [|intros stop s2 Hs3|done].
  { destruct (_ =? 0); [by apply triple_ret|].
    apply triple_bind, triple_say. intros line.
    assert (idle (did (Logged kInfo line) s1)) as Hl by by eapply idle_core, Hs2; apply core_said.
    apply triple_bind, triple_gets. destruct (client_stopping _); [by apply triple_ret|].
    apply triple_bind, triple_ask, triple_gets. by eapply idle_heard, Hl; apply asked_heard. }
  destruct stop; [by apply triple_ret, idle_told|].
  apply triple_bind, triple_gets, triple_bind.
  eapply triple_mono; [by apply RunOneConnection_spec| |done]. intros [] s3 Hs4.
  apply triple_bind, triple_gets. by apply IH.
Qed.

Definition new_client (n : nat) : FixClient Q :=
  new_FixClient session_cfg (session_with capture_cfg n) cfg.

Lemma new_client_idle n : idle (new_client n).
Proof.
  intros _. exists (mkLog [] None). split_and!; try done.
  apply SetFatalHandler_inv. by apply session_with_inv.
Qed.

End client_proofs.

(** ** An example

    A connection whose exchange accepts the Logon, sends a TestRequest and then
    skips a number; the next connection is stopped while it waits. *)

Definition demo_server : FixSession :=
  new_FixSession (mkSessionConfig (B "DERIBITSERVER") [] (B "client") 30).
Definition demo_inbound : list bytes :=
  let '(s1, m1) := Send msg_type.kLogon [] 1000000000 demo_server in
  let '(s2, m2) := Send msg_type.kTestRequest [mkField tag.kTestReqId (B "ping")] 2000000000 s1 in
  let '(s3, _) := Send msg_type.kHeartbeat [] 3000000000 s2 in
  let '(_, m4) := Send msg_type.kHeartbeat [] 4000000000 s3 in
  [m1; m2; m4].
Definition demo_world (n : nat) : moment :=
  mkMoment (if decide (n = 46%nat) then [AskStop] else [TurnJournal (mkDisk 1000 true)])
    (Z.of_nat (Nat.min n 1000)) 1700000000000000000 (Some (B "nonce"))
    (Expected [mkCandidate None (Some EINPROGRESS) PollReady None 0 None None None None])
    (match n with
     | 13%nat => RecvBytes (take 30 (concat demo_inbound))
     | 16%nat => RecvBytes (drop 30 (concat demo_inbound))
     | _ => RecvErrno EAGAIN
     end)
    (SendAccepted 50) demo_connect (mkCloseEnv true demo_io)
    (mkFrameEnv (Z.of_nat (Nat.min n 1000)) 0).
Definition demo_capture_cfg : Config := mkConfig (B "journal") (B "deribit") [] true 8 true.
Definition demo_client_cfg : FixClientConfig :=
  mkFixClientConfig (B "deribit") (B "host") 9881 [B "BTC-PERPETUAL"] (B "ct-md-1") 10000 1000
    90000000000 1000 30000.
Definition demo_client_run : FixClient (bounded_queue JournalEvent) * ClientBase.progress unit :=
  Run demo_crc demo_base64 demo_base64 (λ _, B "error") demo_world 60
    (new_client demo_capture_cfg (fs_cfg demo_session) demo_client_cfg 1).

(** What the sink was told: the payloads, connect by connect. *)
Definition told_payloads (calls : list FeedEvent) : list bytes :=
  omap (λ ev, match ev with FrameEvent f => Some (cf_payload f) | _ => None end) calls.

Lemma demo_client_runs :
  Run demo_crc demo_base64 demo_base64 (λ _, B "error") demo_world 60
    (new_client (Q:=bounded_queue JournalEvent) demo_capture_cfg (fs_cfg demo_session)
       demo_client_cfg 1) = (demo_client_run.1, demo_client_run.2).
Proof. unfold demo_client_run. apply surjective_pairing. Qed.
Lemma demo_client_ticks : fc_tick demo_client_run.1 = 49%nat.
Proof. vm_compute. reflexivity. Qed.
Lemma demo_client_told : told_payloads <$> cs_sinks (fc_capture demo_client_run.1) = [demo_inbound].
Proof. vm_compute. reflexivity. Qed.

