(* ===== verification/FixClientLive.v ===== *)
(** * A stop request ends the connection thread

    Once another thread has asked the client to stop, its thread comes to an
    end, whatever the exchange does, and leaves no socket open and no capture
    unclosed. *)

From S2P Require Import Prelude Text FixMessage FixFramer FixSession FixLink Feed Ring Journal.
From S2P Require Import JournalProofs JournalCrash JournalThread CaptureSession ThreadProofs.
From S2P Require Import SessionProofs ClientBase FixClient FixClientSpec FixClientProofs.

Section live.
Variable zlib_crc32 : Z → bytes → Z.
Context {Q : Type} `{!ReaderWriterQueue Q JournalEvent, !ReaderWriterQueueLaws Q JournalEvent}.

(** ** The barrier of [Close] is always passed *)

Lemma Handle_keeps d ev (t : JournalThread Q) :
  contents (Handle zlib_crc32 d ev t).1 = contents t ∧
  jt_started (Handle zlib_crc32 d ev t).1 = jt_started t.
Proof.
  assert (∀ w (t : JournalThread Q), contents (AfterWrite w t) = contents t ∧
    jt_started (AfterWrite w t) = jt_started t) as Haw.
  { intros w t'. destruct (AfterWrite_frame w t') as (H1 & _ & H2 & _). unfold contents. by rewrite H1. }
  unfold Handle. destruct ev as [frame|[path w] marker| |]; [| | |done].
  - destruct (jt_writer t) as [[path w]|]; [|done].
    apply (Haw _ (update_writer (path, JournalWriter_OnFrame _ _ _ w) t)).
  - apply (Haw _ (update_writer (path, WriteConnectMarker _ _ _ w) (assign_writer (Some (path, w)) t))).
  - destruct (jt_writer t) as [[path w]|]; [|done].
    apply (Haw _ (update_writer (path, Flush _ w) t)).
Qed.

Lemma await_completes turns io (t : JournalThread Q) :
  jt_started t = true → JournalDisconnect ∈ contents t → (length (contents t) <= turns)%nat →
  ∃ t' records, await zlib_crc32 turns io t = (t', Some records).
Proof.
  revert io t. induction turns as [|turns IH]; intros io t Hs Hin Hlen.
  { destruct (contents t); [by apply not_elem_of_nil in Hin|cbn in Hlen; lia]. }
  destruct (contents t) as [|ev evs] eqn:Hc; [by apply not_elem_of_nil in Hin|].
  destruct (Turn_pops zlib_crc32 (io 0%nat) t _ _ Hs Hc) as (r & Hr & Ht). cbn [await]. rewrite Ht.
  destruct (Handle_keeps (io 0%nat) ev (set_ring r t)) as [H1 H2].
  assert (contents (set_ring r t) = evs) as Hr' by done. rewrite Hr' in H1.
  destruct (Handle zlib_crc32 (io 0%nat) ev (set_ring r t)) as [t' res] eqn:Hh. cbn in H1, H2.
  assert (ev = JournalDisconnect ∨ ev ≠ JournalDisconnect) as [->|Hne] by (destruct ev; auto).
  - unfold Handle in Hh. cbn in Hh. destruct (jt_writer t) as [[path w]|]; injection Hh as <- <-; eauto.
  - destruct (IH (λ n, io (S n)) t') as (t2 & records & Hw).
    + congruence.
    + rewrite H1. set_solver.
    + rewrite H1. cbn in Hlen. lia.
    + rewrite Hw. destruct res; eauto.
Qed.

Lemma Close_total env (s : CaptureSession Q) : ∃ s', Close zlib_crc32 env s = Some s'.
Proof.
  unfold Close. set (s1 := match cs_writer s with Some _ => _ | None => _ end). clearbody s1.
  destruct (cs_journal s1) as [t|]; cbn; [|destruct (negb _); eauto].
  destruct (cs_journal_open s1); cbn; [|destruct (negb _); eauto].
  unfold JournalThread_Disconnect. set (t1 := set_ring _ _).
  assert (contents t1 = contents (JournalThread_Start t) ++ [JournalDisconnect]) as Hc
    by apply contents_PushControl.
  destruct (await_completes (queued t1) (close_io env) t1) as (t2 & records & ->).
  - done.
  - rewrite Hc. set_solver.
  - done.
  - cbn. destruct (negb _); eauto.
Qed.

(** ** Time passes *)

Variable EVP_EncodeBlock EVP_Digest : bytes → option bytes.
Variable ErrnoText : Z → bytes.
Variable world : nat → moment.
(** Another thread asks for the stop; a peer that is slow to read does not stop
    all sends for ever. *)
Variable stop_tick : nat.
Hypothesis stop_asked : AskStop ∈ mo_others (world stop_tick).
Definition moves (r : send_result) : bool :=
  match r with
  | SendAccepted n => negb (n =? 0)%nat
  | SendErrno errno => negb (errno =? EINTR)
  end.
Hypothesis sends_move : ∀ n, ∃ m, (n <= m)%nat ∧ moves (mo_send (world m)) = true.

Definition requested (s : FixClient Q) : bool := ss_stop_requested (fc_stop_signal s).
Definition stop_known (s : FixClient Q) : Prop := (stop_tick < fc_tick s)%nat → requested s = true.

(** Sockets opened and not closed. *)
Definition socket_delta (d : deed) : Z :=
  match d with SocketOpened => 1 | SocketClosed => -1 | _ => 0 end.
Definition open_sockets (trace : list deed) : Z := foldr (λ d n, socket_delta d + n) 0 trace.

Lemma open_sockets_snoc trace d : open_sockets (trace ++ [d]) = open_sockets trace + socket_delta d.
Proof.
  unfold open_sockets. induction trace as [|d' trace IH]; cbn [app foldr] in *; lia.
Qed.

(** What a step of the thread may do; with [b], the framer is left alone. *)
Record later (b : bool) (s s' : FixClient Q) : Prop := {
  lt_tick : (fc_tick s <= fc_tick s')%nat;
  lt_known : stop_known s → stop_known s';
  lt_sockets : open_sockets (fc_trace s') = open_sockets (fc_trace s);
  lt_framer : b = true → fc_framer s' = fc_framer s;
}.

#[local] Instance later_preorder b : PreOrder (later b).
Proof.
  split; [by intros s; split|]. intros s1 s2 s3 [] []. split; [lia|by auto|congruence|].
  intros Hb. rewrite <-lt_framer0 by done. auto.
Qed.

(** Steps that touch neither the clock, nor the stop signal, nor a socket. *)
Lemma later_same b s s' :
  fc_tick s' = fc_tick s → requested s' = requested s →
  open_sockets (fc_trace s') = open_sockets (fc_trace s) →
  (b = true → fc_framer s' = fc_framer s) → later b s s'.
Proof. intros H1 H2 H3 H4. split; [lia| |done..]. unfold stop_known. by rewrite H1, H2. Qed.

Lemma later_any b s s' : later true s s' → later b s s'.
Proof. intros []. split; auto. Qed.

Lemma later_did b d s : socket_delta d = 0 → later b s (did d s).
Proof. intros Hd. apply later_same; try done. cbn. rewrite open_sockets_snoc. lia. Qed.

Abbreviation asked := (asked zlib_crc32 world).

Definition others (os : list other_thread) (s : FixClient Q) : FixClient Q :=
  foldl (λ s o, other zlib_crc32 o s) s os.

Lemma others_requested os s :
  requested s = true ∨ AskStop ∈ os → requested (others os s) = true.
Proof.
  revert s. induction os as [|o os IH]; intros s H; cbn.
  { destruct H as [H|H]; [done|by apply not_elem_of_nil in H]. }
  fold (others os (other zlib_crc32 o s)). apply IH.
  destruct o as [|d]; [by left|]. destruct H as [H|H]; [by left|right]. set_solver.
Qed.

Lemma asked_tick s : fc_tick (asked s) = S (fc_tick s).
Proof.
  unfold FixClientProofs.asked, ask. cbn. f_equal. fold (others (mo_others (world (fc_tick s))) s).
  generalize (mo_others (world (fc_tick s))). intros os. revert s.
  induction os as [|o os IH]; intros s; [done|]. cbn. fold (others os (other zlib_crc32 o s)).
  rewrite IH. by destruct o.
Qed.

Lemma asked_trace s : fc_trace (asked s) = fc_trace s.
Proof.
  unfold FixClientProofs.asked, ask. cbn. fold (others (mo_others (world (fc_tick s))) s).
  generalize (mo_others (world (fc_tick s))). intros os. revert s.
  induction os as [|o os IH]; intros s; [done|]. cbn. fold (others os (other zlib_crc32 o s)).
  rewrite IH. by destruct o.
Qed.

Lemma asked_framer s : fc_framer (asked s) = fc_framer s.
Proof.
  unfold FixClientProofs.asked, ask. cbn. fold (others (mo_others (world (fc_tick s))) s).
  generalize (mo_others (world (fc_tick s))). intros os. revert s.
  induction os as [|o os IH]; intros s; [done|]. cbn. fold (others os (other zlib_crc32 o s)).
  rewrite IH. by destruct o.
Qed.

Lemma asked_later b s : later b s (asked s).
Proof.
  split; [rewrite asked_tick; lia| |by rewrite asked_trace|by rewrite asked_framer].
  unfold stop_known. rewrite asked_tick. intros Hk Hlt.
  assert (requested (asked s) = requested (others (mo_others (world (fc_tick s))) s)) as -> by done.
  apply others_requested. destruct (decide (fc_tick s = stop_tick)) as [->|Hne]; [by right|].
  left. apply Hk. lia.
Qed.

(** ** Every part of the thread ends *)

Lemma settles_ask_bind {A} (k : nat → nat → moment → io (FixClient Q) A) s P :
  settles (λ turns fuel, k turns fuel (world (fc_tick s))) (asked s) P →
  settles (λ turns fuel, io_bind (ask zlib_crc32 world) (k turns fuel)) s P.
Proof. done. Qed.
Lemma settles_monotonic_bind {A} (k : nat → nat → Z → io (FixClient Q) A) s P :
  (∀ now, settles (λ turns fuel, k turns fuel now) (asked s) P) →
  settles (λ turns fuel, io_bind (MonotonicNowNs zlib_crc32 world) (k turns fuel)) s P.
Proof. intros H. apply H. Qed.
Lemma settles_realtime_bind {A} (k : nat → nat → Z → io (FixClient Q) A) s P :
  (∀ now, settles (λ turns fuel, k turns fuel now) (asked s) P) →
  settles (λ turns fuel, io_bind (RealtimeNowNs zlib_crc32 world) (k turns fuel)) s P.
Proof. intros H. apply H. Qed.
Lemma settles_say_bind {A} level line (k : nat → nat → unit → io (FixClient Q) A) s P :
  (∀ line, settles (λ turns fuel, k turns fuel tt) (did (Logged level line) s) P) →
  settles (λ turns fuel, io_bind (say level line) (k turns fuel)) s P.
Proof. intros H. apply H. Qed.
Lemma settles_say level line s (P : unit → FixClient Q → Prop) :
  (∀ line, P tt (did (Logged level line) s)) → settles (λ _ _, say level line) s P.
Proof. intros H. apply settles_now. apply H. Qed.
Lemma settles_build_bind {A} f (k : nat → nat → bytes → io (FixClient Q) A) s P :
  (∀ message fs, settles (λ turns fuel, k turns fuel message) (set_session fs (asked s)) P) →
  settles (λ turns fuel, io_bind (build_with zlib_crc32 world f) (k turns fuel)) s P.
Proof. intros H. apply H. Qed.

(** [m] ends, later. *)
Definition ends (b : bool) {A} (m : nat → nat → io (FixClient Q) A) (s : FixClient Q) : Prop :=
  settles m s (λ _ s', later b s s').

Lemma said_later b level line (s : FixClient Q) : later b s (did (Logged level line) s).
Proof. by apply later_did. Qed.

Lemma asked_later' b s s' : later b s s' → later b s (asked s').
Proof. intros H. etrans; [exact H|apply asked_later]. Qed.
Lemma said_later' b level line s s' : later b s s' → later b s (did (Logged level line) s').
Proof. intros H. etrans; [exact H|apply said_later]. Qed.

(** A send ends with the bytes or with the first error. *)
Lemma send_loop_ends b w s : settles (λ turns _, send_loop zlib_crc32 ErrnoText world turns w) s
  (λ _ s', later b s s').
Proof.
  remember (length w) as k eqn:Hk. revert w s Hk.
  induction k as [k IHk] using lt_wf_ind. intros w s Hk.
  destruct (sends_move (fc_tick s)) as (m & Hm & Hmove).
  remember (m - fc_tick s)%nat as dist eqn:Hd. revert s Hm Hd.
  induction dist as [|dist IHd]; intros s Hm Hd; (destruct w as [|x w];
    [exists O, (set_last_outbound (mo_monotonic (world (fc_tick s))) (asked s)), true;
     (split; [by intros [] ?|]); etrans; [apply asked_later|by apply later_same]|]);
    (eapply settles_turn; [reflexivity|]; apply settles_ask_bind);
    destruct (mo_send (world (fc_tick s))) as [n|errno] eqn:Hs.
  - assert (m = fc_tick s) as -> by lia. rewrite Hs in Hmove. destruct n as [|n]; [done|].
    apply (settles_update_bind _ (λ turns _ _, send_loop _ _ _ turns _)).
    eapply settles_mono; [eapply IHk; [|done]; cbn; rewrite length_drop; cbn in Hk; lia|].
    intros ok s' Hs'. etrans; [apply asked_later|]. etrans; [|exact Hs']. by apply later_did.
  - assert (m = fc_tick s) as -> by lia. rewrite Hs in Hmove. cbn in Hmove.
    destruct (errno =? EINTR); [done|].
    apply settles_update_bind, settles_say_bind. intros line. apply settles_ret.
    apply said_later'. etrans; [apply asked_later|by apply later_did].
  - apply (settles_update_bind _ (λ turns _ _, send_loop _ _ _ turns _)).
    destruct n as [|n].
    + eapply settles_mono; [apply (IHd (did _ (asked s)))|].
      * change (m >= fc_tick (asked s))%nat. rewrite asked_tick. lia.
      * change (dist = m - fc_tick (asked s))%nat. rewrite asked_tick. lia.
      * intros ok s' Hs'. etrans; [apply asked_later|]. etrans; [|exact Hs']. by apply later_did.
    + eapply settles_mono; [eapply IHk; [|done]; cbn; rewrite length_drop; cbn in Hk; lia|].
      intros ok s' Hs'. etrans; [apply asked_later|]. etrans; [|exact Hs']. by apply later_did.
  - destruct (errno =? EINTR).
    + eapply settles_mono; [apply (IHd (asked s)); rewrite asked_tick; lia|].
      intros ok s' Hs'. etrans; [apply asked_later|exact Hs'].
    + apply settles_update_bind, settles_say_bind. intros line. apply settles_ret.
      apply said_later'. etrans; [apply asked_later|by apply later_did].
Qed.

Lemma SendAll_ends b w s : ends b (λ _ fuel, SendAll zlib_crc32 ErrnoText world fuel w) s.
Proof. apply (settles_swap (λ turns _, send_loop _ _ _ turns w)), send_loop_ends. Qed.

(** Closes [later] goals along the steps taken. *)
Ltac later :=
  cbv beta in *;
  repeat first
    [ reflexivity
    | apply asked_later'
    | apply said_later'
    | match goal with
      | H : later _ ?s ?s' |- later _ ?s ?s' => first [exact H|exact (later_any _ _ _ H)]
      | H : later _ ?s1 ?s2 |- later _ _ ?s2 =>
          etrans; [|first [exact H|exact (later_any _ _ _ H)]]
      | |- later _ _ (did ?d ?s) => etrans; [|apply (later_did _ d s); reflexivity]
      | |- later _ _ (_ _ ?s) => etrans; [|apply (later_same _ s); [reflexivity..|by intros]]
      end ].

Lemma send_built_ends b f s :
  ends b (λ _ fuel, let* message := build_with zlib_crc32 world f in
                  SendAll zlib_crc32 ErrnoText world fuel message)%io s.
Proof.
  apply (settles_build_bind _ (λ _ fuel message, SendAll _ _ _ fuel message)). intros message fs.
  eapply settles_mono; [apply SendAll_ends|]. intros ok s' H. later.
Qed.

Lemma SendHeartbeatIfDue_ends b s :
  ends b (λ _ fuel, SendHeartbeatIfDue zlib_crc32 ErrnoText world fuel) s.
Proof.
  do 2 apply settles_gets_bind. destruct (_ || _); [by apply settles_ret; later|].
  apply settles_monotonic_bind. intros now. apply settles_gets_bind.
  destruct (_ <? _); [by apply settles_ret; later|].
  eapply settles_mono; [apply send_built_ends|]. intros ok s' H. later.
Qed.

Lemma JournalMessage_ends b m s : ends b (λ _ _, JournalMessage zlib_crc32 world m) s.
Proof.
  apply settles_ask_bind, settles_gets_bind, settles_update_bind.
  match goal with |- context [if ?b then io_ret true else _] => destruct b end;
    [apply settles_ret; later|].
  apply settles_gets_bind. case_decide.
  - apply settles_say_bind. intros line. apply settles_ret. later.
  - apply settles_ret. later.
Qed.

Lemma note_kind_ends b parsed decision s : ends b (λ _ _, note_kind parsed decision) s.
Proof.
  unfold note_kind. destruct (id_kind decision);
    first [by apply settles_ret; later
          |apply settles_update_bind, settles_say; intros line; later
          |apply settles_say; intros line; later
          |apply settles_update; later].
Qed.

Lemma take_action_ends b decision s :
  ends b (λ _ fuel, take_action zlib_crc32 ErrnoText world fuel decision) s.
Proof.
  unfold take_action. destruct (id_action decision).
  - apply settles_ret. later.
  - apply settles_gets_bind. destruct (fc_subscribed s); [apply settles_ret; later|].
    apply settles_gets_bind, (settles_build_bind _ (λ _ fuel message, io_bind _ _)).
    intros message fs. apply (settles_bind (λ _ fuel, SendAll _ _ _ fuel message) (λ _ _ sent, _)).
    eapply settles_mono; [apply SendAll_ends|]. intros ok s' H.
    destruct ok; cbn [negb]; [|apply settles_ret; later].
    apply settles_update_bind, settles_say_bind. intros line. apply settles_ret. later.
  - apply send_built_ends.
  - apply settles_say_bind. intros line. apply settles_ret. later.
Qed.

Lemma on_framed_ends b m s : ends b (λ _ fuel, on_framed zlib_crc32 ErrnoText world fuel m) s.
Proof.
  apply (settles_update_bind _ (λ _ fuel _, io_bind _ _)).
  apply (settles_bind (λ _ _, JournalMessage _ _ m) (λ _ fuel journaled, _)).
  eapply settles_mono; [apply JournalMessage_ends|]. intros ok s1 H1.
  destruct ok; cbn [negb]; [|apply settles_ret; later].
  destruct (ParseMessage m) as [p|error].
  - apply settles_gets_bind, (settles_update_bind _ (λ _ fuel _, io_bind _ _)).
    apply (settles_bind (λ _ _, note_kind _ _) (λ _ fuel _, take_action _ _ _ fuel _)).
    eapply settles_mono; [apply note_kind_ends|]. intros [] s2 H2.
    eapply settles_mono; [apply take_action_ends|]. intros ok s3 H3. later.
  - apply settles_say_bind. intros line. apply settles_ret. later.
Qed.

(** Every message handed out shrinks what the framer holds. *)
Lemma NextMessage_shrinks f f' m :
  NextMessage f = (f', Some m) → (BufferedBytes f' < BufferedBytes f)%nat.
Proof.
  unfold NextMessage. destruct (negb _); [done|].
  destruct (scan_head _ _) as [| |total] eqn:Hs; [done..|]. intros [= <- <-].
  apply scan_head_framed in Hs. rewrite length_drop in Hs. unfold BufferedBytes. cbn. lia.
Qed.

Lemma drain_loop_ends passes s :
  (BufferedBytes (fc_framer s) < passes)%nat →
  ends false (λ _ fuel, drain_loop zlib_crc32 ErrnoText world passes fuel) s.
Proof.
  revert s. induction passes as [|passes IH]; intros s Hlt; [lia|]. cbn [drain_loop].
  apply (settles_gets_bind _ (λ _ fuel r, io_bind _ _)), (settles_update_bind _ (λ _ fuel _, _)).
  unfold compose. destruct (NextMessage (fc_framer s)) as [f [m|]] eqn:Hn; cbn [fst snd].
  - apply (settles_bind (λ _ fuel, on_framed _ _ _ fuel m) (λ _ fuel on, _)).
    eapply settles_mono; [apply (on_framed_ends true)|]. intros ok s1 H1.
    destruct ok; [|apply settles_ret; later].
    eapply settles_mono; [apply IH|intros ok s2 H2; later].
    rewrite (lt_framer _ _ _ H1 eq_refl). cbn. apply NextMessage_shrinks in Hn. lia.
  - destruct (negb (Good f)).
    + apply settles_say_bind. intros line. apply settles_ret. later.
    + apply settles_ret. later.
Qed.

Lemma DrainFramedMessages_ends s :
  ends false (λ _ fuel, DrainFramedMessages zlib_crc32 ErrnoText world fuel) s.
Proof.
  apply (settles_gets_bind _ (λ _ fuel buffered, drain_loop _ _ _ (S buffered) fuel)).
  apply drain_loop_ends. unfold compose. lia.
Qed.

Lemma settles_stopping_bind {A} (k : nat → nat → bool → io (FixClient Q) A) s P :
  settles (λ turns fuel, k turns fuel (client_stopping (asked s))) (asked s) P →
  settles (λ turns fuel, io_bind (ask_stopping zlib_crc32 world) (k turns fuel)) s P.
Proof. done. Qed.

(** After a check that did not stop the thread, the request is still to come. *)
Lemma not_yet s : stop_known s → client_stopping (asked s) = false → (fc_tick s < stop_tick)%nat.
Proof.
  intros Hk Hs. pose proof (lt_known _ _ _ (asked_later true s) Hk) as Hk'.
  unfold stop_known, client_stopping in *. fold (requested (asked s)) in Hs. rewrite asked_tick in Hk'.
  destruct (decide (fc_tick s < stop_tick)%nat) as [|Hge]; [done|].
  rewrite Hk' in Hs by lia. done.
Qed.

(** Each pass of the read loop asks at least once; after the stop was asked for,
    the next pass is the last. *)
Lemma read_loop_ends s :
  stop_known s → ends false (λ turns fuel, read_loop zlib_crc32 ErrnoText world turns fuel) s.
Proof.
  remember (S stop_tick - fc_tick s)%nat as dist eqn:Hd. revert s Hd.
  induction dist as [dist IH] using lt_wf_ind. intros s Hd Hk.
  eapply settles_turn; [reflexivity|]. cbn [read_loop].
  apply (settles_stopping_bind (λ turns fuel stopping, if stopping : bool then _ else _)).
  destruct (client_stopping (asked s)) eqn:Hstop; [apply settles_ret; later|].
  pose proof (not_yet s Hk Hstop) as Hlt.
  assert (∀ s', later false (asked s) s' →
    settles (λ turns fuel, read_loop zlib_crc32 ErrnoText world turns fuel) s'
      (λ _ s'', later false s s'')) as Hagain.
  { intros s' Hs'. pose proof (lt_tick _ _ _ Hs') as Ht. rewrite asked_tick in Ht.
    eapply settles_mono; [eapply IH; [|done|]|].
    - lia.
    - apply (lt_known _ _ _ Hs'), (lt_known _ _ _ (asked_later false s)), Hk.
    - intros a s'' H. later. }
  apply (settles_bind (λ _ fuel, SendHeartbeatIfDue _ _ _ fuel) (λ turns fuel on, _)).
  eapply settles_mono; [apply (SendHeartbeatIfDue_ends false)|]. intros ok s1 H1.
  destruct ok; cbn [negb]; [|apply settles_ret; later].
  apply (settles_ask_bind (λ turns fuel m, _)).
  destruct (mo_recv _) as [[|x data]|errno].
  - apply settles_say_bind. intros line. apply settles_ret. later.
  - apply (settles_monotonic_bind (λ turns fuel now, _)). intros now.
    do 3 apply (settles_update_bind _ (λ turns fuel _, io_bind _ _)).
    apply (settles_bind (λ _ fuel, DrainFramedMessages _ _ _ fuel) (λ turns fuel on, _)).
    eapply settles_mono; [apply DrainFramedMessages_ends|]. intros ok s2 H2.
    destruct ok; [apply Hagain; later|apply settles_ret; later].
  - destruct (errno =? EINTR); [apply Hagain; later|]. destruct (errno =? EAGAIN).
    + apply (settles_monotonic_bind (λ turns fuel now, _)). intros now.
      apply (settles_gets_bind _ (λ turns fuel watchdog, _)).
      destruct (IsStale _ _); [|apply Hagain; later].
      do 2 apply settles_update_bind. apply settles_gets_bind, settles_say_bind. intros line.
      apply settles_ret. later.
    + apply settles_say_bind. intros line. apply settles_ret. later.
Qed.

Lemma converse_ends s :
  stop_known s →
  ends false (λ _ fuel, converse zlib_crc32 EVP_EncodeBlock EVP_Digest ErrnoText world fuel) s.
Proof.
  intros Hk. apply (settles_ask_bind (λ _ fuel m, _)).
  apply (settles_realtime_bind (λ _ fuel now, _)). intros now.
  apply (settles_realtime_bind (λ _ fuel now, _)). intros now'.
  apply (settles_gets_bind _ (λ _ fuel fs, _)), (settles_update_bind _ (λ _ fuel _, _)).
  set (logon := BuildLogon _ _ _ _ _ _). clearbody logon.
  unfold session_loop. destruct logon as [fs [message|error]]; cbn [fst snd]; [|apply settles_say; intros line; later].
  apply (settles_bind (λ _ fuel, SendAll _ _ _ fuel message) (λ _ fuel sent, _)).
  eapply settles_mono; [apply (SendAll_ends false)|]. intros ok s1 H1.
  destruct ok; cbn [negb]; [|apply settles_ret; later].
  apply (settles_say_bind _ _ (λ _ fuel _, _)). intros line.
  apply (settles_monotonic_bind (λ _ fuel now, _)). intros now2.
  apply (settles_update_bind _ (λ _ fuel _, _)).
  set (s2 := set_watchdog _ _). assert (later false s s2) as H2 by (subst s2; later).
  apply (settles_bind (λ _ fuel, read_loop _ _ _ fuel fuel) (λ _ fuel stopping, _)).
  eapply settles_mono; [apply settles_enter, read_loop_ends, (lt_known _ _ _ H2), Hk|].
  intros stopping s3 H3. do 2 apply (settles_gets_bind _ (λ _ fuel _, _)).
  destruct (_ && _ && _); [|apply settles_ret; later].
  apply (settles_build_bind _ (λ _ fuel message, _)). intros bye fs'.
  apply (settles_bind (λ _ fuel, SendAll _ _ _ fuel bye) (λ _ fuel _, _)).
  eapply settles_mono; [apply (SendAll_ends false)|]. intros ok s4 H4.
  apply settles_say. intros line'. later.
Qed.

(** ** Sockets and captures *)

(** No file is open and no connect announced. *)
Definition shut (c : CaptureSession Q) : Prop :=
  cs_announced c = false ∧ cs_writer c = None ∧
  (is_Some (cs_journal c) → cs_journal_open c = false).

Lemma shut_turn d (c : CaptureSession Q) : shut c → shut (journal_turn zlib_crc32 d c).
Proof.
  intros (H1 & H2 & H3). unfold journal_turn. destruct (cs_journal c) as [t|] eqn:Hj.
  2:{ split_and!; [done..|by rewrite Hj]. }
  pose proof (journal_moved_moves (Turn zlib_crc32 d t).1 c) as [].
  split_and!; [congruence..|]. intros _. rewrite moved_open. by apply H3.
Qed.

Lemma asked_shut s : shut (fc_capture s) → shut (fc_capture (asked s)).
Proof.
  unfold FixClientProofs.asked, ask. cbn. fold (others (mo_others (world (fc_tick s))) s).
  generalize (mo_others (world (fc_tick s))). intros os. revert s.
  induction os as [|o os IH]; intros s Hs; [done|]. cbn. fold (others os (other zlib_crc32 o s)).
  apply IH. destruct o; [done|]. by apply shut_turn.
Qed.

Lemma finish_shut (c : CaptureSession Q) :
  cs_writer c = None → (is_Some (cs_journal c) → cs_journal_open c = false) → shut (finish c).
Proof.
  intros H1 H2. unfold finish. destruct (cs_announced c) eqn:Ha; cbn; by split_and!.
Qed.

Lemma Close_shut env (c c' : CaptureSession Q) : Close zlib_crc32 env c = Some c' → shut c'.
Proof.
  unfold Close. set (c1 := match cs_writer c with Some _ => _ | None => _ end).
  assert (cs_writer c1 = None) as Hw
    by (subst c1; by destruct (cs_writer c) as [[path w]|] eqn:Hw). clearbody c1.
  assert (∀ c2, (if negb (cs_announced c2) then Some c2 else
    Some (tell_sinks (DisconnectEvent (cs_connect_id c2)) (set_announced false c2))) = Some c' →
    c' = finish c2) as Hfin.
  { intros c2. unfold finish. by destruct (cs_announced c2); intros [= <-]. }
  destruct (cs_journal c1) as [t|] eqn:Hj; [destruct (cs_journal_open c1) eqn:Ho|]; cbn.
  - destruct (JournalThread_Disconnect _ _ t) as [t' [records|]]; cbn; [|done].
    intros Hc. apply (Hfin (set_current_path [] (set_journal_open false
      (add_closed_records records (journal_moved t' c1))))) in Hc as ->.
    pose proof (journal_moved_moves t' c1) as [].
    apply finish_shut; [cbn; congruence|done].
  - intros Hc. apply Hfin in Hc as ->. by apply finish_shut.
  - intros Hc. apply Hfin in Hc as ->. apply finish_shut; [done|]. rewrite Hj. by intros [].
Qed.

(** The state between connections. *)
Definition at_rest (n : nat) (s : FixClient Q) : Prop :=
  stop_known s ∧ open_sockets (fc_trace s) = 0 ∧ shut (fc_capture s) ∧ (n <= fc_tick s)%nat.

Lemma at_rest_asked n s : at_rest n s → at_rest n (asked s).
Proof.
  intros (H1 & H2 & H3 & H4). destruct (asked_later true s).
  split_and!; [by auto|congruence|by apply asked_shut|lia].
Qed.

Lemma at_rest_said n level line s : at_rest n s → at_rest n (did (Logged level line) s).
Proof.
  intros (H1 & H2 & H3 & H4). destruct (said_later true level line s).
  split_and!; [by auto|congruence|done|lia].
Qed.

(** One socket is open. *)
Definition on_socket (n : nat) (s : FixClient Q) : Prop :=
  stop_known s ∧ open_sockets (fc_trace s) = 1 ∧ (n <= fc_tick s)%nat.

Lemma on_socket_later n s s' : on_socket n s → later false s s' → on_socket n s'.
Proof. intros (H1 & H2 & H3) []. split_and!; [by auto|congruence|lia]. Qed.

Lemma try_candidate_ends n c s :
  at_rest n s →
  settles (λ _ _, try_candidate ErrnoText c) s
    (λ r s', match r with None => on_socket n s' | Some _ => at_rest n s' end).
Proof.
  intros Hs. unfold try_candidate. destruct (cd_socket c); [by apply settles_ret|].
  apply settles_update_bind, settles_gets_bind.
  assert (on_socket n (did SocketOpened s)) as Ho.
  { destruct Hs as (H1 & H2 & H3 & H4). split_and!; [done| |done]. cbn. rewrite open_sockets_snoc, H2. done. }
  assert (shut (fc_capture (did SocketOpened s))) as Hsh by apply Hs.
  set (s1 := did SocketOpened s) in *. clearbody s1. clear Hs.
  match goal with |- context [match ?x with Some e => _ | None => _ end] => destruct x as [e|] end.
  - apply settles_update_bind, settles_ret. destruct Ho as (H1 & H2 & H3). split_and!; [done| |done..].
    cbn. rewrite open_sockets_snoc, H2. done.
  - destruct (cd_nodelay c) as [errno|].
    + apply settles_say_bind. intros line. apply settles_update_bind, settles_ret.
      eapply on_socket_later; [exact Ho|]. later.
    + apply (settles_update_bind (did SocketReady) (λ _ _ _, io_ret None)), settles_ret.
      eapply on_socket_later; [exact Ho|]. later.
Qed.

Lemma ConnectSocket_ends n s :
  at_rest n s →
  settles (λ _ _, ConnectSocket zlib_crc32 ErrnoText world) s
    (λ r s', match r with None => on_socket n s' | Some _ => at_rest n s' end).
Proof.
  intros Hs%at_rest_asked. apply settles_ask_bind, settles_gets_bind. set (s1 := asked s) in *.
  clearbody s1. destruct (mo_addresses _) as [cs|reason]; [|by apply settles_ret].
  apply (settles_bind (λ _ _, try_candidates _ _ _) (λ _ _ error, _)).
  eapply (settles_mono _ _ (λ r s', match r with None => on_socket n s' | Some _ => at_rest n s' end));
    [|intros [e|] s' Hs'; by apply settles_ret].
  generalize (B "no address for " ++ fcc_host (fc_cfg s1)). intros e. revert e s1 Hs.
  induction cs as [|c cs IH]; intros e s1 Hs; [by apply settles_ret|]. cbn [try_candidates].
  apply (settles_bind (λ _ _, try_candidate _ c) (λ _ _ error, _)).
  eapply settles_mono; [by apply try_candidate_ends|]. intros [e'|] s2 Hs2; [by apply IH|].
  by apply settles_ret.
Qed.

(** [is_directory] does not throw: the parent of the journal directory is
    readable. *)
Hypothesis directory_readable : ∀ n, ce_directory (mo_connect (world n)) ≠ DirectoryUnreadable.

Lemma BeginConnect_result env reason source (c : CaptureSession Q) :
  ce_directory env ≠ DirectoryUnreadable →
  ∃ c' r, BeginConnect zlib_crc32 env reason source c = Some (c', r) ∧ r ≠ Threw.
Proof.
  intros Hd. unfold BeginConnect. destruct (Close_total (ce_close env) c) as [c1 ->]. cbn.
  unfold start_file, announce. repeat case_match; simplify_eq; eexists _, _; (split; [done|]); done.
Qed.

Lemma guarded_ends n s :
  on_socket n s →
  settles (λ _ fuel, guarded zlib_crc32 EVP_EncodeBlock EVP_Digest ErrnoText world fuel) s
    (λ _ s', on_socket n s').
Proof.
  intros Hs. apply (settles_gets_bind _ (λ _ fuel cfg, _)).
  apply (settles_say_bind _ _ (λ _ fuel _, _)). intros line.
  apply (settles_monotonic_bind (λ _ fuel now, _)). intros now.
  apply (settles_update_bind _ (λ _ fuel _, _)), (settles_ask_bind (λ _ fuel m, _)).
  apply (settles_gets_bind _ (λ _ fuel begun, _)). unfold compose.
  set (s1 := asked (reset_connection _ _)).
  assert (later false s s1) as H1 by (subst s1; later).
  destruct (BeginConnect_result (mo_connect (world (fc_tick (reset_connection now
    (asked (did (Logged kInfo line) s)))))) (connect_reason (fc_cfg s)) kWireSource (fc_capture s1))
    as (cap & r & -> & Hr); [apply directory_readable|].
  apply (settles_update_bind _ (λ _ fuel _, _)).
  destruct r as [path|error|]; [| |done].
  - apply (settles_gets_bind _ (λ _ fuel id, _)), (settles_say_bind _ _ (λ _ fuel _, _)).
    intros line'. set (s2 := did _ _). assert (later false s s2) as H2 by (subst s2; later).
    eapply settles_mono; [apply converse_ends, (lt_known _ _ _ H2), Hs|].
    intros [] s3 H3. eapply on_socket_later; [exact Hs|]. later.
  - apply settles_say_bind. intros line'. apply settles_update.
    set (s2 := did _ _). assert (later false s s2) as H2 by (subst s2; later). clearbody s2.
    eapply on_socket_later; [exact Hs|]. etrans; [exact H2|]. by apply later_same.
Qed.

Lemma close_capture_ends n s :
  on_socket n s →
  settles (λ _ _, close_capture zlib_crc32 world) s
    (λ _ s', on_socket n s' ∧ shut (fc_capture s')).
Proof.
  intros Hs. apply settles_ask_bind, settles_gets_bind. unfold compose.
  destruct (Close_total (mo_close (world (fc_tick s))) (fc_capture (asked s))) as [c' Hc].
  rewrite Hc. apply settles_update. split; [|by eapply Close_shut].
  eapply on_socket_later; [exact Hs|]. later.
Qed.

Lemma RunOneConnection_ends n s :
  at_rest n s →
  settles (λ _ fuel, RunOneConnection zlib_crc32 EVP_EncodeBlock EVP_Digest ErrnoText world fuel) s
    (λ _ s', at_rest n s').
Proof.
  intros Hs. apply (settles_update_bind _ (λ _ fuel _, _)).
  apply (settles_bind (λ _ _, ConnectSocket _ _ _) (λ _ fuel error, _)).
  eapply settles_mono; [apply (ConnectSocket_ends n); exact Hs|]. intros [e|] s1 Hs1.
  - apply settles_say. intros line. by apply at_rest_said.
  - apply (settles_bind (λ _ fuel, guarded _ _ _ _ _ fuel) (λ _ fuel _, _)).
    eapply settles_mono; [by apply guarded_ends|]. intros [] s2 Hs2.
    apply (settles_bind (λ _ _, close_capture _ _) (λ _ _ _, _)).
    eapply settles_mono; [by apply close_capture_ends|]. intros [] s3 [(H1 & H2 & H3) H4].
    apply settles_update. split_and!; [done| |done..].
    cbn. rewrite open_sockets_snoc, H2. done.
Qed.

Lemma run_loop_ends n failures s :
  at_rest n s →
  settles (λ turns fuel, run_loop zlib_crc32 EVP_EncodeBlock EVP_Digest ErrnoText world turns fuel
                           failures) s (λ _ s', at_rest n s').
Proof.
  remember (S stop_tick - fc_tick s)%nat as dist eqn:Hd. revert n failures s Hd.
  induction dist as [dist IH] using lt_wf_ind. intros n failures s Hd Hs.
  eapply settles_turn; [reflexivity|]. cbn [run_loop].
  apply (settles_stopping_bind (λ turns fuel stopping, if stopping : bool then _ else _)).
  apply at_rest_asked in Hs as Hs1.
  destruct (client_stopping (asked s)) eqn:Hstop; [by apply settles_ret|].
  pose proof (not_yet s (proj1 Hs) Hstop) as Hlt.
  assert (at_rest (S (fc_tick s)) (asked s)) as Hs2.
  { destruct Hs1 as (H1 & H2 & H3 & H4). split_and!; [done..|]. by rewrite asked_tick. }
  assert (∀ s', at_rest (S (fc_tick s)) s' → at_rest n s') as Hweak.
  { intros s' (H1 & H2 & H3 & H4). destruct Hs as (_ & _ & _ & H5). split_and!; [done..|lia]. }
  clear Hs1 Hstop. set (s1 := asked s) in *. clearbody s1.
  apply (settles_gets_bind _ (λ turns fuel cfg, _)).
  apply (settles_bind (λ _ _, if _ =? 0 then _ else _) (λ turns fuel stop, _)).
  eapply (settles_mono _ _ (λ _ s', at_rest (S (fc_tick s)) s')).
  { destruct (_ =? 0); [by apply settles_ret|]. apply settles_say_bind. intros line.
    apply (at_rest_said _ kInfo line) in Hs2. set (s2 := did _ _) in *. clearbody s2.
    apply settles_gets_bind. destruct (client_stopping s2); [by apply settles_ret|].
    apply settles_now. unfold returns, triple. cbn. by apply at_rest_asked. }
  intros stop s2 Hs3. destruct stop; [by apply settles_ret, Hweak|].
  apply (settles_gets_bind _ (λ turns fuel before, _)).
  apply (settles_bind (λ _ fuel, RunOneConnection _ _ _ _ _ fuel) (λ turns fuel _, _)).
  eapply settles_mono; [by apply RunOneConnection_ends|]. intros [] s3 Hs4.
  apply (settles_gets_bind _ (λ turns fuel after, _)).
  eapply settles_mono; [eapply (IH _ _ (S (fc_tick s))); [reflexivity|done]|auto].
  Unshelve. destruct Hs4 as (_ & _ & _ & H4). lia.
Qed.

End live.

