(* ===== verification/FixClientSecret.v ===== *)
(** * The client secret stays out of logs and journals

    Two clients that differ only in their secret, run against the same outside:
    everything but the contents of what they send is the same. *)

From S2P Require Import Prelude Text FixMessage FixFramer FixSession FixLink Feed Ring Journal.
From S2P Require Import JournalProofs JournalCrash JournalThread CaptureSession ThreadProofs.
From S2P Require Import SessionProofs ClientBase FixClient FixClientProofs.

(** ** Messages of the same length *)

Lemma render_body_length fs fs' :
  Forall2 (λ f f', f_tag f = f_tag f' ∧ length (f_value f) = length (f_value f')) fs fs' →
  length (render_body fs) = length (render_body fs').
Proof.
  unfold render_body. induction 1 as [|f f' fs fs' [H1 H2] _ IH]; [done|]. cbn.
  rewrite !length_app, IH. unfold render_field. rewrite !length_app, H1, H2. done.
Qed.

Lemma BuildMessage_length fs fs' :
  Forall2 (λ f f', f_tag f = f_tag f' ∧ length (f_value f) = length (f_value f')) fs fs' →
  length (BuildMessage fs) = length (BuildMessage fs').
Proof.
  intros H%render_body_length. unfold BuildMessage. cbv zeta.
  assert (∀ m, length (ChecksumField (FormatChecksum m)) = 7%nat) as Hc by done.
  by rewrite !length_app, !Hc, H.
Qed.

(** ** Clients alike *)

(** The contents of what is sent, left out. *)
Definition visible (d : deed) : deed :=
  match d with BytesSent data => BytesSent (replicate (length data) (byte_of 0)) | d => d end.

Definition config_alike (c c' : SessionConfig) : Prop :=
  client_id c = client_id c' ∧ target_comp_id c = target_comp_id c' ∧
  heartbeat_interval_seconds c = heartbeat_interval_seconds c'.

Definition session_alike (s s' : FixSession) : Prop :=
  config_alike (fs_cfg s) (fs_cfg s') ∧ fs_sending_time s = fs_sending_time s' ∧
  fs_next_outbound s = fs_next_outbound s' ∧ fs_expected_inbound s = fs_expected_inbound s' ∧
  fs_gaps_detected s = fs_gaps_detected s'.

Section secret.
Variable zlib_crc32 : Z → bytes → Z.
Context {Q : Type} `{!ReaderWriterQueue Q JournalEvent}.
Variable EVP_EncodeBlock EVP_Digest : bytes → option bytes.
Variable ErrnoText : Z → bytes.
Variable world : nat → moment.
(** Base64 writes four characters for every three bytes. *)
Hypothesis base64_length : ∀ data data', length data = length data' →
  length <$> EVP_EncodeBlock data = length <$> EVP_EncodeBlock data'.

Record alike (s s' : FixClient Q) : Prop := {
  al_cfg : fc_cfg s = fc_cfg s';
  al_capture : fc_capture s = fc_capture s';
  al_session : session_alike (fc_session s) (fc_session s');
  al_watchdog : fc_watchdog s = fc_watchdog s';
  al_framer : fc_framer s = fc_framer s';
  al_logged_on : fc_logged_on s = fc_logged_on s';
  al_subscribed : fc_subscribed s = fc_subscribed s';
  al_last_outbound : fc_last_outbound_ns s = fc_last_outbound_ns s';
  al_stop_signal : fc_stop_signal s = fc_stop_signal s';
  al_counters : fc_counters s = fc_counters s';
  al_tick : fc_tick s = fc_tick s';
  al_trace : visible <$> fc_trace s = visible <$> fc_trace s';
}.

Abbreviation coupled := (ClientBase.coupled alike).

(** Steps that do the same to both. *)
Ltac alike := intros; repeat match goal with H : alike _ _ |- _ => destruct H end;
  split; cbn; try done; try congruence.

Lemma alike_did d d' s s' : visible d = visible d' → alike s s' → alike (did d s) (did d' s').
Proof. intros Hd []. split; cbn; try done. rewrite !fmap_app. cbn. congruence. Qed.

Lemma alike_other o s s' : alike s s' → alike (other zlib_crc32 o s) (other zlib_crc32 o s').
Proof. destruct o; alike. Qed.

Lemma coupled_ask : coupled (ask zlib_crc32 world) (ask zlib_crc32 world).
Proof.
  intros s s' Hs. unfold ask. rewrite <-(al_tick _ _ Hs). cbn. split; [|done].
  assert (alike (foldl (λ s o, other zlib_crc32 o s) s (mo_others (world (fc_tick s))))
    (foldl (λ s o, other zlib_crc32 o s) s' (mo_others (world (fc_tick s))))) as H.
  { generalize (mo_others (world (fc_tick s))). intros os. revert s s' Hs.
    induction os as [|o os IH]; intros s s' Hs; [done|]. cbn. by apply IH, alike_other. }
  clear Hs. alike.
Qed.

Lemma coupled_act d d' : visible d = visible d' → coupled (act d) (act d').
Proof. intros Hd. apply coupled_update. intros s s'. by apply alike_did. Qed.

Lemma coupled_say level line : coupled (say level line) (say level line).
Proof.
  apply coupled_bind; [apply coupled_gets; intros s s' []; cbn; congruence|].
  intros id. by apply coupled_act.
Qed.

Lemma coupled_monotonic : coupled (MonotonicNowNs zlib_crc32 world) (MonotonicNowNs zlib_crc32 world).
Proof. apply coupled_bind; [apply coupled_ask|]. intros m. apply coupled_ret. Qed.
Lemma coupled_realtime : coupled (RealtimeNowNs zlib_crc32 world) (RealtimeNowNs zlib_crc32 world).
Proof. apply coupled_bind; [apply coupled_ask|]. intros m. apply coupled_ret. Qed.

Lemma coupled_stopping : coupled (ask_stopping zlib_crc32 world) (ask_stopping zlib_crc32 world).
Proof.
  apply coupled_bind; [apply coupled_ask|]. intros m. apply coupled_gets. intros s s' [].
  unfold client_stopping, Fatal. congruence.
Qed.

(** A message of the session that does not use the secret. *)
Definition secretless (f : Z → FixSession → FixSession * bytes) : Prop :=
  ∀ now s s', session_alike s s' →
    session_alike (f now s).1 (f now s').1 ∧ (f now s).2 = (f now s').2.

Lemma Send_secretless type body : secretless (λ now s, Send type body now s).
Proof.
  intros now s s' ((H1 & H2 & H3) & H4 & H5 & H6 & H7). unfold Send, NextHeader. cbn.
  rewrite H1, H2, H5. split; [|done]. by split_and!.
Qed.

Lemma coupled_build f : secretless f →
  coupled (build_with zlib_crc32 world f) (build_with zlib_crc32 world f).
Proof.
  intros Hf. apply coupled_bind; [apply coupled_realtime|]. intros now s s' Hs.
  destruct (Hf now _ _ (al_session _ _ Hs)) as [H1 H2]. cbn. rewrite H2. split; [|done].
  clear H2. destruct Hs. by split.
Qed.

(** ** The thread, step by step *)

#[local] Hint Resolve coupled_ask coupled_say coupled_monotonic coupled_realtime coupled_stopping
  Send_secretless : client.

Lemma coupled_set (f : FixClient Q → FixClient Q) :
  (∀ s s', alike s s' → alike (f s) (f s')) → coupled (io_update f) (io_update f).
Proof. apply coupled_update. Qed.

Lemma coupled_view {A} (f : FixClient Q → A) :
  (∀ s s', alike s s' → f s = f s') → coupled (io_gets f) (io_gets f).
Proof. apply coupled_gets. Qed.

(** Follows the code: binds, branches, and reads and writes that are alike. *)
Ltac couple :=
  repeat first
    [ solve [auto with client]
    | apply coupled_act; reflexivity
    | apply coupled_build
    | apply coupled_bind; [|intros ?]
    | apply coupled_set; solve [alike]
    | apply coupled_view; intros ? ? []; unfold compose; cbn; solve [congruence]
    | match goal with
      | |- coupled (if ?b then _ else _) _ => destruct b
      | |- coupled (match ?x with _ => _ end) _ => destruct x
      end ].

Lemma coupled_send fuel w w' :
  length w = length w' →
  coupled (SendAll zlib_crc32 ErrnoText world fuel w) (SendAll zlib_crc32 ErrnoText world fuel w').
Proof.
  unfold SendAll. revert w w'. induction fuel as [|fuel IH]; intros w w' Hlen;
    (destruct w as [|x w], w' as [|x' w']; [|done..|]); cbn [send_loop]; [couple..|].
  apply coupled_bind; [apply coupled_ask|]. intros m.
  destruct (mo_send m) as [n|errno]; [|destruct (errno =? EINTR); [by apply IH|couple]].
  apply coupled_bind.
  - apply coupled_act. cbn [visible]. by rewrite !length_take, Hlen.
  - intros []. apply IH. by rewrite !length_drop, Hlen.
Qed.

Lemma coupled_send_same fuel w :
  coupled (SendAll zlib_crc32 ErrnoText world fuel w) (SendAll zlib_crc32 ErrnoText world fuel w).
Proof. by apply coupled_send. Qed.
#[local] Hint Resolve coupled_send_same : client.

Lemma BuildHeartbeat_secretless : secretless BuildHeartbeat.
Proof. exact (Send_secretless msg_type.kHeartbeat []). Qed.
Lemma BuildHeartbeatResponse_secretless id : secretless (BuildHeartbeatResponse id).
Proof. exact (Send_secretless msg_type.kHeartbeat [mkField tag.kTestReqId id]). Qed.
Lemma BuildMarketDataRequest_secretless id symbols : secretless (BuildMarketDataRequest id symbols).
Proof. exact (Send_secretless msg_type.kMarketDataRequest (market_data_body id symbols)). Qed.
Lemma BuildLogout_secretless text : secretless (BuildLogout text).
Proof.
  destruct text as [|x text]; [exact (Send_secretless msg_type.kLogout [])|].
  exact (Send_secretless msg_type.kLogout [mkField tag.kText (x :: text)]).
Qed.
#[local] Hint Resolve BuildHeartbeat_secretless BuildHeartbeatResponse_secretless
  BuildMarketDataRequest_secretless BuildLogout_secretless : client.

Lemma coupled_heartbeat fuel :
  coupled (SendHeartbeatIfDue zlib_crc32 ErrnoText world fuel)
    (SendHeartbeatIfDue zlib_crc32 ErrnoText world fuel).
Proof.
  unfold SendHeartbeatIfDue. couple.
  apply coupled_view. intros s s' []. unfold compose. destruct al_session0 as [(_ & _ & H) _]. done.
Qed.

Lemma coupled_journal m :
  coupled (JournalMessage zlib_crc32 world m) (JournalMessage zlib_crc32 world m).
Proof. unfold JournalMessage. couple. Qed.
#[local] Hint Resolve coupled_heartbeat coupled_journal : client.

Lemma coupled_note parsed decision : coupled (note_kind parsed decision) (note_kind parsed decision).
Proof. unfold note_kind, count. couple. Qed.

Lemma coupled_action fuel decision :
  coupled (take_action zlib_crc32 ErrnoText world fuel decision)
    (take_action zlib_crc32 ErrnoText world fuel decision).
Proof. unfold take_action. couple. Qed.
#[local] Hint Resolve coupled_note coupled_action : client.

Lemma OnInbound_alike p s s' :
  session_alike s s' →
  session_alike (OnInbound p s).1 (OnInbound p s').1 ∧ (OnInbound p s).2 = (OnInbound p s').2.
Proof.
  intros (H1 & H2 & H3 & H4 & H5). unfold OnInbound, OnInboundSeqNum. rewrite H4.
  repeat case_match; simplify_eq/=; (split; [|done]); split_and!; cbn; congruence || done.
Qed.

Lemma coupled_framed fuel m :
  coupled (on_framed zlib_crc32 ErrnoText world fuel m) (on_framed zlib_crc32 ErrnoText world fuel m).
Proof.
  unfold on_framed, count. apply coupled_bind; [couple|]. intros []. apply coupled_bind; [couple|].
  intros journaled. destruct (negb journaled); [couple|].
  destruct (ParseMessage m) as [p|error]; [|couple].
  intros s s' Hs. destruct (OnInbound_alike p _ _ (al_session _ _ Hs)) as [H1 H2].
  set (go := λ check, (do* note_kind p (ClassifyInbound p check) ;;
    take_action zlib_crc32 ErrnoText world fuel (ClassifyInbound p check))%io).
  change (alike (go (OnInbound p (fc_session s)).2 (set_session (OnInbound p (fc_session s)).1 s)).1
      (go (OnInbound p (fc_session s')).2 (set_session (OnInbound p (fc_session s')).1 s')).1 ∧
    (go (OnInbound p (fc_session s)).2 (set_session (OnInbound p (fc_session s)).1 s)).2 =
      (go (OnInbound p (fc_session s')).2 (set_session (OnInbound p (fc_session s')).1 s')).2).
  rewrite H2. assert (∀ check, coupled (go check) (go check)) as Hgo by (intros check; subst go; couple).
  apply Hgo. destruct Hs. by split.
Qed.
#[local] Hint Resolve coupled_framed : client.

Lemma coupled_drain passes fuel :
  coupled (drain_loop zlib_crc32 ErrnoText world passes fuel)
    (drain_loop zlib_crc32 ErrnoText world passes fuel).
Proof. induction passes as [|passes IH]; cbn [drain_loop]; couple. Qed.
#[local] Hint Resolve coupled_drain : client.

Lemma coupled_read turns fuel :
  coupled (read_loop zlib_crc32 ErrnoText world turns fuel)
    (read_loop zlib_crc32 ErrnoText world turns fuel).
Proof.
  induction turns as [|turns IH]; cbn [read_loop]; unfold DrainFramedMessages, count; couple.
Qed.
#[local] Hint Resolve coupled_read : client.

(** ** The Logon *)

Lemma Base64Encode_length data data' :
  length data = length data' →
  length (Base64Encode EVP_EncodeBlock data) = length (Base64Encode EVP_EncodeBlock data').
Proof.
  intros Hlen. unfold Base64Encode. pose proof (base64_length _ _ Hlen) as Hb.
  destruct data as [|x data], data' as [|x' data']; [done..|].
  destruct (EVP_EncodeBlock (x :: data)), (EVP_EncodeBlock (x' :: data')); cbn in *; congruence.
Qed.

Lemma Sha256_length data : length (Sha256 EVP_Digest data) = kSha256Bytes.
Proof.
  unfold Sha256. destruct (EVP_Digest data) as [digest|]; [|by rewrite length_replicate].
  case_decide; [done|by rewrite length_replicate].
Qed.

Definition logon_alike (r r' : expected bytes bytes) : Prop :=
  match r, r' with
  | Expected m, Expected m' => length m = length m'
  | Unexpected e, Unexpected e' => e = e'
  | _, _ => False
  end.

Lemma BuildLogon_alike rand now now' s s' :
  session_alike s s' →
  let r := BuildLogon EVP_EncodeBlock EVP_Digest rand now now' s in
  let r' := BuildLogon EVP_EncodeBlock EVP_Digest rand now now' s' in
  session_alike r.1 r'.1 ∧
  logon_alike r.2 r'.2.
Proof.
  intros Hs. unfold BuildLogon. destruct (GenerateLogonNonce rand) as [nonce|e]; [|done].
  destruct Hs as ((H1 & H2 & H3) & H4 & H5 & H6 & H7). cbn [BuildLogonWithNonce Send NextHeader fst snd].
  split; [unfold session_alike, config_alike; cbn; split_and!; congruence|].
  cbn [logon_alike]. unfold BuildSessionMessage. apply BuildMessage_length. unfold logon_body, header_fields, MakeLogonCredentials.
  cbn [app sh_msg_type sh_sender_comp_id sh_target_comp_id sh_msg_seq_num sh_sending_time raw_data
    password].
  rewrite H1, H2, H3, H5. repeat (constructor; [done|]). constructor; [|constructor].
  split; [done|]. apply Base64Encode_length. by rewrite !Sha256_length.
Qed.

Lemma coupled_session_loop fuel r r' :
  logon_alike r r' →
  coupled (session_loop zlib_crc32 ErrnoText world fuel r) (session_loop zlib_crc32 ErrnoText world fuel r').
Proof.
  destruct r as [m|e], r' as [m'|e']; [|done..|by intros ->; apply coupled_say].
  intros Hlen. cbn in Hlen. unfold session_loop. apply coupled_bind; [by apply coupled_send|]. intros sent. couple.
Qed.

Lemma coupled_converse fuel :
  coupled (converse zlib_crc32 EVP_EncodeBlock EVP_Digest ErrnoText world fuel)
    (converse zlib_crc32 EVP_EncodeBlock EVP_Digest ErrnoText world fuel).
Proof.
  unfold converse. apply coupled_bind; [couple|]. intros m. apply coupled_bind; [couple|]. intros now.
  apply coupled_bind; [couple|]. intros now'. intros s s' Hs.
  destruct (BuildLogon_alike (mo_random m) now now' _ _ (al_session _ _ Hs)) as [H1 H2].
  set (logon fs := BuildLogon EVP_EncodeBlock EVP_Digest (mo_random m) now now' fs) in *.
  apply (coupled_session_loop fuel (logon (fc_session s)).2 (logon (fc_session s')).2 H2
    (set_session (logon (fc_session s)).1 s) (set_session (logon (fc_session s')).1 s')).
  destruct Hs. by split.
Qed.
#[local] Hint Resolve coupled_converse : client.

(** ** Whole runs *)

Lemma coupled_candidates cs e :
  coupled (try_candidates ErrnoText cs e) (try_candidates ErrnoText cs e).
Proof.
  revert e. induction cs as [|c cs IH]; intros e; [apply coupled_ret|]. cbn [try_candidates].
  unfold try_candidate. couple.
Qed.
#[local] Hint Resolve coupled_candidates : client.

Lemma coupled_reset now : coupled (io_update (reset_connection now)) (io_update (reset_connection now)).
Proof.
  apply coupled_set. intros s s' []. destruct al_session0 as (H1 & H2 & H3 & H4 & H5).
  by split.
Qed.
#[local] Hint Resolve coupled_reset : client.

Lemma coupled_connection fuel :
  coupled (RunOneConnection zlib_crc32 EVP_EncodeBlock EVP_Digest ErrnoText world fuel)
    (RunOneConnection zlib_crc32 EVP_EncodeBlock EVP_Digest ErrnoText world fuel).
Proof.
  unfold RunOneConnection, count, ConnectSocket, guarded, close_capture. couple.
Qed.
#[local] Hint Resolve coupled_connection : client.

Lemma coupled_run turns fuel failures :
  coupled (run_loop zlib_crc32 EVP_EncodeBlock EVP_Digest ErrnoText world turns fuel failures)
    (run_loop zlib_crc32 EVP_EncodeBlock EVP_Digest ErrnoText world turns fuel failures).
Proof.
  revert failures. induction turns as [|turns IH]; intros failures; cbn [run_loop]; [couple|].
  unfold WaitFor. couple. apply coupled_view. intros s s' []. unfold client_stopping, Fatal. congruence.
Qed.

(** C18: the client secret is only ever sent. Two clients whose configurations
    differ in nothing but the secret, against the same outside and for as long
    as one likes, do the same: every log line, every journal file and every
    call of a sink is the same byte for byte, as are the reads, the socket
    calls and the number of bytes sent at each point; only the contents of what
    is sent can depend on the secret. *)
Theorem secret_unobservable capture_cfg session_cfg session_cfg' cfg sinks fuel :
  config_alike session_cfg session_cfg' →
  let r := Run zlib_crc32 EVP_EncodeBlock EVP_Digest ErrnoText world fuel
             (new_client capture_cfg session_cfg cfg sinks) in
  let r' := Run zlib_crc32 EVP_EncodeBlock EVP_Digest ErrnoText world fuel
              (new_client capture_cfg session_cfg' cfg sinks) in
  r.2 = r'.2 ∧ fc_capture r.1 = fc_capture r'.1 ∧ fc_counters r.1 = fc_counters r'.1 ∧
  visible <$> fc_trace r.1 = visible <$> fc_trace r'.1.
Proof.
  intros Hc r r'.
  assert (alike (new_client capture_cfg session_cfg cfg sinks)
    (new_client capture_cfg session_cfg' cfg sinks)) as Hs by by split.
  destruct (coupled_run fuel fuel 0 _ _ Hs) as [[] H]. by split_and!.
Qed.
End secret.

(** ** An example: the exchange of the demonstration, two secrets *)

Definition demo_encode (data : bytes) : option bytes :=
  Some ((λ c, digit (byte_val c mod 10)) <$> data).
Definition demo_digest (data : bytes) : option bytes :=
  Some (replicate 31 (byte_of 0) ++ [byte_of (foldr (λ c n, byte_val c + n) 0 data)]).
Definition demo_secret_run (secret : bytes)
  : FixClient (bounded_queue JournalEvent) * ClientBase.progress unit :=
  Run demo_crc demo_encode demo_digest (λ _, B "error") demo_world 60
    (new_client demo_capture_cfg (mkSessionConfig (B "client") secret (B "DERIBITSERVER") 30)
       demo_client_cfg 1).
Definition sent_bytes (trace : list deed) : bytes :=
  concat (omap (λ d, match d with BytesSent data => Some data | _ => None end) trace).

Lemma demo_secret_sent :
  bool_decide (sent_bytes (fc_trace (demo_secret_run (B "s1")).1) =
               sent_bytes (fc_trace (demo_secret_run (B "s2")).1)) = false.
Proof. vm_compute. reflexivity. Qed.

Lemma secret_unobservable_witness :
  sent_bytes (fc_trace (demo_secret_run (B "s1")).1) ≠
    sent_bytes (fc_trace (demo_secret_run (B "s2")).1) ∧
  fc_capture (demo_secret_run (B "s1")).1 = fc_capture (demo_secret_run (B "s2")).1 ∧
  visible <$> fc_trace (demo_secret_run (B "s1")).1 =
    visible <$> fc_trace (demo_secret_run (B "s2")).1.
Proof.
  split; [exact (bool_decide_eq_false_1 _ demo_secret_sent)|].
  assert (∀ data data', length data = length data' →
    length <$> demo_encode data = length <$> demo_encode data') as Hlen.
  { intros data data' H. unfold demo_encode. cbn. by rewrite !length_fmap, H. }
  destruct (secret_unobservable demo_crc (Q:=bounded_queue JournalEvent) demo_encode demo_digest
    (λ _, B "error") demo_world Hlen demo_capture_cfg
    (mkSessionConfig (B "client") (B "s1") (B "DERIBITSERVER") 30)
    (mkSessionConfig (B "client") (B "s2") (B "DERIBITSERVER") 30) demo_client_cfg 1 60)
    as (_ & H2 & _ & H4).
  - split_and!; reflexivity.
  - unfold demo_secret_run. split; [exact H2|exact H4].
Defined.
