(* ===== verification/Config.v ===== *)
(** * The configuration file

    [config/feed_handler_config.{h,cpp}], [exchange_traits.h] and the endpoint
    facts of both exchanges: validation of a parsed TOML document. A string is
    checked before it can reach a wire message, a file name or the environment. *)

From S2P Require Import Prelude Text.

(** ** TOML documents

    What toml++ hands over. [TomlOther] is a float, a date or a time: kinds
    nothing here reads. A table is listed in the order it is iterated in. *)

Inductive toml : Type :=
| TomlString (text : bytes)
| TomlInteger (n : Z)
| TomlBoolean (b : bool)
| TomlOther
| TomlArray (elements : list toml)
| TomlTable (entries : list (bytes * toml)).

Definition toml_table : Type := list (bytes * toml).

Record parse_error := mkParseError { pe_line : Z; pe_column : Z; pe_description : bytes }.

(** [toml::table::get]. *)
Fixpoint get (table : toml_table) (key : bytes) : option toml :=
  match table with
  | [] => None
  | (k, node) :: table => if decide (k = key) then Some node else get table key
  end.

(** [is_array_of_tables] together with [as_table] of every element. *)
Definition as_table (node : toml) : option toml_table :=
  match node with TomlTable entries => Some entries | _ => None end.

(** The quotation mark, and a text between two. *)
Definition quote_mark : bytes := [byte_of 34].
Definition quoted (text : bytes) : bytes := quote_mark ++ text ++ quote_mark.
(** A text between apostrophes. *)
Definition named (text : bytes) : bytes := B "'" ++ text ++ B "'".

(** ** Exchanges *)

Inductive Exchange : Type := kKraken | kDeribit.
Inductive Environment : Type := kProd | kTestnet.
Inductive EndpointKind : Type := kWebSocketUrl | kHostPort.

#[export] Instance Exchange_eq_dec : EqDecision Exchange.
Proof. solve_decision. Defined.
#[export] Instance Environment_eq_dec : EqDecision Environment.
Proof. solve_decision. Defined.

Record ExchangeTraits := mkTraits {
  tr_name : bytes;
  tr_feed : bytes;
  tr_max_symbols_per_connection : Z;
  tr_has_testnet : bool;
  tr_endpoint_kind : EndpointKind;
  tr_default_prod_endpoint : bytes;
  tr_default_testnet_endpoint : bytes;
}.

Definition kDefaultWsUrl : bytes := B "wss://ws-l3.kraken.com/v2".
Definition kMaxSymbolsPerConnection : Z := 200.
Definition kSupportedDepths : list Z := [10; 100; 1000].
Definition kDefaultDepth : Z := 10.
Definition kLevel3Feed : bytes := B "level3".
Definition kraken_traits : ExchangeTraits :=
  mkTraits (B "kraken") kLevel3Feed kMaxSymbolsPerConnection false kWebSocketUrl kDefaultWsUrl [].

Definition kTestnetEndpoint : bytes := B "fix-test.deribit.com:9881".
Definition kBookFeed : bytes := B "book".
Definition deribit_traits : ExchangeTraits :=
  mkTraits (B "deribit") kBookFeed u64_max true kHostPort [] kTestnetEndpoint.

Definition TraitsOf (exchange : Exchange) : ExchangeTraits :=
  match exchange with kKraken => kraken_traits | kDeribit => deribit_traits end.

Definition kAllExchanges : list Exchange := [kKraken; kDeribit].

Definition ToString (exchange : Exchange) : bytes := tr_name (TraitsOf exchange).
Definition Environment_ToString (env : Environment) : bytes :=
  match env with kProd => B "prod" | kTestnet => B "testnet" end.

Fixpoint find_exchange (exchanges : list Exchange) (name : bytes) : option Exchange :=
  match exchanges with
  | [] => None
  | exchange :: exchanges =>
      if decide (ToString exchange = name) then Some exchange else find_exchange exchanges name
  end.
Definition ExchangeFromString (name : bytes) : option Exchange := find_exchange kAllExchanges name.

(** [names += names.empty() ? "" : separator; names += text], over a list. *)
Fixpoint join_onto (names separator : bytes) (texts : list bytes) : bytes :=
  match texts with
  | [] => names
  | text :: texts =>
      join_onto (names ++ (if decide (names = []) then [] else separator) ++ text) separator texts
  end.
Definition ExchangeNames (separator : bytes) : bytes :=
  join_onto [] separator (ToString <$> kAllExchanges).

(** ** The resolved configuration *)

Record HostPort := mkHostPort { hp_host : bytes; hp_port : Z }.
Definition no_host_port : HostPort := mkHostPort [] 0.

Record Connection := mkConnection {
  c_id : bytes;
  c_exchange : Exchange;
  c_env : Environment;
  c_feed : bytes;
  c_symbols : list bytes;
  c_endpoint : bytes;
  c_host_port : HostPort;
  c_api_key_env : bytes;
  c_api_secret_env : bytes;
  c_depth : Z;
  c_price_decimals : option Z;
  c_quantity_decimals : option Z;
}.

Definition kMaxDecimals : Z := 15.

Record FeedHandlerConfig := mkFeedHandlerConfig {
  fhc_journal_dir : bytes;
  fhc_state_dir : bytes;
  fhc_order_books : bool;
  fhc_connections : list Connection;
}.

Definition set_depth (depth : Z) (c : Connection) : Connection :=
  mkConnection (c_id c) (c_exchange c) (c_env c) (c_feed c) (c_symbols c) (c_endpoint c)
    (c_host_port c) (c_api_key_env c) (c_api_secret_env c) depth (c_price_decimals c)
    (c_quantity_decimals c).
Definition set_decimals (price quantity : option Z) (c : Connection) : Connection :=
  mkConnection (c_id c) (c_exchange c) (c_env c) (c_feed c) (c_symbols c) (c_endpoint c)
    (c_host_port c) (c_api_key_env c) (c_api_secret_env c) (c_depth c) price quantity.
Definition set_endpoint (endpoint : bytes) (host_port : HostPort) (c : Connection) : Connection :=
  mkConnection (c_id c) (c_exchange c) (c_env c) (c_feed c) (c_symbols c) endpoint
    host_port (c_api_key_env c) (c_api_secret_env c) (c_depth c) (c_price_decimals c)
    (c_quantity_decimals c).
Definition set_env_names (key secret : bytes) (c : Connection) : Connection :=
  mkConnection (c_id c) (c_exchange c) (c_env c) (c_feed c) (c_symbols c) (c_endpoint c)
    (c_host_port c) key secret (c_depth c) (c_price_decimals c) (c_quantity_decimals c).

(** ** Text checks *)

Definition kMaxIdLength : nat := 48.
Definition kMaxSymbolLength : nat := 64.

Definition char_between (lo hi : Z) (c : byte) : bool := (lo <=? byte_val c) && (byte_val c <=? hi).
Definition char_is (v : Z) (c : byte) : bool := byte_val c =? v.

Definition IsAsciiAlnum (c : byte) : bool :=
  char_between 97 122 c || char_between 65 90 c || char_between 48 57 c.

Definition is_lower_alnum (c : byte) : bool := char_between 97 122 c || char_between 48 57 c.
Definition IsValidId (id : bytes) : bool :=
  match id with
  | [] => false
  | front :: _ =>
      if (kMaxIdLength <? length id)%nat then false
      else is_lower_alnum front &&
           forallb (λ c, is_lower_alnum c || char_is 95 c || char_is 45 c) id
  end.

Definition symbol_char (c : byte) : bool :=
  IsAsciiAlnum c || char_is 95 c || char_is 45 c || char_is 46 c || char_is 47 c.
Definition IsValidSymbol (symbol : bytes) : bool :=
  if bool_decide (symbol = []) || (kMaxSymbolLength <? length symbol)%nat then false
  else forallb symbol_char symbol.

Definition IsValidEnvName (name : bytes) : bool :=
  match name with
  | [] => false
  | front :: _ =>
      if char_between 48 57 front then false
      else forallb (λ c, IsAsciiAlnum c || char_is 95 c) name
  end.

(** Blank, tab, carriage return, newline, quotation mark, backslash. *)
Definition url_breaker (c : byte) : bool :=
  existsb (λ v, char_is v c) [32; 9; 13; 10; 34; 92].
Definition IsValidWebSocketUrl (url : bytes) : bool :=
  (starts_with (B "wss://") url || starts_with (B "ws://") url) &&
  forallb (λ c, negb (url_breaker c)) url && (length (B "wss://") <? length url)%nat.

(** [rfind] of one character, as the texts before and after it. *)
Fixpoint split_last (c : byte) (l : bytes) : option (bytes * bytes) :=
  match l with
  | [] => None
  | x :: l' =>
      match split_last c l' with
      | Some (before, after) => Some (x :: before, after)
      | None => if decide (x = c) then Some ([], l') else None
      end
  end.

Definition host_char (c : byte) : bool := IsAsciiAlnum c || char_is 45 c || char_is 46 c.
Definition ParseHostPort (endpoint : bytes) : expected bytes HostPort :=
  match split_last (byte_of 58) endpoint with
  | None | Some ([], _) | Some (_, []) =>
      Unexpected (B "expected host:port, got '" ++ endpoint ++ B "'")
  | Some (host, port_text) =>
      if negb (forallb host_char host) then Unexpected (B "invalid host in '" ++ endpoint ++ B "'")
      else
        match from_chars 0 65535 port_text with
        | Some (port, []) =>
            if port =? 0 then Unexpected (B "invalid port in '" ++ endpoint ++ B "'")
            else Expected (mkHostPort host port)
        | _ => Unexpected (B "invalid port in '" ++ endpoint ++ B "'")
        end
  end.

(** ** Reading keys

    [at_] is the source's [where]: the label that opens an error message. *)

Definition Label (index : Z) (id : bytes) : bytes :=
  B "connections[" ++ to_string index ++ B "]" ++
  (if decide (id = []) then [] else B " (" ++ id ++ B ")").

Fixpoint RejectUnknownKeys (table : toml_table) (allowed : list bytes) (at_ : bytes) :
    expected bytes unit :=
  match table with
  | [] => Expected tt
  | (key, _) :: table =>
      if bool_decide (key ∈ allowed) then RejectUnknownKeys table allowed at_
      else Unexpected (at_ ++ B ": unknown key " ++ named key)
  end.

Definition ReadString (table : toml_table) (key at_ : bytes) : expected bytes (option bytes) :=
  match get table key with
  | None => Expected None
  | Some (TomlString text) => Expected (Some text)
  | Some _ => Unexpected (at_ ++ B ": " ++ named key ++ B " must be a string")
  end.

Definition ReadInteger (table : toml_table) (key at_ : bytes) : expected bytes (option Z) :=
  match get table key with
  | None => Expected None
  | Some (TomlInteger n) => Expected (Some n)
  | Some _ => Unexpected (at_ ++ B ": " ++ named key ++ B " must be an integer")
  end.

Definition RequireString (table : toml_table) (key at_ : bytes) : expected bytes bytes :=
  let? value := ReadString table key at_ in
  match value with
  | None => Unexpected (at_ ++ B ": missing required key " ++ named key)
  | Some text => Expected text
  end.

Definition ParseExchange (table : toml_table) (at_ : bytes) : expected bytes Exchange :=
  let? text := RequireString table (B "exchange") at_ in
  match ExchangeFromString text with
  | Some exchange => Expected exchange
  | None =>
      Unexpected (at_ ++ B ": unknown exchange " ++ named text ++ B " (expected " ++
                  ExchangeNames (B " or ") ++ B ")")
  end.

Definition ParseEnvironment (table : toml_table) (at_ : bytes) : expected bytes Environment :=
  let? text := RequireString table (B "env") at_ in
  if decide (text = B "prod") then Expected kProd
  else if decide (text = B "testnet") then Expected kTestnet
  else Unexpected (at_ ++ B ": unknown env " ++ named text ++ B " (expected " ++
                   quoted (B "prod") ++ B " or " ++ quoted (B "testnet") ++ B ")").

Fixpoint symbols_loop (elements : list toml) (seen : gset bytes) (symbols : list bytes)
    (at_ : bytes) : expected bytes (list bytes) :=
  match elements with
  | [] => Expected symbols
  | TomlString text :: elements =>
      if negb (IsValidSymbol text) then
        Unexpected (at_ ++ B ": invalid symbol " ++ named text ++
                    B " (letters, digits and _ - . / only, at most " ++
                    to_string (Z.of_nat kMaxSymbolLength) ++ B " characters)")
      else if decide (text ∈ seen) then
        Unexpected (at_ ++ B ": duplicate symbol " ++ named text)
      else symbols_loop elements ({[text]} ∪ seen) (symbols ++ [text]) at_
  | _ :: _ => Unexpected (at_ ++ B ": 'symbols' must contain only strings")
  end.

Definition ParseSymbols (table : toml_table) (exchange : Exchange) (at_ : bytes) :
    expected bytes (list bytes) :=
  match get table (B "symbols") with
  | None => Unexpected (at_ ++ B ": missing required key 'symbols'")
  | Some (TomlArray []) => Unexpected (at_ ++ B ": 'symbols' must not be empty")
  | Some (TomlArray elements) =>
      let traits := TraitsOf exchange in
      let size := Z.of_nat (length elements) in
      if tr_max_symbols_per_connection traits <? size then
        Unexpected (at_ ++ B ": " ++ to_string size ++ B " symbols exceeds " ++ tr_name traits ++
                    B "'s limit of " ++ to_string (tr_max_symbols_per_connection traits) ++
                    B " per connection; split them across several [[connections]]")
      else symbols_loop elements ∅ [] at_
  | Some _ => Unexpected (at_ ++ B ": 'symbols' must be an array of strings")
  end.

(** The source fills the connection it was handed; here the filled one is
    returned. A failed call's connection is dropped by its only caller. *)
Definition ResolveEndpoint (table : toml_table) (connection : Connection) (at_ : bytes) :
    expected bytes Connection :=
  let traits := TraitsOf (c_exchange connection) in
  let? given := ReadString table (B "endpoint") at_ in
  let? endpoint :=
    match given with
    | Some endpoint => Expected endpoint
    | None =>
        let fallback :=
          match c_env connection with
          | kTestnet => tr_default_testnet_endpoint traits
          | kProd => tr_default_prod_endpoint traits
          end in
        if decide (fallback = []) then
          Unexpected (at_ ++ B ": no default endpoint for " ++ tr_name traits ++ B " " ++
                      Environment_ToString (c_env connection) ++ B "; set 'endpoint'")
        else Expected fallback
    end in
  match tr_endpoint_kind traits with
  | kWebSocketUrl =>
      if negb (IsValidWebSocketUrl endpoint) then
        Unexpected (at_ ++ B ": invalid endpoint " ++ named endpoint ++
                    B " (expected a ws:// or wss:// URL)")
      else Expected (set_endpoint endpoint (c_host_port connection) connection)
  | kHostPort =>
      match ParseHostPort endpoint with
      | Unexpected _ =>
          Unexpected (at_ ++ B ": invalid endpoint " ++ named endpoint ++ B " (expected host:port)")
      | Expected host_port => Expected (set_endpoint endpoint host_port connection)
      end
  end.

Definition RequireEnvName (table : toml_table) (key at_ : bytes) : expected bytes bytes :=
  let? name := RequireString table key at_ in
  if negb (IsValidEnvName name) then
    Unexpected (at_ ++ B ": " ++ named key ++
                B " must be the NAME of an environment variable, never the credential itself")
  else Expected name.

(** One turn of the loop over the two decimal keys. *)
Definition read_decimals (table : toml_table) (is_kraken : bool) (key at_ : bytes) :
    expected bytes (option Z) :=
  let? value := ReadInteger table key at_ in
  match value with
  | None => Expected None
  | Some n =>
      if is_kraken then
        Unexpected (at_ ++ B ": " ++ named key ++
                    B " is a deribit key; kraken's scale comes from the AssetPairs lookup")
      else if (n <? 0) || (kMaxDecimals <? n) then
        Unexpected (at_ ++ B ": " ++ named key ++ B " must be an integer from 0 to " ++
                    to_string kMaxDecimals ++ B " (got " ++ to_string n ++ B ")")
      else Expected (Some n)
  end.

(** [*target], once a value that was read is written to it. *)
Definition assigned (target value : option Z) : option Z :=
  match value with Some n => Some n | None => target end.

Definition ParseBookSettings (table : toml_table) (connection : Connection) (at_ : bytes) :
    expected bytes Connection :=
  let is_kraken := bool_decide (c_exchange connection = kKraken) in
  let? depth := ReadInteger table (B "depth") at_ in
  let? connection :=
    match depth with
    | None => Expected connection
    | Some n =>
        if negb is_kraken then
          Unexpected (at_ ++ B ": 'depth' is a kraken key; " ++ ToString (c_exchange connection) ++
                      B " has no subscribed depth")
        else if negb (bool_decide (n ∈ kSupportedDepths)) then
          Unexpected (at_ ++ B ": 'depth' must be one of " ++
                      join_onto [] (B ", ") (to_string <$> kSupportedDepths) ++ B " (got " ++
                      to_string n ++ B ")")
        else Expected (set_depth n connection)
    end in
  let? price := read_decimals table is_kraken (B "price_decimals") at_ in
  let? quantity := read_decimals table is_kraken (B "quantity_decimals") at_ in
  Expected (set_decimals (assigned (c_price_decimals connection) price)
              (assigned (c_quantity_decimals connection) quantity) connection).

(** ** Entries and files *)

Definition connection_keys : list bytes :=
  [B "id"; B "exchange"; B "env"; B "feed"; B "symbols"; B "endpoint"; B "api_key_env";
   B "api_secret_env"; B "depth"; B "price_decimals"; B "quantity_decimals"].

Definition ParseConnection (table : toml_table) (index : Z) : expected bytes Connection :=
  let? _ := RejectUnknownKeys table connection_keys (Label index []) in
  let? id := RequireString table (B "id") (Label index []) in
  let at_ := Label index id in
  if negb (IsValidId id) then
    Unexpected (at_ ++ B ": 'id' must be lowercase letters, digits, _ and - (at most " ++
                to_string (Z.of_nat kMaxIdLength) ++
                B " characters); it names the journal files")
  else
  let? exchange := ParseExchange table at_ in
  let? env := ParseEnvironment table at_ in
  let traits := TraitsOf exchange in
  if bool_decide (env = kTestnet) && negb (tr_has_testnet traits) then
    Unexpected (at_ ++ B ": " ++ tr_name traits ++ B " supports env = " ++ quoted (B "prod") ++
                B " only (it has no testnet)")
  else
  let? feed := ReadString table (B "feed") at_ in
  let? _ :=
    match feed with
    | Some given =>
        if decide (given = tr_feed traits) then Expected tt
        else Unexpected (at_ ++ B ": unsupported feed " ++ named given ++ B " for " ++
                         tr_name traits ++ B " (only " ++ quoted (tr_feed traits) ++ B ")")
    | None => Expected tt
    end in
  let? symbols := ParseSymbols table exchange at_ in
  let connection :=
    mkConnection id exchange env (tr_feed traits) symbols [] no_host_port [] [] kDefaultDepth
      None None in
  let? connection := ParseBookSettings table connection at_ in
  let? connection := ResolveEndpoint table connection at_ in
  let? api_key_env := RequireEnvName table (B "api_key_env") at_ in
  let? api_secret_env := RequireEnvName table (B "api_secret_env") at_ in
  if decide (api_key_env = api_secret_env) then
    Unexpected (at_ ++ B ": 'api_key_env' and 'api_secret_env' name the same variable")
  else Expected (set_env_names api_key_env api_secret_env connection).

Definition ReadPath (table : toml_table) (key fallback : bytes) : expected bytes bytes :=
  let? text := ReadString table key (B "config") in
  match text with
  | None => Expected fallback
  | Some [] => Unexpected (B "config: " ++ named key ++ B " must not be empty")
  | Some path => Expected path
  end.

Fixpoint parse_connections (tables : list toml_table) (index : Z) (ids : gset bytes)
    (connections : list Connection) : expected bytes (list Connection) :=
  match tables with
  | [] => Expected connections
  | table :: tables =>
      let? connection := ParseConnection table index in
      if decide (c_id connection ∈ ids) then
        Unexpected (Label index (c_id connection) ++ B ": duplicate connection id")
      else parse_connections tables (index + 1) ({[c_id connection]} ∪ ids)
             (connections ++ [connection])
  end.

(** What [ParseConfig] does with a document that parsed. *)
Definition ParseRoot (root : toml_table) : expected bytes FeedHandlerConfig :=
  let? _ := RejectUnknownKeys root
              [B "journal_dir"; B "state_dir"; B "order_books"; B "connections"] (B "config") in
  let? journal_dir := ReadPath root (B "journal_dir") (B "journal") in
  let? state_dir := ReadPath root (B "state_dir") (B "state") in
  let? order_books :=
    match get root (B "order_books") with
    | None => Expected false
    | Some (TomlBoolean b) => Expected b
    | Some _ => Unexpected (B "config: 'order_books' must be a boolean")
    end in
  match get root (B "connections") with
  | None => Unexpected (B "config: missing required [[connections]] table")
  | Some (TomlArray []) => Unexpected (B "config: at least one [[connections]] entry is required")
  | Some (TomlArray elements) =>
      match mapM as_table elements with
      | None =>
          Unexpected (B "config: 'connections' must be an array of tables ([[connections]])")
      | Some tables =>
          let? connections := parse_connections tables 0 ∅ [] in
          Expected (mkFeedHandlerConfig journal_dir state_dir order_books connections)
      end
  | Some _ => Unexpected (B "config: 'connections' must be an array of tables ([[connections]])")
  end.

Section parser.
(** [toml::parse] of a text under a name, and the file system: the contents of
    a file that can be opened, and whether reading it failed. *)
Variable toml_parse : bytes → bytes → expected parse_error toml_table.
Variable read_file : bytes → option (bytes * bool).

Definition ParseConfig (toml_text source_name : bytes) : expected bytes FeedHandlerConfig :=
  match toml_parse toml_text source_name with
  | Unexpected error =>
      Unexpected (source_name ++ B ":" ++ to_string (pe_line error) ++ B ":" ++
                  to_string (pe_column error) ++ B ": " ++ pe_description error)
  | Expected root => ParseRoot root
  end.

Definition LoadConfigFile (path : bytes) : expected bytes FeedHandlerConfig :=
  match read_file path with
  | None => Unexpected (B "cannot open config file " ++ path)
  | Some (_, true) => Unexpected (B "cannot read config file " ++ path)
  | Some (text, false) => ParseConfig text path
  end.
End parser.
