(* ===== verification/ConfigProofs.v ===== *)
(** * What an accepted configuration promises

    [valid_config] says it without the parser: which characters, how many, how
    often. Everything [ParseConfig] accepts is valid, and every valid
    configuration is what its own document parses to. *)

From S2P Require Import Prelude Text Config.

(** ** Alphabets *)

Definition lower_letters : bytes := B "abcdefghijklmnopqrstuvwxyz".
Definition upper_letters : bytes := B "ABCDEFGHIJKLMNOPQRSTUVWXYZ".
Definition decimal_chars : bytes := B "0123456789".
Definition letters_digits : bytes := lower_letters ++ upper_letters ++ decimal_chars.

Definition text_over (alphabet text : bytes) : Prop := Forall (λ c, c ∈ alphabet) text.

(** A check of characters is membership of an alphabet, if it is for all 256. *)
Lemma forallb_text (p : byte → bool) alphabet text :
  (∀ c, p c = bool_decide (c ∈ alphabet)) → forallb p text = true ↔ text_over alphabet text.
Proof.
  intros Hp. unfold text_over. rewrite forallb_forall, Forall_forall.
  split; intros H c Hc.
  - apply list_elem_of_In, H in Hc. rewrite Hp in Hc. by apply bool_decide_eq_true in Hc.
  - rewrite Hp. by apply bool_decide_eq_true, H, list_elem_of_In.
Qed.

(** Decide a fact about every byte by looking at each. *)
Ltac each_byte := let c := fresh in intros c; by destruct c as [[] [] [] [] [] [] [] []]; vm_compute.

Lemma is_lower_alnum_spec c : is_lower_alnum c = bool_decide (c ∈ lower_letters ++ decimal_chars).
Proof. revert c. each_byte. Qed.

(** ** Valid parts *)

(** An id: a file name on any system, starting with a letter or digit. *)
Definition valid_id (id : bytes) : Prop :=
  (1 <= length id <= 48)%nat ∧ text_over (lower_letters ++ decimal_chars ++ B "_-") id ∧
  ∃ front rest, id = front :: rest ∧ front ∈ lower_letters ++ decimal_chars.

Lemma IsValidId_spec id : IsValidId id = true ↔ valid_id id.
Proof.
  unfold IsValidId, valid_id, kMaxIdLength. destruct id as [|front rest].
  { split; [done|]. intros [[H _] _]. simpl in H. lia. }
  rewrite is_lower_alnum_spec.
  rewrite <-(forallb_text (λ c, is_lower_alnum c || char_is 95 c || char_is 45 c)) by each_byte.
  destruct (Nat.ltb_spec 48 (length (front :: rest))) as [|Hlen].
  - split; [done|]. intros [? _]. lia.
  - rewrite andb_true_iff, bool_decide_eq_true. cbn [length] in *. split.
    + intros [? ?]. split_and!; [lia..|done|by eexists _, _].
    + intros (_ & ? & ? & ? & [= <- <-] & ?). done.
Qed.

Definition valid_symbol (symbol : bytes) : Prop :=
  (1 <= length symbol <= 64)%nat ∧ text_over (letters_digits ++ B "_-./") symbol.

Lemma IsValidSymbol_spec symbol : IsValidSymbol symbol = true ↔ valid_symbol symbol.
Proof.
  unfold IsValidSymbol, valid_symbol, kMaxSymbolLength.
  rewrite <-(forallb_text symbol_char) by each_byte.
  destruct symbol as [|c symbol]; [split; [done|intros [[H _] _]; simpl in H; lia]|].
  rewrite bool_decide_eq_false_2 by done. cbn [orb].
  destruct (Nat.ltb_spec 64 (length (c :: symbol))) as [|Hlen].
  - split; [done|]. intros [? _]. lia.
  - cbn [length] in *. split; [intros ?; split_and!; [lia..|done]|by intros [_ ?]].
Qed.

Definition valid_env_name (name : bytes) : Prop :=
  text_over (letters_digits ++ B "_") name ∧
  ∃ front rest, name = front :: rest ∧ front ∉ decimal_chars.

Lemma IsValidEnvName_spec name : IsValidEnvName name = true ↔ valid_env_name name.
Proof.
  unfold IsValidEnvName, valid_env_name.
  rewrite <-(forallb_text (λ c, IsAsciiAlnum c || char_is 95 c)) by each_byte.
  destruct name as [|front rest]; [split; [done|by intros (_ & ? & ? & ? & _)]|].
  assert (char_between 48 57 front = bool_decide (front ∈ decimal_chars)) as ->
    by (revert front; each_byte).
  case_bool_decide as Hfront; split.
  - done.
  - intros (_ & ? & ? & [= <- <-] & ?). done.
  - intros ?. split; [done|by eexists _, _].
  - by intros [? _].
Qed.

Definition valid_url (url : bytes) : Prop :=
  (∃ rest, url = B "wss://" ++ rest ∨ url = B "ws://" ++ rest) ∧ (7 <= length url)%nat ∧
  Forall (λ c, byte_val c ∉ [32; 9; 13; 10; 34; 92]) url.

Lemma IsValidWebSocketUrl_spec url : IsValidWebSocketUrl url = true ↔ valid_url url.
Proof.
  unfold IsValidWebSocketUrl, valid_url.
  rewrite !andb_true_iff, orb_true_iff, !starts_with_spec, Nat.ltb_lt, forallb_forall, Forall_forall.
  assert (∀ c, negb (url_breaker c) = bool_decide (byte_val c ∉ [32; 9; 13; 10; 34; 92])) as Hc
    by each_byte.
  change (length (B "wss://")) with 6%nat.
  split.
  - intros [[Hs Hall] Hlen]. split_and!; [naive_solver|lia|].
    intros c Hin%list_elem_of_In%Hall. rewrite Hc in Hin. by apply bool_decide_eq_true in Hin.
  - intros ([rest Hs] & Hlen & Hall). split_and!; [naive_solver| |lia].
    intros c Hin%list_elem_of_In%Hall. rewrite Hc. by apply bool_decide_eq_true.
Qed.

(** ** Endpoints *)

Definition valid_host_port (endpoint : bytes) (hp : HostPort) : Prop :=
  ∃ port_text, endpoint = hp_host hp ++ B ":" ++ port_text ∧
    hp_host hp ≠ [] ∧ text_over (letters_digits ++ B "-.") (hp_host hp) ∧
    text_over decimal_chars port_text ∧ digits_val port_text = hp_port hp ∧
    1 <= hp_port hp <= 65535.

Lemma split_last_None c l : split_last c l = None ↔ c ∉ l.
Proof.
  induction l as [|x l IH]; simpl; [set_solver|].
  destruct (split_last c l) as [[a b]|]; [|case_decide]; set_solver.
Qed.

Lemma split_last_spec c l a b : split_last c l = Some (a, b) ↔ l = a ++ c :: b ∧ c ∉ b.
Proof.
  revert a. induction l as [|x l IH]; intros a; simpl.
  { split; [done|]. intros [H _]. by destruct a. }
  destruct (split_last c l) as [[a' b']|] eqn:Hs.
  - split.
    + intros [= <- <-]. destruct (proj1 (IH a')) as [-> ?]; [done|]. done.
    + intros [Heq Hb]. destruct a as [|y a]; injection Heq as -> ->.
      * apply split_last_None in Hb. congruence.
      * pose proof (proj2 (IH a) (conj eq_refl Hb)) as Hab. by simplify_eq.
  - apply split_last_None in Hs. case_decide as Hx; split; try done.
    + intros [= <- <-]. by subst.
    + intros [Heq Hb]. destruct a as [|y a]; injection Heq as -> ->; [done|]. set_solver.
    + intros [Heq Hb]. destruct a as [|y a]; injection Heq as -> ->; [done|]. set_solver.
Qed.

Lemma span_digits_all l ds : span_digits l = (ds, []) → ds = l ∧ Forall (λ c, is_digit c = true) l.
Proof.
  revert ds. induction l as [|c l IH]; simpl; [by intros ds [= <-]|]. intros ds.
  destruct (is_digit c) eqn:Hc; [|done]. destruct (span_digits l) as [d r]. simpl.
  intros [= <- ->]. destruct (IH d) as [-> ?]; [done|]. by split; [|constructor].
Qed.

(** [from_chars] into an unsigned type that reads the whole text. *)
Lemma from_chars_unsigned hi text v :
  from_chars 0 hi text = Some (v, []) ↔
  text ≠ [] ∧ text_over decimal_chars text ∧ digits_val text = v ∧ 0 <= v <= hi.
Proof.
  unfold from_chars, text_over. change (0 <? 0) with false. cbn [andb].
  assert (∀ c, c ∈ decimal_chars ↔ is_digit c = true) as Hd.
  { intros c. rewrite <-(bool_decide_eq_true (c ∈ decimal_chars)).
    replace (is_digit c) with (bool_decide (c ∈ decimal_chars)) by (revert c; each_byte). done. }
  assert (Forall (λ c, c ∈ decimal_chars) text ↔ Forall (λ c, is_digit c = true) text) as ->
    by (rewrite !Forall_forall; naive_solver).
  replace (match text with [] => (false, text) | _ :: _ => (false, text) end) with (false, text)
    by (by destruct text).
  split.
  - destruct (span_digits text) as [ds rest] eqn:Hs. case_decide as Hne; [done|].
    destruct ((0 <=? _) && _) eqn:Hb; [|done]. intros [= <- ->].
    apply span_digits_all in Hs as [-> Hall]. split_and!; [done..|lia|lia].
  - intros (Hne & Hall & <- & Hv). pose proof (span_digits_app text [] Hall I) as Hs.
    rewrite app_nil_r in Hs. rewrite Hs, decide_False by done.
    replace ((0 <=? digits_val text) && (digits_val text <=? hi)) with true by lia. done.
Qed.

Lemma ParseHostPort_spec endpoint hp :
  ParseHostPort endpoint = Expected hp ↔ valid_host_port endpoint hp.
Proof.
  unfold ParseHostPort, valid_host_port. destruct hp as [host port]. cbn [hp_host hp_port]. split.
  - destruct (split_last _ endpoint) as [[[|h t] [|p r]]|] eqn:Hs; try done.
    apply split_last_spec in Hs as [-> Hcolon].
    destruct (forallb host_char (h :: t)) eqn:Hh; [|done]. cbn [negb].
    destruct (from_chars 0 65535 (p :: r)) as [[v [|]]|] eqn:Hp; try done.
    destruct (Z.eqb_spec v 0) as [|Hv]; [done|]. intros [= <- <-].
    apply from_chars_unsigned in Hp as (_ & Hd & Hval & Hr). exists (p :: r).
    apply (forallb_text _ (letters_digits ++ B "-.")) in Hh; [|each_byte].
    split_and!; [done..|lia|lia].
  - intros (port_text & -> & Hne & Hh & Hd & Hval & Hr).
    assert (byte_of 58 ∉ port_text) as Hcolon.
    { intros Hin. unfold text_over in Hd. rewrite Forall_forall in Hd. apply Hd in Hin.
      revert Hin. by apply (bool_decide_eq_false (byte_of 58 ∈ decimal_chars)). }
    change (B ":") with [byte_of 58]. rewrite (proj2 (split_last_spec _ _ host port_text)) by done.
    apply (forallb_text host_char (letters_digits ++ B "-.")) in Hh; [|each_byte].
    destruct host as [|h t]; [done|]. destruct port_text as [|p r].
    { simpl in Hval. unfold digits_val, digits_val_from in Hval. simpl in Hval. lia. }
    rewrite Hh. cbn [negb].
    rewrite (proj2 (from_chars_unsigned 65535 (p :: r) port)) by (split_and!; [done..|lia|lia]).
    destruct (Z.eqb_spec port 0); [lia|done].
Qed.

(** ** Valid configurations *)

Definition valid_endpoint (c : Connection) : Prop :=
  match c_exchange c with
  | kKraken => valid_url (c_endpoint c) ∧ c_host_port c = no_host_port
  | kDeribit => valid_host_port (c_endpoint c) (c_host_port c)
  end.

Definition valid_decimals (decimals : option Z) : Prop :=
  match decimals with Some n => 0 <= n <= 15 | None => True end.

Definition valid_book_settings (c : Connection) : Prop :=
  match c_exchange c with
  | kKraken =>
      c_depth c ∈ [10; 100; 1000] ∧ c_price_decimals c = None ∧ c_quantity_decimals c = None
  | kDeribit =>
      c_depth c = 10 ∧ valid_decimals (c_price_decimals c) ∧ valid_decimals (c_quantity_decimals c)
  end.

Record valid_connection (c : Connection) : Prop := {
  vc_id : valid_id (c_id c);
  vc_env : c_exchange c = kKraken → c_env c = kProd;
  vc_feed : c_feed c = match c_exchange c with kKraken => B "level3" | kDeribit => B "book" end;
  vc_symbols : Forall valid_symbol (c_symbols c);
  vc_distinct : NoDup (c_symbols c);
  vc_some : c_symbols c ≠ [];
  vc_count : Z.of_nat (length (c_symbols c)) <=
             match c_exchange c with kKraken => 200 | kDeribit => 2 ^ 64 - 1 end;
  vc_endpoint : valid_endpoint c;
  vc_key : valid_env_name (c_api_key_env c);
  vc_secret : valid_env_name (c_api_secret_env c);
  vc_names : c_api_key_env c ≠ c_api_secret_env c;
  vc_book : valid_book_settings c;
}.

Record valid_config (config : FeedHandlerConfig) : Prop := {
  vf_journal_dir : fhc_journal_dir config ≠ [];
  vf_state_dir : fhc_state_dir config ≠ [];
  vf_some : fhc_connections config ≠ [];
  vf_connections : Forall valid_connection (fhc_connections config);
  vf_ids : NoDup (c_id <$> fhc_connections config);
}.

(** ** Inverting a run *)

Lemma expected_bind_inv {E A C} (r : expected E A) (k : A → expected E C) b :
  expected_bind r k = Expected b → ∃ a, r = Expected a ∧ k a = Expected b.
Proof. destruct r as [a|e]; [by exists a|done]. Qed.

(** Open the next step of [H : let? ... = Expected _]. *)
Ltac open_step H :=
  let a := fresh "v" in let Ha := fresh "Hv" in
  apply expected_bind_inv in H as (a & Ha & H); cbv beta in H.

Lemma RequireString_inv table key at_ text :
  RequireString table key at_ = Expected text → get table key = Some (TomlString text).
Proof.
  unfold RequireString, ReadString. destruct (get table key) as [[]|]; try done.
  simpl. by intros [= ->].
Qed.

Lemma RequireEnvName_inv table key at_ name :
  RequireEnvName table key at_ = Expected name → valid_env_name name.
Proof.
  unfold RequireEnvName. intros H. open_step H.
  destruct (IsValidEnvName v) eqn:Hn; [|done]. injection H as <-. by apply IsValidEnvName_spec.
Qed.

Lemma symbols_loop_inv elements seen symbols at_ out :
  symbols_loop elements seen symbols at_ = Expected out →
  (∀ s, s ∈ symbols ↔ s ∈ seen) → NoDup symbols →
  ∃ new, elements = TomlString <$> new ∧ out = symbols ++ new ∧ Forall valid_symbol new ∧ NoDup out.
Proof.
  revert seen symbols. induction elements as [|e elements IH]; intros seen symbols; simpl.
  { intros [= <-] _ ?. exists []. by rewrite app_nil_r. }
  destruct e as [text| | | | |]; try done. destruct (IsValidSymbol text) eqn:Ht; [|done].
  cbn [negb]. case_decide as Hseen; [done|]. intros H Hsame Hnd.
  destruct (IH _ _ H) as (new & -> & -> & Hnew & Hout).
  - set_solver.
  - apply NoDup_app. split_and!; [done| |apply NoDup_singleton]. set_solver.
  - exists (text :: new). rewrite <-app_assoc in Hout |- *. split_and!; try done.
    constructor; [by apply IsValidSymbol_spec|done].
Qed.

Lemma ParseSymbols_inv table exchange at_ symbols :
  ParseSymbols table exchange at_ = Expected symbols →
  Forall valid_symbol symbols ∧ NoDup symbols ∧ symbols ≠ [] ∧
  Z.of_nat (length symbols) <= tr_max_symbols_per_connection (TraitsOf exchange).
Proof.
  unfold ParseSymbols. destruct (get table _) as [[| | | |[|e elements]|]|]; try done.
  cbv zeta. destruct (Z.ltb_spec (tr_max_symbols_per_connection (TraitsOf exchange))
    (Z.of_nat (length (e :: elements)))) as [|Hle]; [done|].
  intros H. apply symbols_loop_inv in H as (new & Heq & -> & Hv & Hnd); [|set_solver|constructor].
  rewrite app_nil_l in *. split_and!; try done.
  - intros ->. done.
  - apply (f_equal length) in Heq. rewrite length_fmap in Heq. by rewrite <-Heq.
Qed.

Lemma read_decimals_inv table is_kraken key at_ out :
  read_decimals table is_kraken key at_ = Expected out →
  valid_decimals out ∧ (is_kraken = true → out = None).
Proof.
  unfold read_decimals. intros H. open_step H. destruct v as [n|]; [|by injection H as <-].
  destruct is_kraken; [done|]. unfold kMaxDecimals in H. destruct ((n <? 0) || _) eqn:Hn; [done|].
  injection H as <-. simpl. split; [lia|done].
Qed.

(** The book keys change only the book settings, to valid ones. *)
Lemma ParseBookSettings_inv table c at_ c' :
  ParseBookSettings table c at_ = Expected c' →
  c_depth c = 10 → c_price_decimals c = None → c_quantity_decimals c = None →
  ∃ depth price quantity,
    c' = set_decimals price quantity (set_depth depth c) ∧ valid_book_settings c'.
Proof.
  unfold ParseBookSettings. intros H Hd Hp Hq. open_step H. open_step H. open_step H. open_step H.
  injection H as <-.
  apply read_decimals_inv in Hv1 as [Hp1 Hp2]. apply read_decimals_inv in Hv2 as [Hq1 Hq2].
  assert (∃ depth, v0 = set_depth depth c ∧ depth ∈ [10; 100; 1000] ∧
            (c_exchange c = kDeribit → depth = 10)) as (depth & -> & Hin & Hder).
  { destruct v as [n|]; [|injection Hv0 as <-; exists 10; split_and!; [|set_solver|done];
                          rewrite <-Hd; by destruct c].
    destruct (bool_decide (c_exchange c = kKraken)) eqn:Hk; [|done]. cbn [negb] in Hv0.
    destruct (bool_decide (n ∈ kSupportedDepths)) eqn:Hn; [|done]. injection Hv0 as <-.
    apply bool_decide_eq_true in Hk, Hn. exists n. rewrite Hk. by split_and!. }
  eexists depth, _, _. split; [reflexivity|]. unfold valid_book_settings, assigned. cbn.
  rewrite Hp, Hq. destruct (c_exchange c) eqn:Hex.
  - rewrite bool_decide_eq_true_2 in Hp2, Hq2 by done.
    rewrite Hp2, Hq2 by done. done.
  - split_and!; [by apply Hder|by destruct v1|by destruct v2].
Qed.

Lemma ResolveEndpoint_inv table c at_ c' :
  ResolveEndpoint table c at_ = Expected c' → c_host_port c = no_host_port →
  ∃ endpoint hp, c' = set_endpoint endpoint hp c ∧ valid_endpoint c'.
Proof.
  unfold ResolveEndpoint. intros H Hhp. open_step H. open_step H.
  unfold valid_endpoint. destruct (c_exchange c) eqn:Hex; cbn [TraitsOf tr_endpoint_kind kraken_traits
    deribit_traits] in H.
  - destruct (IsValidWebSocketUrl v0) eqn:Hu; [|done]. injection H as <-.
    eexists _, _. split; [reflexivity|]. cbn. rewrite Hex.
    split; [by apply IsValidWebSocketUrl_spec|done].
  - destruct (ParseHostPort v0) as [hp|] eqn:Hu; [|done]. injection H as <-.
    eexists _, _. split; [reflexivity|]. cbn. rewrite Hex. by apply ParseHostPort_spec.
Qed.

Lemma ParseConnection_valid table index c :
  ParseConnection table index = Expected c → valid_connection c.
Proof.
  unfold ParseConnection. intros H. open_step H. open_step H. cbv zeta in H.
  destruct (IsValidId v0) eqn:Hid; [|done]. cbn [negb] in H.
  open_step H. open_step H.
  destruct (bool_decide (v2 = kTestnet) && _) eqn:Hnet; [done|].
  open_step H. open_step H. open_step H. open_step H. open_step H. open_step H. open_step H.
  destruct (decide (v8 = v9)) as [|Hne]; [done|]. injection H as <-.
  apply ParseBookSettings_inv in Hv6 as (depth & price & quantity & -> & Hbook); [|done..].
  apply ResolveEndpoint_inv in Hv7 as (endpoint & hp & -> & Hend); [|done].
  apply ParseSymbols_inv in Hv5 as (Hsym & Hnd & Hsome & Hcount).
  apply RequireEnvName_inv in Hv8, Hv9. apply IsValidId_spec in Hid.
  constructor; cbn; try done.
  - intros ->. destruct v2; [done|]. done.
  - by destruct v1.
  - by destruct v1.
Qed.

Lemma parse_connections_inv tables index ids connections out :
  parse_connections tables index ids connections = Expected out →
  (∀ id, id ∈ c_id <$> connections ↔ id ∈ ids) →
  Forall valid_connection connections → NoDup (c_id <$> connections) →
  Forall valid_connection out ∧ NoDup (c_id <$> out) ∧
  length out = (length connections + length tables)%nat.
Proof.
  revert index ids connections. induction tables as [|table tables IH]; intros index ids cs; simpl.
  { intros [= <-] _ ? ?. split_and!; [done..|lia]. }
  intros H Hids Hall Hnd. open_step H. case_decide as Hnew; [done|].
  apply ParseConnection_valid in Hv. destruct (IH _ _ _ H) as (? & ? & Hlen).
  - rewrite fmap_app. set_solver.
  - apply Forall_app. by split; [|constructor].
  - rewrite fmap_app. apply NoDup_app. split_and!; [done| |apply NoDup_singleton]. set_solver.
  - split_and!; try done. rewrite Hlen, length_app. simpl. lia.
Qed.

Lemma ReadPath_inv table key fallback path :
  ReadPath table key fallback = Expected path → fallback ≠ [] → path ≠ [].
Proof.
  unfold ReadPath. intros H Hne. open_step H. destruct v as [[|]|]; [done|..]; by injection H as <-.
Qed.

Lemma ParseRoot_valid root config : ParseRoot root = Expected config → valid_config config.
Proof.
  unfold ParseRoot. intros H. open_step H. open_step H. open_step H. open_step H.
  apply ReadPath_inv in Hv0, Hv1; [|done..].
  destruct (get root (B "connections")) as [[| | | |[|e elements]|]|]; try done.
  destruct (mapM as_table (e :: elements)) as [tables|] eqn:Ht; [|done]. open_step H.
  injection H as <-. apply mapM_Some in Ht. apply Forall2_length in Ht.
  apply parse_connections_inv in Hv3 as (? & ? & Hlen); [|set_solver|constructor..].
  constructor; cbn; try done. intros ->. simpl in *. lia.
Qed.

Lemma ParseConfig_valid_config toml_parse text name config :
  ParseConfig toml_parse text name = Expected config → valid_config config.
Proof.
  unfold ParseConfig. destruct (toml_parse text name) as [root|]; [|done]. apply ParseRoot_valid.
Qed.

(** C31: whatever the file holds, a configuration that is accepted
    is valid: connections with distinct ids fit for file names, distinct symbols
    of safe characters within the exchange's limit, an endpoint of the
    exchange's kind with its host and port split, two different names of
    environment variables, a depth Kraken serves, decimals a scale can hold,
    and a testnet only where there is one. *)
Theorem LoadConfigFile_valid toml_parse read_file path config :
  LoadConfigFile toml_parse read_file path = Expected config → valid_config config.
Proof.
  unfold LoadConfigFile. destruct (read_file path) as [[text []]|]; [done| |done].
  apply ParseConfig_valid_config.
Qed.

(** One connection each way. *)
Definition demo_kraken : toml_table :=
  [(B "api_key_env", TomlString (B "KRAKEN_KEY")); (B "api_secret_env", TomlString (B "KRAKEN_SECRET"));
   (B "depth", TomlInteger 100); (B "env", TomlString (B "prod"));
   (B "exchange", TomlString (B "kraken")); (B "id", TomlString (B "kraken-spot"));
   (B "symbols", TomlArray [TomlString (B "BTC/USD"); TomlString (B "ETH/USD")])].
Definition demo_deribit : toml_table :=
  [(B "api_key_env", TomlString (B "D_ID")); (B "api_secret_env", TomlString (B "D_SECRET"));
   (B "env", TomlString (B "testnet")); (B "exchange", TomlString (B "deribit"));
   (B "id", TomlString (B "deribit")); (B "price_decimals", TomlInteger 2);
   (B "quantity_decimals", TomlInteger 1); (B "symbols", TomlArray [TomlString (B "BTC-PERPETUAL")])].
Definition demo_root : toml_table :=
  [(B "connections", TomlArray [TomlTable demo_kraken; TomlTable demo_deribit]);
   (B "order_books", TomlBoolean true)].
Definition demo_config : FeedHandlerConfig :=
  mkFeedHandlerConfig (B "journal") (B "state") true
    [mkConnection (B "kraken-spot") kKraken kProd (B "level3") [B "BTC/USD"; B "ETH/USD"]
       (B "wss://ws-l3.kraken.com/v2") no_host_port (B "KRAKEN_KEY") (B "KRAKEN_SECRET") 100 None None;
     mkConnection (B "deribit") kDeribit kTestnet (B "book") [B "BTC-PERPETUAL"]
       (B "fix-test.deribit.com:9881") (mkHostPort (B "fix-test.deribit.com") 9881)
       (B "D_ID") (B "D_SECRET") 10 (Some 2) (Some 1)].

Lemma demo_root_parsed : ParseRoot demo_root = Expected demo_config.
Proof. vm_compute. reflexivity. Qed.

Lemma LoadConfigFile_valid_witness : valid_config demo_config.
Proof.
  apply (LoadConfigFile_valid (λ _ _, Expected demo_root) (λ _, Some ([], false)) (B "feed.toml")).
  exact demo_root_parsed.
Defined.

(** ** Documents of configurations

    Every setting spelled out, keys in the order a table lists them. *)

Definition optional_toml (key : bytes) (value : option Z) : toml_table :=
  match value with Some n => [(key, TomlInteger n)] | None => [] end.

Definition connection_toml (c : Connection) : toml_table :=
  [(B "api_key_env", TomlString (c_api_key_env c));
   (B "api_secret_env", TomlString (c_api_secret_env c))] ++
  optional_toml (B "depth") (match c_exchange c with kKraken => Some (c_depth c) | kDeribit => None end) ++
  [(B "endpoint", TomlString (c_endpoint c));
   (B "env", TomlString (Environment_ToString (c_env c)));
   (B "exchange", TomlString (ToString (c_exchange c)));
   (B "feed", TomlString (c_feed c)); (B "id", TomlString (c_id c))] ++
  optional_toml (B "price_decimals") (c_price_decimals c) ++
  optional_toml (B "quantity_decimals") (c_quantity_decimals c) ++
  [(B "symbols", TomlArray (TomlString <$> c_symbols c))].

Definition config_toml (config : FeedHandlerConfig) : toml_table :=
  [(B "connections", TomlArray (TomlTable ∘ connection_toml <$> fhc_connections config));
   (B "journal_dir", TomlString (fhc_journal_dir config));
   (B "order_books", TomlBoolean (fhc_order_books config));
   (B "state_dir", TomlString (fhc_state_dir config))].

(** A key of [connection_toml], looked up. *)
Ltac look_up c :=
  unfold connection_toml, optional_toml;
  destruct (c_exchange c), (c_price_decimals c), (c_quantity_decimals c); reflexivity.

Section document.
Context (c : Connection).
Abbreviation t := (connection_toml c).

Lemma get_id : get t (B "id") = Some (TomlString (c_id c)).
Proof. look_up c. Qed.
Lemma get_exchange : get t (B "exchange") = Some (TomlString (ToString (c_exchange c))).
Proof. look_up c. Qed.
Lemma get_env : get t (B "env") = Some (TomlString (Environment_ToString (c_env c))).
Proof. look_up c. Qed.
Lemma get_feed : get t (B "feed") = Some (TomlString (c_feed c)).
Proof. look_up c. Qed.
Lemma get_symbols : get t (B "symbols") = Some (TomlArray (TomlString <$> c_symbols c)).
Proof. look_up c. Qed.
Lemma get_endpoint : get t (B "endpoint") = Some (TomlString (c_endpoint c)).
Proof. look_up c. Qed.
Lemma get_key_env : get t (B "api_key_env") = Some (TomlString (c_api_key_env c)).
Proof. look_up c. Qed.
Lemma get_secret_env : get t (B "api_secret_env") = Some (TomlString (c_api_secret_env c)).
Proof. look_up c. Qed.
Lemma get_depth :
  get t (B "depth") = match c_exchange c with kKraken => Some (TomlInteger (c_depth c)) | _ => None end.
Proof. look_up c. Qed.
Lemma get_price : get t (B "price_decimals") = TomlInteger <$> c_price_decimals c.
Proof. look_up c. Qed.
Lemma get_quantity : get t (B "quantity_decimals") = TomlInteger <$> c_quantity_decimals c.
Proof. look_up c. Qed.
Lemma known_keys at_ : RejectUnknownKeys t connection_keys at_ = Expected tt.
Proof. look_up c. Qed.
End document.

Lemma ReadString_get table key at_ text :
  get table key = Some (TomlString text) → ReadString table key at_ = Expected (Some text).
Proof. unfold ReadString. by intros ->. Qed.

Lemma RequireString_get table key at_ text :
  get table key = Some (TomlString text) → RequireString table key at_ = Expected text.
Proof. intros H. unfold RequireString. by rewrite (ReadString_get _ _ _ _ H). Qed.

Lemma RequireEnvName_get table key at_ name :
  get table key = Some (TomlString name) → valid_env_name name →
  RequireEnvName table key at_ = Expected name.
Proof.
  intros H Hn. unfold RequireEnvName. rewrite (RequireString_get _ _ _ _ H). cbn [expected_bind].
  by apply IsValidEnvName_spec in Hn as ->.
Qed.

Lemma symbols_loop_run new seen symbols at_ :
  Forall valid_symbol new → NoDup new → (∀ s, s ∈ new → s ∉ seen) →
  symbols_loop (TomlString <$> new) seen symbols at_ = Expected (symbols ++ new).
Proof.
  intros Hv. revert seen symbols. induction Hv as [|s new Hs Hv IH]; intros seen symbols Hnd Hfresh.
  { by rewrite app_nil_r. }
  apply NoDup_cons in Hnd as [Hnot Hnd]. apply IsValidSymbol_spec in Hs. cbn. rewrite Hs. cbn [negb].
  rewrite decide_False by set_solver. rewrite IH; [by rewrite <-app_assoc|done|set_solver].
Qed.

Lemma ParseSymbols_run table exchange at_ symbols :
  get table (B "symbols") = Some (TomlArray (TomlString <$> symbols)) →
  Forall valid_symbol symbols → NoDup symbols → symbols ≠ [] →
  Z.of_nat (length symbols) <= tr_max_symbols_per_connection (TraitsOf exchange) →
  ParseSymbols table exchange at_ = Expected symbols.
Proof.
  intros Hget Hv Hnd Hne Hle. unfold ParseSymbols. rewrite Hget.
  destruct symbols as [|s symbols]; [done|]. cbn [fmap list_fmap].
  rewrite (proj2 (Z.ltb_ge _ _)).
  - apply (symbols_loop_run (s :: symbols) ∅ []); [done..|set_solver].
  - cbn [length] in *. by rewrite length_fmap.
Qed.

Lemma ParseExchange_run c at_ : ParseExchange (connection_toml c) at_ = Expected (c_exchange c).
Proof.
  unfold ParseExchange. rewrite (RequireString_get _ _ _ _ (get_exchange c)).
  by destruct (c_exchange c).
Qed.

Lemma ParseEnvironment_run c at_ : ParseEnvironment (connection_toml c) at_ = Expected (c_env c).
Proof.
  unfold ParseEnvironment. rewrite (RequireString_get _ _ _ _ (get_env c)). by destruct (c_env c).
Qed.

Lemma read_decimals_run table key at_ value :
  get table key = TomlInteger <$> value → valid_decimals value →
  read_decimals table false key at_ = Expected value.
Proof.
  intros Hget Hv. unfold read_decimals, ReadInteger. rewrite Hget.
  destruct value as [n|]; [|done]. cbn in *. unfold kMaxDecimals.
  by replace ((n <? 0) || (15 <? n)) with false by lia.
Qed.

Lemma read_decimals_absent table is_kraken key at_ :
  get table key = None → read_decimals table is_kraken key at_ = Expected None.
Proof. intros H. unfold read_decimals, ReadInteger. by rewrite H. Qed.

(** A connection before its book keys and its endpoint are read. *)
Definition bare_connection (c : Connection) : Connection :=
  mkConnection (c_id c) (c_exchange c) (c_env c) (c_feed c) (c_symbols c) [] no_host_port [] []
    kDefaultDepth None None.

Lemma ParseBookSettings_run c at_ : valid_book_settings c →
  ParseBookSettings (connection_toml c) (bare_connection c) at_ =
  Expected (set_decimals (c_price_decimals c) (c_quantity_decimals c)
              (set_depth (c_depth c) (bare_connection c))).
Proof.
  intros Hb. unfold ParseBookSettings, valid_book_settings, ReadInteger in *. rewrite get_depth.
  cbn [c_exchange bare_connection].
  pose proof (get_price c) as Hp. pose proof (get_quantity c) as Hq.
  destruct (c_exchange c) eqn:Hex; cbn [expected_bind].
  - destruct Hb as (Hd & Hp0 & Hq0). rewrite Hp0 in *. rewrite Hq0 in *.
    rewrite (bool_decide_eq_true_2 (kKraken = kKraken)) by done. cbn [negb].
    rewrite bool_decide_eq_true_2 by done. cbn [negb expected_bind].
    rewrite !read_decimals_absent by done. done.
  - destruct Hb as (Hd & Hp0 & Hq0). rewrite (bool_decide_eq_false_2 (kDeribit = kKraken)) by done.
    rewrite (read_decimals_run _ _ _ _ Hp Hp0), (read_decimals_run _ _ _ _ Hq Hq0).
    cbn [expected_bind]. f_equal. unfold assigned, set_decimals, set_depth, bare_connection. cbn.
    rewrite Hd. by destruct (c_price_decimals c), (c_quantity_decimals c).
Qed.

Lemma ResolveEndpoint_run c c0 at_ :
  c_exchange c0 = c_exchange c → c_host_port c0 = no_host_port → valid_endpoint c →
  ResolveEndpoint (connection_toml c) c0 at_ =
  Expected (set_endpoint (c_endpoint c) (c_host_port c) c0).
Proof.
  intros Hex Hhp Hend. unfold ResolveEndpoint, valid_endpoint in *.
  rewrite (ReadString_get _ _ _ _ (get_endpoint c)), Hex. cbn [expected_bind].
  destruct (c_exchange c); cbn.
  - destruct Hend as [Hu ->]. apply IsValidWebSocketUrl_spec in Hu as ->. cbn. by rewrite Hhp.
  - by apply ParseHostPort_spec in Hend as ->.
Qed.

Lemma ParseConnection_run c index :
  valid_connection c → ParseConnection (connection_toml c) index = Expected c.
Proof.
  intros [Hid Henv Hfeed Hsym Hnd Hsome Hcount Hend Hkey Hsecret Hnames Hbook].
  unfold ParseConnection. rewrite known_keys. cbn [expected_bind].
  rewrite (RequireString_get _ _ _ _ (get_id c)). cbn [expected_bind].
  apply IsValidId_spec in Hid as ->. cbn [negb].
  rewrite ParseExchange_run, ParseEnvironment_run. cbn [expected_bind].
  replace (bool_decide (c_env c = kTestnet) && negb (tr_has_testnet (TraitsOf (c_exchange c))))
    with false by (destruct (c_exchange c); [by rewrite Henv|by rewrite andb_false_r]).
  rewrite (ReadString_get _ _ _ _ (get_feed c)). cbn [expected_bind].
  assert (tr_feed (TraitsOf (c_exchange c)) = c_feed c) as ->
    by (rewrite Hfeed; by destruct (c_exchange c)).
  rewrite decide_True by done. cbn [expected_bind].
  rewrite (ParseSymbols_run _ _ _ _ (get_symbols c)); [|done..|by destruct (c_exchange c)].
  cbn [expected_bind]. fold (bare_connection c).
  rewrite ParseBookSettings_run by done. cbn [expected_bind].
  rewrite ResolveEndpoint_run by done. cbn [expected_bind].
  rewrite (RequireEnvName_get _ _ _ _ (get_key_env c)), (RequireEnvName_get _ _ _ _ (get_secret_env c))
    by done.
  cbn [expected_bind]. rewrite decide_False by done. by destruct c.
Qed.

Lemma parse_connections_run cs index ids before :
  Forall valid_connection cs → NoDup (c_id <$> cs) → (∀ c, c ∈ cs → c_id c ∉ ids) →
  parse_connections (connection_toml <$> cs) index ids before = Expected (before ++ cs).
Proof.
  intros Hv. revert index ids before.
  induction Hv as [|c cs Hc Hv IH]; intros index ids before Hnd Hfresh; [by rewrite app_nil_r|].
  apply NoDup_cons in Hnd as [Hnot Hnd]. cbn [fmap list_fmap parse_connections].
  rewrite ParseConnection_run by done. cbn [expected_bind].
  rewrite decide_False by set_solver.
  rewrite IH; [by rewrite <-app_assoc|done|]. intros c' Hc'.
  assert (c_id c' ∈ c_id <$> cs) by (by apply list_elem_of_fmap_2). set_solver.
Qed.

(** C32: a valid configuration is exactly what the document that spells it out
    parses to: with [LoadConfigFile_valid], the accepted configurations are the
    valid ones, and no setting is lost, defaulted or changed on the way. *)
Theorem ParseConfig_config_toml toml_parse text name config :
  toml_parse text name = Expected (config_toml config) → valid_config config →
  ParseConfig toml_parse text name = Expected config.
Proof.
  intros Hparse [Hj Hs Hsome Hall Hids]. unfold ParseConfig. rewrite Hparse.
  destruct config as [journal_dir state_dir books [|c cs]]; [done|]. cbn in Hj, Hs.
  unfold ParseRoot. change (RejectUnknownKeys (config_toml _) _ _) with (@Expected bytes unit tt).
  cbn [expected_bind]. unfold ReadPath.
  rewrite (ReadString_get _ _ _ journal_dir), (ReadString_get _ _ _ state_dir) by reflexivity.
  cbn [expected_bind]. destruct journal_dir as [|j js]; [done|]. destruct state_dir as [|s ss]; [done|].
  cbn [expected_bind].
  change (get (config_toml _) (B "order_books")) with (Some (TomlBoolean books)).
  cbn [expected_bind fhc_connections].
  change (get (config_toml _) (B "connections"))
    with (Some (TomlArray (TomlTable ∘ connection_toml <$> c :: cs))).
  cbn [fmap list_fmap]. change (mapM as_table _) with (mapM as_table (TomlTable ∘ connection_toml <$> c :: cs)).
  assert (mapM as_table (TomlTable ∘ connection_toml <$> c :: cs) =
          Some (connection_toml <$> c :: cs)) as ->.
  { apply mapM_Some. apply Forall2_fmap, Forall_Forall2_diag, Forall_true. done. }
  rewrite (parse_connections_run (c :: cs) 0 ∅ []); [done..|set_solver].
Qed.

Lemma ParseConfig_config_toml_witness :
  ParseConfig (λ _ _, Expected (config_toml demo_config)) (B "spelled out") (B "config") =
  Expected demo_config.
Proof.
  apply ParseConfig_config_toml; [reflexivity|].
  exact (ParseRoot_valid _ _ demo_root_parsed).
Defined.

(** A host of one letter is too short behind [ws://], and only there. *)
Example one_letter_host :
  IsValidWebSocketUrl (B "ws://h") = false ∧ IsValidWebSocketUrl (B "wss://h") = true.
Proof. split; reflexivity. Qed.
