(* ===== verification/ConfigSafety.v ===== *)
(** * What the configuration keeps apart

    The strings of a configuration become file names, wire messages and names
    of secrets. Journals of two connections never share a file
    ([client_capture.h]), a credential pasted in place of the name of its
    variable is not repeated in an error, and symbols survive being spliced
    into a FIX message. *)

From S2P Require Import Prelude Text Config ConfigProofs FixRoundTrip FixTime Feed Journal JournalThread CaptureSession JournalNames.

(** ** Journal files *)

(** The session of a [ClientCapture]. *)
Definition session_config (config : FeedHandlerConfig) (connection : Connection) : CaptureSession.Config :=
  mkConfig (fhc_journal_dir config) (ToString (c_exchange connection)) (c_id connection) true
    (Z.to_nat (2 ^ 16)) true.

Lemma no_dash_digits l : Forall (λ c, is_digit c = true) l → byte_of 45 ∉ l.
Proof. rewrite Forall_forall. by intros H Hin%H. Qed.

Lemma no_dash (v : bytes) : bool_decide (byte_of 45 ∉ v) = true → byte_of 45 ∉ v.
Proof. by intros ?%bool_decide_eq_true_1. Qed.

(** The prefix and the ordinal can be read off a name. *)
Lemma JournalFileName_inj p1 p2 n1 n2 t1 t2 :
  0 <= n1 < 2 ^ 64 → 0 <= n2 < 2 ^ 64 →
  JournalFileName p1 n1 t1 = JournalFileName p2 n2 t2 → p1 = p2 ∧ n1 = n2.
Proof.
  intros Hn1 Hn2. unfold JournalFileName. cbv zeta.
  match goal with
  | |- p1 ++ _ ++ _ ++ _ ++ ?st1 ++ ?ext = p2 ++ _ ++ _ ++ _ ++ ?st2 ++ _ → _ =>
      assert (byte_of 45 ∉ st1 ++ ext) as Hs1; [|assert (byte_of 45 ∉ st2 ++ ext) as Hs2;
        [|generalize dependent (st1 ++ ext); generalize dependent (st2 ++ ext)]]
  end.
  1, 2: rewrite !not_elem_of_app; split_and!;
    first [apply no_dash_digits, padded_digits|by apply no_dash].
  intros s2 Hs2 s1 Hs1 Heq. change (B "-") with [byte_of 45] in Heq.
  rewrite !app_assoc in Heq. rewrite <-!(app_assoc _ [byte_of 45]) in Heq.
  assert (∀ a b, byte_of 45 ∉ b → split_last (byte_of 45) (a ++ byte_of 45 :: b) = Some (a, b)) as Hsplit
    by (intros a b Hb; by apply split_last_spec).
  cbn [app] in Heq. apply (f_equal (split_last (byte_of 45))) in Heq.
  rewrite !Hsplit in Heq by done. injection Heq as Heq _. apply (f_equal (split_last (byte_of 45))) in Heq.
  pose proof (ordinal_digits n1 ltac:(lia)) as D1. pose proof (ordinal_digits n2 ltac:(lia)) as D2.
  rewrite !Hsplit in Heq by (by apply no_dash_digits).
  injection Heq as -> Heq. split; [done|].
  apply (f_equal digits_val) in Heq. by rewrite !ordinal_val in Heq.
Qed.

Lemma valid_id_chars id : valid_id id → byte_of 47 ∉ id ∧ head id ≠ Some (byte_of 47) ∧ id ≠ [].
Proof.
  intros (_ & Hall & front & rest & Hid & Hfront). unfold text_over in Hall. rewrite Forall_forall in Hall.
  assert (byte_of 47 ∉ id) as Hno.
  { intros Hin%Hall. revert Hin. by apply (bool_decide_eq_false (byte_of 47 ∈ _)). }
  subst id. split_and!; [done| |done]. intros [= ->]. set_solver.
Qed.

(** The name of a journal is a plain one: it stays in its directory. *)
Lemma JournalFileName_plain id n t :
  valid_id id → 0 <= n → byte_of 47 ∉ JournalFileName id n t.
Proof.
  intros Hid Hn. unfold JournalFileName. cbv zeta.
  assert (∀ l, Forall (λ c, is_digit c = true) l → byte_of 47 ∉ l) as Hdig
    by (intros l; rewrite Forall_forall; by intros H Hin%H).
  assert (∀ v : bytes, bool_decide (byte_of 47 ∉ v) = true → byte_of 47 ∉ v) as Hlit
    by (by intros v ?%bool_decide_eq_true_1).
  rewrite !not_elem_of_app.
  split_and!; first [by apply valid_id_chars|apply Hdig, padded_digits|by apply Hdig, ordinal_digits
                    |by apply Hlit].
Qed.

Lemma path_append_inj dir name1 name2 :
  byte_of 47 ∉ name1 → byte_of 47 ∉ name2 →
  path_append dir name1 = path_append dir name2 → name1 = name2.
Proof.
  intros H1 H2. unfold path_append.
  rewrite (bool_decide_eq_false_2 (head name1 = _)), (bool_decide_eq_false_2 (head name2 = _))
    by (by intros ?%head_Some_elem_of).
  case_match; [by intros ?%app_inv_head|]. by intros ?%app_inv_head%app_inv_head.
Qed.

(** C33: connections of an accepted configuration never write into each other's
    journals, and no connect into that of an earlier one, whenever they start:
    every connect of every connection has a file of its own, and all of them
    lie directly in the journal directory. *)
Theorem journals_distinct toml_parse text name config i1 i2 c1 c2 n1 n2 t1 t2 :
  ParseConfig toml_parse text name = Expected config →
  fhc_connections config !! i1 = Some c1 → fhc_connections config !! i2 = Some c2 →
  0 <= n1 < 2 ^ 64 → 0 <= n2 < 2 ^ 64 → (i1, n1) ≠ (i2, n2) →
  journal_path (session_config config c1) n1 t1 ≠ journal_path (session_config config c2) n2 t2 ∧
  ∃ file, journal_path (session_config config c1) n1 t1 = path_append (fhc_journal_dir config) file ∧
    byte_of 47 ∉ file.
Proof.
  intros Hparse Hc1 Hc2 Hn1 Hn2 Hne. apply ParseConfig_valid_config in Hparse.
  destruct Hparse as [_ _ _ Hall Hids].
  pose proof (vc_id _ (Forall_lookup_1 _ _ _ _ Hall Hc1)) as Hid1.
  pose proof (vc_id _ (Forall_lookup_1 _ _ _ _ Hall Hc2)) as Hid2.
  unfold journal_path. cbn [session_config cfg_directory cfg_exchange cfg_file_prefix].
  rewrite !decide_False by (by apply valid_id_chars).
  split; [|eexists; split; [reflexivity|apply JournalFileName_plain; [done|lia]]].
  intros Heq. apply path_append_inj in Heq; [|apply JournalFileName_plain; [done|lia]..].
  apply JournalFileName_inj in Heq as [Heq ->]; [|done..]. apply Hne. f_equal.
  eapply (NoDup_lookup _ i1 i2 (c_id c1) Hids); rewrite list_lookup_fmap.
  - by rewrite Hc1.
  - by rewrite Hc2, Heq.
Qed.

(** Both connections of the example connect for the first time in one second. *)
Lemma journals_distinct_witness : ∃ c1 c2,
  fhc_connections demo_config = [c1; c2] ∧
  journal_path (session_config demo_config c1) 1 1789592400000000000 ≠
  journal_path (session_config demo_config c2) 1 1789592400000000000.
Proof.
  eexists _, _. split; [reflexivity|].
  apply (journals_distinct (λ _ _, Expected demo_root) [] (B "config") demo_config 0 1);
    [exact demo_root_parsed|reflexivity|reflexivity|lia|lia|congruence].
Defined.

(** ** Pasted credentials *)

Definition env_keys : list bytes := [B "api_key_env"; B "api_secret_env"].

(** Two values of a key that differ at most in a text that is no name of an
    environment variable, under a key that asks for one. *)
Definition same_but_pasted (key : bytes) (v1 v2 : toml) : Prop :=
  v1 = v2 ∨
  key ∈ env_keys ∧ ∃ s1 s2, v1 = TomlString s1 ∧ v2 = TomlString s2 ∧
    ¬ valid_env_name s1 ∧ ¬ valid_env_name s2.

Definition same_entry (t1 t2 : toml_table) : Prop :=
  Forall2 (λ e1 e2, e1.1 = e2.1 ∧ same_but_pasted e1.1 e1.2 e2.2) t1 t2.

(** Two documents that differ only in what was pasted into their connections. *)
Definition same_document (root1 root2 : toml_table) : Prop :=
  Forall2 (λ e1 e2, e1.1 = e2.1 ∧
    (e1.2 = e2.2 ∨ e1.1 = B "connections" ∧ ∃ ts1 ts2,
       e1.2 = TomlArray (TomlTable <$> ts1) ∧ e2.2 = TomlArray (TomlTable <$> ts2) ∧
       Forall2 same_entry ts1 ts2)) root1 root2.

Lemma expected_bind_ext {E A C} (r r' : expected E A) (k k' : A → expected E C) :
  r = r' → (∀ a, k a = k' a) → expected_bind r k = expected_bind r' k'.
Proof. intros -> Hk. destruct r' as [a|e]; [apply Hk|done]. Qed.

Lemma get_related (R : bytes → toml → toml → Prop) t1 t2 key :
  Forall2 (λ e1 e2, e1.1 = e2.1 ∧ R e1.1 e1.2 e2.2) t1 t2 →
  option_Forall2 (R key) (get t1 key) (get t2 key).
Proof.
  induction 1 as [|[k1 v1] [k2 v2] t1 t2 [Hk HR] _ IH]; cbn in *; [constructor|]. subst k2.
  case_decide as Hkey; [subst; by constructor|done].
Qed.

Lemma RejectUnknownKeys_related (R : bytes → toml → toml → Prop) t1 t2 allowed at_ :
  Forall2 (λ e1 e2, e1.1 = e2.1 ∧ R e1.1 e1.2 e2.2) t1 t2 →
  RejectUnknownKeys t1 allowed at_ = RejectUnknownKeys t2 allowed at_.
Proof.
  induction 1 as [|[k1 v1] [k2 v2] t1 t2 [Hk _] _ IH]; [done|]. cbn in *. subst k2. by rewrite IH.
Qed.

Lemma get_other_key t1 t2 key : same_entry t1 t2 → key ∉ env_keys → get t1 key = get t2 key.
Proof.
  intros Ht Hkey. pose proof (get_related same_but_pasted t1 t2 key Ht) as Hget.
  inversion Hget as [v1 v2 Hv|]; [|done]. destruct Hv as [->|[? _]]; done.
Qed.

Lemma RequireEnvName_related t1 t2 key at_ :
  same_entry t1 t2 → RequireEnvName t1 key at_ = RequireEnvName t2 key at_.
Proof.
  intros Ht. pose proof (get_related same_but_pasted t1 t2 key Ht) as Hget.
  unfold RequireEnvName, RequireString, ReadString.
  inversion Hget as [v1 v2 Hv|]; [|done].
  destruct Hv as [->|(_ & s1 & s2 & -> & -> & H1 & H2)]; [done|]. cbn [expected_bind].
  rewrite <-IsValidEnvName_spec in H1, H2. apply not_true_is_false in H1 as ->, H2 as ->. done.
Qed.

Lemma ParseConnection_related t1 t2 index :
  same_entry t1 t2 → ParseConnection t1 index = ParseConnection t2 index.
Proof.
  intros Ht.
  assert (∀ key, bool_decide (key ∈ env_keys) = false → get t1 key = get t2 key) as Hget
    by (intros key Hkey; apply bool_decide_eq_false in Hkey; by apply get_other_key).
  unfold ParseConnection, ParseExchange, ParseEnvironment, RequireString, ReadString, ParseSymbols,
    ParseBookSettings, ResolveEndpoint, read_decimals, ReadInteger, ReadString.
  rewrite (RejectUnknownKeys_related same_but_pasted t1 t2) by done.
  rewrite (Hget (B "id")), (Hget (B "exchange")), (Hget (B "env")), (Hget (B "feed")),
    (Hget (B "symbols")), (Hget (B "depth")), (Hget (B "price_decimals")),
    (Hget (B "quantity_decimals")), (Hget (B "endpoint")) by reflexivity.
  repeat (apply expected_bind_ext; [done|intros ?]). cbv zeta. case_match; [done|].
  repeat (apply expected_bind_ext; [done|intros ?]). case_match; [done|].
  repeat (apply expected_bind_ext; [done || by apply RequireEnvName_related|intros ?]). done.
Qed.

Lemma parse_connections_related ts1 ts2 index ids before :
  Forall2 same_entry ts1 ts2 →
  parse_connections ts1 index ids before = parse_connections ts2 index ids before.
Proof.
  intros Hts. revert index ids before. induction Hts as [|t1 t2 ts1 ts2 Ht _ IH]; [done|].
  intros index ids before. cbn. rewrite (ParseConnection_related t1 t2) by done.
  apply expected_bind_ext; [done|]. intros c. case_decide; [done|]. apply IH.
Qed.

Lemma mapM_as_table ts : mapM as_table (TomlTable <$> ts) = Some ts.
Proof. apply mapM_Some. by apply Forall2_fmap_l, Forall_Forall2_diag, Forall_true. Qed.

(** C34: a credential pasted where the name of its variable belongs is never
    repeated: documents that differ only in such texts have the same outcome,
    so no error message, nor anything else, depends on what was pasted. *)
Theorem pasted_credential_not_echoed root1 root2 :
  same_document root1 root2 → ParseRoot root1 = ParseRoot root2.
Proof.
  intros Hdoc. set (R := λ (key : bytes) v1 v2, v1 = v2 ∨ key = B "connections" ∧ ∃ ts1 ts2,
    v1 = TomlArray (TomlTable <$> ts1) ∧ v2 = TomlArray (TomlTable <$> ts2) ∧
    Forall2 same_entry ts1 ts2).
  assert (∀ key, bool_decide (key = B "connections") = false → get root1 key = get root2 key) as Hget.
  { intros key Hkey%bool_decide_eq_false. pose proof (get_related R root1 root2 key Hdoc) as Hg.
    inversion Hg as [v1 v2 Hv|]; [|done]. by destruct Hv as [->|[? _]]. }
  pose proof (get_related R root1 root2 (B "connections") Hdoc) as Hconn.
  unfold ParseRoot, ReadPath, ReadString.
  rewrite (RejectUnknownKeys_related R root1 root2) by done.
  rewrite (Hget (B "journal_dir")), (Hget (B "state_dir")), (Hget (B "order_books")) by reflexivity.
  repeat (apply expected_bind_ext; [done|intros ?]).
  destruct Hconn as [v1 v2 Hv|]; [|done].
  destruct Hv as [->|(_ & ts1 & ts2 & -> & -> & Hts)]; [done|].
  destruct Hts as [|t1 t2 ts1 ts2 Ht Hts]; [done|]. cbn [fmap list_fmap].
  change (TomlTable t1 :: (TomlTable <$> ts1)) with (TomlTable <$> t1 :: ts1).
  change (TomlTable t2 :: (TomlTable <$> ts2)) with (TomlTable <$> t2 :: ts2).
  rewrite !mapM_as_table. by rewrite (parse_connections_related (t1 :: ts1) (t2 :: ts2)) by by constructor.
Qed.

(** A document whose secret stands in the file. *)
Definition pasted_root (secret : bytes) : toml_table :=
  [(B "connections", TomlArray [TomlTable (
     [(B "api_key_env", TomlString (B "KRAKEN_KEY")); (B "api_secret_env", TomlString secret)] ++
     drop 2 demo_kraken)])].

Lemma pasted_credential_not_echoed_witness :
  ParseRoot (pasted_root (B "kQH5HW/8p1uGOVjbgWA7FunAmGO8lsSUXNsu3eow==")) =
    ParseRoot (pasted_root (B "another secret")) ∧
  ParseRoot (pasted_root (B "another secret")) =
    Unexpected (B "connections[0] (kraken-spot): 'api_secret_env' must be the NAME of an environment variable, never the credential itself").
Proof.
  split; [|vm_compute; reflexivity].
  apply pasted_credential_not_echoed. constructor; [|constructor]. split; [reflexivity|]. right.
  split; [reflexivity|]. eexists [_], [_]. split; [reflexivity|]. split; [reflexivity|].
  constructor; [|constructor]. constructor; [split; [reflexivity|by left]|].
  constructor; [|apply Forall_Forall2_diag, Forall_true; by split; [|left]].
  split; [reflexivity|]. right. split; [apply (bool_decide_eq_true_1 _); reflexivity|].
  eexists _, _. split; [reflexivity|]. split; [reflexivity|].
  rewrite <-!IsValidEnvName_spec. split; vm_compute; discriminate.
Defined.
