(* ===== verification/Selection.v ===== *)
(** * Command line, selection and credentials

    [selection.{h,cpp}] and [credentials.{h,cpp}]: which of the configured
    connections a process opens, and with which secrets. *)

From S2P Require Import Prelude Text Config ConfigProofs.

(** ** Command line *)

Record CommandLine := mkCommandLine {
  cl_config_path : bytes;
  cl_only_ids : list bytes;
  cl_exchange : option Exchange;
}.

Definition Usage (program : bytes) : bytes :=
  B "usage: " ++ program ++ B " --config <path> [--exchange " ++ ExchangeNames (B "|") ++
  B "] [--only <id>[,<id>...]]".

Definition comma : byte := byte_of 44.
Definition equals_sign : byte := byte_of 61.
Definition newline : bytes := [byte_of 10].

(** [id] is what was read since the last comma. *)
Fixpoint split_ids (ids : list bytes) (id text : bytes) : expected bytes (list bytes) :=
  match text with
  | [] => if decide (id = []) then Unexpected (B "empty connection id in --only list")
          else Expected (ids ++ [id])
  | c :: text =>
      if decide (c = comma) then
        if decide (id = []) then Unexpected (B "empty connection id in --only list")
        else split_ids (ids ++ [id]) [] text
      else split_ids ids (id ++ [c]) text
  end.
Definition SplitIds (text : bytes) : expected bytes (list bytes) := split_ids [] [] text.

(** [find] of a character: the texts around its first occurrence. *)
Fixpoint split_first (c : byte) (l : bytes) : option (bytes * bytes) :=
  match l with
  | [] => None
  | x :: l => if decide (x = c) then Some ([], l)
              else match split_first c l with Some (a, b) => Some (x :: a, b) | None => None end
  end.

(** [--flag=value], or the whole argument as the flag. *)
Definition split_flag (arg : bytes) : bytes * option bytes :=
  match split_first equals_sign arg with
  | Some (name, value) => if starts_with (B "--") arg then (name, Some value) else (arg, None)
  | None => (arg, None)
  end.

(** What an argument with its value does to the command line; the error is the
    reason handed to [fail]. *)
Definition apply_flag (name value : bytes) (cl : CommandLine) : expected bytes CommandLine :=
  if decide (value = []) then Unexpected (B "empty value for " ++ name)
  else if decide (name = B "--config") then
    if decide (cl_config_path cl = []) then
      Expected (mkCommandLine value (cl_only_ids cl) (cl_exchange cl))
    else Unexpected (B "--config given more than once")
  else if decide (name = B "--only") then
    let? ids := SplitIds value in
    Expected (mkCommandLine (cl_config_path cl) (cl_only_ids cl ++ ids) (cl_exchange cl))
  else
    match cl_exchange cl with
    | Some _ => Unexpected (B "--exchange given more than once")
    | None =>
        match ExchangeFromString value with
        | Some exchange => Expected (mkCommandLine (cl_config_path cl) (cl_only_ids cl) (Some exchange))
        | None =>
            Unexpected (B "unknown exchange " ++ named value ++ B " (expected " ++
                        ExchangeNames (B "|") ++ B ")")
        end
    end.

Definition known_flags : list bytes := [B "--config"; B "--only"; B "--exchange"].

Fixpoint parse_args (args : list bytes) (cl : CommandLine) : expected bytes CommandLine :=
  match args with
  | [] => Expected cl
  | arg :: args =>
      let '(name, value) := split_flag arg in
      if negb (bool_decide (name ∈ known_flags)) then
        Unexpected (B "unknown argument " ++ named arg)
      else
        match value, args with
        | Some value, _ => let? cl := apply_flag name value cl in parse_args args cl
        | None, [] => Unexpected (B "missing value for " ++ name)
        | None, value :: args => let? cl := apply_flag name value cl in parse_args args cl
        end
  end.

(** [argv], the program's name first. *)
Definition ParseCommandLine (argv : list bytes) : expected bytes CommandLine :=
  let usage := Usage (default (B "feed_handler") (head argv)) in
  let fail (reason : bytes) : expected bytes CommandLine := Unexpected (reason ++ newline ++ usage) in
  match parse_args (tail argv) (mkCommandLine [] [] None) with
  | Unexpected reason => fail reason
  | Expected cl =>
      if decide (cl_config_path cl = []) then fail (B "--config is required") else Expected cl
  end.

(** ** Selection *)

(** [filters += filters.empty() ? "" : ", "; filters += "--only " + id]. *)
Definition Describe (cl : CommandLine) : bytes :=
  let filters :=
    match cl_exchange cl with
    | Some exchange => B "--exchange " ++ ToString exchange
    | None => []
    end in
  join_onto filters (B ", ") ((λ id, B "--only " ++ id) <$> cl_only_ids cl).

(** The first id no connection has. *)
Fixpoint first_unknown (ids : list bytes) (connections : list Connection) : option bytes :=
  match ids with
  | [] => None
  | id :: ids =>
      if existsb (λ c, bool_decide (c_id c = id)) connections then first_unknown ids connections
      else Some id
  end.

Definition id_ok (cl : CommandLine) (c : Connection) : bool :=
  bool_decide (cl_only_ids cl = []) || bool_decide (c_id c ∈ cl_only_ids cl).
Definition exchange_ok (cl : CommandLine) (c : Connection) : bool :=
  match cl_exchange cl with None => true | Some exchange => bool_decide (c_exchange c = exchange) end.

Fixpoint select_loop (cl : CommandLine) (connections selected : list Connection) : list Connection :=
  match connections with
  | [] => selected
  | c :: connections =>
      select_loop cl connections (if id_ok cl c && exchange_ok cl c then selected ++ [c] else selected)
  end.

Definition SelectConnections (config : FeedHandlerConfig) (cl : CommandLine) :
    expected bytes (list Connection) :=
  match first_unknown (cl_only_ids cl) (fhc_connections config) with
  | Some id =>
      Unexpected (B "--only names unknown connection id " ++ named id ++ B " (configured: " ++
                  join_onto [] (B ", ") (c_id <$> fhc_connections config) ++ B ")")
  | None =>
      match select_loop cl (fhc_connections config) [] with
      | [] =>
          let filters := Describe cl in
          Unexpected (B "no configured connection matches " ++
                      if decide (filters = []) then B "the selection" else B "(" ++ filters ++ B ")")
      | selected => Expected selected
      end
  end.

(** ** Credentials *)

Record Credential := mkCredential { cr_key : bytes; cr_secret : bytes }.
Record ResolvedConnection := mkResolved { rc_connection : Connection; rc_credential : Credential }.

(** One variable read: its value, and the names missing so far. *)
Definition read_variable (env : bytes → option bytes) (c : Connection) (name missing : bytes) :
    bytes * bytes :=
  match env name with
  | None | Some [] =>
      ([], missing ++ (if decide (missing = []) then [] else B ", ") ++ B "[" ++ c_id c ++ B "] " ++ name)
  | Some value => (value, missing)
  end.

Fixpoint resolve_loop (env : bytes → option bytes) (connections : list Connection)
    (resolved : list ResolvedConnection) (missing : bytes) : list ResolvedConnection * bytes :=
  match connections with
  | [] => (resolved, missing)
  | c :: connections =>
      let '(key, missing) := read_variable env c (c_api_key_env c) missing in
      let '(secret, missing) := read_variable env c (c_api_secret_env c) missing in
      resolve_loop env connections (resolved ++ [mkResolved c (mkCredential key secret)]) missing
  end.

Definition ResolveCredentials (connections : list Connection) (env : bytes → option bytes) :
    expected bytes (list ResolvedConnection) :=
  let '(resolved, missing) := resolve_loop env connections [] [] in
  if decide (missing = []) then Expected resolved
  else Unexpected (B "missing or empty environment variable(s): " ++ missing).
