(* ===== verification/SelectionProofs.v ===== *)
(** * What is selected, and with which secrets

    The command line means what it spells, the selection is a filter of the
    file, and an error about credentials tells only which are missing. *)

From S2P Require Import Prelude Text Config ConfigProofs Selection.

(** ** Selection *)

(** A connection every given filter admits. *)
Definition admitted (cl : CommandLine) (c : Connection) : Prop :=
  (cl_only_ids cl = [] ∨ c_id c ∈ cl_only_ids cl) ∧
  (cl_exchange cl = None ∨ cl_exchange cl = Some (c_exchange c)).
#[export] Instance admitted_dec cl c : Decision (admitted cl c).
Proof. unfold admitted. apply _. Defined.

Lemma admitted_ok cl c : id_ok cl c && exchange_ok cl c = bool_decide (admitted cl c).
Proof.
  apply eq_bool_prop_intro. unfold admitted, id_ok, exchange_ok.
  rewrite bool_decide_spec, andb_True, orb_True, !bool_decide_spec.
  destruct (cl_exchange cl) as [e|]; [rewrite bool_decide_spec|]; simpl; naive_solver.
Qed.

Lemma select_loop_filter cl cs selected :
  select_loop cl cs selected = selected ++ filter (admitted cl) cs.
Proof.
  revert selected. induction cs as [|c cs IH]; intros selected; simpl; [by rewrite app_nil_r|].
  rewrite IH, admitted_ok, filter_cons. case_bool_decide; case_decide; try done.
  by rewrite <-app_assoc.
Qed.

Lemma first_unknown_spec ids cs :
  first_unknown ids cs = None ↔ Forall (λ id, ∃ c, c ∈ cs ∧ c_id c = id) ids.
Proof.
  induction ids as [|id ids IH]; simpl; [by split|]. rewrite Forall_cons, <-IH.
  destruct (existsb _ cs) eqn:He.
  - apply existsb_exists in He as (c & Hin & Hc%bool_decide_eq_true).
    apply list_elem_of_In in Hin. naive_solver.
  - split; [done|]. intros [(c & Hin & Hc) _].
    assert (existsb (λ c, bool_decide (c_id c = id)) cs = true); [|congruence].
    apply existsb_exists. exists c. split; [by apply list_elem_of_In|by apply bool_decide_eq_true].
Qed.

(** A process opens exactly the connections of the file every filter
    admits, in file order; it refuses to start when an id names nothing or
    nothing is left, and only then. *)
Theorem SelectConnections_spec config cl selected :
  SelectConnections config cl = Expected selected ↔
  Forall (λ id, ∃ c, c ∈ fhc_connections config ∧ c_id c = id) (cl_only_ids cl) ∧
  selected = filter (admitted cl) (fhc_connections config) ∧ selected ≠ [].
Proof.
  unfold SelectConnections. rewrite select_loop_filter, <-first_unknown_spec. simpl.
  destruct (first_unknown _ _) as [id|]; [naive_solver|].
  destruct (filter _ _) as [|c cs]; naive_solver.
Qed.

(** ** Command lines *)

Lemma split_ids_run text ids id :
  comma ∉ text → id ++ text ≠ [] → split_ids ids id text = Expected (ids ++ [id ++ text]).
Proof.
  revert id. induction text as [|c text IH]; intros id Hc Hne; simpl.
  - rewrite app_nil_r in *. by rewrite decide_False.
  - rewrite decide_False by set_solver. rewrite IH; [by rewrite <-app_assoc|set_solver|by destruct id].
Qed.

Lemma split_ids_comma text rest ids id :
  comma ∉ text → id ++ text ≠ [] →
  split_ids ids id (text ++ comma :: rest) = split_ids (ids ++ [id ++ text]) [] rest.
Proof.
  revert id. induction text as [|c text IH]; intros id Hc Hne; cbn [app split_ids].
  - rewrite app_nil_r in *. by rewrite decide_True, decide_False.
  - rewrite decide_False by set_solver. rewrite IH; [by rewrite <-app_assoc|set_solver|by destruct id].
Qed.

(** Ids with a comma between any two. *)
Fixpoint comma_list (ids : list bytes) : bytes :=
  match ids with
  | [] => []
  | [id] => id
  | id :: ids => id ++ comma :: comma_list ids
  end.

Definition id_text (id : bytes) : Prop := id ≠ [] ∧ comma ∉ id.

Lemma split_ids_list ids before :
  Forall id_text ids → ids ≠ [] → split_ids before [] (comma_list ids) = Expected (before ++ ids).
Proof.
  intros Hids. revert before. induction Hids as [|id ids [Hne Hc] Hids IH]; [done|].
  intros before _. destruct ids as [|id' ids]; [by apply split_ids_run|].
  cbn [comma_list]. rewrite split_ids_comma by done. cbn [app].
  rewrite IH by done. by rewrite <-app_assoc.
Qed.

(** What one argument asks for. *)
Inductive wish : Type :=
| WishConfig (path : bytes)
| WishOnly (ids : list bytes)
| WishExchange (exchange : Exchange).

Definition wish_flag (w : wish) : bytes :=
  match w with
  | WishConfig _ => B "--config" | WishOnly _ => B "--only" | WishExchange _ => B "--exchange"
  end.
Definition wish_value (w : wish) : bytes :=
  match w with
  | WishConfig path => path | WishOnly ids => comma_list ids | WishExchange e => ToString e
  end.
Definition wish_ok (w : wish) : Prop :=
  match w with
  | WishConfig path => path ≠ []
  | WishOnly ids => ids ≠ [] ∧ Forall id_text ids
  | WishExchange _ => True
  end.

(** Spelled as one argument, [--flag=value], or as two. *)
Definition spell (w : wish * bool) : list bytes :=
  if w.2 then [wish_flag w.1 ++ equals_sign :: wish_value w.1] else [wish_flag w.1; wish_value w.1].

Definition paths (ws : list wish) : list bytes :=
  omap (λ w, match w with WishConfig path => Some path | _ => None end) ws.
Definition exchanges (ws : list wish) : list Exchange :=
  omap (λ w, match w with WishExchange e => Some e | _ => None end) ws.
Definition wished_ids (ws : list wish) : list bytes :=
  mjoin ((λ w, match w with WishOnly ids => ids | _ => [] end) <$> ws).

Lemma split_first_app c a b : c ∉ a → split_first c (a ++ c :: b) = Some (a, b).
Proof.
  induction a as [|x a IH]; intros Ha; simpl; [by rewrite decide_True|].
  rewrite decide_False by set_solver. by rewrite IH by set_solver.
Qed.

Lemma split_flag_equals w value :
  split_flag (wish_flag w ++ equals_sign :: value) = (wish_flag w, Some value).
Proof.
  unfold split_flag. rewrite split_first_app.
  - rewrite (proj2 (starts_with_spec (B "--") _)); [done|].
    destruct w; by eexists (_ ++ equals_sign :: value).
  - apply (bool_decide_eq_true_1 (equals_sign ∉ wish_flag w)). by destruct w.
Qed.

Lemma split_flag_plain w : split_flag (wish_flag w) = (wish_flag w, None).
Proof. by destruct w. Qed.

Lemma parse_args_spelled w rest cl :
  parse_args (spell w ++ rest) cl =
  let? cl := apply_flag (wish_flag w.1) (wish_value w.1) cl in parse_args rest cl.
Proof.
  destruct w as [w []]; cbn [spell fst snd app parse_args].
  - rewrite split_flag_equals. by destruct w.
  - rewrite split_flag_plain. by destruct w.
Qed.

Lemma comma_list_nonempty ids : Forall id_text ids → ids ≠ [] → comma_list ids ≠ [].
Proof.
  destruct 1 as [|id ids [Hne _] _]; [done|]. intros _. destruct ids; [done|]. simpl.
  by destruct id.
Qed.

(** What has been given so far, as lists. *)
Definition given_paths (cl : CommandLine) : list bytes :=
  if decide (cl_config_path cl = []) then [] else [cl_config_path cl].

Lemma parse_args_wishes ws cl ps es :
  Forall (λ w, wish_ok w.1) ws →
  given_paths cl ++ paths (ws.*1) = ps → option_list (cl_exchange cl) ++ exchanges (ws.*1) = es →
  (length ps <= 1)%nat → (length es <= 1)%nat →
  parse_args (mjoin (spell <$> ws)) cl =
  Expected (mkCommandLine (default [] (head ps)) (cl_only_ids cl ++ wished_ids (ws.*1)) (head es)).
Proof.
  intros Hok. revert cl ps es. induction Hok as [|[w b] ws Hw Hok IH]; intros cl ps es Hps Hes Hl1 Hl2.
  { cbn in *. subst ps es. rewrite !app_nil_r. unfold given_paths.
    destruct cl as [path only ex]. cbn. destruct ex; case_decide; by subst. }
  cbn [fmap list_fmap mjoin list_join]. rewrite parse_args_spelled. unfold apply_flag.
  destruct w as [path|ids|e]; cbn [wish_flag wish_value fst wish_ok] in *.
  - rewrite decide_False, decide_True by done. unfold given_paths in Hps.
    case_decide as Hpath; [|subst ps; cbn in Hl1; lia]. cbn [expected_bind].
    rewrite (IH _ ps es); [done| |done..]. unfold given_paths. cbn [cl_config_path].
    by rewrite decide_False.
  - destruct Hw as [Hne Hids]. rewrite decide_False by (by apply comma_list_nonempty).
    rewrite decide_False, decide_True by done. unfold SplitIds. rewrite split_ids_list by done.
    cbn [expected_bind app]. rewrite (IH _ ps es) by done. cbn [cl_only_ids].
    by rewrite <-app_assoc.
  - rewrite decide_False by (by destruct e). rewrite !decide_False by done.
    destruct (cl_exchange cl) as [e'|]; [subst es; cbn in Hl2; lia|].
    replace (ExchangeFromString (ToString e)) with (Some e) by (by destruct e).
    cbn [expected_bind]. by rewrite (IH _ ps es).
Qed.

(** Arguments mean what they spell, in either form and any order: the one
    path, the ids of every [--only] list in the order given, and the exchange. *)
Theorem ParseCommandLine_spelled program ws path :
  Forall (λ w, wish_ok w.1) ws → paths (ws.*1) = [path] → (length (exchanges (ws.*1)) <= 1)%nat →
  ParseCommandLine (program :: mjoin (spell <$> ws)) =
  Expected (mkCommandLine path (wished_ids (ws.*1)) (head (exchanges (ws.*1)))).
Proof.
  intros Hok Hpath Hex. unfold ParseCommandLine. cbn [head tail default].
  rewrite (parse_args_wishes ws _ [path] (exchanges (ws.*1)));
    [|done|by rewrite <-Hpath|done|cbn; lia|done].
  cbn [cl_config_path default head from_option]. unfold id. rewrite decide_False; [done|].
  intros ->. assert ([] ∈ paths (ws.*1)) as Hin by (rewrite Hpath; set_solver).
  apply list_elem_of_omap in Hin as (w & Hw & Hval). destruct w; try done. injection Hval as ->.
  apply list_elem_of_fmap in Hw as (w & Heq & Hin). rewrite Forall_forall in Hok.
  apply Hok in Hin. by rewrite <-Heq in Hin.
Qed.

Lemma ParseCommandLine_spelled_witness :
  ParseCommandLine [B "feed"; B "--only=kraken-spot,a"; B "--config"; B "--weird=name.toml";
                    B "--only"; B "deribit"; B "--exchange=kraken"] =
  Expected (mkCommandLine (B "--weird=name.toml") [B "kraken-spot"; B "a"; B "deribit"] (Some kKraken)).
Proof.
  apply (ParseCommandLine_spelled (B "feed")
    [(WishOnly [B "kraken-spot"; B "a"], true); (WishConfig (B "--weird=name.toml"), false);
     (WishOnly [B "deribit"], false); (WishExchange kKraken, true)]); [|reflexivity|simpl; lia].
  repeat (constructor; [repeat split; try discriminate;
    repeat (constructor; [split; [discriminate|apply (bool_decide_eq_true_1 _); reflexivity]|]);
    constructor|]). constructor.
Defined.

(** ** Credentials *)

(** A variable that is unset or empty. *)
Definition lacking (env : bytes → option bytes) (name : bytes) : Prop :=
  env name = None ∨ env name = Some [].
#[export] Instance lacking_dec env name : Decision (lacking env name).
Proof. unfold lacking. apply _. Defined.

(** Every missing variable, tagged with its connection. *)
Definition missing_of (env : bytes → option bytes) (c : Connection) : list bytes :=
  (λ name, B "[" ++ c_id c ++ B "] " ++ name) <$>
  filter (lacking env) [c_api_key_env c; c_api_secret_env c].
Definition missing_names (env : bytes → option bytes) (cs : list Connection) : list bytes :=
  mjoin (missing_of env <$> cs).

Definition resolved_with (env : bytes → option bytes) (c : Connection) : ResolvedConnection :=
  mkResolved c (mkCredential (default [] (env (c_api_key_env c))) (default [] (env (c_api_secret_env c)))).

Lemma read_variable_spec env c name missing :
  read_variable env c name missing =
  (default [] (env name),
   join_onto missing (B ", ") ((λ name, B "[" ++ c_id c ++ B "] " ++ name) <$> filter (lacking env) [name])).
Proof.
  unfold read_variable. destruct (env name) as [[|b value]|] eqn:He.
  - rewrite filter_cons_True by (by right). done.
  - rewrite filter_cons_False by (unfold lacking; rewrite He; naive_solver). done.
  - rewrite filter_cons_True by (by left). done.
Qed.

Lemma join_onto_app names sep l1 l2 :
  join_onto names sep (l1 ++ l2) = join_onto (join_onto names sep l1) sep l2.
Proof. revert names. induction l1 as [|t l1 IH]; intros names; [done|]. simpl. by rewrite IH. Qed.

Lemma resolve_loop_spec env cs resolved missing :
  resolve_loop env cs resolved missing =
  (resolved ++ (resolved_with env <$> cs), join_onto missing (B ", ") (missing_names env cs)).
Proof.
  revert resolved missing. induction cs as [|c cs IH]; intros resolved missing.
  { cbn. by rewrite app_nil_r. }
  cbn [resolve_loop]. rewrite !read_variable_spec, IH, <-app_assoc. f_equal.
  unfold missing_names. cbn [fmap list_fmap mjoin list_join]. rewrite !join_onto_app. f_equal.
  unfold missing_of. change [c_api_key_env c; c_api_secret_env c]
    with ([c_api_key_env c] ++ [c_api_secret_env c]).
  by rewrite filter_app, fmap_app, join_onto_app.
Qed.

Lemma join_onto_nonempty names sep l : names ≠ [] → join_onto names sep l ≠ [].
Proof.
  revert names. induction l as [|t l IH]; intros names Hne; [done|]. apply IH. by destruct names.
Qed.

Lemma missing_names_tagged env cs : Forall (λ t, t ≠ []) (missing_names env cs).
Proof.
  apply Forall_forall. intros t (l & Ht & Hl)%list_elem_of_join.
  apply list_elem_of_fmap in Hl as (c & -> & _). by apply list_elem_of_fmap in Ht as (name & -> & _).
Qed.

(** Every connection gets its two secrets, none is skipped; or the error
    lists every missing variable by connection and name. What it says depends on
    which variables are missing only, never on the value of one that is set. *)
Theorem ResolveCredentials_spec cs env env' :
  ResolveCredentials cs env =
    match missing_names env cs with
    | [] => Expected (resolved_with env <$> cs)
    | missing => Unexpected (B "missing or empty environment variable(s): " ++
                             join_onto [] (B ", ") missing)
    end ∧
  ((∀ name, lacking env name ↔ lacking env' name) → missing_names env' cs = missing_names env cs).
Proof.
  split.
  - unfold ResolveCredentials. rewrite resolve_loop_spec. cbn [app].
    pose proof (missing_names_tagged env cs) as Htag.
    destruct (missing_names env cs) as [|t l]; [done|]. apply Forall_inv in Htag.
    rewrite decide_False; [done|]. cbn [join_onto]. by apply join_onto_nonempty.
  - intros Henv. unfold missing_names. f_equal. apply list_fmap_ext. intros _ c _.
    unfold missing_of. f_equal. apply list_filter_iff. intros name. symmetry. apply Henv.
Qed.
