(* ===== verification/KrakenRest.v ===== *)
(** * The Kraken REST client

    [kraken/kraken_rest_client.{h,cpp}]: the signed token call and the cached
    instrument table. The HTTP library and simdjson are third-party: a request
    is answered by an argument, and what the source calls of simdjson is the
    class [OnDemand], whose operations return [None] for any error code. *)

From S2P Require Import Prelude Text KrakenSigning KrakenRequests.

Class OnDemand (value : Type) := {
  (** [parser.iterate] of a body. *)
  od_iterate : bytes → option value;
  (** [value\[key\]], [get_object], [get_array], [get_string], [get_int64], [get_bool]. *)
  od_field : value → bytes → option value;
  od_object : value → option value;
  od_array : value → option (list value);
  od_string : value → option bytes;
  od_int64 : value → option Z;
  od_bool : value → option bool;
  (** The fields of an object in order: [unescaped_key] and [value]. *)
  od_fields : value → list (option bytes * value);
}.

(** [a\[key\].get_string()] and the like: either call may fail. *)
Definition od_get {value A} `{!OnDemand value} (read : value → option A) (v : value) (key : bytes) :
    option A :=
  match od_field v key with Some field => read field | None => None end.

(** ** Symbols *)

(** [std::toupper] of a [char] in the "C" locale. *)
Definition toupper (c : byte) : byte :=
  if (97 <=? byte_val c) && (byte_val c <=? 122) then byte_of (byte_val c - 32) else c.

(** The loop over [index]: "XBT" becomes "BTC", left to right. *)
Fixpoint respell (upper : bytes) : bytes :=
  match upper with
  | [] => []
  | c :: upper' =>
      match upper' with
      | c1 :: c2 :: rest =>
          if decide ([c; c1; c2] = B "XBT") then B "BTC" ++ respell rest else c :: respell upper'
      | _ => c :: respell upper'
      end
  end.

Definition NormalizeSymbol (name : bytes) : bytes := respell (toupper <$> name).

Example NormalizeSymbol_ws : NormalizeSymbol (B "xbt/usd") = B "BTC/USD".
Proof. reflexivity. Qed.

(** ** Instrument reference data

    Without [tick_size_value], the tick size read as a floating-point number:
    nothing reads it. *)

Record AssetPair := mkAssetPair {
  ap_rest_name : bytes;
  ap_altname : bytes;
  ap_ws_name : bytes;
  ap_price_decimals : Z;
  ap_qty_decimals : Z;
  ap_tick_size : bytes;
}.

(** [static_cast<int>] of a 64-bit integer. *)
Definition to_int (n : Z) : Z := wrap 32 (n + 2 ^ 31) - 2 ^ 31.

(** [pairs_] and [aliases_]. *)
Record PairTable := mkPairTable {
  pt_pairs : gmap bytes AssetPair;
  pt_aliases : gmap bytes bytes;
}.

Definition IndexPair (rest_name alias : bytes) (t : PairTable) : PairTable :=
  if decide (alias = []) then t
  else mkPairTable (pt_pairs t)
         (<[NormalizeSymbol alias := rest_name]> (<[alias := rest_name]> (pt_aliases t))).

(** One entry stored and indexed; [emplace] keeps an entry that is there. *)
Definition store_pair (parsed : AssetPair) (t : PairTable) : PairTable :=
  let rest_name := ap_rest_name parsed in
  let stored := default parsed (pt_pairs t !! rest_name) in
  let t := mkPairTable (<[rest_name := stored]> (pt_pairs t)) (pt_aliases t) in
  IndexPair rest_name (ap_ws_name stored)
    (IndexPair rest_name (ap_altname stored) (IndexPair rest_name rest_name t)).

Definition FindAssetPair (name : bytes) (t : PairTable) : option AssetPair :=
  match pt_aliases t !! name with
  | Some rest_name => pt_pairs t !! rest_name
  | None =>
      match pt_aliases t !! NormalizeSymbol name with
      | None => None
      | Some rest_name => pt_pairs t !! rest_name
      end
  end.

Section json.
Context {value : Type} `{!OnDemand value}.

(** The texts of the [error] array; one that is no string is skipped. *)
Fixpoint join_errors (joined : bytes) (entries : list value) : bytes :=
  match entries with
  | [] => joined
  | entry :: entries =>
      match od_string entry with
      | None => join_errors joined entries
      | Some text =>
          join_errors ((if decide (joined = []) then joined else joined ++ B "; ") ++ text) entries
      end
  end.
Definition JoinErrors (doc : value) : bytes :=
  match od_get od_array doc (B "error") with
  | None => []
  | Some errors => join_errors [] errors
  end.

Definition read_pair (key : bytes) (entry : value) : AssetPair :=
  mkAssetPair key
    (default [] (od_get od_string entry (B "altname")))
    (default [] (od_get od_string entry (B "wsname")))
    (default 0 (to_int <$> od_get od_int64 entry (B "pair_decimals")))
    (default 0 (to_int <$> od_get od_int64 entry (B "lot_decimals")))
    (default [] (od_get od_string entry (B "tick_size"))).

Fixpoint store_fields (fields : list (option bytes * value)) (t : PairTable) : PairTable :=
  match fields with
  | [] => t
  | (None, _) :: fields => store_fields fields t
  | (Some key, field) :: fields =>
      match od_object field with
      | None => store_fields fields t
      | Some entry => store_fields fields (store_pair (read_pair key entry) t)
      end
  end.

(** The table is replaced only by a response that has a [result]. *)
Definition ParseAssetPairs (body : bytes) (t : PairTable) : PairTable * expected bytes Z :=
  match od_iterate body with
  | None => (t, Unexpected (B "AssetPairs: unparseable response body"))
  | Some doc =>
      match JoinErrors doc with
      | [] =>
          match od_get od_object doc (B "result") with
          | None => (t, Unexpected (B "AssetPairs: response has no result object"))
          | Some result =>
              let t := store_fields (od_fields result) (mkPairTable ∅ ∅) in
              (t, Expected (Z.of_nat (size (pt_pairs t))))
          end
      | errors => (t, Unexpected (B "AssetPairs: " ++ errors))
      end
  end.

(** ** Requests *)

Record HttpRequest := mkHttpRequest {
  rq_post : bool;
  rq_url : bytes;
  rq_body : bytes;
  rq_headers : list (bytes * bytes);
}.
Record HttpResponse := mkHttpResponse {
  rs_status : Z;
  rs_error : bytes;
  rs_body : bytes;
}.

Definition DescribeHttpFailure (what : bytes) (response : HttpResponse) : bytes :=
  what ++ B ": HTTP " ++ to_string (rs_status response) ++ B " (" ++ rs_error response ++ B ")".

Definition kDefaultBaseUrl : bytes := B "https://api.kraken.com".
Definition kWebSocketsTokenPath : bytes := B "/0/private/GetWebSocketsToken".
Definition kAssetPairsPath : bytes := B "/0/public/AssetPairs".

Record Credentials := mkCredentials { api_key : bytes; api_secret_b64 : bytes }.
Record WebsocketsToken := mkToken { tk_token : bytes; tk_expires_seconds : Z }.

(** The state file stands beside the client's members. *)
Record RestClient := mkRestClient {
  rest_base_url : bytes;
  rest_nonce : PersistentNonceSource;
  rest_state_file : option state_file;
  rest_table : PairTable;
}.

Fixpoint drop_slashes (reversed : bytes) : bytes :=
  match reversed with
  | c :: rest => if decide (c = byte_of 47) then drop_slashes rest else reversed
  | [] => []
  end.
Definition new_RestClient (base_url : bytes) (persisting : bool) (file : option state_file) : RestClient :=
  mkRestClient (rev (drop_slashes (rev base_url))) (new_PersistentNonceSource persisting file) file
    (mkPairTable ∅ ∅).

Definition set_nonce (st : PersistentNonceSource * option state_file) (r : RestClient) : RestClient :=
  mkRestClient (rest_base_url r) st.1 st.2 (rest_table r).
Definition set_table (t : PairTable) (r : RestClient) : RestClient :=
  mkRestClient (rest_base_url r) (rest_nonce r) (rest_state_file r) t.

(** The body of a response with status 200 to the token call. *)
Definition read_token (body : bytes) : expected bytes WebsocketsToken :=
  match od_iterate body with
  | None =>
      Unexpected (B "GetWebSocketsToken: unparseable response body (" ++
                  to_string (Z.of_nat (length body)) ++ B " bytes)")
  | Some doc =>
      match JoinErrors doc with
      | [] =>
          match od_get od_object doc (B "result") with
          | None => Unexpected (B "GetWebSocketsToken: response has no result object")
          | Some result =>
              match od_get od_string result (B "token") with
              | None => Unexpected (B "GetWebSocketsToken: response has no token field")
              | Some raw_token =>
                  Expected (mkToken raw_token (default 0 (od_get od_int64 result (B "expires"))))
              end
          end
      | errors => Unexpected (B "GetWebSocketsToken: " ++ errors)
      end
  end.

Section requests.
Variable EVP_EncodeBlock EVP_DecodeBlock EVP_Digest : bytes → option bytes.
Variable EVP_MAC_fetch EVP_MAC_CTX_new : bool.
Variable EVP_MAC_init : bytes → bool.
Variable EVP_MAC_update : bytes → bytes → bool.
Variable EVP_MAC_final : bytes → bytes → option bytes.

Abbreviation sign := (SignPrivateRequest EVP_EncodeBlock EVP_DecodeBlock EVP_Digest EVP_MAC_fetch
  EVP_MAC_CTX_new EVP_MAC_init EVP_MAC_update EVP_MAC_final).

(** The exact body is signed. *)
Definition token_request (r : RestClient) (creds : Credentials) (nonce : bytes) :
    expected bytes HttpRequest :=
  let post_data := EncodePostData [(B "nonce", nonce)] in
  let? signature := sign kWebSocketsTokenPath nonce post_data (api_secret_b64 creds) in
  Expected (mkHttpRequest true (rest_base_url r ++ kWebSocketsTokenPath) post_data
    [(B "API-Key", api_key creds); (B "API-Sign", signature);
     (B "Content-Type", B "application/x-www-form-urlencoded")]).

(** [http] answers the request; [written] and [now_ns] are how recording the
    nonce goes and the wall clock. What recording throws leaves the call. *)
Definition FetchWebsocketsToken (http : HttpRequest → option HttpResponse) (written : write_result)
    (now_ns : Z) (creds : Credentials) : exec RestClient (expected bytes WebsocketsToken) := λ r,
  if decide (api_key creds = []) then (r, Done (Unexpected (B "kraken: API key/secret not set")))
  else if decide (api_secret_b64 creds = []) then
    (r, Done (Unexpected (B "kraken: API key/secret not set")))
  else
    let '(st, value) := PersistentNonceSource_Next written now_ns (rest_nonce r, rest_state_file r) in
    let r := set_nonce st r in
    match value with
    | None => (r, Throws ExnRuntimeError)
    | Some nonce =>
        (r, Done (
          let? request := token_request r creds (to_string nonce) in
          match http request with
          | None => Unexpected (B "GetWebSocketsToken: no response")
          | Some response =>
              if negb (rs_status response =? 200)
              then Unexpected (DescribeHttpFailure (B "GetWebSocketsToken") response)
              else read_token (rs_body response)
          end))
    end.

Definition LoadAssetPairs (http : HttpRequest → option HttpResponse) (pair : bytes) (r : RestClient) :
    RestClient * expected bytes Z :=
  let url := rest_base_url r ++ kAssetPairsPath ++
             (if decide (pair = []) then [] else B "?pair=" ++ UrlEncode pair) in
  match http (mkHttpRequest false url [] []) with
  | None => (r, Unexpected (B "AssetPairs: no response"))
  | Some response =>
      if negb (rs_status response =? 200)
      then (r, Unexpected (DescribeHttpFailure (B "AssetPairs") response))
      else let '(t, result) := ParseAssetPairs (rs_body response) (rest_table r) in
           (set_table t r, result)
  end.
End requests.
End json.
