(* ===== verification/KrakenRestProofs.v ===== *)
(** * The instrument table finds what it was filled with

    Every spelling Kraken uses for an instrument leads to its entry, and to no
    other. *)

From S2P Require Import Prelude Text KrakenSigning KrakenRequests KrakenRest.

(** The aliases of a name, and of a pair. *)
Definition index_keys (alias : bytes) : list bytes :=
  if decide (alias = []) then [] else [alias; NormalizeSymbol alias].
Definition pair_keys (p : AssetPair) : list bytes :=
  index_keys (ap_rest_name p) ++ index_keys (ap_altname p) ++ index_keys (ap_ws_name p).

Lemma IndexPair_lookup rest alias t k :
  pt_pairs (IndexPair rest alias t) = pt_pairs t ∧
  pt_aliases (IndexPair rest alias t) !! k =
    if decide (k ∈ index_keys alias) then Some rest else pt_aliases t !! k.
Proof.
  unfold IndexPair, index_keys. case_decide as Ha.
  { split; [done|]. rewrite decide_False by set_solver. done. }
  cbn [pt_pairs pt_aliases]. split; [done|]. case_decide as Hk.
  - apply elem_of_cons in Hk as [->|Hk%list_elem_of_singleton].
    + destruct (decide (alias = NormalizeSymbol alias)) as [He|He].
      * rewrite <-He. by rewrite lookup_insert_eq.
      * by rewrite lookup_insert_ne, lookup_insert_eq.
    + subst k. by rewrite lookup_insert_eq.
  - rewrite !lookup_insert_ne; set_solver.
Qed.

(** A table that holds [ps]. *)
Record holds (ps : list AssetPair) (t : PairTable) : Prop := {
  ho_pairs : ∀ r p, pt_pairs t !! r = Some p ↔ p ∈ ps ∧ ap_rest_name p = r;
  ho_sound : ∀ k r, pt_aliases t !! k = Some r → ∃ p, p ∈ ps ∧ ap_rest_name p = r ∧ k ∈ pair_keys p;
  ho_complete : ∀ p k, p ∈ ps → k ∈ pair_keys p → is_Some (pt_aliases t !! k);
}.

Lemma holds_empty : holds [] (mkPairTable ∅ ∅).
Proof.
  constructor; cbn; [|by intros k r; rewrite lookup_empty|set_solver].
  intros r p. rewrite lookup_empty. set_solver.
Qed.

Lemma store_pair_new p t : pt_pairs t !! ap_rest_name p = None →
  pt_pairs (store_pair p t) = <[ap_rest_name p := p]> (pt_pairs t) ∧
  ∀ k, pt_aliases (store_pair p t) !! k =
    if decide (k ∈ pair_keys p) then Some (ap_rest_name p) else pt_aliases t !! k.
Proof.
  intros Hnew. unfold store_pair. rewrite Hnew. cbn [default from_option]. unfold id. split.
  - by rewrite !(proj1 (IndexPair_lookup _ _ _ [])).
  - intros k. rewrite !(proj2 (IndexPair_lookup _ _ _ k)). cbn [pt_aliases]. unfold pair_keys.
    repeat case_decide; set_solver.
Qed.

Lemma holds_store ps t p :
  holds ps t → ap_rest_name p ∉ ap_rest_name <$> ps → holds (ps ++ [p]) (store_pair p t).
Proof.
  intros [H1 H2 H3] Hnew.
  assert (pt_pairs t !! ap_rest_name p = None) as Hnone.
  { destruct (pt_pairs t !! ap_rest_name p) as [q|] eqn:Hq; [|done].
    apply H1 in Hq as [Hin Heq]. destruct Hnew. rewrite <-Heq. by apply list_elem_of_fmap_2. }
  destruct (store_pair_new p t Hnone) as [Hpairs Hal]. constructor.
  - intros r q. rewrite Hpairs, elem_of_app, list_elem_of_singleton.
    destruct (decide (r = ap_rest_name p)) as [->|Hr].
    + rewrite lookup_insert_eq. split; [intros [= ->]; naive_solver|].
      intros [[Hin| ->] Heq]; [|done]. destruct Hnew. rewrite <-Heq. by apply list_elem_of_fmap_2.
    + rewrite lookup_insert_ne by done. rewrite H1. naive_solver.
  - intros k r. rewrite Hal. case_decide as Hk.
    + intros [= <-]. exists p. set_solver.
    + intros (q & ? & ? & ?)%H2. exists q. set_solver.
  - intros q k. rewrite elem_of_app, list_elem_of_singleton, Hal. case_decide as Hk; [done|].
    intros [Hq| ->] Hkq; [by eapply H3|done].
Qed.

(** An element is determined by a field without duplicates. *)
Lemma NoDup_field_same {A C} (f : A → C) (l : list A) x y :
  NoDup (f <$> l) → x ∈ l → y ∈ l → f x = f y → x = y.
Proof.
  intros Hnd [i Hi]%list_elem_of_lookup [j Hj]%list_elem_of_lookup Heq.
  assert (i = j) as ->; [|congruence].
  eapply (NoDup_lookup _ i j (f x) Hnd); rewrite list_lookup_fmap; [by rewrite Hi|by rewrite Hj, Heq].
Qed.

Section table.
Context {value : Type} `{!OnDemand value}.

(** The pairs a response lists: keyed objects of its [result], in order. *)
Definition field_pair (field : option bytes * value) : option AssetPair :=
  match field.1, od_object field.2 with
  | Some key, Some entry => Some (read_pair key entry)
  | _, _ => None
  end.
Definition listed_pairs (body : bytes) : list AssetPair :=
  match od_iterate body with
  | Some doc =>
      match od_get od_object doc (B "result") with
      | Some result => omap field_pair (od_fields result)
      | None => []
      end
  | None => []
  end.

Lemma store_fields_pairs fields t :
  store_fields fields t = foldl (λ t p, store_pair p t) t (omap field_pair fields).
Proof.
  revert t. induction fields as [|[[key|] v] fields IH]; intros t; cbn; [done| |by rewrite IH].
  unfold field_pair at 1. cbn. destruct (od_object v); cbn; by rewrite IH.
Qed.

Lemma holds_all ps ps' t :
  holds ps t → NoDup (ap_rest_name <$> ps ++ ps') →
  holds (ps ++ ps') (foldl (λ t p, store_pair p t) t ps').
Proof.
  revert ps t. induction ps' as [|p ps' IH]; intros ps t Ht Hnd; [by rewrite app_nil_r|]. cbn.
  replace (ps ++ p :: ps') with ((ps ++ [p]) ++ ps') by (by rewrite <-app_assoc).
  apply IH; [|by rewrite <-app_assoc]. apply holds_store; [done|].
  rewrite fmap_app, fmap_cons in Hnd. apply NoDup_app in Hnd as (_ & Hd & _). set_solver.
Qed.

(** Keys of different pairs differ, as spelled and normalized. *)
Definition kept_apart (ps : list AssetPair) : Prop :=
  NoDup (ap_rest_name <$> ps) ∧
  ∀ p q k k', p ∈ ps → q ∈ ps → k ∈ pair_keys p → k' ∈ pair_keys q →
    k = k' ∨ NormalizeSymbol k = NormalizeSymbol k' → p = q.

(** [name] is one of the names of [p], in any case and with either spelling of
    bitcoin. *)
Definition spells (name : bytes) (p : AssetPair) : Prop :=
  ∃ n, n ∈ [ap_rest_name p; ap_altname p; ap_ws_name p] ∧ n ≠ [] ∧
    NormalizeSymbol name = NormalizeSymbol n.

Lemma spells_keys name p : spells name p →
  ∃ n, n ∈ pair_keys p ∧ NormalizeSymbol n ∈ pair_keys p ∧ NormalizeSymbol name = NormalizeSymbol n.
Proof.
  intros (n & Hn & Hne & Heq). exists n. unfold pair_keys, index_keys.
  rewrite !elem_of_cons in Hn.
  destruct Hn as [->|[->|[->|[]%not_elem_of_nil]]]; repeat case_decide; set_solver.
Qed.

(** C38: after the lookup, every instrument Kraken listed is found under its
    REST name, its short name and its WebSocket name, in any case and with
    bitcoin spelled XBT or BTC, as long as no two instruments share a name; and
    whatever is found was listed, under that name. *)
Theorem FindAssetPair_any_spelling body t t' n p name :
  ParseAssetPairs body t = (t', Expected n) → kept_apart (listed_pairs body) →
  (p ∈ listed_pairs body → spells name p → FindAssetPair name t' = Some p) ∧
  (FindAssetPair name t' = Some p → p ∈ listed_pairs body ∧
     (name ∈ pair_keys p ∨ NormalizeSymbol name ∈ pair_keys p)).
Proof.
  intros Hparse [Hnd Hap].
  assert (holds (listed_pairs body) t') as [H1 H2 H3].
  { unfold ParseAssetPairs, listed_pairs in *. destruct (od_iterate body) as [doc|]; [|done].
    destruct (JoinErrors doc); [|done]. destruct (od_get od_object doc _) as [result|]; [|done].
    injection Hparse as <- _. rewrite store_fields_pairs.
    apply (holds_all []); [apply holds_empty|done]. }
  unfold FindAssetPair. split.
  - intros Hp (m & Hm & Hnm & Heq)%spells_keys.
    destruct (pt_aliases t' !! name) as [r|] eqn:Hdirect.
    + apply H2 in Hdirect as (q & Hq & <- & Hk). apply H1. split; [done|]. f_equal.
      apply (Hap p q m name); auto.
    + rewrite Heq. destruct (H3 p _ Hp Hnm) as [r Hr]. rewrite Hr.
      apply H2 in Hr as (q & Hq & <- & Hk). apply H1. split; [done|]. f_equal.
      apply (Hap p q (NormalizeSymbol m) (NormalizeSymbol m)); auto.
  - destruct (pt_aliases t' !! name) as [r|] eqn:Hdirect.
    + intros [Hp <-]%H1. apply H2 in Hdirect as (q & Hq & Heq & Hk). split; [done|]. left.
      replace p with q; [done|]. apply (NoDup_field_same ap_rest_name (listed_pairs body)); done.
    + destruct (pt_aliases t' !! NormalizeSymbol name) as [r|] eqn:Hnorm; [|done].
      intros [Hp <-]%H1. apply H2 in Hnorm as (q & Hq & Heq & Hk). split; [done|]. right.
      replace p with q; [done|]. apply (NoDup_field_same ap_rest_name (listed_pairs body)); done.
Qed.
End table.

(** ** A response *)

Inductive tree : Type :=
| TreeString (text : bytes)
| TreeInt (n : Z)
| TreeArray (elements : list tree)
| TreeObject (fields : list (bytes * tree)).

Fixpoint tree_find (fields : list (bytes * tree)) (key : bytes) : option tree :=
  match fields with
  | [] => None
  | (k, v) :: fields => if decide (k = key) then Some v else tree_find fields key
  end.

(** Every body is read as [doc]. *)
Definition tree_json (doc : tree) : OnDemand tree := {|
  od_iterate := λ _, Some doc;
  od_field := λ v key, match v with TreeObject fields => tree_find fields key | _ => None end;
  od_object := λ v, match v with TreeObject _ => Some v | _ => None end;
  od_array := λ v, match v with TreeArray elements => Some elements | _ => None end;
  od_string := λ v, match v with TreeString text => Some text | _ => None end;
  od_int64 := λ v, match v with TreeInt n => Some n | _ => None end;
  od_bool := λ _, None;
  od_fields := λ v, match v with
                    | TreeObject fields => (λ '(k, v), (Some k, v)) <$> fields
                    | _ => []
                    end;
|}.

Definition demo_pair (altname wsname : string) (price : Z) : tree :=
  TreeObject [(B "altname", TreeString (B altname)); (B "wsname", TreeString (B wsname));
              (B "pair_decimals", TreeInt price); (B "lot_decimals", TreeInt 8);
              (B "tick_size", TreeString (B "0.1"))].
Definition demo_pairs : tree :=
  TreeObject [(B "error", TreeArray []);
              (B "result", TreeObject [(B "XXBTZUSD", demo_pair "XBTUSD" "XBT/USD" 1);
                                       (B "XETHZUSD", demo_pair "ETHUSD" "ETH/USD" 2)])].
Definition demo_btc : AssetPair :=
  mkAssetPair (B "XXBTZUSD") (B "XBTUSD") (B "XBT/USD") 1 8 (B "0.1").
Definition demo_table : PairTable :=
  (@ParseAssetPairs tree (tree_json demo_pairs) [] (mkPairTable ∅ ∅)).1.

Lemma demo_table_parsed :
  @ParseAssetPairs tree (tree_json demo_pairs) [] (mkPairTable ∅ ∅) = (demo_table, Expected 2).
Proof. vm_compute. reflexivity. Qed.

Lemma keys_differ p q k k' :
  bool_decide (Forall (λ k, Forall (λ k', k ≠ k' ∧ NormalizeSymbol k ≠ NormalizeSymbol k')
    (pair_keys q)) (pair_keys p)) = true →
  k ∈ pair_keys p → k' ∈ pair_keys q → ¬ (k = k' ∨ NormalizeSymbol k = NormalizeSymbol k').
Proof.
  intros H%bool_decide_eq_true Hk Hk'. rewrite Forall_forall in H. specialize (H k Hk).
  rewrite Forall_forall in H. specialize (H k' Hk'). tauto.
Qed.

Lemma demo_kept_apart : kept_apart (@listed_pairs tree (tree_json demo_pairs) []).
Proof.
  change (@listed_pairs tree (tree_json demo_pairs) [])
    with [demo_btc; mkAssetPair (B "XETHZUSD") (B "ETHUSD") (B "ETH/USD") 2 8 (B "0.1")].
  split.
  - apply NoDup_cons. split; [apply (bool_decide_eq_true_1 _); reflexivity|apply NoDup_singleton].
  - intros p q k k' Hp Hq Hk Hk' Hsame.
    repeat (match goal with H : _ ∈ _ :: _ |- _ => apply elem_of_cons in H as [->|H] end);
      try (by apply not_elem_of_nil in Hp); try (by apply not_elem_of_nil in Hq); try done.
    all: exfalso; revert Hsame; eapply keys_differ; [|exact Hk|exact Hk']; vm_compute; reflexivity.
Qed.

(** The symbol WebSocket v2 uses finds the entry REST spells differently. *)
Lemma FindAssetPair_any_spelling_witness : FindAssetPair (B "btc/usd") demo_table = Some demo_btc.
Proof.
  apply (proj1 (@FindAssetPair_any_spelling tree (tree_json demo_pairs) [] (mkPairTable ∅ ∅) demo_table 2
    demo_btc (B "btc/usd") demo_table_parsed demo_kept_apart)).
  - left.
  - exists (B "XBT/USD"). split_and!; [right; right; left|discriminate|reflexivity].
Defined.
