(* ===== verification/BookWiring.v ===== *)
(** * Books for a live capture

    [book_adapter/book_wiring.{h,cpp}]: from an entry of the configuration and
    Kraken's instrument table to the settings of a connection's books, and the
    callback that attaches them before the connection starts. *)

From S2P Require Import Prelude Text Scale Feed Ring BookAdapter BookService KrakenSigning KrakenRest KrakenRestProofs Config ConfigProofs.

Section wiring.
Context {Q : Type} `{!ReaderWriterQueue Q RingEntry}.
(** Whether [assert] is compiled in. *)
Variable asserts : bool.

Definition ResolveDeribit (entry : Connection) : outcome (expected bytes BookSettings) :=
  match c_price_decimals entry, c_quantity_decimals entry with
  | Some price, Some quantity =>
      do! sc := new_InstrumentScale asserts price quantity in
      Done (Expected (mkBookSettings kDeribitFix sc kDefaultDepth))
  | _, _ =>
      Done (Unexpected (B "deribit needs both price_decimals and quantity_decimals to build books: it has no instrument lookup to take the scale from"))
  end.

(** The finest decimals among the symbols, or why there are none. *)
Fixpoint finest_decimals (t : PairTable) (symbols : list bytes) (price quantity : Z) :
    expected bytes (Z * Z) :=
  match symbols with
  | [] => Expected (price, quantity)
  | symbol :: symbols =>
      match FindAssetPair symbol t with
      | None =>
          Unexpected (B "no AssetPairs entry for " ++ symbol ++
                      B " (the lookup failed, or the symbol is misspelled)")
      | Some found =>
          if (ap_price_decimals found <? 0) || (ap_qty_decimals found <? 0) ||
             (kMaxDecimals <? ap_price_decimals found) || (kMaxDecimals <? ap_qty_decimals found)
          then Unexpected (B "AssetPairs decimals for " ++ symbol ++ B " are out of range")
          else finest_decimals t symbols (Z.max price (ap_price_decimals found))
                 (Z.max quantity (ap_qty_decimals found))
      end
  end.

Definition ResolveKraken (entry : Connection) (rest : option PairTable) :
    outcome (expected bytes BookSettings) :=
  match rest with
  | None => Done (Unexpected (B "no Kraken instrument lookup is available"))
  | Some t =>
      match finest_decimals t (c_symbols entry) 0 0 with
      | Unexpected e => Done (Unexpected e)
      | Expected (price, quantity) =>
          do! sc := new_InstrumentScale asserts price quantity in
          Done (Expected (mkBookSettings kKrakenJson sc (c_depth entry)))
      end
  end.

Definition ResolveBookSettings (entry : Connection) (rest : option PairTable) :
    outcome (expected bytes BookSettings) :=
  match c_exchange entry with
  | kKraken => ResolveKraken entry rest
  | kDeribit => ResolveDeribit entry
  end.

(** The names of the decimals an entry lacks. *)
Definition missing_decimals (entry : Connection) : bytes :=
  let missing := match c_price_decimals entry with None => B "price_decimals" | Some _ => [] end in
  match c_quantity_decimals entry with
  | None => missing ++ (if decide (missing = []) then [] else B " and ") ++ B "quantity_decimals"
  | Some _ => missing
  end.

Fixpoint check_entries (selected : list Connection) : expected bytes unit :=
  match selected with
  | [] => Expected tt
  | entry :: selected =>
      if negb (bool_decide (c_exchange entry = kDeribit)) then check_entries selected
      else
        match missing_decimals entry with
        | [] => check_entries selected
        | missing =>
            Unexpected (B "[" ++ c_id entry ++ B "] order_books is on but this deribit connection has no " ++
              missing ++ B "; set them to the decimals of its instruments (a book cannot be built without a scale)")
        end
  end.

Definition CheckLiveBookConfig (config : FeedHandlerConfig) (selected : list Connection) :
    expected bytes unit :=
  if negb (fhc_order_books config) then Expected tt else check_entries selected.

(** What the callback did for one connection. *)
Inductive hook_result : Type :=
| BooksOn (ring : nat)
| BooksOff (reason : bytes).

(** The callback [StartAll] is given, when there is one: the service's new ring
    becomes a sink of the connection, or the connection goes on without books. *)
Definition books_hook (entry : Connection) (rest : option PairTable) : exec (BookService (Q:=Q)) hook_result :=
  let! settings := exec_lift (ResolveBookSettings entry rest) in
  match settings with
  | Unexpected e => exec_ret (BooksOff e)
  | Expected settings => λ sv,
      let '(sv, ring) := Service_AddConnection (c_id entry) settings sv in (sv, Done (BooksOn ring))
  end.
Definition LiveBooksHook (config : FeedHandlerConfig) :
    option (Connection → option PairTable → exec (BookService (Q:=Q)) hook_result) :=
  if negb (fhc_order_books config) then None else Some books_hook.

(** ** Settings *)

Definition in_range (found : AssetPair) : Prop :=
  0 <= ap_price_decimals found <= 15 ∧ 0 <= ap_qty_decimals found <= 15.

(** The decimals an entry's books should have: its own, or the finest of its
    instruments, all of which are known. *)
Definition decimals_of (entry : Connection) (rest : option PairTable) (price quantity : Z) : Prop :=
  match c_exchange entry with
  | kDeribit => c_price_decimals entry = Some price ∧ c_quantity_decimals entry = Some quantity
  | kKraken => ∃ t pairs, rest = Some t ∧
      Forall2 (λ symbol found, FindAssetPair symbol t = Some found ∧ in_range found)
        (c_symbols entry) pairs ∧
      price = foldl Z.max 0 (ap_price_decimals <$> pairs) ∧
      quantity = foldl Z.max 0 (ap_qty_decimals <$> pairs)
  end.

Lemma finest_decimals_spec t symbols price quantity :
  0 <= price <= 15 → 0 <= quantity <= 15 →
  (∃ pairs, Forall2 (λ symbol found, FindAssetPair symbol t = Some found ∧ in_range found) symbols pairs ∧
     let p := foldl Z.max price (ap_price_decimals <$> pairs) in
     let q := foldl Z.max quantity (ap_qty_decimals <$> pairs) in
     finest_decimals t symbols price quantity = Expected (p, q) ∧ 0 <= p <= 15 ∧ 0 <= q <= 15) ∨
  (∀ pairs, ¬ Forall2 (λ symbol found, FindAssetPair symbol t = Some found ∧ in_range found) symbols pairs) ∧
  ∃ e, finest_decimals t symbols price quantity = Unexpected e.
Proof.
  revert price quantity. induction symbols as [|symbol symbols IH]; intros price quantity Hp Hq; cbn.
  { left. exists []. split; [constructor|]. cbn. split_and!; [done|lia..]. }
  destruct (FindAssetPair symbol t) as [found|] eqn:Hfind.
  - destruct (_ || _) eqn:Hr; unfold kMaxDecimals in Hr.
    + right. split; [|by eexists]. intros pairs Hall.
      destruct (Forall2_cons_inv_l _ _ _ _ Hall) as (found' & ? & [Heq Hin] & _).
      rewrite Hfind in Heq. injection Heq as <-. unfold in_range in Hin. lia.
    + assert (in_range found) as Hin by (unfold in_range; lia).
      destruct (IH (Z.max price (ap_price_decimals found)) (Z.max quantity (ap_qty_decimals found)))
        as [(pairs & Hall & Hrun & ?)|[Hno Herr]]; [unfold in_range in Hin; lia..| |].
      * left. exists (found :: pairs). by split; [constructor|].
      * right. split; [|done]. intros pairs Hall.
        destruct (Forall2_cons_inv_l _ _ _ _ Hall) as (? & ? & _ & Hall' & _). by eapply Hno.
  - right. split; [|by eexists]. intros pairs Hall.
    destruct (Forall2_cons_inv_l _ _ _ _ Hall) as (? & ? & [Heq _] & _). congruence.
Qed.

Lemma new_InstrumentScale_defined price quantity :
  0 <= price <= 15 → 0 <= quantity <= 15 → ∃ sc, new_InstrumentScale asserts price quantity = Done sc.
Proof.
  intros Hp Hq. unfold new_InstrumentScale, Pow10.
  replace ((0 <=? price) && (price <=? 15)) with true by lia.
  replace ((0 <=? quantity) && (quantity <=? 15)) with true by lia.
  rewrite andb_false_r. cbn. by eexists.
Qed.

Definition wire_source (exchange : Exchange) : FrameSource :=
  match exchange with kKraken => kKrakenJson | kDeribit => kDeribitFix end.

Lemma ResolveBookSettings_cases entry rest :
  valid_connection entry →
  (∃ price quantity sc, decimals_of entry rest price quantity ∧
     0 <= price <= 15 ∧ 0 <= quantity <= 15 ∧ new_InstrumentScale asserts price quantity = Done sc ∧
     ResolveBookSettings entry rest =
       Done (Expected (mkBookSettings (wire_source (c_exchange entry)) sc (c_depth entry)))) ∨
  (∀ price quantity, ¬ decimals_of entry rest price quantity) ∧
  ∃ e, ResolveBookSettings entry rest = Done (Unexpected e).
Proof.
  intros Hv. pose proof (vc_book _ Hv) as Hbook. unfold valid_book_settings in Hbook.
  unfold decimals_of, ResolveBookSettings. destruct (c_exchange entry) eqn:Hex.
  - unfold ResolveKraken. destruct rest as [t|]; [|right; split; [naive_solver|by eexists]].
    destruct (finest_decimals_spec t (c_symbols entry) 0 0 ltac:(lia) ltac:(lia))
      as [(pairs & Hall & Hrun & Hp & Hq)|[Hno [e He]]].
    + left. destruct (new_InstrumentScale_defined _ _ Hp Hq) as [sc Hsc].
      eexists _, _, sc. split; [by exists t, pairs|]. split_and!; [lia..|done|].
      rewrite Hrun, Hsc. done.
    + right. rewrite He. split; [|by eexists]. intros p q (t' & pairs & [= <-] & Hall & _).
      by apply (Hno pairs).
  - destruct Hbook as (Hd & Hp & Hq). unfold ResolveDeribit.
    destruct (c_price_decimals entry) as [p|], (c_quantity_decimals entry) as [q|];
      try (right; split; [naive_solver|by eexists]).
    left. destruct (new_InstrumentScale_defined p q Hp Hq) as [sc Hsc].
    exists p, q, sc. split; [done|]. split_and!; [apply Hp|apply Hp|apply Hq|apply Hq|done|].
    rewrite Hsc, Hd. done.
Qed.


(** The check at startup passes exactly when every Deribit connection will have
    its books. *)
Lemma check_entries_spec selected :
  check_entries selected = Expected tt ↔
  Forall (λ c, c_exchange c = kDeribit → ∀ rest, ∃ price quantity, decimals_of c rest price quantity)
    selected.
Proof.
  induction selected as [|c selected IH]; cbn [check_entries]; [by split|].
  rewrite Forall_cons, <-IH. destruct (c_exchange c) eqn:Hex; unfold decimals_of; rewrite Hex.
  - rewrite bool_decide_eq_false_2 by done. cbn [negb]. naive_solver.
  - rewrite bool_decide_eq_true_2 by done. cbn [negb]. unfold missing_decimals.
    destruct (c_price_decimals c), (c_quantity_decimals c); cbn; try naive_solver.
    all: split; [done|]; intros [Hc _]; by destruct (Hc eq_refl None) as (? & ? & ? & ?).
Qed.
End wiring.

(** The Kraken connection of the example: one of its instruments has one
    decimal, the other two. *)
Definition demo_entry : Connection :=
  mkConnection (B "kraken-spot") kKraken kProd (B "level3") [B "BTC/USD"; B "ETH/USD"]
    (B "wss://ws-l3.kraken.com/v2") no_host_port (B "KRAKEN_KEY") (B "KRAKEN_SECRET") 100 None None.

Lemma demo_entry_valid : valid_connection demo_entry.
Proof.
  pose proof (vf_connections _ (ParseRoot_valid _ _ demo_root_parsed)) as Hall.
  exact (Forall_inv Hall).
Qed.


(** A listed instrument without its decimals is taken to have none: its books
    are built with whole prices and quantities. *)
Definition bare_pairs : tree :=
  TreeObject [(B "result", TreeObject [(B "XXBTZUSD", TreeObject [(B "wsname", TreeString (B "XBT/USD"))]);
                                       (B "XETHZUSD", TreeObject [(B "wsname", TreeString (B "ETH/USD"))])])].

Example undeclared_decimals_are_zero :
  ResolveBookSettings true demo_entry
    (Some (@ParseAssetPairs tree (tree_json bare_pairs) [] (mkPairTable ∅ ∅)).1) =
  do! sc := new_InstrumentScale true 0 0 in
  Done (Expected (mkBookSettings kKrakenJson sc 100)).
Proof. vm_compute. reflexivity. Qed.
