(* ===== verification/FatalProofs.v ===== *)
(** * No failure of the journal is silent

    Once a client has routed the fatal handler to its stop signal, the latch is
    set whenever the journal thread has an error, whatever the session and the
    thread do next, and it is never reset. *)

From S2P Require Import Prelude Text Feed Ring Journal JournalThread CaptureSession.

Section fatal.
Variable zlib_crc32 : Z → bytes → Z.
Context {Q : Type} `{!ReaderWriterQueue Q JournalEvent}.

(** A step of the journal thread fails only with a call of the handler. *)
Definition announced (t t' : JournalThread Q) : Prop :=
  (jt_error t' = jt_error t ∧ jt_fatal t' = jt_fatal t) ∨ jt_fatal t' ≠ [].

#[local] Instance announced_preorder : PreOrder announced.
Proof.
  split; [by left|]. intros t1 t2 t3 [[H1 H2]|H] [[H3 H4]|H']; unfold announced; try (by right).
  - left. split; congruence.
  - right. congruence.
Qed.

Lemma Fail_announced reason (t : JournalThread Q) : announced t (JournalThread_Fail reason t).
Proof.
  unfold JournalThread_Fail. destruct (jt_error t); [done|]. right. cbn. by destruct (jt_fatal t).
Qed.

Lemma AfterWrite_announced w t t' : announced t t' → announced t (AfterWrite w t').
Proof.
  intros H. etrans; [exact H|]. unfold AfterWrite. destruct (negb _); [|by left].
  etrans; [|apply Fail_announced]. by left.
Qed.

Lemma Handle_announced d ev t : announced t (Handle zlib_crc32 d ev t).1.
Proof.
  unfold Handle. destruct ev as [frame|[path w] marker| |].
  - destruct (jt_writer t) as [[path w]|]; [|done]. apply AfterWrite_announced. by left.
  - apply AfterWrite_announced. by left.
  - destruct (jt_writer t) as [[path w]|]; [|by left]. cbn [fst].
    match goal with |- announced _ (set_records_written 0 (assign_writer None ?t')) =>
      transitivity t'; [|by left] end.
    apply AfterWrite_announced. by left.
  - by left.
Qed.

Lemma Turn_announced d t : announced t (Turn zlib_crc32 d t).1.
Proof.
  unfold Turn. destruct (negb _); [done|]. destruct (Pop _) as [r [ev|]]; [|by left].
  etrans; [|apply Handle_announced]. by left.
Qed.

Lemma await_announced turns io t : announced t (await zlib_crc32 turns io t).1.
Proof.
  revert io t. induction turns as [|turns IH]; intros io t; [done|]. cbn [await].
  pose proof (Turn_announced (io O) t) as Ht. destruct (Turn _ _ _) as [t' r]. cbn [fst] in Ht.
  destruct r; [..|done|]; (etrans; [exact Ht|apply IH]).
Qed.

Lemma Disconnect_announced io t : announced t (JournalThread_Disconnect zlib_crc32 io t).1.
Proof. unfold JournalThread_Disconnect. etrans; [|apply await_announced]. by left. Qed.

Lemma Push_announced frame t : announced t (JournalThread_Push frame t).1.
Proof.
  unfold JournalThread_Push. destruct (Failed t); [done|]. destruct (Push _ _) as [r pushed].
  destruct (negb pushed); [|by left]. cbn [fst]. etrans; [|apply Fail_announced]. by left.
Qed.

(** ** The session *)

Record reported (s : CaptureSession Q) : Prop := {
  re_handler : cs_fatal_handler s = Some LatchHandler;
  re_latched : ∀ t, cs_journal s = Some t → is_Some (jt_error t) → cs_latched s = true;
}.

(** [s'] is still reported, and the latch was not reset. *)
Definition stays_reported (s s' : CaptureSession Q) : Prop :=
  reported s → reported s' ∧ (cs_latched s = true → cs_latched s' = true).

#[local] Instance stays_reported_preorder : PreOrder stays_reported.
Proof. split; [by intros s|]. intros s1 s2 s3 H1 H2 H. destruct (H1 H). destruct H2; auto. Qed.

Lemma stays_same s s' :
  cs_fatal_handler s' = cs_fatal_handler s → cs_journal s' = cs_journal s →
  cs_latched s' = cs_latched s → stays_reported s s'.
Proof. intros H1 H2 H3 []. split; [constructor|]; by rewrite ?H1, ?H2, ?H3. Qed.

Lemma notified (reasons : list bytes) (s : CaptureSession Q) :
  cs_fatal_handler s = Some LatchHandler →
  let s' := foldl (λ s reason, NotifyFatal reason s) s reasons in
  cs_fatal_handler s' = Some LatchHandler ∧ cs_journal s' = cs_journal s ∧
  cs_latched s' = cs_latched s || negb (bool_decide (reasons = [])).
Proof.
  revert s. induction reasons as [|r reasons IH]; intros s Hs; cbn [foldl].
  { by rewrite orb_false_r. }
  assert (cs_fatal_handler (NotifyFatal r s) = Some LatchHandler ∧
          cs_journal (NotifyFatal r s) = cs_journal s ∧ cs_latched (NotifyFatal r s) = true)
    as (H1 & H2 & H3) by (unfold NotifyFatal; by rewrite Hs).
  destruct (IH _ H1) as (-> & -> & ->). by rewrite H2, H3, orb_true_r.
Qed.

Lemma stays_moved t t' s :
  cs_journal s = Some t → announced t t' → stays_reported s (journal_moved t' s).
Proof.
  intros Ht Ha [Hh Hl]. unfold journal_moved. set (s1 := set_journal _ s).
  destruct (notified (jt_fatal t') s1 Hh) as (H1 & H2 & H3). split; [|rewrite H3; cbn; by intros ->].
  constructor; [done|]. rewrite H2, H3. intros ? [= <-] He. cbn in He. cbn.
  destruct Ha as [[Ha _]|Ha]; [|by rewrite bool_decide_eq_false_2, orb_true_r].
  rewrite Ha in He. by rewrite (Hl _ Ht He).
Qed.

Lemma stays_turn d s : stays_reported s (journal_turn zlib_crc32 d s).
Proof.
  unfold journal_turn. destruct (cs_journal s) as [t|] eqn:Ht; [|done].
  eapply stays_moved; [done|apply Turn_announced].
Qed.

Lemma stays_Close env s s' : Close zlib_crc32 env s = Some s' → stays_reported s s'.
Proof.
  unfold Close. set (s0 := match cs_writer s with Some _ => _ | None => _ end).
  assert (stays_reported s s0) as H0 by (unfold s0; destruct (cs_writer s) as [[]|]; by apply stays_same).
  clearbody s0. intros (s1 & H1 & H2)%bind_Some. etrans; [exact H0|]. transitivity s1.
  - destruct (cs_journal s0) as [t|] eqn:Ht; [|by simplify_eq].
    destruct (cs_journal_open s0); [|by simplify_eq].
    pose proof (Disconnect_announced (close_io env) t) as Ha.
    destruct (JournalThread_Disconnect _ _ t) as [t' r].
    apply bind_Some in H1 as (r' & _ & [= <-]). etrans; [by eapply stays_moved|by apply stays_same].
  - destruct (negb _); injection H2 as <-; by apply stays_same.
Qed.

Lemma stays_start_file env reason source path w s :
  stays_reported s (start_file zlib_crc32 env reason source path w s).1.
Proof.
  unfold start_file. destruct (Stamp _ _ _ _) as [stamper marker].
  cbn [cs_journal set_stamper set_current_path]. destruct (cs_journal s) as [t|] eqn:Ht.
  - cbn [announce fst]. set (s1 := set_stamper _ _).
    transitivity s1; [by apply stays_same|].
    transitivity (journal_moved (JournalThread_Connect (path, w) marker t) s1); [|by apply stays_same].
    eapply stays_moved; [exact Ht|by left].
  - destruct (negb _); by apply stays_same.
Qed.

Lemma stays_BeginConnect env reason source s s' r :
  BeginConnect zlib_crc32 env reason source s = Some (s', r) → stays_reported s s'.
Proof.
  unfold BeginConnect. intros (s1 & Hc & H)%bind_Some. etrans; [by eapply stays_Close|]. revert H.
  set (s2 := set_stamper _ _). intros H. transitivity s2; [by apply stays_same|].
  destruct (match cs_journal s2 with Some t => _ | None => _ end); [by simplify_eq|].
  destruct (ce_directory env); [|by simplify_eq..].
  destruct (new_JournalWriter _ _ _ _ _ _ _ _); [|by simplify_eq].
  injection H as H. apply (f_equal fst) in H. cbn in H. rewrite <-H. apply stays_start_file.
Qed.

Lemma stays_OnWireMessage env payload source s :
  stays_reported s (OnWireMessage zlib_crc32 env payload source s).1.
Proof.
  unfold OnWireMessage. destruct (negb _); [done|].
  destruct (Stamp _ _ _ _) as [stamper frame]. cbn [cs_journal set_stamper cs_writer].
  destruct (cs_journal s) as [t|] eqn:Ht.
  - pose proof (Push_announced frame t) as Ha. destruct (JournalThread_Push frame t) as [t' pushed].
    cbn [fst]. transitivity (journal_moved t' (set_stamper stamper s)); [|by apply stays_same].
    transitivity (set_stamper stamper s); [by apply stays_same|]. by eapply stays_moved.
  - destruct (cs_writer s) as [[path w]|]; by apply stays_same.
Qed.
End fatal.
