(* ===== verification/KrakenClient.v ===== *)
(** * The Kraken WebSocket client

    [kraken/kraken_ws_client.{h,cpp}]. The library owns the socket and calls
    back, one event at a time, on its own thread: a run is a list of events. As
    for the Deribit client, what the outside answers to the [n]-th question is
    an argument ([world]), and what the client does to the outside is a trace.
    Between any two steps of a handler other threads may act: the watchdog's
    poll, a stop request, a turn of the journal thread, and another connection
    that uses the shared [RestClient]. *)

From S2P Require Import Prelude Text ClientBase Feed Ring Journal JournalThread CaptureSession KrakenSigning KrakenRest.

Open Scope io_scope.

(** ** Classification *)

Inductive MessageKind : Type :=
| kUnknownMessage
| kSubscribeAck
| kSubscribeError
| kMethodError
| kHeartbeatMessage
| kStatus
| kBookSnapshot
| kBookUpdate.

Record MessageClassification := mkClassification {
  mc_kind : MessageKind;
  mc_detail : bytes;
  mc_symbol : bytes;
}.

Definition ClassifyChannel (channel type : bytes) : MessageKind :=
  if decide (channel = B "heartbeat") then kHeartbeatMessage
  else if decide (channel = B "status") then kStatus
  else if decide (channel = B "level3") then
    if decide (type = B "snapshot") then kBookSnapshot else kBookUpdate
  else kUnknownMessage.

(** The locals the pass over the top-level fields fills; [has_success] and
    [success] are one option. *)
Record top_level := mkTopLevel {
  tl_method : bytes;
  tl_has_method : bool;
  tl_channel : bytes;
  tl_type : bytes;
  tl_error : bytes;
  tl_result_symbol : bytes;
  tl_success : option bool;
}.

Section classify.
Context {value : Type} `{!OnDemand value}.

Definition note_field (t : top_level) (field : option bytes * value) : top_level :=
  let '(mkTopLevel method has_method channel type error symbol success) := t in
  match field with
  | (None, _) => t
  | (Some key, v) =>
      let text (old : bytes) : bytes := default old (od_string v) in
      if decide (key = B "method") then
        mkTopLevel (text method) true channel type error symbol success
      else if decide (key = B "success") then
        mkTopLevel method has_method channel type error symbol
          (match od_bool v with Some flag => Some flag | None => success end)
      else if decide (key = B "result") then
        mkTopLevel method has_method channel type error
          (match od_object v with
           | Some result => default symbol (od_get od_string result (B "symbol"))
           | None => symbol
           end) success
      else if decide (key = B "error") then
        mkTopLevel method has_method channel type (text error) symbol success
      else if decide (key = B "channel") then
        mkTopLevel method has_method (text channel) type error symbol success
      else if decide (key = B "type") then
        mkTopLevel method has_method channel (text type) error symbol success
      else t
  end.

Definition ClassifyMessage (json : bytes) : MessageClassification :=
  match od_iterate json with
  | None => mkClassification kUnknownMessage (B "unparseable message") []
  | Some doc =>
      match od_object doc with
      | None => mkClassification kUnknownMessage (B "message is not a JSON object") []
      | Some root =>
          let t := foldl note_field (mkTopLevel [] false [] [] [] [] None) (od_fields root) in
          let has_error := negb (bool_decide (tl_error t = [])) in
          let subscribe := bool_decide (tl_method t = B "subscribe") in
          if tl_has_method t || has_error then
            let failed := bool_decide (tl_success t = Some false) || has_error in
            if negb failed then
              mkClassification (if subscribe then kSubscribeAck else kUnknownMessage) (tl_method t)
                (tl_result_symbol t)
            else
              mkClassification (if subscribe then kSubscribeError else kMethodError)
                (if has_error then tl_error t else tl_method t) []
          else mkClassification (ClassifyChannel (tl_channel t) (tl_type t)) (tl_type t) []
      end
  end.
End classify.

(** ** The subscribe message *)

Definition dq : bytes := [byte_of 34].
Definition in_quotes (text : bytes) : bytes := dq ++ text ++ dq.

(** The loop over [index]: a comma before every symbol but the first. *)
Fixpoint splice_symbols (first : bool) (symbols : list bytes) : bytes :=
  match symbols with
  | [] => []
  | symbol :: symbols =>
      (if first then [] else B ",") ++ in_quotes symbol ++ splice_symbols false symbols
  end.

Definition BuildSubscribeMessage (symbols : list bytes) (depth : Z) (token : bytes) : bytes :=
  B "{" ++ in_quotes (B "method") ++ B ":" ++ in_quotes (B "subscribe") ++ B "," ++
  in_quotes (B "params") ++ B ":{" ++ in_quotes (B "channel") ++ B ":" ++ in_quotes (B "level3") ++
  B "," ++ in_quotes (B "symbol") ++ B ":[" ++ splice_symbols true symbols ++ B "]," ++
  in_quotes (B "depth") ++ B ":" ++ to_string depth ++ B "," ++
  in_quotes (B "snapshot") ++ B ":true," ++ in_quotes (B "token") ++ B ":" ++ in_quotes token ++ B "}}".

Definition DescribeSymbols (symbols : list bytes) : bytes :=
  match symbols with
  | [symbol] => symbol
  | _ => to_string (Z.of_nat (length symbols)) ++ B " symbols"
  end.

(** ** The client *)

Definition kWsWireSource : FrameSource := kKrakenJson.
Definition kNanosPerMilli : Z := 1000000.

Record WsClientConfig := mkWsClientConfig {
  wsc_url : bytes;
  wsc_id : bytes;
  wsc_symbols : list bytes;
  wsc_depth : Z;
  wsc_ping_interval_seconds : Z;
  wsc_staleness_timeout_ns : Z;
  wsc_watchdog_poll_ms : Z;
  wsc_min_reconnect_wait_ms : Z;
  wsc_max_reconnect_wait_ms : Z;
}.

(** What the library calls back with. *)
Inductive ws_event : Type :=
| EvOpen
| EvMessage (payload : bytes)
| EvClose (code : Z) (reason : bytes)
| EvError (reason : bytes) (retries : Z)
| EvPing
| EvPong
| EvFragment.

#[export] Instance ws_event_eq_dec : EqDecision ws_event.
Proof. solve_decision. Defined.

(** Another thread's step. [OtherToken]: another connection fetches a token
    from the shared client; [PollWatchdog]: the watchdog's wait timed out. *)
Inductive ws_other : Type :=
| WsAskStop
| WsTurnJournal (d : disk)
| PollWatchdog (now_ns : Z)
| OtherToken (creds : Credentials) (http : HttpRequest → option HttpResponse)
    (written : write_result) (now_ns : Z).

Record ws_moment := mkWsMoment {
  wm_others : list ws_other;
  wm_monotonic : Z;
  wm_realtime : Z;
  wm_http : HttpRequest → option HttpResponse;
  wm_written : write_result;
  wm_send : bool;
  wm_connect : connect_env;
  wm_close : close_env;
  wm_frame : frame_env;
}.

(** [SetUp ns]: a connection is being set up as of this reading of the clock;
    the token call follows. *)
Inductive ws_deed : Type :=
| WsLogged (level : LogLevel) (line : bytes)
| SetUp (ns : Z)
| WsSent (text : bytes)
| WsSendFailed (text : bytes)
| CloseSocket
| ReconnectionOff
| WatchdogStarted
| SocketStarted
| WatchdogJoined
| SocketStopped.

Section client.
Variable zlib_crc32 : Z → bytes → Z.
Context {Q : Type} `{!ReaderWriterQueue Q JournalEvent}.
Context {value : Type} `{!OnDemand value}.
Variable EVP_EncodeBlock EVP_DecodeBlock EVP_Digest : bytes → option bytes.
Variable EVP_MAC_fetch EVP_MAC_CTX_new : bool.
Variable EVP_MAC_init : bytes → bool.
Variable EVP_MAC_update : bytes → bytes → bool.
Variable EVP_MAC_final : bytes → bytes → option bytes.
Variable world : nat → ws_moment.

Definition fetch_token : (HttpRequest → option HttpResponse) → write_result → Z → Credentials →
    exec RestClient (expected bytes WebsocketsToken) :=
  FetchWebsocketsToken (value:=value) EVP_EncodeBlock EVP_DecodeBlock EVP_Digest EVP_MAC_fetch
    EVP_MAC_CTX_new EVP_MAC_init EVP_MAC_update EVP_MAC_final.

(** [ws_clock] is when the last question was answered; the journal's part of
    the fatal latch is [cs_latched] of the session, as for the Deribit client. *)
Record WsClient := mkWsClient {
  ws_cfg : WsClientConfig;
  ws_creds : Credentials;
  ws_rest : RestClient;
  ws_capture : CaptureSession Q;
  ws_watchdog : StalenessWatchdog;
  ws_stop_signal : StopSignal;
  ws_started : bool;
  ws_joined : bool;
  ws_messages_received : Z;
  ws_forced_reconnects : Z;
  ws_setup_failures : Z;
  ws_last_setup_ns : Z;
  ws_subscribe_acks : Z;
  ws_tick : nat;
  ws_clock : Z;
  ws_trace : list ws_deed;
}.

Definition new_WsClient (rest : RestClient) (creds : Credentials) (capture : CaptureSession Q)
    (cfg : WsClientConfig) : WsClient :=
  mkWsClient cfg creds rest (RouteFatalToStopSignal capture)
    (new_StalenessWatchdog (wsc_staleness_timeout_ns cfg)) new_StopSignal false false 0 0 0 0 0 0 0 [].

(** *** Assignments to the members *)

Definition ws_set_rest (r : RestClient) (s : WsClient) : WsClient :=
  mkWsClient (ws_cfg s) (ws_creds s) r (ws_capture s) (ws_watchdog s) (ws_stop_signal s)
    (ws_started s) (ws_joined s) (ws_messages_received s) (ws_forced_reconnects s)
    (ws_setup_failures s) (ws_last_setup_ns s) (ws_subscribe_acks s) (ws_tick s) (ws_clock s) (ws_trace s).
Definition ws_set_capture (c : CaptureSession Q) (s : WsClient) : WsClient :=
  mkWsClient (ws_cfg s) (ws_creds s) (ws_rest s) c (ws_watchdog s) (ws_stop_signal s)
    (ws_started s) (ws_joined s) (ws_messages_received s) (ws_forced_reconnects s)
    (ws_setup_failures s) (ws_last_setup_ns s) (ws_subscribe_acks s) (ws_tick s) (ws_clock s) (ws_trace s).
Definition ws_set_watchdog (w : StalenessWatchdog) (s : WsClient) : WsClient :=
  mkWsClient (ws_cfg s) (ws_creds s) (ws_rest s) (ws_capture s) w (ws_stop_signal s)
    (ws_started s) (ws_joined s) (ws_messages_received s) (ws_forced_reconnects s)
    (ws_setup_failures s) (ws_last_setup_ns s) (ws_subscribe_acks s) (ws_tick s) (ws_clock s) (ws_trace s).
Definition ws_set_stop_signal (sig : StopSignal) (s : WsClient) : WsClient :=
  mkWsClient (ws_cfg s) (ws_creds s) (ws_rest s) (ws_capture s) (ws_watchdog s) sig
    (ws_started s) (ws_joined s) (ws_messages_received s) (ws_forced_reconnects s)
    (ws_setup_failures s) (ws_last_setup_ns s) (ws_subscribe_acks s) (ws_tick s) (ws_clock s) (ws_trace s).
Definition ws_set_lifecycle (started joined : bool) (s : WsClient) : WsClient :=
  mkWsClient (ws_cfg s) (ws_creds s) (ws_rest s) (ws_capture s) (ws_watchdog s) (ws_stop_signal s)
    started joined (ws_messages_received s) (ws_forced_reconnects s)
    (ws_setup_failures s) (ws_last_setup_ns s) (ws_subscribe_acks s) (ws_tick s) (ws_clock s) (ws_trace s).
Definition ws_set_counts (messages forced : Z) (s : WsClient) : WsClient :=
  mkWsClient (ws_cfg s) (ws_creds s) (ws_rest s) (ws_capture s) (ws_watchdog s) (ws_stop_signal s)
    (ws_started s) (ws_joined s) messages forced
    (ws_setup_failures s) (ws_last_setup_ns s) (ws_subscribe_acks s) (ws_tick s) (ws_clock s) (ws_trace s).
Definition ws_set_setup (failures last acks : Z) (s : WsClient) : WsClient :=
  mkWsClient (ws_cfg s) (ws_creds s) (ws_rest s) (ws_capture s) (ws_watchdog s) (ws_stop_signal s)
    (ws_started s) (ws_joined s) (ws_messages_received s) (ws_forced_reconnects s)
    failures last acks (ws_tick s) (ws_clock s) (ws_trace s).
Definition ws_advance (clock : Z) (s : WsClient) : WsClient :=
  mkWsClient (ws_cfg s) (ws_creds s) (ws_rest s) (ws_capture s) (ws_watchdog s) (ws_stop_signal s)
    (ws_started s) (ws_joined s) (ws_messages_received s) (ws_forced_reconnects s)
    (ws_setup_failures s) (ws_last_setup_ns s) (ws_subscribe_acks s) (S (ws_tick s)) clock (ws_trace s).
Definition ws_did (d : ws_deed) (s : WsClient) : WsClient :=
  mkWsClient (ws_cfg s) (ws_creds s) (ws_rest s) (ws_capture s) (ws_watchdog s) (ws_stop_signal s)
    (ws_started s) (ws_joined s) (ws_messages_received s) (ws_forced_reconnects s)
    (ws_setup_failures s) (ws_last_setup_ns s) (ws_subscribe_acks s) (ws_tick s) (ws_clock s)
    (ws_trace s ++ [d]).

Definition ws_log (level : LogLevel) (message : bytes) (s : WsClient) : WsClient :=
  ws_did (WsLogged level (tagged (wsc_id (ws_cfg s)) message)) s.

Definition ws_Fatal (s : WsClient) : bool := ss_fatal (ws_stop_signal s) || cs_latched (ws_capture s).
Definition ws_stopping (s : WsClient) : bool := ss_stop_requested (ws_stop_signal s) || ws_Fatal s.

(** *** The control plane *)

Definition WsStart (s : WsClient) : WsClient :=
  let s := ws_set_lifecycle true (ws_joined s) s in
  let s := ws_log kInfo (B "connecting to " ++ wsc_url (ws_cfg s) ++ B " for " ++
                         DescribeSymbols (wsc_symbols (ws_cfg s))) s in
  ws_did SocketStarted (ws_did WatchdogStarted s).

Definition WsRequestStop (s : WsClient) : WsClient :=
  let '(sig, first) := RequestStop (ws_stop_signal s) in
  let s := ws_set_stop_signal sig s in
  if first && ws_started s then ws_did CloseSocket (ws_did ReconnectionOff s) else s.

(** A client that was started has its watchdog thread. *)
Definition WsJoin (s : WsClient) : WsClient :=
  let s := WsRequestStop s in
  if ws_joined s then s
  else
    let s := ws_set_lifecycle (ws_started s) true s in
    if ws_started s then ws_did SocketStopped (ws_did WatchdogJoined s) else s.

Definition WsStop (s : WsClient) : WsClient := WsJoin (WsRequestStop s).
Definition destroy_WsClient (s : WsClient) : WsClient :=
  let s := WsStop s in ws_set_capture (SetFatalHandler None (ws_capture s)) s.

(** [ForceReconnect], on either thread. *)
Definition ForceReconnect (reason : bytes) (s : WsClient) : WsClient :=
  let s := ws_set_watchdog (Disarm (ws_watchdog s)) s in
  let s := ws_log kWarn (B "forcing reconnect: " ++ reason) s in
  ws_did CloseSocket s.

(** The body of [RunWatchdog]'s loop, once its wait has timed out. *)
Definition watchdog_poll (now_ns : Z) (s : WsClient) : WsClient :=
  if ws_stopping s then s
  else if negb (IsStale now_ns (ws_watchdog s)) then s
  else
    let s := ws_set_counts (ws_messages_received s) (incr64 (ws_forced_reconnects s)) s in
    ForceReconnect (B "no inbound message in " ++
      to_string (wsc_staleness_timeout_ns (ws_cfg s) / kNanosPerMilli) ++ B "ms") s.

(** *** Talking to the outside *)

Definition ws_step_other (o : ws_other) (s : WsClient) : WsClient :=
  match o with
  | WsAskStop => WsRequestStop s
  | WsTurnJournal d => ws_set_capture (journal_turn zlib_crc32 d (ws_capture s)) s
  | PollWatchdog now_ns => watchdog_poll now_ns s
  | OtherToken creds http written now_ns =>
      ws_set_rest (fetch_token http written now_ns creds (ws_rest s)).1 s
  end.

Definition ws_ask : io WsClient ws_moment := λ s,
  let m := world (ws_tick s) in
  (ws_advance (wm_monotonic m) (foldl (λ s o, ws_step_other o s) s (wm_others m)), Returned m).

Definition ws_say (level : LogLevel) (message : bytes) : io WsClient unit :=
  io_update (ws_log level message).

Definition ws_now : io WsClient Z := let* m := ws_ask in io_ret (wm_monotonic m).

(** [stop_signal_.WaitFor]: true as soon as the client stops; a wait that is
    not ended that way lasts the time it was given. *)
Definition ws_WaitFor (ms : Z) : io WsClient bool :=
  let* stopping := io_gets ws_stopping in
  if stopping : bool then io_ret true
  else
    let* since := io_gets ws_clock in
    let* m := ws_ask in
    let* stopping := io_gets ws_stopping in
    if stopping : bool then io_ret true
    else if wm_monotonic m <? since + ms * kNanosPerMilli then io_wait
    else io_ret false.

(** *** Handlers *)

Definition ThrottleConnectionSetup : io WsClient bool :=
  let* now := ws_now in
  let* last := io_gets ws_last_setup_ns in
  let* min_wait := io_gets (wsc_min_reconnect_wait_ms ∘ ws_cfg) in
  let elapsed_ms := if last =? 0 then min_wait else wrap 64 (now - last) / kNanosPerMilli in
  let* stopped := if elapsed_ms <? min_wait then ws_WaitFor (min_wait - elapsed_ms) else io_ret false in
  if stopped : bool then io_ret true
  else
    let* now := ws_now in
    do* io_update (λ s, ws_did (SetUp now) (ws_set_setup (ws_setup_failures s) now (ws_subscribe_acks s) s)) ;;
    io_ret false.

(** 32-bit counters and a 32-bit shift. *)
Definition backoff_ms (failures min_wait max_wait : Z) : Z :=
  Z.min max_wait (wrap 32 (Z.shiftl min_wait (Z.min (wrap 32 (failures - 1)) 5))).

Definition BackOffAfterSetupFailure : io WsClient unit :=
  do* io_update (λ s, ws_set_setup (wrap 32 (ws_setup_failures s + 1)) (ws_last_setup_ns s)
                        (ws_subscribe_acks s) s) ;;
  let* delay_ms := io_gets (λ s, backoff_ms (ws_setup_failures s)
                    (wsc_min_reconnect_wait_ms (ws_cfg s)) (wsc_max_reconnect_wait_ms (ws_cfg s))) in
  do* ws_say kWarn (B "waiting " ++ to_string delay_ms ++ B "ms before the next connection attempt") ;;
  do* ws_WaitFor delay_ms ;;
  io_ret tt.

Definition ws_connect_reason (cfg : WsClientConfig) : bytes :=
  B "kraken level3 " ++ JoinSymbols (wsc_symbols cfg) ++ B " connected to " ++ wsc_url cfg.

(** The shared REST client is asked for a token. *)
Definition ask_token : io WsClient (expected bytes WebsocketsToken) :=
  let* m := ws_ask in
  let* r := io_gets (λ s, fetch_token (wm_http m) (wm_written m) (wm_realtime m) (ws_creds s) (ws_rest s)) in
  do* io_update (ws_set_rest r.1) ;;
  match r.2 with
  | Done token => io_ret token
  | _ => io_raise
  end.

(** The capture of the new connect. *)
Definition begin_capture : io WsClient unit :=
  let* m := ws_ask in
  let* begun := io_gets (λ s, BeginConnect zlib_crc32 (wm_connect m) (ws_connect_reason (ws_cfg s))
                                kWsWireSource (ws_capture s)) in
  match begun with
  | None => io_wait
  | Some (capture, r) =>
      do* io_update (ws_set_capture capture) ;;
      match r with
      | Threw => io_raise
      | Refused error =>
          do* ws_say kError (B "cannot start capture: " ++ error) ;;
          io_update (λ s, ws_set_stop_signal (LatchFatal (ws_stop_signal s)) s)
      | Connected path =>
          do* io_update (λ s, ws_set_setup 0 (ws_last_setup_ns s) (ws_subscribe_acks s) s) ;;
          let* id := io_gets (cs_connect_id ∘ ws_capture) in
          ws_say kInfo (B "connect_id " ++ to_string id ++ B " started, journaling to " ++ path)
      end
  end.

Definition abandon_setup (error reason : bytes) : io WsClient unit :=
  do* ws_say kError error ;;
  do* BackOffAfterSetupFailure ;;
  io_update (ForceReconnect reason).

Definition HandleOpen : io WsClient unit :=
  let* stopped := ThrottleConnectionSetup in
  if stopped : bool then io_ret tt
  else
    let* now := ws_now in
    do* io_update (λ s, ws_set_setup (ws_setup_failures s) (ws_last_setup_ns s) 0
                          (ws_set_watchdog (NoteActivity now (ws_watchdog s)) s)) ;;
    do* ws_say kInfo (B "connected") ;;
    let* token := ask_token in
    match token with
    | Unexpected error => abandon_setup (B "token fetch failed: " ++ error) (B "token fetch failed")
    | Expected token =>
        let* cfg := io_gets ws_cfg in
        let text := BuildSubscribeMessage (wsc_symbols cfg) (wsc_depth cfg) (tk_token token) in
        let* m := ws_ask in
        if negb (wm_send m) then
          do* io_update (ws_did (WsSendFailed text)) ;;
          abandon_setup (B "failed to send level3 subscribe") (B "subscribe send failed")
        else
          do* io_update (ws_did (WsSent text)) ;;
          begin_capture
    end.

Definition HandleClose (code : Z) (reason : bytes) : io WsClient unit :=
  do* io_update (λ s, ws_set_watchdog (Disarm (ws_watchdog s)) s) ;;
  let* m := ws_ask in
  let* closed := io_gets (Close zlib_crc32 (wm_close m) ∘ ws_capture) in
  match closed with
  | None => io_wait
  | Some capture =>
      do* io_update (ws_set_capture capture) ;;
      ws_say kWarn (B "websocket closed (code " ++ to_string code ++ B "): " ++ reason)
  end.

(** The switch over the kind. *)
Definition note_classified (c : MessageClassification) : io WsClient unit :=
  match mc_kind c with
  | kSubscribeAck =>
      do* io_update (λ s, ws_set_setup (ws_setup_failures s) (ws_last_setup_ns s)
                            (incr64 (ws_subscribe_acks s)) s) ;;
      let* acks := io_gets ws_subscribe_acks in
      let* symbols := io_gets (wsc_symbols ∘ ws_cfg) in
      ws_say kInfo (B "subscribed to level3 " ++
        (if decide (mc_symbol c = []) then DescribeSymbols symbols else mc_symbol c) ++ B " (" ++
        to_string acks ++ B "/" ++ to_string (Z.of_nat (length symbols)) ++ B ")")
  | kSubscribeError => ws_say kError (B "kraken rejected the level3 subscribe: " ++ mc_detail c)
  | kMethodError => ws_say kError (B "kraken method error: " ++ mc_detail c)
  | kBookSnapshot => ws_say kInfo (B "received level3 snapshot")
  | kUnknownMessage | kHeartbeatMessage | kStatus | kBookUpdate => io_ret tt
  end.

Definition HandleMessage (payload : bytes) : io WsClient unit :=
  let* now := ws_now in
  do* io_update (λ s, ws_set_counts (incr64 (ws_messages_received s)) (ws_forced_reconnects s)
                        (ws_set_watchdog (NoteActivity now (ws_watchdog s)) s)) ;;
  let* m := ws_ask in
  let* r := io_gets (OnWireMessage zlib_crc32 (wm_frame m) payload kWsWireSource ∘ ws_capture) in
  do* io_update (ws_set_capture r.1) ;;
  let* error := io_gets (Session_Error ∘ ws_capture) in
  do* (if negb r.2 && bool_decide (error = [])
       then ws_say kError (B "dropped a message: no journal file open") else io_ret tt) ;;
  note_classified (ClassifyMessage payload).

(** The callback. *)
Definition on_event (ev : ws_event) : io WsClient unit :=
  match ev with
  | EvOpen => HandleOpen
  | EvMessage payload => HandleMessage payload
  | EvClose code reason => HandleClose code reason
  | EvError reason retries =>
      do* io_update (λ s, ws_set_watchdog (Disarm (ws_watchdog s)) s) ;;
      ws_say kError (B "websocket error: " ++ reason ++ B " (retry " ++ to_string retries ++ B ")")
  | EvPing | EvPong | EvFragment =>
      let* now := ws_now in
      io_update (λ s, ws_set_watchdog (NoteActivity now (ws_watchdog s)) s)
  end.

(** The library's thread. *)
Fixpoint on_events (evs : list ws_event) : io WsClient unit :=
  match evs with
  | [] => io_ret tt
  | ev :: evs => do* on_event ev ;; on_events evs
  end.
End client.
Arguments WsClient : clear implicits.
