(* ===== verification/KrakenPace.v ===== *)
(** * How often Kraken is asked for a token

    Every connection setup costs a signed REST call. Whatever the exchange, the
    library and the other threads do, two setups of a client are at least the
    configured wait apart. *)

From S2P Require Import Prelude Text ClientBase Feed Ring Journal JournalProofs JournalCrash JournalThread CaptureSession SessionProofs KrakenSigning KrakenRest KrakenRestProofs KrakenClient.

(** The clock readings at which setups began. *)
Definition setups (trace : list ws_deed) : list Z :=
  omap (λ d, match d with SetUp ns => Some ns | _ => None end) trace.

(** Neighbours are at least [gap] apart. *)
Definition spaced (gap : Z) (l : list Z) : Prop :=
  ∀ i a b, l !! i = Some a → l !! S i = Some b → a + gap <= b.

Lemma setups_app l d :
  setups (l ++ [d]) = setups l ++ match d with SetUp ns => [ns] | _ => [] end.
Proof. unfold setups. rewrite omap_app. by destruct d. Qed.

Lemma spaced_snoc gap l x :
  spaced gap l → (∀ y, last l = Some y → y + gap <= x) → spaced gap (l ++ [x]).
Proof.
  intros Hl Hx i a b Ha Hb. rewrite lookup_app in Ha, Hb.
  destruct (l !! S i) as [b'|] eqn:Hb'.
  - injection Hb as ->. assert (i < length l)%nat as Hi by (apply lookup_lt_Some in Hb'; lia).
    destruct (l !! i) as [a'|] eqn:Ha'; [|apply lookup_ge_None in Ha'; lia].
    injection Ha as ->. by eapply Hl.
  - apply lookup_ge_None in Hb'.
    assert (S i - length l = 0)%nat as H0
      by (destruct (decide (S i - length l = 0)%nat); [done|by destruct (S i - length l)%nat]).
    rewrite H0 in Hb. injection Hb as <-.
    destruct (l !! i) as [a'|] eqn:Ha'; [|apply lookup_ge_None in Ha'; lia]. injection Ha as ->.
    apply Hx. rewrite last_lookup. replace (pred (length l)) with i; [done|].
    apply lookup_lt_Some in Ha'. lia.
Qed.

Section pace.
Variable zlib_crc32 : Z → bytes → Z.
Context {Q : Type} `{!ReaderWriterQueue Q JournalEvent}.
Context {value : Type} `{!OnDemand value}.
Variable EVP_EncodeBlock EVP_DecodeBlock EVP_Digest : bytes → option bytes.
Variable EVP_MAC_fetch EVP_MAC_CTX_new : bool.
Variable EVP_MAC_init : bytes → bool.
Variable EVP_MAC_update : bytes → bytes → bool.
Variable EVP_MAC_final : bytes → bytes → option bytes.
Variable world : nat → ws_moment.
Variable cfg : WsClientConfig.

(** A steady clock that started before the client. *)
Hypothesis steady : ∀ i j, (i <= j)%nat → wm_monotonic (world i) <= wm_monotonic (world j).
Hypothesis clock_u64 : ∀ i, 0 < wm_monotonic (world i) < 2 ^ 64.

Abbreviation client := (WsClient Q).
Abbreviation ask := (ws_ask zlib_crc32 (value:=value) EVP_EncodeBlock EVP_DecodeBlock EVP_Digest
  EVP_MAC_fetch EVP_MAC_CTX_new EVP_MAC_init EVP_MAC_update EVP_MAC_final world).

Record paced (s : client) : Prop := {
  pa_cfg : ws_cfg s = cfg;
  pa_spaced : spaced (wsc_min_reconnect_wait_ms cfg * kNanosPerMilli) (setups (ws_trace s));
  pa_last : ws_last_setup_ns s = default 0 (last (setups (ws_trace s)));
  pa_positive : ∀ ns, last (setups (ws_trace s)) = Some ns → 0 < ns;
  pa_clock : 0 <= ws_last_setup_ns s <= ws_clock s;
  pa_tick : ∀ n, (ws_tick s <= n)%nat → ws_clock s <= wm_monotonic (world n);
}.

(** What the invariant depends on. *)
Lemma paced_same s s' :
  ws_cfg s' = ws_cfg s → setups (ws_trace s') = setups (ws_trace s) →
  ws_last_setup_ns s' = ws_last_setup_ns s → ws_clock s' = ws_clock s → ws_tick s' = ws_tick s →
  paced s → paced s'.
Proof. intros H1 H2 H3 H4 H5 []. constructor; by rewrite ?H1, ?H2, ?H3, ?H4, ?H5. Qed.

Ltac same := intros ? Hs; (eapply paced_same; [..|exact Hs]); cbn; rewrite ?setups_app, ?app_nil_r; done.

Lemma paced_log level message s : paced s → paced (ws_log level message s).
Proof. revert s. same. Qed.
Lemma paced_did d s : match d with SetUp _ => False | _ => True end → paced s → paced (ws_did d s).
Proof.
  intros Hd. apply paced_same; try done. cbn. rewrite setups_app. destruct d; try done; apply app_nil_r.
Qed.
Lemma paced_RequestStop s : paced s → paced (WsRequestStop s).
Proof.
  intros Hs. unfold WsRequestStop. cbn. case_match; [|by eapply paced_same; [..|exact Hs]].
  do 2 (apply paced_did; [done|]). by eapply paced_same; [..|exact Hs].
Qed.
Lemma paced_ForceReconnect reason s : paced s → paced (ForceReconnect reason s).
Proof.
  intros Hs. unfold ForceReconnect. apply paced_did; [done|]. apply paced_log.
  by eapply paced_same; [..|exact Hs].
Qed.
Lemma paced_poll now s : paced s → paced (watchdog_poll now s).
Proof.
  intros Hs. unfold watchdog_poll. repeat (case_match; [done|]). apply paced_ForceReconnect.
  by eapply paced_same; [..|exact Hs].
Qed.

Abbreviation others := (λ (s : client) (o : ws_other), ws_step_other zlib_crc32 (value:=value)
  EVP_EncodeBlock EVP_DecodeBlock EVP_Digest EVP_MAC_fetch EVP_MAC_CTX_new EVP_MAC_init EVP_MAC_update
  EVP_MAC_final o s).

Lemma paced_others os s :
  paced s → paced (foldl others s os) ∧ ws_tick (foldl others s os) = ws_tick s ∧
    ws_last_setup_ns (foldl others s os) = ws_last_setup_ns s.
Proof.
  revert s. induction os as [|o os IH]; intros s Hs; [done|]. cbn [foldl].
  assert (paced (others s o) ∧ ws_tick (others s o) = ws_tick s ∧
          ws_last_setup_ns (others s o) = ws_last_setup_ns s) as (Ho & <- & <-); [|by apply IH].
  destruct o; cbn [ws_step_other].
  - split; [by apply paced_RequestStop|]. unfold WsRequestStop. cbn. by case_match.
  - split; [|done]. by eapply paced_same; [..|exact Hs].
  - split; [by apply paced_poll|]. unfold watchdog_poll. by repeat case_match.
  - split; [|done]. by eapply paced_same; [..|exact Hs].
Qed.

(** A question brings the clock forward. *)
Lemma ask_paced s : paced s →
  returns ask s (λ m s', paced s' ∧ ws_clock s' = wm_monotonic m ∧ ws_clock s <= ws_clock s' < 2 ^ 64 ∧
    0 < ws_clock s' ∧ ws_last_setup_ns s' = ws_last_setup_ns s).
Proof.
  intros Hs. unfold returns, triple, ws_ask. set (m := world (ws_tick s)).
  destruct (paced_others (wm_others m) s Hs) as (Ho & Htick & Hlast).
  pose proof (pa_tick _ Hs (ws_tick s) (le_n _)) as Hc. pose proof (clock_u64 (ws_tick s)) as Hm.
  pose proof (pa_clock _ Hs) as Hl. fold m in Hc, Hm. cbn.
  split; [|split_and!; [done|lia..|done]].
  destruct Ho as [H1 H2 H3 H4 H5 H6]. constructor; cbn; try done.
  - rewrite Hlast. lia.
  - intros n Hn. rewrite Htick in Hn. apply steady. lia.
Qed.

Lemma keeps_ask : keeps paced ask.
Proof. intros s Hs. apply ask_paced in Hs. by destruct Hs. Qed.

Lemma keeps_say level message : keeps paced (ws_say level message).
Proof. apply keeps_update. intros s. apply paced_log. Qed.

Hint Resolve keeps_ask keeps_say : keeps.

Lemma keeps_same (f : client → client) :
  (∀ s, ws_cfg (f s) = ws_cfg s ∧ setups (ws_trace (f s)) = setups (ws_trace s) ∧
     ws_last_setup_ns (f s) = ws_last_setup_ns s ∧ ws_clock (f s) = ws_clock s ∧
     ws_tick (f s) = ws_tick s) → keeps paced (io_update f).
Proof. intros Hf. apply keeps_update. intros s. destruct (Hf s) as (? & ? & ? & ? & ?). by apply paced_same. Qed.

(** Steps of a handler that concern no setup. *)
Ltac go := repeat (first
  [ apply keeps_bind; [|intros ?] | apply keeps_ask | apply keeps_say | apply keeps_ret | apply keeps_gets
  | apply keeps_wait | apply keeps_raise | progress (unfold ws_now)
  | (apply keeps_same; intros ?; cbn; rewrite ?setups_app, ?app_nil_r; by split_and!)
  | match goal with |- keeps _ (if ?b then _ else _) => destruct b end
  | match goal with |- keeps _ (match ?x with _ => _ end) => destruct x end ]).

Abbreviation WaitFor := (ws_WaitFor zlib_crc32 (value:=value) EVP_EncodeBlock EVP_DecodeBlock EVP_Digest
  EVP_MAC_fetch EVP_MAC_CTX_new EVP_MAC_init EVP_MAC_update EVP_MAC_final world).
Abbreviation Throttle := (ThrottleConnectionSetup zlib_crc32 (value:=value) EVP_EncodeBlock
  EVP_DecodeBlock EVP_Digest EVP_MAC_fetch EVP_MAC_CTX_new EVP_MAC_init EVP_MAC_update EVP_MAC_final world).

Lemma keeps_WaitFor ms : keeps paced (WaitFor ms).
Proof. unfold ws_WaitFor. go. Qed.

Lemma keeps_abandon_setup error reason :
  keeps paced (abandon_setup zlib_crc32 (value:=value) EVP_EncodeBlock EVP_DecodeBlock EVP_Digest
    EVP_MAC_fetch EVP_MAC_CTX_new EVP_MAC_init EVP_MAC_update EVP_MAC_final world error reason).
Proof.
  unfold abandon_setup, BackOffAfterSetupFailure. go.
Qed.

(** A wait that is not cut short lasts. *)
Lemma WaitFor_lasts ms s : paced s →
  triple (WaitFor ms) s (λ stopped s', paced s' ∧ ws_last_setup_ns s' = ws_last_setup_ns s ∧
    (stopped = false → ws_clock s + ms * kNanosPerMilli <= ws_clock s')) paced.
Proof.
  intros Hs. unfold ws_WaitFor. apply triple_bind, triple_gets.
  destruct (ws_stopping s); [by apply triple_ret|].
  apply triple_bind, triple_gets, triple_bind.
  eapply triple_mono; [by apply ask_paced| |done].
  cbv beta. intros m s' (Hs' & Hclock & _ & _ & Hlast). apply triple_bind, triple_gets.
  destruct (ws_stopping s'); [by apply triple_ret|].
  destruct (Z.ltb_spec (wm_monotonic m) (ws_clock s + ms * kNanosPerMilli)) as [|Hge].
  - by apply triple_wait.
  - apply triple_ret. split_and!; [done..|]. intros _. lia.
Qed.

Lemma now_paced s : paced s →
  returns (ws_now zlib_crc32 (value:=value) EVP_EncodeBlock EVP_DecodeBlock EVP_Digest
    EVP_MAC_fetch EVP_MAC_CTX_new EVP_MAC_init EVP_MAC_update EVP_MAC_final world) s
    (λ now s', paced s' ∧ ws_clock s' = now ∧ ws_clock s <= now < 2 ^ 64 ∧ 0 < now ∧
      ws_last_setup_ns s' = ws_last_setup_ns s).
Proof.
  intros Hs. unfold ws_now. apply triple_bind. eapply triple_mono; [by apply ask_paced| |done].
  cbv beta. intros m s' (? & <- & ? & ? & ?). by apply triple_ret.
Qed.

Lemma paced_SetUp now s :
  paced s → ws_clock s = now → 0 < now →
  (ws_last_setup_ns s = 0 ∨ ws_last_setup_ns s + wsc_min_reconnect_wait_ms cfg * kNanosPerMilli <= now) →
  paced (ws_did (SetUp now) (ws_set_setup (ws_setup_failures s) now (ws_subscribe_acks s) s)).
Proof.
  intros [H1 H2 H3 H4 H5 H6] Hc Hpos Hgap. constructor; cbn; rewrite ?setups_app, ?last_snoc; try done.
  - apply spaced_snoc; [done|]. intros y Hy. specialize (H4 y Hy). rewrite Hy in H3. cbn in H3.
    unfold id in H3. lia.
  - naive_solver.
  - lia.
Qed.

Lemma kept_by_triple {A} (m : io client A) (Q' : A → client → Prop) :
  (∀ s, paced s → triple m s (λ a s', paced s' ∧ Q' a s') paced) → keeps paced m.
Proof.
  intros Hm s Hs. specialize (Hm s Hs). unfold triple in Hm.
  destruct (m s) as [s' [a| |]]; [by destruct Hm|done..].
Qed.

Lemma keeps_Throttle : 0 <= wsc_min_reconnect_wait_ms cfg → keeps paced Throttle.
Proof.
  intros Hmin. apply (kept_by_triple _ (λ _ _, True)). intros s Hs. unfold ThrottleConnectionSetup.
  apply triple_bind. eapply triple_mono; [by apply now_paced| |done]. cbv beta.
  intros now s1 (Hs1 & Hc1 & Hn1 & Hp1 & Hl1). apply triple_bind, triple_gets, triple_bind, triple_gets.
  unfold compose. rewrite (pa_cfg _ Hs1). cbv zeta.
  pose proof (pa_clock _ Hs1) as Hclk. set (min_wait := wsc_min_reconnect_wait_ms cfg) in *.
  apply triple_bind.
  set (elapsed := if ws_last_setup_ns s1 =? 0 then min_wait
                  else wrap 64 (now - ws_last_setup_ns s1) / kNanosPerMilli).
  assert (ws_last_setup_ns s1 = 0 ∨ ws_last_setup_ns s1 + elapsed * kNanosPerMilli <= now) as Helapsed.
  { subst elapsed. destruct (Z.eqb_spec (ws_last_setup_ns s1) 0); [by left|right]. unfold wrap.
    rewrite Z.mod_small by lia. pose proof (Z.mul_div_le (now - ws_last_setup_ns s1) kNanosPerMilli).
    unfold kNanosPerMilli in *. lia. }
  eapply (triple_mono _ _ (λ stopped s', paced s' ∧ (stopped = false →
    ws_last_setup_ns s' = 0 ∨ ws_last_setup_ns s' + min_wait * kNanosPerMilli <= ws_clock s'))); [| |done].
  - destruct (Z.ltb_spec elapsed min_wait) as [Hlt|Hge].
    + eapply triple_mono; [by apply WaitFor_lasts| |done]. cbv beta. intros stopped s2 (Hs2 & Hl2 & Hc2).
      split; [done|]. intros ->. specialize (Hc2 eq_refl). rewrite Hl2. unfold kNanosPerMilli in *. lia.
    + apply triple_ret. split; [done|]. intros _. unfold kNanosPerMilli in *. nia.
  - cbv beta. intros stopped s2 (Hs2 & Hgap). destruct stopped; [by apply triple_ret|].
    specialize (Hgap eq_refl). apply triple_bind. eapply triple_mono; [by apply now_paced| |done].
    cbv beta. intros now' s3 (Hs3 & Hc3 & Hn3 & Hp3 & Hl3). apply triple_bind, triple_update, triple_ret.
    split; [|done]. apply paced_SetUp; [done..|]. rewrite Hl3. fold min_wait. lia.
Qed.

Abbreviation run := (on_events zlib_crc32 (value:=value) EVP_EncodeBlock EVP_DecodeBlock EVP_Digest
  EVP_MAC_fetch EVP_MAC_CTX_new EVP_MAC_init EVP_MAC_update EVP_MAC_final world).

Lemma keeps_run evs : 0 <= wsc_min_reconnect_wait_ms cfg → keeps paced (run evs).
Proof.
  intros Hmin. induction evs as [|ev evs IH]; [apply keeps_ret|]. cbn [on_events].
  apply keeps_bind; [|intros _; exact IH]. destruct ev; cbn [on_event]; [|go..].
  - unfold HandleOpen. apply keeps_bind; [by apply keeps_Throttle|]. intros stopped.
    unfold ask_token, begin_capture. go.
  - unfold note_classified. go.
Qed.

End pace.

(** ** A run: a connection, its loss, and another connection

    Every question is answered half a second after the one before, but for the
    wait before the second setup; every body is read as [demo_reply]. *)

Definition demo_reply : tree :=
  TreeObject [(B "error", TreeArray []);
              (B "result", TreeObject [(B "token", TreeString (B "T0ken")); (B "expires", TreeInt 900)])].
Definition demo_block (data : bytes) : option bytes := Some (replicate 3 (byte_of 7)).
Definition demo_digest (data : bytes) : option bytes := Some (replicate 32 (byte_of 8)).
Definition demo_mac (key data : bytes) : option bytes := Some (replicate 64 (byte_of 9)).

Definition demo_ws_world (n : nat) : ws_moment :=
  mkWsMoment (match n with 9%nat => [PollWatchdog 90000000000] | _ => [] end)
    (Z.min (Z.of_nat n) 1000 * 500000000 + 1 + (if (11 <=? n)%nat then 6000000000 else 0)) 1700000000000000000
    (λ _, Some (mkHttpResponse 200 [] (B "{}"))) Written true demo_connect (mkCloseEnv true demo_io)
    (mkFrameEnv (Z.min (Z.of_nat n) 1000) 64).
Definition demo_ws_cfg : WsClientConfig :=
  mkWsClientConfig (B "wss://ws-l3.kraken.com/v2") (B "kraken-spot") [B "BTC/USD"; B "ETH/USD"] 100 20
    30000000000 500 6000 30000.
Definition demo_rest : RestClient := new_RestClient kDefaultBaseUrl true None.
Definition demo_creds : Credentials := mkCredentials (B "key") (B "c2VjcmV0").
Definition demo_ws_events : list ws_event :=
  [EvOpen; EvMessage (B "one"); EvPing; EvClose 1006 (B "gone"); EvOpen; EvMessage (B "two")].
Definition demo_ws_start : WsClient (bounded_queue JournalEvent) :=
  WsStart (new_WsClient demo_rest demo_creds
    (session_with (mkConfig (B "journal") (B "kraken") (B "kraken-spot") true 8 true) 1) demo_ws_cfg).
Definition demo_ws_run : WsClient (bounded_queue JournalEvent) * ClientBase.progress unit :=
  on_events demo_crc (OnDemand0:=tree_json demo_reply) demo_block demo_block demo_digest true true (λ _, true)
    (λ _ _, true) demo_mac demo_ws_world demo_ws_events demo_ws_start.

Lemma demo_ws_setups : setups (ws_trace demo_ws_run.1) = [500000001; 12000000001].
Proof. vm_compute. reflexivity. Qed.

Lemma demo_ws_steady i j :
  (i <= j)%nat → wm_monotonic (demo_ws_world i) <= wm_monotonic (demo_ws_world j).
Proof. intros Hij. cbn [wm_monotonic demo_ws_world]. destruct (Nat.leb_spec 11 i), (Nat.leb_spec 11 j); lia. Qed.
Lemma demo_ws_clock i : 0 < wm_monotonic (demo_ws_world i) < 2 ^ 64.
Proof. cbn [wm_monotonic demo_ws_world]. destruct (11 <=? i)%nat; lia. Qed.

