(* ===== verification/KrakenAccounts.v ===== *)
(** * What a Kraken connection captures

    The account of a run: which events of the library became connects and
    frames, what was asked of the exchange, and that the journals and the
    sinks hold exactly that. *)

From S2P Require Import Prelude Text ClientBase Feed Ring Journal JournalProofs JournalCrash JournalThread ThreadProofs CaptureSession SessionProofs FatalProofs KrakenSigning KrakenRest KrakenRestProofs KrakenClient KrakenPace.

(** ** The reference

    The messages captured so far, connect by connect, and whether the last
    connect is still under way. No state of the client appears here. *)

Record tally := mkTally { ty_connects : list (list bytes); ty_open : bool }.

(** The messages sent. *)
Definition sent (deeds : list ws_deed) : list bytes :=
  omap (λ d, match d with WsSent text => Some text | _ => None end) deeds.

Definition passing (ev : ws_event) : Prop :=
  match ev with EvError _ _ | EvPing | EvPong | EvFragment => True | _ => False end.

Section reference.
Variable cfg : WsClientConfig.
Variable stop : bool.

Definition dropped_line : ws_deed :=
  WsLogged kError (tagged (wsc_id cfg) (B "dropped a message: no journal file open")).

(** One event, what was done on it, and the tally before and after; [stop]:
    the client is stopping. *)
Inductive handled : ws_event → list ws_deed → tally → tally → Prop :=
| OpenedConnect token deeds cs b :
    sent deeds = [BuildSubscribeMessage (wsc_symbols cfg) (wsc_depth cfg) token] →
    handled EvOpen deeds (mkTally cs b) (mkTally (cs ++ [[]]) true)
| GaveUp deeds t :
    sent deeds = [] → last deeds = Some CloseSocket → handled EvOpen deeds t t
| LeftAlone deeds t : sent deeds = [] → stop = true → handled EvOpen deeds t t
| Captured payload deeds cs c :
    sent deeds = [] →
    handled (EvMessage payload) deeds (mkTally (cs ++ [c]) true) (mkTally (cs ++ [c ++ [payload]]) true)
| Dropped payload deeds cs :
    sent deeds = [] → dropped_line ∈ deeds ∨ stop = true →
    handled (EvMessage payload) deeds (mkTally cs false) (mkTally cs false)
| ClosedConnect code reason deeds cs b :
    sent deeds = [] → handled (EvClose code reason) deeds (mkTally cs b) (mkTally cs false)
| Passed ev deeds t : sent deeds = [] → passing ev → handled ev deeds t t.

Inductive history : list ws_event → list ws_deed → tally → Prop :=
| HistoryStart deeds : sent deeds = [] → history [] deeds (mkTally [] false)
| HistoryEvent evs trace t ev deeds t' :
    history evs trace t → handled ev deeds t t' → history (evs ++ [ev]) (trace ++ deeds) t'.
End reference.

Lemma sent_app l l' : sent (l ++ l') = sent l ++ sent l'.
Proof. apply omap_app. Qed.

Lemma handled_mono cfg (b b' : bool) ev deeds t t' :
  (b = true → b' = true) → handled cfg b ev deeds t t' → handled cfg b' ev deeds t t'.
Proof. intros Hb []; econstructor; naive_solver. Qed.

Lemma history_mono cfg (b b' : bool) evs trace t :
  (b = true → b' = true) → history cfg b evs trace t → history cfg b' evs trace t.
Proof.
  intros Hb. induction 1; [by constructor|]. econstructor; [done|]. by eapply handled_mono.
Qed.

(** Every connect was asked for once, and what was asked is a subscription for
    the configured symbols. *)
Lemma history_sent cfg b evs trace t :
  history cfg b evs trace t →
  length (sent trace) = length (ty_connects t) ∧
  Forall (λ text, ∃ token, text = BuildSubscribeMessage (wsc_symbols cfg) (wsc_depth cfg) token) (sent trace).
Proof.
  induction 1 as [deeds ->|evs trace t ev deeds t' _ [IH1 IH2] Hh]; [done|].
  rewrite sent_app, length_app, IH1.
  destruct Hh as [token deeds cs b' ->|deeds t -> _|deeds t -> _|payload deeds cs c ->|payload deeds cs -> _
    |code reason deeds cs b' ->|ev deeds t -> _]; cbn; rewrite ?app_nil_r, ?length_app; cbn;
    (split; [lia|]); try done.
  apply Forall_app. split; [done|]. constructor; [by eexists|done].
Qed.

(** A log of connects is the tally's. *)
Record tallied (cfg : WsClientConfig) (g : log) (t : tally) : Prop := {
  ta_payloads : (λ c, cf_payload <$> c_frames c) <$> connects g = ty_connects t;
  ta_open : is_Some (lg_open g) ↔ ty_open t = true;
  ta_markers : Forall (λ c, cf_payload (c_marker c) = ws_connect_reason cfg ∧
    Forall (λ f, cf_source f = kKrakenJson) (c_marker c :: c_frames c)) (connects g);
}.

Lemma tallied_connect cfg ccfg env g cs b :
  tallied cfg g (mkTally cs b) →
  tallied cfg (mkLog (connects g) (Some (log_connect ccfg env (ws_connect_reason cfg) kWsWireSource g)))
    (mkTally (cs ++ [[]]) true).
Proof.
  intros [H1 H2 H3]. set (c := log_connect _ _ _ _ _).
  assert (connects (mkLog (connects g) (Some c)) = connects g ++ [c]) as Hc by done.
  constructor; rewrite ?Hc.
  - rewrite fmap_app, H1. done.
  - cbn. naive_solver.
  - apply Forall_app. split; [done|]. by repeat constructor.
Qed.

Lemma tallied_close cfg g cs b :
  tallied cfg g (mkTally cs b) → tallied cfg (mkLog (connects g) None) (mkTally cs false).
Proof.
  intros [H1 _ H3]. constructor; rewrite ?connects_ended; [exact H1| |exact H3].
  split; [by intros [? [=]]|done].
Qed.

Lemma tallied_dropped cfg env payload j g cs :
  tallied cfg g (mkTally cs false) →
  tallied cfg (mkLog (lg_ended g) (log_frame env payload kWsWireSource j <$> lg_open g)) (mkTally cs false).
Proof.
  intros [H1 H2 H3]. assert (lg_open g = None) as Ho by (destruct (lg_open g); naive_solver).
  rewrite Ho. destruct g as [ended open]. cbn in *. subst open. by constructor.
Qed.

Lemma tallied_captured cfg env payload j g cs :
  tallied cfg g (mkTally cs true) →
  ∃ cs' c, cs = cs' ++ [c] ∧
  tallied cfg (mkLog (lg_ended g) (log_frame env payload kWsWireSource j <$> lg_open g))
    (mkTally (cs' ++ [c ++ [payload]]) true).
Proof.
  intros [H1 H2 H3]. destruct g as [ended open]. cbn in *. destruct open as [c|]; [|naive_solver].
  unfold connects in H1, H3. cbn in H1, H3. rewrite fmap_app in H1. cbn in H1.
  apply Forall_app in H3 as [H3 Hc]. apply Forall_inv in Hc as [Hm Hmark].
  eexists _, _. split; [by symmetry|]. constructor; cbn; unfold connects; cbn.
  - rewrite fmap_app. cbn. by rewrite fmap_app.
  - naive_solver.
  - apply Forall_app. split; [done|]. constructor; [|done]. split; [done|].
    inversion Hmark; subst. constructor; [done|]. apply Forall_app. split; [done|]. by repeat constructor.
Qed.

(** ** The client's steps *)

Section accounts.
Variable zlib_crc32 : Z → bytes → Z.
Context {Q : Type} `{!ReaderWriterQueue Q JournalEvent, !ReaderWriterQueueLaws Q JournalEvent}.
Context {value : Type} `{!OnDemand value}.
Variable EVP_EncodeBlock EVP_DecodeBlock EVP_Digest : bytes → option bytes.
Variable EVP_MAC_fetch EVP_MAC_CTX_new : bool.
Variable EVP_MAC_init : bytes → bool.
Variable EVP_MAC_update : bytes → bytes → bool.
Variable EVP_MAC_final : bytes → bytes → option bytes.
Variable world : nat → ws_moment.
Variable cfg : WsClientConfig.
Variable ccfg : Config.
Variable n : nat.

(** Clock readings are 64-bit. *)
Hypothesis connect_clocks : ∀ i,
  u64 (ce_header_realtime (wm_connect (world i))) ∧ u64 (ce_header_monotonic (wm_connect (world i))) ∧
  u64 (ce_marker_now (wm_connect (world i))).
Hypothesis frame_clocks : ∀ i, u64 (fe_now (wm_frame (world i))).

Abbreviation client := (WsClient Q).
Abbreviation ask := (ws_ask zlib_crc32 (value:=value) EVP_EncodeBlock EVP_DecodeBlock EVP_Digest
  EVP_MAC_fetch EVP_MAC_CTX_new EVP_MAC_init EVP_MAC_update EVP_MAC_final world).
Abbreviation inv := (inv zlib_crc32 ccfg).
Abbreviation over := (over zlib_crc32 ccfg).

(** Since trace [T], [x] was sent. *)
Definition since (T : list ws_deed) (x : list bytes) (s : client) : Prop :=
  ∃ deeds, ws_trace s = T ++ deeds ∧ sent deeds = x.

(** What stays true through a run, whatever becomes of the capture; [b]: the
    client was stopping before. *)
Record onward (T : list ws_deed) (x : list bytes) (b : bool) (s : client) : Prop := {
  on_cfg : ws_cfg s = cfg;
  on_trace : since T x s;
  on_reported : reported (ws_capture s);
  on_sinks : length (cs_sinks (ws_capture s)) = n;
  on_stop : b = true → ws_stopping s = true;
}.

(** The capture is what the log says. *)
Definition mid (T : list ws_deed) (x : list bytes) (g : log) (b : bool) (s : client) : Prop :=
  onward T x b s ∧ inv (ws_capture s) g.

(** Steps that leave the capture alone. *)
Definition quiet (f : client → client) : Prop := ∀ s,
  ws_cfg (f s) = ws_cfg s ∧ ws_capture (f s) = ws_capture s ∧
  (∃ deeds, ws_trace (f s) = ws_trace s ++ deeds ∧ sent deeds = []) ∧
  (ws_stopping s = true → ws_stopping (f s) = true).

Lemma since_more T x s s' deeds :
  ws_trace s' = ws_trace s ++ deeds → since T x s → since T (x ++ sent deeds) s'.
Proof.
  intros Ht (d & Hd & <-). exists (d ++ deeds). by rewrite Ht, Hd, sent_app, (assoc app).
Qed.

Lemma onward_quiet f T x b s : quiet f → onward T x b s → onward T x b (f s).
Proof.
  intros Hf [H1 H2 H3 H4 H5]. destruct (Hf s) as (K1 & K2 & (d & K3 & K4) & K5).
  constructor; rewrite ?K1, ?K2; auto. pose proof (since_more T x s (f s) d K3 H2) as Hs.
  by rewrite K4, app_nil_r in Hs.
Qed.

Lemma mid_quiet f T x g b s : quiet f → mid T x g b s → mid T x g b (f s).
Proof.
  intros Hf [H1 H2]. split; [by apply onward_quiet|]. by destruct (Hf s) as (_ & -> & _).
Qed.

Lemma quiet_comp f f' : quiet f → quiet f' → quiet (λ s, f' (f s)).
Proof.
  intros Hf Hf' s. destruct (Hf s) as (H1 & H2 & (d & H3 & H4) & H5).
  destruct (Hf' (f s)) as (K1 & K2 & (d' & K3 & K4) & K5). split_and!; [congruence..| |auto].
  exists (d ++ d'). by rewrite K3, H3, sent_app, H4, K4, (assoc app).
Qed.

Lemma quiet_same (f : client → client) :
  (∀ s, ws_cfg (f s) = ws_cfg s ∧ ws_capture (f s) = ws_capture s ∧ ws_trace (f s) = ws_trace s ∧
        (ws_stopping s = true → ws_stopping (f s) = true)) → quiet f.
Proof.
  intros Hf s. destruct (Hf s) as (H1 & H2 & H3 & H4). split_and!; [done..| |done].
  exists []. by rewrite H3, app_nil_r.
Qed.
Lemma quiet_did d : sent [d] = [] → quiet (ws_did d).
Proof. intros Hd s. split_and!; [done..| |done]. by exists [d]. Qed.
Lemma quiet_log level message : quiet (ws_log level message).
Proof. intros s. by apply quiet_did. Qed.
Lemma quiet_ForceReconnect reason : quiet (ForceReconnect reason).
Proof.
  unfold ForceReconnect. apply quiet_comp; [|by apply quiet_did].
  apply quiet_comp; [by apply quiet_same|apply quiet_log].
Qed.
Lemma quiet_stop : quiet WsRequestStop.
Proof.
  intros s. unfold WsRequestStop. cbn. destruct (negb _ && _).
  - split_and!; [done..| |done]. exists [ReconnectionOff; CloseSocket]. split; [|done]. cbn.
    by rewrite <-(assoc app).
  - split_and!; [done..| |done]. exists []. by rewrite app_nil_r.
Qed.
Lemma quiet_poll now : quiet (watchdog_poll now).
Proof.
  intros s. assert (∀ b : bool, quiet (λ s : client, if b then s else
    ForceReconnect (B "no inbound message in " ++
      to_string (wsc_staleness_timeout_ns (ws_cfg s) / kNanosPerMilli) ++ B "ms")
      (ws_set_counts (ws_messages_received s) (incr64 (ws_forced_reconnects s)) s))) as H.
  { intros [] s'; [by apply (quiet_same (λ s, s))|].
    apply (quiet_comp (λ s, ws_set_counts _ _ s)); [by apply quiet_same|apply quiet_ForceReconnect]. }
  specialize (H (ws_stopping s || negb (IsStale now (ws_watchdog s))) s). unfold watchdog_poll.
  destruct (ws_stopping s); [exact H|]. destruct (negb _); exact H.
Qed.

(** The journal thread's turns. *)
Lemma onward_capture T x b s cap :
  onward T x b s → stays_reported (ws_capture s) cap → length (cs_sinks cap) = n →
  onward T x b (ws_set_capture cap s).
Proof.
  intros [H1 H2 H3 H4 H5] Hr Hn. destruct (Hr H3) as [Hr' Hl]. constructor; [done..|].
  intros Hb. specialize (H5 Hb). unfold ws_stopping, ws_Fatal in *. cbn.
  apply orb_true_iff in H5 as [->|[->|H5]%orb_true_iff]; [done|by rewrite orb_true_r|].
  by rewrite (Hl H5), !orb_true_r.
Qed.

Lemma turn_sinks d (c : CaptureSession Q) : cs_sinks (journal_turn zlib_crc32 d c) = cs_sinks c.
Proof. unfold journal_turn. destruct (cs_journal c); [by rewrite journal_moved_sinks|done]. Qed.

Abbreviation others := (λ (s : client) (o : ws_other), ws_step_other zlib_crc32 (value:=value)
  EVP_EncodeBlock EVP_DecodeBlock EVP_Digest EVP_MAC_fetch EVP_MAC_CTX_new EVP_MAC_init EVP_MAC_update
  EVP_MAC_final o s).

Lemma mid_others os T x g b s : mid T x g b s → mid T x g b (foldl others s os).
Proof.
  revert s. induction os as [|o os IH]; intros s Hs; [done|]. cbn [foldl]. apply IH.
  destruct o; cbn [ws_step_other].
  - by apply mid_quiet; [apply quiet_stop|].
  - destruct Hs as [Ho Hi]. split; [|by apply journal_turn_inv].
    apply onward_capture; [done|apply stays_turn|]. by rewrite turn_sinks, (on_sinks _ _ _ _ Ho).
  - by apply mid_quiet; [apply quiet_poll|].
  - apply (mid_quiet (ws_set_rest _)); [|done]. by apply quiet_same.
Qed.

Lemma ask_mid T x g b s :
  mid T x g b s → returns ask s (λ m s', mid T x g b s' ∧ ∃ i, m = world i).
Proof.
  intros Hs. unfold returns, triple, ws_ask. split; [|by eexists].
  apply (mid_quiet (ws_advance _)); [by apply quiet_same|]. by apply mid_others.
Qed.
Lemma keeps_mid_ask T x g b : keeps (mid T x g b) ask.
Proof. intros s Hs. apply ask_mid in Hs. by destruct Hs. Qed.
Lemma keeps_mid_quiet T x g b f : quiet f → keeps (mid T x g b) (io_update f).
Proof. intros Hf. apply keeps_update. intros s. by apply mid_quiet. Qed.
Lemma keeps_mid_say T x g b level message : keeps (mid T x g b) (ws_say level message).
Proof. apply keeps_mid_quiet, quiet_log. Qed.

Lemma triple_ask_mid {C} (k : ws_moment → io client C) T x g b s Q' (R : client → Prop) :
  mid T x g b s → (∀ i s', mid T x g b s' → triple (k (world i)) s' Q' R) →
  triple (io_bind ask k) s Q' R.
Proof.
  intros Hs Hk. apply triple_bind. eapply triple_mono; [by apply ask_mid| |done].
  cbv beta. intros m s' [Hs' [i ->]]. by apply Hk.
Qed.

(** However a part of a handler that keeps the log ends. *)
Lemma triple_kept {A} (m : io client A) T x g b s :
  keeps (mid T x g b) m → mid T x g b s → triple m s (λ _, mid T x g b) (mid T x g b).
Proof. intros Hm Hs. specialize (Hm s Hs). unfold triple. by destruct (m s) as [s' [a| |]]. Qed.

Ltac quiet_step := intros ?; cbn; split_and!; [done..| |done]; first
  [ by (exists []; rewrite ?app_nil_r) | by (eexists [_]) | by (eexists [_; _]; rewrite <-?(assoc app)) ].
Ltac go := repeat (first
  [ apply keeps_bind; [|intros ?] | apply keeps_mid_ask | apply keeps_mid_say | apply keeps_ret
  | apply keeps_gets | apply keeps_wait | apply keeps_raise | progress (unfold ws_now)
  | (apply keeps_mid_quiet; first [apply quiet_ForceReconnect | quiet_step])
  | match goal with |- keeps _ (if ?b then _ else _) => destruct b end
  | match goal with |- keeps _ (match ?x with _ => _ end) => destruct x end ]).

Abbreviation WaitFor := (ws_WaitFor zlib_crc32 (value:=value) EVP_EncodeBlock EVP_DecodeBlock EVP_Digest
  EVP_MAC_fetch EVP_MAC_CTX_new EVP_MAC_init EVP_MAC_update EVP_MAC_final world).

(** A wait that is cut short was cut short by a stop. *)
Lemma WaitFor_stopped ms T x g b s :
  mid T x g b s →
  triple (WaitFor ms) s (λ stopped s', mid T x g b s' ∧ (stopped = true → ws_stopping s' = true))
    (mid T x g b).
Proof.
  intros Hs. unfold ws_WaitFor. apply triple_bind, triple_gets.
  destruct (ws_stopping s) eqn:Hst; [by apply triple_ret|]. apply triple_bind, triple_gets.
  eapply triple_ask_mid; [done|]. intros i s' Hs'. apply triple_bind, triple_gets.
  destruct (ws_stopping s') eqn:Hst'; [by apply triple_ret|].
  destruct (_ <? _); [by apply triple_wait|by apply triple_ret].
Qed.

Abbreviation Throttle := (ThrottleConnectionSetup zlib_crc32 (value:=value) EVP_EncodeBlock
  EVP_DecodeBlock EVP_Digest EVP_MAC_fetch EVP_MAC_CTX_new EVP_MAC_init EVP_MAC_update EVP_MAC_final world).

Lemma Throttle_stopped T g b s :
  mid T [] g b s →
  triple Throttle s (λ stopped s', mid T [] g b s' ∧ (stopped = true → ws_stopping s' = true))
    (mid T [] g b).
Proof.
  intros Hs. unfold ThrottleConnectionSetup.
  apply triple_bind. eapply triple_mono; [apply (triple_kept _ T [] g b); [go|done]| |done].
  cbv beta. intros now s1 Hs1. apply triple_bind, triple_gets, triple_bind, triple_gets. cbv zeta.
  apply triple_bind.
  eapply (triple_mono _ _ (λ stopped s', mid T [] g b s' ∧ (stopped = true → ws_stopping s' = true)));
    [|cbv beta|done].
  - destruct (_ <? _); [by apply WaitFor_stopped|by apply triple_ret].
  - intros stopped s2 (Hs2 & Hst). destruct stopped; [by apply triple_ret; auto|].
    apply triple_bind. eapply triple_mono; [apply (triple_kept _ T [] g b); [go|done]| |done].
    cbv beta. intros now' s3 Hs3. apply triple_bind, triple_update, triple_ret. split; [|done].
    apply (mid_quiet (λ s, ws_did (SetUp now')
      (ws_set_setup (ws_setup_failures s) now' (ws_subscribe_acks s) s))); [quiet_step|done].
Qed.

(** The ways a handler leaves the client. *)
Definition shut (T : list ws_deed) (s : client) : Prop :=
  ∃ deeds, ws_trace s = T ++ deeds ∧ sent deeds = [] ∧ last deeds = Some CloseSocket.

Definition refused (T : list ws_deed) (g : log) (b : bool) (s : client) : Prop :=
  ∃ token, onward T [BuildSubscribeMessage (wsc_symbols cfg) (wsc_depth cfg) token] b s ∧
    over (ws_capture s) (mkLog (connects g) None).

Lemma abandon_setup_shuts error reason T g b s :
  mid T [] g b s →
  triple (abandon_setup zlib_crc32 (value:=value) EVP_EncodeBlock EVP_DecodeBlock EVP_Digest
    EVP_MAC_fetch EVP_MAC_CTX_new EVP_MAC_init EVP_MAC_update EVP_MAC_final world error reason) s
    (λ _ s', mid T [] g b s' ∧ shut T s') (mid T [] g b).
Proof.
  intros Hs. unfold abandon_setup, BackOffAfterSetupFailure.
  apply triple_bind. eapply triple_mono; [apply (triple_kept _ T [] g b); [go|done]| |done].
  cbv beta. intros _ s1 Hs1.
  apply triple_bind. eapply triple_mono; [apply (triple_kept _ T [] g b); [go|done]| |done].
  cbv beta. intros _ s2 Hs2. apply triple_update. split; [apply mid_quiet; [apply quiet_ForceReconnect|done]|].
  destruct Hs2 as [[_ (d & Hd & Hsent) _ _ _] _]. unfold shut, ForceReconnect, ws_log. cbn.
  rewrite Hd. eexists (d ++ [_; CloseSocket]). rewrite <-!(assoc app). split; [done|].
  rewrite sent_app, Hsent. split; [done|]. by rewrite last_app.
Qed.

Abbreviation begin := (begin_capture zlib_crc32 (value:=value) EVP_EncodeBlock EVP_DecodeBlock EVP_Digest
  EVP_MAC_fetch EVP_MAC_CTX_new EVP_MAC_init EVP_MAC_update EVP_MAC_final world).

Lemma begin_connects token T g b s :
  mid T [BuildSubscribeMessage (wsc_symbols cfg) (wsc_depth cfg) token] g b s →
  Z.of_nat (log_size g) + 2 < 2 ^ 64 →
  triple begin s
    (λ _ s', (∃ env, mid T [BuildSubscribeMessage (wsc_symbols cfg) (wsc_depth cfg) token]
                (mkLog (connects g) (Some (log_connect ccfg env (ws_connect_reason cfg) kWsWireSource g))) b s') ∨
             refused T g b s' ∧ ss_fatal (ws_stop_signal s') = true)
    (refused T g b).
Proof.
  intros Hs Hsize. unfold begin_capture. eapply triple_ask_mid; [exact Hs|]. intros i s' [Ho Hi].
  apply triple_bind, triple_gets. rewrite (on_cfg _ _ _ _ Ho).
  destruct (BeginConnect_inv zlib_crc32 ccfg (wm_connect (world i)) (ws_connect_reason cfg) kWsWireSource
    _ g Hi (connect_clocks i)) as (cap & r & Hb & Hr); [unfold log_size in Hsize; lia|].
  rewrite Hb. apply triple_bind, triple_update.
  assert (onward T [BuildSubscribeMessage (wsc_symbols cfg) (wsc_depth cfg) token] b (ws_set_capture cap s'))
    as Ho'.
  { apply onward_capture; [done|by eapply stays_BeginConnect|].
    by rewrite (BeginConnect_sinks _ _ _ _ _ _ _ Hb), (on_sinks _ _ _ _ Ho). }
  destruct r as [path|error|].
  - apply triple_bind, triple_update, triple_bind, triple_gets, triple_update. left. exists (wm_connect (world i)).
    apply mid_quiet; [apply quiet_log|]. apply (mid_quiet (λ s, ws_set_setup 0 _ _ s)); [quiet_step|]. by split.
  - apply triple_bind, triple_update, triple_update. right. split; [|done]. exists token. split.
    + apply (onward_quiet (λ s, ws_set_stop_signal (LatchFatal (ws_stop_signal s)) s)).
      * apply quiet_same. intros s2. split_and!; [done..|]. intros _. unfold ws_stopping, ws_Fatal. cbn.
        by rewrite orb_true_r.
      * by apply onward_quiet; [apply quiet_log|].
    + exact Hr.
  - apply triple_raise. by exists token.
Qed.

(** What an Open becomes. *)
Lemma HandleOpen_outcome T g b s :
  mid T [] g b s → Z.of_nat (log_size g) + 2 < 2 ^ 64 →
  triple (HandleOpen zlib_crc32 (value:=value) EVP_EncodeBlock EVP_DecodeBlock EVP_Digest
    EVP_MAC_fetch EVP_MAC_CTX_new EVP_MAC_init EVP_MAC_update EVP_MAC_final world) s
    (λ _ s', (∃ token env, mid T [BuildSubscribeMessage (wsc_symbols cfg) (wsc_depth cfg) token]
                (mkLog (connects g) (Some (log_connect ccfg env (ws_connect_reason cfg) kWsWireSource g))) b s') ∨
             mid T [] g b s' ∧ (shut T s' ∨ ws_stopping s' = true) ∨
             refused T g b s' ∧ ss_fatal (ws_stop_signal s') = true)
    (λ s', mid T [] g b s' ∨ refused T g b s').
Proof.
  intros Hs Hsize. unfold HandleOpen. apply triple_bind.
  eapply triple_mono; [by apply Throttle_stopped| |by left]. cbv beta. intros stopped s1 [Hs1 Hst].
  destruct stopped; [apply triple_ret; right; left; split; [done|]; right; by apply Hst|]. clear Hst.
  apply triple_bind. eapply triple_mono; [apply (triple_kept _ T [] g b); [go|done]| |by left].
  cbv beta. intros now s2 Hs2.
  apply triple_bind. eapply triple_mono; [apply (triple_kept _ T [] g b); [go|done]| |by left].
  cbv beta. intros _ s3 Hs3.
  apply triple_bind. eapply triple_mono; [apply (triple_kept _ T [] g b); [go|done]| |by left].
  cbv beta. intros _ s4 Hs4.
  apply triple_bind. eapply triple_mono; [apply (triple_kept _ T [] g b); [unfold ask_token; go|done]| |by left].
  cbv beta. intros token s5 Hs5. destruct token as [token|error].
  2: { eapply triple_mono; [by apply abandon_setup_shuts| |by left]. cbv beta. intros _ s' [H1 H2]. right; left. by auto. }
  apply triple_bind, triple_gets. cbv zeta. eapply triple_ask_mid; [exact Hs5|]. intros i s6 Hs6.
  rewrite (on_cfg _ _ _ _ (proj1 Hs5)). destruct (negb _).
  - apply triple_bind, triple_update.
    eapply triple_mono; [apply abandon_setup_shuts| |by left].
    + apply (mid_quiet (ws_did _)); [by apply quiet_did|done].
    + cbv beta. intros _ s' [H1 H2]. right; left. by auto.
  - apply triple_bind, triple_update. eapply triple_mono; [apply (begin_connects (tk_token token) T g b)| |by right].
    + destruct Hs6 as [[H1 H2 H3 H4 H5] Hi]. split; [|done]. constructor; [done| |done..].
      apply (since_more _ _ _ (ws_did _ s6) [WsSent _] eq_refl H2).
    + done.
    + cbv beta. intros _ s' [[env H]|H]; [left; by exists (tk_token token), env|by auto].
Qed.

Abbreviation on := (on_event zlib_crc32 (value:=value) EVP_EncodeBlock EVP_DecodeBlock EVP_Digest
  EVP_MAC_fetch EVP_MAC_CTX_new EVP_MAC_init EVP_MAC_update EVP_MAC_final world).

(** A Close always comes to an end. *)
Lemma HandleClose_outcome code reason T g b s :
  mid T [] g b s →
  returns (on (EvClose code reason)) s (λ _ s', mid T [] (mkLog (connects g) None) b s').
Proof.
  intros Hs. cbn [on_event]. unfold HandleClose. apply triple_bind, triple_update.
  eapply (triple_ask_mid _ T [] g b); [apply (mid_quiet (λ s, ws_set_watchdog _ s)); [quiet_step|done]|].
  intros i s' [Ho Hi]. apply triple_bind, triple_gets. unfold compose.
  destruct (Close_inv zlib_crc32 ccfg (wm_close (world i)) _ g Hi) as (cap & Hc & Hi'). rewrite Hc.
  apply triple_bind, triple_update, triple_update. apply mid_quiet; [apply quiet_log|].
  split; [|done]. apply onward_capture; [done|by eapply stays_Close|].
  by rewrite (Close_sinks _ _ _ _ Hc), (on_sinks _ _ _ _ Ho).
Qed.

(** From here on. *)
Lemma mid_rebase T x g b s : mid T x g b s → mid (ws_trace s) [] g (ws_stopping s) s.
Proof.
  intros [[H1 H2 H3 H4 H5] Hi]. split; [|done]. constructor; try done. exists []. by rewrite app_nil_r.
Qed.

Definition logged (T : list ws_deed) (d : ws_deed) (s : client) : Prop :=
  ∃ deeds, ws_trace s = T ++ deeds ∧ sent deeds = [] ∧ d ∈ deeds.

(** A message nothing is open for. *)
Lemma OnWireMessage_closed env payload source cap g :
  inv cap g → lg_open g = None → OnWireMessage zlib_crc32 env payload source cap = (cap, false).
Proof.
  intros Hi Ho. pose proof (inv_journal _ _ _ _ Hi) as Hj. unfold journal_inv in Hj. rewrite Ho in Hj.
  unfold OnWireMessage. destruct (cs_journal cap) as [t|].
  - by destruct Hj as (_ & -> & _).
  - by destruct Hj as [_ ->].
Qed.

Lemma Session_Error_latched cap g :
  inv cap g → lg_open g = None → reported cap → Session_Error cap ≠ [] → cs_latched cap = true.
Proof.
  intros Hi Ho Hr. pose proof (inv_journal _ _ _ _ Hi) as Hj. unfold journal_inv in Hj. rewrite Ho in Hj.
  unfold Session_Error. destruct (cs_journal cap) as [t|] eqn:Ht.
  - intros He. apply (re_latched _ Hr t Ht). unfold JournalThread_Error in He. by destruct (jt_error t).
  - by destruct Hj as [_ ->].
Qed.

Lemma keeps_note T x g b c : keeps (mid T x g b) (note_classified c).
Proof. unfold note_classified. go. Qed.

Lemma note_returns c (s : client) : returns (note_classified c) s (λ _ _, True).
Proof. unfold note_classified. by destruct (mc_kind c). Qed.

(** What was logged stays logged, and a stop stays. *)
Lemma note_outcome c (P : Prop) d T g b s :
  mid T [] g b s → (P → logged T d s ∨ ws_stopping s = true) →
  returns (note_classified c) s
    (λ _ s', mid T [] g b s' ∧ (P → logged T d s' ∨ ws_stopping s' = true)).
Proof.
  intros Hs Hd. pose proof (keeps_note _ _ _ _ c _ Hs) as H1.
  pose proof (keeps_note _ _ _ _ c _ (mid_rebase _ _ _ _ _ Hs)) as H2.
  pose proof (note_returns c s) as Hr. unfold returns, triple in *.
  destruct (note_classified _ s) as [s6 [[]| |]]; [|done..]. cbn [fst] in *. split; [exact H1|].
  intros Hopen. destruct H2 as [[_ (d1 & Hd2 & Hd3) _ _ Hstop] _].
  destruct (Hd Hopen) as [(d0 & K1 & K2 & K3)|]; [left|by auto]. exists (d0 ++ d1).
  rewrite Hd2, K1, sent_app, K2, Hd3, (assoc app). split_and!; [done..|set_solver].
Qed.

Lemma HandleMessage_outcome payload T g b s :
  mid T [] g b s → Z.of_nat (log_size g) + 2 < 2 ^ 64 →
  returns (on (EvMessage payload)) s (λ _ s', ∃ env j,
    mid T [] (mkLog (lg_ended g) (log_frame env payload kWsWireSource j <$> lg_open g)) b s' ∧
    (lg_open g = None → logged T (dropped_line cfg) s' ∨ ws_stopping s' = true)).
Proof.
  intros Hs Hsize. cbn [on_event]. unfold HandleMessage, ws_now.
  apply triple_bind. eapply triple_ask_mid; [exact Hs|]. intros i0 s1 Hs1. apply triple_ret.
  apply triple_bind, triple_update. cbv beta.
  match goal with |- triple _ ?s2 _ _ => assert (mid T [] g b s2) as Hs2 end.
  { apply (mid_quiet (λ s, ws_set_counts (incr64 (ws_messages_received s)) (ws_forced_reconnects s)
      (ws_set_watchdog (NoteActivity _ (ws_watchdog s)) s))); [quiet_step|done]. }
  eapply triple_ask_mid; [exact Hs2|]. intros i s3 [Ho Hi]. clear Hs Hs1 Hs2. apply triple_bind, triple_gets.
  unfold compose at 1. set (env := wm_frame (world i)).
  pose proof (OnWireMessage_inv zlib_crc32 ccfg env payload kWsWireSource _ g Hi (frame_clocks i)) as Hm.
  pose proof (stays_OnWireMessage zlib_crc32 env payload kWsWireSource (ws_capture s3)) as Hst.
  pose proof (OnWireMessage_closed env payload kWsWireSource (ws_capture s3) g Hi) as Hclosed.
  pose proof (OnWireMessage_sinks zlib_crc32 env payload kWsWireSource (ws_capture s3)) as Hsinks.
  destruct (OnWireMessage _ _ _ _ (ws_capture s3)) as [cap j] eqn:Hcap. cbn [fst snd] in *.
  specialize (Hsinks _ _ eq_refl). rewrite (on_sinks _ _ _ _ Ho) in Hsinks.
  assert (inv cap (mkLog (lg_ended g) (log_frame env payload kWsWireSource j <$> lg_open g))) as Hi'.
  { apply Hm. intros c Hc. unfold log_size in Hsize. rewrite Hc in Hsize. cbn in Hsize. lia. }
  apply triple_bind, triple_update. set (s4 := ws_set_capture cap s3). set (g' := mkLog _ _) in *.
  assert (mid T [] g' b s4) as Hs4 by (split; [by apply onward_capture|done]).
  apply triple_bind, triple_gets. unfold compose.
  apply (triple_mono _ _ (λ _ s', mid T [] g' b s' ∧
    (lg_open g = None → logged T (dropped_line cfg) s' ∨ ws_stopping s' = true)) _ (λ _, False));
    [|intros _ s' []; by exists env, j|done].
  apply triple_bind. rewrite ?Hcap. cbn [snd]. destruct (negb j && bool_decide (Session_Error (ws_capture s4) = [])) eqn:Hdrop.
  - apply triple_update. apply note_outcome; [apply mid_quiet; [apply quiet_log|done]|]. intros _. left.
    destruct Hs4 as [[Hcfg (d & Hd1 & Hd2) _ _ _] _]. eexists (d ++ [_]). unfold ws_log. cbn [ws_trace ws_did].
    rewrite Hd1, <-(assoc app). split; [done|]. rewrite sent_app, Hd2. split; [done|].
    unfold dropped_line. rewrite Hcfg. set_solver.
  - apply triple_ret. apply note_outcome; [done|]. intros Hopen. right. specialize (Hclosed Hopen). simplify_eq. cbn in Hdrop.
    apply bool_decide_eq_false in Hdrop. unfold ws_stopping, ws_Fatal.
    assert (cs_latched (ws_capture s4) = true) as ->; [|by rewrite !orb_true_r].
    exact (Session_Error_latched _ g Hi Hopen (on_reported _ _ _ _ Ho) Hdrop).
Qed.

Lemma passing_outcome ev T g b s :
  passing ev → mid T [] g b s → returns (on ev) s (λ _, mid T [] g b).
Proof.
  intros Hev Hs. assert (keeps (mid T [] g b) (on ev)) as Hk by (destruct ev; try done; cbn [on_event]; go).
  specialize (Hk s Hs). unfold returns, triple in *.
  by destruct ev; try done; cbn [on_event ws_now io_bind ws_ask io_ret io_update ws_say] in *.
Qed.

(** ** Event by event *)

(** Between events. *)
Definition good (evs : list ws_event) (s : client) : Prop :=
  ∃ g t, history cfg (ws_stopping s) evs (ws_trace s) t ∧ mid (ws_trace s) [] g (ws_stopping s) s ∧
    tallied cfg g t ∧ (log_size g <= length evs)%nat.

(** In the middle of an Open: nothing begun, or a connect refused. *)
Definition paused (evs : list ws_event) (s : client) : Prop :=
  ∃ T b g t, history cfg b evs T t ∧ mid T [] g b s ∧ tallied cfg g t ∧ (log_size g <= length evs)%nat.
Definition lost (evs : list ws_event) (s : client) : Prop :=
  ∃ T b g t, history cfg b evs T t ∧ refused T g b s ∧ tallied cfg g t ∧ (log_size g <= length evs)%nat.

Lemma good_step evs ev T x g g' b t t' s' :
  history cfg b evs T t → (log_size g <= length evs)%nat →
  mid T x g' b s' → tallied cfg g' t' → (log_size g' <= S (log_size g))%nat →
  (∀ deeds, ws_trace s' = T ++ deeds → sent deeds = x → handled cfg (ws_stopping s') ev deeds t t') →
  good (evs ++ [ev]) s'.
Proof.
  intros Hh Hlen Hm Ht Hsize Hhand. pose proof Hm as [[_ (deeds & Hd & Hx) _ _ Hst] _].
  exists g', t'. split_and!; [|by eapply mid_rebase|done|rewrite length_app; cbn; lia].
  rewrite Hd. econstructor; [by eapply history_mono|by apply Hhand].
Qed.

Lemma Open_step evs s :
  good evs s → Z.of_nat (length evs) + 2 < 2 ^ 64 →
  triple (on EvOpen) s (λ _ s', good (evs ++ [EvOpen]) s' ∨ lost evs s' ∧ ss_fatal (ws_stop_signal s') = true)
    (λ s', paused evs s' ∨ lost evs s').
Proof.
  intros (g & t & Hh & Hm & Ht & Hsize) Hlen.
  eapply triple_mono; [apply HandleOpen_outcome; [exact Hm|lia]| |].
  - cbv beta. intros _ s' [(token & env & H)|[[H1 H2]|[H1 H2]]].
    + left. destruct t as [cs b]. eapply good_step; [done|exact Hsize|exact H|by eapply tallied_connect| |].
      * set (c := log_connect _ _ _ _ _).
        assert (connects (mkLog (connects g) (Some c)) = connects g ++ [c]) as Hc by done.
        unfold log_size. rewrite Hc, length_app. cbn. lia.
      * intros deeds _ Hs. by econstructor.
    + left. pose proof H1 as [[_ _ _ _ Hst] _]. destruct H2 as [(d & K1 & K2 & K3)|H2].
      * eapply good_step; [done|exact Hsize|exact H1|done|lia|].
        intros deeds Hd Hs. rewrite K1 in Hd. apply app_inv_head in Hd as <-. by constructor.
      * eapply good_step; [done|exact Hsize|exact H1|done|lia|]. intros deeds Hd Hs. by apply LeftAlone.
    + right. split; [|done]. by exists (ws_trace s), (ws_stopping s), g, t.
  - cbv beta. intros s' [H|H]; [left|right]; by exists (ws_trace s), (ws_stopping s), g, t.
Qed.

Lemma Message_step payload evs s :
  good evs s → Z.of_nat (length evs) + 2 < 2 ^ 64 →
  returns (on (EvMessage payload)) s (λ _, good (evs ++ [EvMessage payload])).
Proof.
  intros (g & t & Hh & Hm & Ht & Hsize) Hlen.
  eapply triple_mono; [apply HandleMessage_outcome; [exact Hm|lia]| |done].
  cbv beta. intros _ s' (env & j & H & Hdrop). destruct t as [cs b].
  assert (log_size (mkLog (lg_ended g) (log_frame env payload kWsWireSource j <$> lg_open g)) <=
          S (log_size g))%nat as Hls.
  { unfold log_size, connects. destruct (lg_open g); cbn; rewrite ?length_app; cbn; lia. }
  destruct b.
  - destruct (tallied_captured _ env payload j _ _ Ht) as (cs' & c & -> & Ht').
    eapply good_step; [done|exact Hsize|exact H|exact Ht'|exact Hls|]. intros deeds _ Hs. by constructor.
  - assert (lg_open g = None) as Ho by (destruct Ht as [_ Ho _]; destruct (lg_open g); cbn in Ho; naive_solver).
    eapply good_step; [done|exact Hsize|exact H|by apply tallied_dropped|exact Hls|].
    intros deeds Hd Hs. constructor; [done|]. destruct (Hdrop Ho) as [(d & K1 & _ & K3)|]; [left|by right].
    rewrite K1 in Hd. by apply app_inv_head in Hd as <-.
Qed.

Lemma event_step ev evs s :
  ev ≠ EvOpen → good evs s → Z.of_nat (length evs) + 2 < 2 ^ 64 →
  returns (on ev) s (λ _, good (evs ++ [ev])).
Proof.
  intros Hev Hg Hlen. assert (passing ev → returns (on ev) s (λ _, good (evs ++ [ev]))) as Hpass.
  { destruct Hg as (g & t & Hh & Hm & Ht & Hsize). intros Hp.
    eapply triple_mono; [by apply passing_outcome| |done]. cbv beta. intros _ s' H.
    eapply good_step; [done|exact Hsize|exact H|done|lia|]. intros deeds _ Hs. by constructor. }
  destruct ev as [|payload|code reason| | | |]; [by destruct Hev|by apply Message_step| |by apply Hpass..].
  destruct Hg as (g & [cs b] & Hh & Hm & Ht & Hsize).
  eapply triple_mono; [by apply HandleClose_outcome| |done]. cbv beta. intros _ s' H.
  eapply good_step; [done|exact Hsize|exact H|by eapply tallied_close| |].
  - unfold log_size. rewrite connects_ended. cbn. lia.
  - intros deeds _ Hs. by constructor.
Qed.

Abbreviation run := (on_events zlib_crc32 (value:=value) EVP_EncodeBlock EVP_DecodeBlock EVP_Digest
  EVP_MAC_fetch EVP_MAC_CTX_new EVP_MAC_init EVP_MAC_update EVP_MAC_final world).

(** A run that is not through with the events: within an Open, or past an Open
    that could not begin its connect. *)
Inductive cut_short (s0 : client) (evs : list ws_event) : list ws_event → client → Prop :=
| Within before after s r :
    evs = before ++ EvOpen :: after → run evs s0 = (s, r) → r ≠ Returned tt → cut_short s0 evs before s
| Past before after s :
    evs = before ++ EvOpen :: after → run (before ++ [EvOpen]) s0 = (s, Returned tt) →
    ss_fatal (ws_stop_signal s) = true → cut_short s0 evs before s.

Lemma run_cons ev evs s s1 : on ev s = (s1, Returned tt) → run (ev :: evs) s = run evs s1.
Proof. intros H. cbn [on_events]. unfold io_bind. by rewrite H. Qed.

Definition outcome (before evs : list ws_event) (s : client) : Prop :=
  (∃ s', run evs s = (s', Returned tt) ∧ good (before ++ evs) s') ∨
  (∃ now s', cut_short s evs now s' ∧ (paused (before ++ now) s' ∨ lost (before ++ now) s')).

Lemma outcome_cons before ev evs s s1 :
  on ev s = (s1, Returned tt) → outcome (before ++ [ev]) evs s1 → outcome before (ev :: evs) s.
Proof.
  intros Hon [(s' & H1 & H2)|(now & s' & H1 & H2)].
  - left. exists s'. by rewrite (run_cons _ _ _ _ Hon), (cons_middle ev before evs), (assoc app).
  - right. exists (ev :: now), s'. rewrite (cons_middle ev before now), (assoc app). split; [|done].
    destruct H1 as [now after s' r -> H Hr|now after s' -> H Hf]; [eapply Within|eapply Past];
      try done; cbn [app]; by rewrite (run_cons _ _ _ _ Hon).
Qed.

Lemma run_outcome evs : ∀ before s,
  good before s → Z.of_nat (length before + length evs) + 2 < 2 ^ 64 → outcome before evs s.
Proof.
  induction evs as [|ev evs IH]; intros before s Hg Hlen.
  { left. exists s. by rewrite app_nil_r. }
  cbn [length] in Hlen.
  assert (∀ s1, on ev s = (s1, Returned tt) → good (before ++ [ev]) s1 → outcome before (ev :: evs) s) as Hnext.
  { intros s1 Hon Hg1. eapply outcome_cons; [done|]. apply IH; [done|]. rewrite length_app. cbn. lia. }
  destruct (decide (ev = EvOpen)) as [->|Hev].
  - pose proof (Open_step before s Hg ltac:(lia)) as Ht. unfold triple in Ht.
    destruct (on EvOpen s) as [s1 r] eqn:Hon.
    assert (r = Returned tt ∨ r ≠ Returned tt ∧ (paused before s1 ∨ lost before s1)) as [->|[Hr Hs1]]
      by (destruct r as [[]| |]; by auto).
    + destruct Ht as [Hg1|[Hl Hf]]; [by apply (Hnext s1)|]. right. exists [], s1. rewrite app_nil_r.
      split; [|by auto]. eapply (Past _ _ [] evs); [done| |done]. cbn [app]. by rewrite (run_cons _ _ _ _ Hon).
    + right. exists [], s1. rewrite app_nil_r. split; [|by auto]. eapply (Within _ _ [] evs _ r); [done| |done].
      cbn [on_events]. unfold io_bind. rewrite Hon. by destruct r as [[]| |].
  - pose proof (event_step ev before s Hev Hg ltac:(lia)) as Ht. unfold returns, triple in Ht.
    destruct (on ev s) as [s1 [[]| |]] eqn:Hon; [|done..]. by apply (Hnext s1).
Qed.

(** ** The account *)

(** What the capture holds after the events [evs]: [g] the connects, [t] the
    tally the history of those events ends in. *)
Record account (evs : list ws_event) (s : client) (g : log) (t : tally) : Prop := {
  ac_history : ∃ T, T `prefix_of` ws_trace s ∧ history cfg (ws_stopping s) evs T t;
  ac_payloads : (λ c, cf_payload <$> c_frames c) <$> connects g = ty_connects t;
  ac_markers : Forall (λ c, cf_payload (c_marker c) = ws_connect_reason cfg ∧
    Forall (λ f, cf_source f = kKrakenJson) (c_marker c :: c_frames c)) (connects g);
  ac_numbered : ∀ i c, connects g !! i = Some c → numbered i c;
  ac_sinks : cs_sinks (ws_capture s) = replicate n (sink_calls g);
  ac_files : Forall2 (journal_of zlib_crc32 ccfg) (lg_ended g) (closed_files (ws_capture s));
}.

Hypothesis exchange_fits : (length (cfg_exchange ccfg) <= kExchangeFieldSize)%nat.
Hypothesis exchange_text : byte_of 0 ∉ cfg_exchange ccfg.

Lemma journals_read (s : client) g :
  (∀ i c, connects g !! i = Some c → numbered i c) → Z.of_nat (length (connects g)) + 1 < 2 ^ 64 →
  Forall2 (closed_as zlib_crc32 ccfg) (lg_ended g) (closed_files (ws_capture s)) →
  Forall2 (journal_of zlib_crc32 ccfg) (lg_ended g) (closed_files (ws_capture s)).
Proof.
  intros Hnum Hlen Hf. apply Forall2_same_length_lookup. split; [by eapply Forall2_length|].
  intros i c file Hi Hfi. assert (connects g !! i = Some c) as Hci by by apply lookup_app_l_Some.
  eapply closed_as_journal_of; [done|done| |by apply Hnum|by eapply Forall2_lookup_lr].
  apply lookup_lt_Some in Hci. unfold u64, u64_max. lia.
Qed.

Lemma sinks_told T x b s g :
  onward T x b s → Forall (λ calls, calls = sink_calls g) (cs_sinks (ws_capture s)) →
  cs_sinks (ws_capture s) = replicate n (sink_calls g).
Proof. intros Ho Hs. apply Forall_replicate_eq in Hs. by rewrite (on_sinks _ _ _ _ Ho) in Hs. Qed.

Lemma paused_account evs s :
  Z.of_nat (length evs) + 2 < 2 ^ 64 → paused evs s → ∃ g t, account evs s g t.
Proof.
  intros Hlen (T & b & g & t & Hh & [Ho Hi] & Ht & Hsize). exists g, t. destruct Ht as [H1 _ H3].
  assert (length (connects g) <= length evs)%nat as Hc by (unfold log_size in Hsize; lia).
  constructor; [|done|done| | |].
  - destruct Ho as [_ (d & -> & _) _ _ Hst]. exists T. split; [by apply prefix_app_r|by eapply history_mono].
  - apply Hi.
  - eapply sinks_told; [done|apply Hi].
  - apply journals_read; [apply Hi|lia|apply Hi].
Qed.

Lemma lost_account evs s :
  Z.of_nat (length evs) + 2 < 2 ^ 64 → lost evs s → ∃ g t, account evs s g t.
Proof.
  intros Hlen (T & b & g & t & Hh & (token & Ho & Hi) & Ht & Hsize). exists (mkLog (connects g) None), t.
  destruct Ht as [H1 _ H3]. assert (length (connects g) <= length evs)%nat as Hc by (unfold log_size in Hsize; lia).
  constructor; rewrite ?connects_ended; [|done|done| | |].
  - destruct Ho as [_ (d & -> & _) _ _ Hst]. exists T. split; [by apply prefix_app_r|by eapply history_mono].
  - rewrite <-(connects_ended g). apply Hi.
  - eapply sinks_told; [done|apply Hi].
  - apply journals_read; rewrite ?connects_ended; [rewrite <-(connects_ended g); apply Hi|lia|apply Hi].
Qed.

Lemma good_account evs s :
  Z.of_nat (length evs) + 2 < 2 ^ 64 → good evs s →
  ∃ g t, account evs s g t ∧ history cfg (ws_stopping s) evs (ws_trace s) t ∧
    (is_Some (lg_open g) ↔ ty_open t = true).
Proof.
  intros Hlen (g & t & Hh & [Ho Hi] & Ht & Hsize). exists g, t. destruct Ht as [H1 H2 H3].
  assert (length (connects g) <= length evs)%nat as Hc by (unfold log_size in Hsize; lia).
  split; [constructor; [|done|done| | |]|done].
  - by exists (ws_trace s).
  - apply Hi.
  - eapply sinks_told; [done|apply Hi].
  - apply journals_read; [apply Hi|lia|apply Hi].
Qed.

Definition new_ws (rest : RestClient) (creds : Credentials) : client :=
  WsStart (new_WsClient rest creds (session_with ccfg n) cfg).

Lemma session_with_journal k : cs_journal (session_with ccfg k : CaptureSession Q) = cs_journal (new_CaptureSession ccfg).
Proof. by induction k. Qed.

Lemma new_ws_good rest creds : good [] (new_ws rest creds).
Proof.
  destruct (session_with_inv zlib_crc32 ccfg n (Q:=Q)) as [Hi Hn].
  exists (mkLog [] None), (mkTally [] false). split_and!; [by apply HistoryStart| | |done].
  - split; [|by apply SetFatalHandler_inv]. constructor; try done.
    + exists []. by rewrite app_nil_r.
    + constructor; [done|]. intros t. cbn. rewrite session_with_journal. cbn.
      destruct (cfg_threaded ccfg); [|done]. intros [= <-]. unfold new_JournalThread.
      destruct (cfg_journal_start ccfg); by intros [].
  - constructor; [done| |constructor]. split; [by intros [? [=]]|done].
Qed.

End accounts.

(** ** The run of [demo_ws_events]

    A connection, its loss, and another connection. *)

Definition demo_ws_capture : Config := mkConfig (B "journal") (B "kraken") (B "kraken-spot") true 8 true.

Definition frames_told (calls : list FeedEvent) : list bytes :=
  omap (λ ev, match ev with FrameEvent f => Some (cf_payload f) | _ => None end) calls.

Lemma demo_ws_runs : demo_ws_run = (demo_ws_run.1, Returned tt) ∧
  sent (ws_trace demo_ws_run.1) = replicate 2 (BuildSubscribeMessage [B "BTC/USD"; B "ETH/USD"] 100 (B "T0ken")) ∧
  map frames_told (cs_sinks (ws_capture demo_ws_run.1)) = [[B "one"; B "two"]] ∧
  map fst (closed_files (ws_capture demo_ws_run.1)) = [journal_path demo_ws_capture 1 1000000000].
Proof. split_and!; vm_compute; reflexivity. Qed.

Abbreviation demo_ws := (on_events demo_crc (OnDemand0:=tree_json demo_reply) demo_block demo_block demo_digest
  true true (λ _, true) (λ _ _, true) demo_mac demo_ws_world).

Lemma demo_ws_not_fatal k : ss_fatal (ws_stop_signal (demo_ws (take k demo_ws_events) demo_ws_start).1) = false.
Proof.
  do 6 (destruct k; [vm_compute; reflexivity|]). rewrite take_ge by (cbn; lia). vm_compute. reflexivity.
Qed.

Lemma demo_ws_clocks i :
  (u64 (ce_header_realtime (wm_connect (demo_ws_world i))) ∧
   u64 (ce_header_monotonic (wm_connect (demo_ws_world i))) ∧
   u64 (ce_marker_now (wm_connect (demo_ws_world i)))) ∧ u64 (fe_now (wm_frame (demo_ws_world i))).
Proof. cbn. unfold u64, u64_max. split_and!; lia. Qed.

Lemma demo_ws_run_is : demo_ws demo_ws_events (new_ws demo_ws_cfg demo_ws_capture 1 demo_rest demo_creds) = demo_ws_run.
Proof. unfold demo_ws_run, demo_ws_start, new_ws, demo_ws_capture. reflexivity. Qed.
Lemma demo_ws_not_past before after s :
  demo_ws_events = before ++ EvOpen :: after →
  demo_ws (before ++ [EvOpen]) (new_ws demo_ws_cfg demo_ws_capture 1 demo_rest demo_creds) = (s, Returned tt) →
  ss_fatal (ws_stop_signal s) ≠ true.
Proof.
  intros He Hr Hf. pose proof (demo_ws_not_fatal (S (length before))) as Hn. rewrite He in Hn.
  rewrite (cons_middle EvOpen before after), (assoc app), take_app_length' in Hn by (rewrite length_app; cbn; lia).
  change demo_ws_start with (new_ws demo_ws_cfg demo_ws_capture 1 demo_rest demo_creds) in Hn.
  rewrite Hr in Hn. cbn [fst] in Hn. congruence.
Qed.
Lemma demo_ws_exchange : byte_of 0 ∉ cfg_exchange demo_ws_capture.
Proof. apply (bool_decide_eq_true_1 (byte_of 0 ∉ B "kraken")). by vm_compute. Qed.

