(* ===== verification/KrakenSecret.v ===== *)
(** * The Kraken credentials and tokens are only ever sent

    Two clients that differ in nothing but their credentials, against an
    exchange that answers both alike but for the token, are compared step by
    step. *)

From S2P Require Import Prelude Text ClientBase Feed Ring Journal JournalCrash JournalThread CaptureSession SessionProofs KrakenSigning KrakenRest KrakenRestProofs KrakenClient KrakenPace.

(** What can be seen of a deed without reading what was sent. *)
Definition visible_deed (d : ws_deed) : ws_deed :=
  match d with
  | WsSent _ => WsSent []
  | WsSendFailed _ => WsSendFailed []
  | d => d
  end.

(** The same result, but for the token. *)
Definition token_alike (r r' : expected bytes WebsocketsToken) : Prop :=
  match r, r' with
  | Expected _, Expected _ => True
  | Unexpected e, Unexpected e' => e = e'
  | _, _ => False
  end.

(** The two runs side by side, where results may differ within [RA]. *)
Definition coupled_upto {S A} (RA : A → A → Prop) (Rel : S → S → Prop) (m m' : io S A) : Prop :=
  ∀ s s', Rel s s' → Rel (m s).1 (m' s').1 ∧
    match (m s).2, (m' s').2 with
    | Returned a, Returned a' => RA a a'
    | Raised, Raised | Unfinished, Unfinished => True
    | _, _ => False
    end.

Lemma coupled_upto_bind {S A C} (RA : A → A → Prop) (Rel : S → S → Prop) (m m' : io S A) (k k' : A → io S C) :
  coupled_upto RA Rel m m' → (∀ a a', RA a a' → coupled Rel (k a) (k' a')) →
  coupled Rel (io_bind m k) (io_bind m' k').
Proof.
  intros Hm Hk s s' Hs. destruct (Hm s s' Hs) as [H1 H2]. unfold io_bind.
  destruct (m s) as [s1 [a| |]], (m' s') as [s1' [a'| |]]; try done. by apply Hk.
Qed.

Section secret.
Variable zlib_crc32 : Z → bytes → Z.
Context {Q : Type} `{!ReaderWriterQueue Q JournalEvent}.
Context {value : Type} `{!OnDemand value}.
Variable EVP_EncodeBlock EVP_DecodeBlock EVP_Digest : bytes → option bytes.
Variable EVP_MAC_fetch EVP_MAC_CTX_new : bool.
Variable EVP_MAC_init : bytes → bool.
Variable EVP_MAC_update : bytes → bytes → bool.
Variable EVP_MAC_final : bytes → bytes → option bytes.
Variable world : nat → ws_moment.

Abbreviation sign := (SignPrivateRequest EVP_EncodeBlock EVP_DecodeBlock EVP_Digest EVP_MAC_fetch
  EVP_MAC_CTX_new EVP_MAC_init EVP_MAC_update EVP_MAC_final).
Abbreviation client := (WsClient Q).

(** Responses that differ at most in the token. *)
Definition response_alike (r r' : option HttpResponse) : Prop :=
  match r, r' with
  | Some r, Some r' => rs_status r = rs_status r' ∧ rs_error r = rs_error r' ∧
      token_alike (read_token (value:=value) (rs_body r)) (read_token (value:=value) (rs_body r'))
  | None, None => True
  | _, _ => False
  end.

(** Whether the MAC interface succeeds does not depend on the key. *)
Hypothesis mac_uniform : ∀ key key' m,
  EVP_MAC_init key = EVP_MAC_init key' ∧ EVP_MAC_update key m = EVP_MAC_update key' m ∧
  length <$> EVP_MAC_final key m = length <$> EVP_MAC_final key' m.

Definition decodes (secret : bytes) : bool :=
  match Base64Decode EVP_DecodeBlock secret with Expected _ => true | Unexpected _ => false end.

(** All set, and both secrets are Base64 or neither is. *)
Record credentials_alike (c c' : Credentials) : Prop := {
  cr_key : api_key c ≠ [] ∧ api_key c' ≠ [];
  cr_secret : api_secret_b64 c ≠ [] ∧ api_secret_b64 c' ≠ [];
  cr_decodes : decodes (api_secret_b64 c) = decodes (api_secret_b64 c');
}.

Lemma mac_alike key key' message :
  match HmacSha512 EVP_MAC_fetch EVP_MAC_CTX_new EVP_MAC_init EVP_MAC_update EVP_MAC_final key message,
        HmacSha512 EVP_MAC_fetch EVP_MAC_CTX_new EVP_MAC_init EVP_MAC_update EVP_MAC_final key' message with
  | Expected _, Expected _ => True
  | Unexpected e, Unexpected e' => e = e'
  | _, _ => False
  end.
Proof.
  unfold HmacSha512. destruct (mac_uniform key key' message) as (<- & <- & H).
  destruct (negb EVP_MAC_fetch); [done|]. destruct (negb EVP_MAC_CTX_new); [done|].
  destruct (negb (EVP_MAC_init key)); [done|]. destruct (negb (EVP_MAC_update key message)); [done|].
  destruct (EVP_MAC_final key message), (EVP_MAC_final key' message); try done. injection H as H. rewrite H.
  by destruct (_ =? _)%nat.
Qed.

Lemma sign_alike secret secret' path nonce data :
  decodes secret = decodes secret' →
  match sign path nonce data secret, sign path nonce data secret' with
  | Expected _, Expected _ => True
  | Unexpected e, Unexpected e' => e = e'
  | _, _ => False
  end.
Proof.
  unfold decodes, SignPrivateRequest.
  destruct (Base64Decode _ secret) as [key|], (Base64Decode _ secret') as [key'|]; try done. intros _.
  destruct (Sha256 _ _) as [digest|]; [|done]. cbn. pose proof (mac_alike key key' (path ++ digest)) as H.
  destruct (HmacSha512 _ _ _ _ _ key _), (HmacSha512 _ _ _ _ _ key' _); done.
Qed.

Variable creds creds' : Credentials.
Hypothesis usable : credentials_alike creds creds'.
(** The exchange answers a request whoever signed it. *)
Hypothesis fair : ∀ i req req', rq_post req = rq_post req' → rq_url req = rq_url req' →
  rq_body req = rq_body req' → response_alike (wm_http (world i) req) (wm_http (world i) req').

Abbreviation fetch := (fetch_token (value:=value) EVP_EncodeBlock EVP_DecodeBlock EVP_Digest
  EVP_MAC_fetch EVP_MAC_CTX_new EVP_MAC_init EVP_MAC_update EVP_MAC_final).

(** The token call leaves the shared client alike, and says alike. *)
Lemma fetch_alike i written now r :
  (fetch (wm_http (world i)) written now creds r).1 = (fetch (wm_http (world i)) written now creds' r).1 ∧
  match (fetch (wm_http (world i)) written now creds r).2, (fetch (wm_http (world i)) written now creds' r).2 with
  | Done a, Done a' => token_alike a a'
  | Throws _, Throws _ => True
  | _, _ => False
  end.
Proof.
  destruct usable as [[K1 K1'] [K2 K2'] Hdec]. unfold fetch_token, FetchWebsocketsToken.
  destruct (decide (api_key creds = [])); [done|]. destruct (decide (api_secret_b64 creds = [])); [done|].
  destruct (decide (api_key creds' = [])); [done|]. destruct (decide (api_secret_b64 creds' = [])); [done|].
  destruct (PersistentNonceSource_Next _ _ _) as [st [nonce|]]; [|done]. split; [done|]. cbn [snd].
  unfold token_request. cbv zeta.
  pose proof (sign_alike _ _ kWebSocketsTokenPath (to_string nonce)
    (EncodePostData [(B "nonce", to_string nonce)]) Hdec) as Hsign.
  destruct (sign _ _ _ (api_secret_b64 creds)) as [sg|e], (sign _ _ _ (api_secret_b64 creds')) as [sg'|e'];
    try done; cbn.
  match goal with |- token_alike (match wm_http _ ?rq with _ => _ end) (match wm_http _ ?rq' with _ => _ end) =>
    pose proof (fair i rq rq' eq_refl eq_refl eq_refl) as Hr end.
  destruct (wm_http _ _) as [rs|], (wm_http _ _) as [rs'|]; try done; cbn in Hr.
  destruct Hr as (H1 & H2 & H3). unfold DescribeHttpFailure. rewrite <-H1, <-H2. by destruct (negb _).
Qed.

(** ** Clients alike *)

Definition hide (s : client) : client :=
  mkWsClient (ws_cfg s) (mkCredentials [] []) (ws_rest s) (ws_capture s) (ws_watchdog s) (ws_stop_signal s)
    (ws_started s) (ws_joined s) (ws_messages_received s) (ws_forced_reconnects s)
    (ws_setup_failures s) (ws_last_setup_ns s) (ws_subscribe_acks s) (ws_tick s) (ws_clock s)
    (map visible_deed (ws_trace s)).

Record alike (s s' : client) : Prop := {
  al_hide : hide s = hide s';
  al_creds : ws_creds s = creds;
  al_creds' : ws_creds s' = creds';
}.

Abbreviation coupled := (coupled alike).

(** A step that neither reads nor changes what is hidden. *)
Definition blind (f : client → client) : Prop := ∀ s,
  hide (f s) = hide (f (hide s)) ∧ ws_creds (f s) = ws_creds s.

Lemma visible_twice l : map visible_deed (map visible_deed l) = map visible_deed l.
Proof. rewrite map_map. apply map_ext. by intros []. Qed.

Lemma alike_blind f s s' : blind f → alike s s' → alike (f s) (f s').
Proof.
  intros Hf [H1 H2 H3]. destruct (Hf s) as [K1 K2], (Hf s') as [K1' K2'].
  constructor; [|by rewrite K2|by rewrite K2']. by rewrite K1, K1', H1.
Qed.

Lemma alike_view {A} (f : client → A) s s' : (∀ s, f s = f (hide s)) → alike s s' → f s = f s'.
Proof. intros Hf [H _ _]. by rewrite (Hf s), (Hf s'), H. Qed.

Lemma hide_idemp s : hide (hide s) = hide s.
Proof. unfold hide. cbn. by rewrite visible_twice. Qed.

Ltac blind := intros ?; unfold hide; cbn; rewrite ?map_app, ?visible_twice; done.

Lemma blind_comp f f' : blind f → blind f' → blind (λ s, f' (f s)).
Proof.
  intros Hf Hf' s. destruct (Hf s) as [H1 H2], (Hf' (f s)) as [K1 K2], (Hf' (f (hide s))) as [L1 _].
  split; [|congruence]. by rewrite K1, L1, H1.
Qed.
Lemma blind_log level message : blind (ws_log level message).
Proof. blind. Qed.
Lemma blind_did d : blind (ws_did d).
Proof. blind. Qed.
Lemma blind_stop : blind WsRequestStop.
Proof. intros s. unfold WsRequestStop. cbn. destruct (negb _ && _); revert s; blind. Qed.
Lemma blind_ForceReconnect reason : blind (ForceReconnect reason).
Proof. blind. Qed.
Lemma blind_poll now : blind (watchdog_poll now).
Proof.
  intros s. unfold watchdog_poll.
  change (ws_stopping (hide s)) with (ws_stopping s). change (ws_watchdog (hide s)) with (ws_watchdog s).
  destruct (ws_stopping s); [by rewrite hide_idemp|]. destruct (negb _); [by rewrite hide_idemp|].
  revert s. blind.
Qed.

Abbreviation others := (λ (s : client) (o : ws_other), ws_step_other zlib_crc32 (value:=value)
  EVP_EncodeBlock EVP_DecodeBlock EVP_Digest EVP_MAC_fetch EVP_MAC_CTX_new EVP_MAC_init EVP_MAC_update
  EVP_MAC_final o s).

Lemma alike_others os s s' : alike s s' → alike (foldl others s os) (foldl others s' os).
Proof.
  revert s s'. induction os as [|o os IH]; intros s s' Hs; [done|]. cbn [foldl]. apply IH.
  apply (alike_blind (λ s, others s o)); [|done]. destruct o; cbn [ws_step_other].
  - apply blind_stop.
  - blind.
  - apply blind_poll.
  - blind.
Qed.

(** ** The handlers *)

Abbreviation ask := (ws_ask zlib_crc32 (value:=value) EVP_EncodeBlock EVP_DecodeBlock EVP_Digest
  EVP_MAC_fetch EVP_MAC_CTX_new EVP_MAC_init EVP_MAC_update EVP_MAC_final world).

Lemma ws_coupled_ask : coupled ask ask.
Proof.
  intros s s' Hs. unfold ws_ask.
  assert (ws_tick s = ws_tick s') as <- by (apply alike_view; [blind|done]). split; [|done].
  apply (alike_blind (ws_advance _)); [blind|]. by apply alike_others.
Qed.
Lemma coupled_blind f : blind f → coupled (io_update f) (io_update f).
Proof. intros Hf. apply coupled_update. intros s s'. by apply alike_blind. Qed.
Lemma ws_coupled_view {A} (f : client → A) : (∀ s, f s = f (hide s)) → coupled (io_gets f) (io_gets f).
Proof. intros Hf. apply coupled_gets. intros s s'. by apply alike_view. Qed.
Lemma ws_coupled_say level message : coupled (ws_say level message) (ws_say level message).
Proof. apply coupled_blind, blind_log. Qed.

Ltac couple := repeat (first
  [ apply coupled_bind; [|intros ?] | apply ws_coupled_ask | apply ws_coupled_say | apply coupled_ret
  | apply coupled_wait | apply coupled_raise | progress (unfold ws_now)
  | (apply ws_coupled_view; done) | (apply coupled_blind; first [apply blind_ForceReconnect | blind])
  | match goal with |- ClientBase.coupled _ (if ?b then _ else _) _ => destruct b end
  | match goal with |- ClientBase.coupled _ (match ?x with _ => _ end) _ => destruct x end ]).

Abbreviation asks_token := (ask_token zlib_crc32 (value:=value) EVP_EncodeBlock EVP_DecodeBlock EVP_Digest
  EVP_MAC_fetch EVP_MAC_CTX_new EVP_MAC_init EVP_MAC_update EVP_MAC_final world).

Lemma coupled_token : coupled_upto token_alike alike asks_token asks_token.
Proof.
  intros s s' Hs. destruct (ws_coupled_ask s s' Hs) as [Hs1 Hm]. unfold ask_token, io_bind.
  assert (∃ i, (ask s).2 = Returned (world i)) as [i Hi] by (by eexists).
  destruct (ask s) as [s1 r], (ask s') as [s1' r']. cbn in Hs1, Hm, Hi. subst. cbn [io_gets io_update].
  rewrite (al_creds _ _ Hs1), (al_creds' _ _ Hs1).
  assert (ws_rest s1' = ws_rest s1) as -> by (symmetry; apply alike_view; [blind|done]).
  destruct (fetch_alike i (wm_written (world i)) (wm_realtime (world i)) (ws_rest s1)) as [H1 H2].
  rewrite <-H1. destruct (fetch _ _ _ creds _).2 as [a| |], (fetch _ _ _ creds' _).2 as [a'| |]; try done.
  - split; [|done]. by apply (alike_blind (ws_set_rest _)); [blind|].
  - split; [|done]. by apply (alike_blind (ws_set_rest _)); [blind|].
Qed.

Lemma alike_hidden d d' s s' : visible_deed d = visible_deed d' → alike s s' → alike (ws_did d s) (ws_did d' s').
Proof.
  intros Hd Hs. destruct (alike_blind (ws_did d) s s' (blind_did d) Hs) as [H1 H2 H3].
  constructor; [|done..]. rewrite H1. unfold hide. cbn. rewrite !map_app. cbn. by rewrite Hd.
Qed.

Abbreviation opens := (HandleOpen zlib_crc32 (value:=value) EVP_EncodeBlock EVP_DecodeBlock EVP_Digest
  EVP_MAC_fetch EVP_MAC_CTX_new EVP_MAC_init EVP_MAC_update EVP_MAC_final world).

Lemma coupled_open : coupled opens opens.
Proof.
  unfold HandleOpen, ThrottleConnectionSetup, ws_WaitFor. apply coupled_bind; [couple|]. intros stopped.
  destruct stopped; [couple|]. apply coupled_bind; [couple|]. intros now.
  do 2 (apply coupled_bind; [couple|]; intros _).
  apply (coupled_upto_bind token_alike); [exact coupled_token|].
  intros [token|e] [token'|e'] Ha; try done; cbn in Ha.
  - apply coupled_bind; [couple|]. intros cfg. cbv zeta. apply coupled_bind; [couple|]. intros m.
    unfold abandon_setup, BackOffAfterSetupFailure, begin_capture, ws_WaitFor.
    destruct (negb (wm_send m)); (apply coupled_bind; [apply coupled_update; intros s s'; by apply alike_hidden|]);
      intros _; couple.
  - subst e'. unfold abandon_setup, BackOffAfterSetupFailure, ws_WaitFor. couple.
Qed.

Abbreviation run := (on_events zlib_crc32 (value:=value) EVP_EncodeBlock EVP_DecodeBlock EVP_Digest
  EVP_MAC_fetch EVP_MAC_CTX_new EVP_MAC_init EVP_MAC_update EVP_MAC_final world).

Lemma coupled_events evs : coupled (run evs) (run evs).
Proof.
  induction evs as [|ev evs IH]; [apply coupled_ret|]. cbn [on_events].
  apply coupled_bind; [|intros _; exact IH]. destruct ev; cbn [on_event]; [apply coupled_open|..];
    unfold HandleMessage, HandleClose, note_classified; couple.
Qed.

(** C19: the credentials and the tokens are only ever sent. Two clients that
    differ in nothing but their credentials, on any events, against the same
    outside, which answers a token call whoever signed it but for the token:
    both end alike, with every journal file, every call of a sink, every log
    line, every wait and every socket call the same; only the texts sent to
    the exchange differ. *)
Theorem kraken_secret_unobservable rest capture cfg evs :
  let r := run evs (WsStart (new_WsClient rest creds capture cfg)) in
  let r' := run evs (WsStart (new_WsClient rest creds' capture cfg)) in
  r.2 = r'.2 ∧ ws_capture r.1 = ws_capture r'.1 ∧ ws_stop_signal r.1 = ws_stop_signal r'.1 ∧
  ws_rest r.1 = ws_rest r'.1 ∧
  map visible_deed (ws_trace r.1) = map visible_deed (ws_trace r'.1).
Proof.
  intros r r'. destruct (coupled_events evs (WsStart (new_WsClient rest creds capture cfg))
    (WsStart (new_WsClient rest creds' capture cfg))) as [[Hh _ _] H]; [by constructor|].
  fold r r' in Hh, H. unfold hide in Hh. injection Hh as ???????????????. by split_and!.
Qed.
End secret.

(** ** An example: the run of [demo_ws_events], with two keys

    The exchange makes a token of the key and the signature. *)

Definition echo_json : OnDemand tree := {|
  od_iterate := λ body, Some (TreeObject [(B "error", TreeArray []);
    (B "result", TreeObject [(B "token", TreeString body)])]);
  od_field := @od_field tree (tree_json (TreeInt 0));
  od_object := @od_object tree (tree_json (TreeInt 0));
  od_array := @od_array tree (tree_json (TreeInt 0));
  od_string := @od_string tree (tree_json (TreeInt 0));
  od_int64 := @od_int64 tree (tree_json (TreeInt 0));
  od_bool := @od_bool tree (tree_json (TreeInt 0));
  od_fields := @od_fields tree (tree_json (TreeInt 0));
|}.
Definition demo_echo_world (i : nat) : ws_moment :=
  let m := demo_ws_world i in
  mkWsMoment (wm_others m) (wm_monotonic m) (wm_realtime m)
    (λ req, Some (mkHttpResponse 200 [] (concat (map snd (rq_headers req))))) (wm_written m) (wm_send m)
    (wm_connect m) (wm_close m) (wm_frame m).
Definition demo_capture_session : CaptureSession (bounded_queue JournalEvent) :=
  session_with (mkConfig (B "journal") (B "kraken") (B "kraken-spot") true 8 true) 1.
Definition demo_echo_run (creds : Credentials) : WsClient (bounded_queue JournalEvent) * ClientBase.progress unit :=
  on_events demo_crc (OnDemand0:=echo_json) demo_block demo_block demo_digest true true (λ _, true)
    (λ _ _, true) demo_mac demo_echo_world demo_ws_events
    (WsStart (new_WsClient demo_rest creds demo_capture_session demo_ws_cfg)).
Definition demo_other_creds : Credentials := mkCredentials (B "other") (B "b3RoZXI=").

Definition subscriptions (trace : list ws_deed) : list bytes :=
  omap (λ d, match d with WsSent text => Some text | _ => None end) trace.

Lemma demo_tokens_differ :
  bool_decide (subscriptions (ws_trace (demo_echo_run demo_creds).1) =
               subscriptions (ws_trace (demo_echo_run demo_other_creds).1)) = false ∧
  length (subscriptions (ws_trace (demo_echo_run demo_creds).1)) = 2%nat.
Proof. vm_compute. done. Qed.

Lemma demo_echo_fair i req req' :
  response_alike (OnDemand0:=echo_json) (wm_http (demo_echo_world i) req) (wm_http (demo_echo_world i) req').
Proof. split_and!; done. Qed.
Lemma demo_creds_alike : credentials_alike demo_block demo_creds demo_other_creds.
Proof. split; [by split..|]. vm_compute. reflexivity. Qed.

Lemma kraken_secret_unobservable_witness :
  subscriptions (ws_trace (demo_echo_run demo_creds).1) ≠
    subscriptions (ws_trace (demo_echo_run demo_other_creds).1) ∧
  ws_capture (demo_echo_run demo_creds).1 = ws_capture (demo_echo_run demo_other_creds).1 ∧
  map visible_deed (ws_trace (demo_echo_run demo_creds).1) =
    map visible_deed (ws_trace (demo_echo_run demo_other_creds).1).
Proof.
  split; [exact (bool_decide_eq_false_1 _ (proj1 demo_tokens_differ))|].
  destruct (kraken_secret_unobservable demo_crc (OnDemand0:=echo_json) demo_block demo_block demo_digest
    true true (λ _, true) (λ _ _, true) demo_mac demo_echo_world (λ _ _ _, conj eq_refl (conj eq_refl eq_refl))
    demo_creds demo_other_creds demo_creds_alike (λ i req req' _ _ _, demo_echo_fair i req req')
    demo_rest demo_capture_session demo_ws_cfg demo_ws_events) as (_ & H1 & _ & _ & H2).
  split; [exact H1|exact H2].
Defined.
