(* ===== verification/KrakenClassify.v ===== *)
(** * Classification does not depend on the order of the keys

    Kraken does not guarantee one, and [ClassifyMessage] makes a single pass. *)

From S2P Require Import Prelude Text KrakenRest KrakenRestProofs KrakenClient.

Section order.
Context {value : Type} `{!OnDemand value}.

(** The keys that could be read. *)
Definition read_keys (fields : list (option bytes * value)) : list bytes := omap fst fields.

Lemma note_unreadable t (v : value) : note_field t (None, v) = t.
Proof. by destruct t. Qed.

Lemma note_fields_swap t (x y : option bytes * value) :
  (∀ key, x.1 = Some key → y.1 ≠ Some key) → note_field (note_field t x) y = note_field (note_field t y) x.
Proof.
  destruct x as [[kx|] vx], y as [[ky|] vy]; rewrite ?note_unreadable; try done. cbn [fst]. intros Hne. assert (kx ≠ ky) as Hxy by (intros ->; by apply (Hne ky)).
  destruct t. unfold note_field. repeat case_decide; subst; done.
Qed.

Lemma note_fields_perm fields fields' :
  fields ≡ₚ fields' → NoDup (read_keys fields) → ∀ t, foldl note_field t fields = foldl note_field t fields'.
Proof.
  induction 1 as [|x l l' _ IH|x y l|l1 l2 l3 H12 IH12 _ IH23]; intros Hnd t; [done| | |].
  - apply IH. unfold read_keys in *. cbn in Hnd. destruct x.1; [by apply NoDup_cons in Hnd as [_ ?]|done].
  - cbn [foldl]. f_equal. apply note_fields_swap. intros key Hy Hx. unfold read_keys in Hnd. cbn in Hnd.
    rewrite Hy, Hx in Hnd. apply NoDup_cons in Hnd as [Hnot _]. set_solver.
  - rewrite IH12 by done. apply IH23. eapply NoDup_Permutation_proper; [|exact Hnd].
    unfold read_keys. by rewrite H12.
Qed.

(** C37: two messages whose top-level members are the same up to their order,
    each key once, are classified alike, with the same detail and symbol. *)
Theorem ClassifyMessage_any_order json json' doc doc' root root' :
  od_iterate json = Some doc → od_iterate json' = Some doc' →
  od_object doc = Some root → od_object doc' = Some root' →
  od_fields root ≡ₚ od_fields root' → NoDup (read_keys (od_fields root)) →
  ClassifyMessage json = ClassifyMessage json'.
Proof.
  intros H1 H2 H3 H4 Hperm Hnd. unfold ClassifyMessage. rewrite H1, H2, H3, H4.
  by rewrite (note_fields_perm _ _ Hperm Hnd).
Qed.
End order.

(** ** An acknowledgement, and the same with its members turned round

    The text says which way to read it. *)

Definition ack_members : list (bytes * tree) :=
  [(B "method", TreeString (B "subscribe"));
   (B "result", TreeObject [(B "channel", TreeString (B "level3")); (B "symbol", TreeString (B "BTC/USD"))]);
   (B "time_in", TreeString (B "2026-09-16T12:00:00Z"))].
Definition ack_json : OnDemand tree := {|
  od_iterate := λ body, Some (TreeObject (if decide (body = []) then ack_members else reverse ack_members));
  od_field := @od_field tree (tree_json (TreeInt 0));
  od_object := @od_object tree (tree_json (TreeInt 0));
  od_array := @od_array tree (tree_json (TreeInt 0));
  od_string := @od_string tree (tree_json (TreeInt 0));
  od_int64 := @od_int64 tree (tree_json (TreeInt 0));
  od_bool := @od_bool tree (tree_json (TreeInt 0));
  od_fields := @od_fields tree (tree_json (TreeInt 0));
|}.

Lemma ack_kind : @ClassifyMessage tree ack_json [] = mkClassification kSubscribeAck (B "subscribe") (B "BTC/USD").
Proof. vm_compute. reflexivity. Qed.

Lemma ack_members_perm (l : list (bytes * tree)) :
  @od_fields tree ack_json (TreeObject l) ≡ₚ @od_fields tree ack_json (TreeObject (reverse l)).
Proof. cbn. by rewrite reverse_Permutation. Qed.
Lemma ack_members_distinct : NoDup (read_keys (@od_fields tree ack_json (TreeObject ack_members))).
Proof. apply (bool_decide_eq_true_1 _). vm_compute. reflexivity. Qed.

Lemma ClassifyMessage_any_order_witness :
  @ClassifyMessage tree ack_json (B "reversed") = mkClassification kSubscribeAck (B "subscribe") (B "BTC/USD").
Proof.
  rewrite <-ack_kind. symmetry.
  exact (ClassifyMessage_any_order (OnDemand0:=ack_json) [] (B "reversed") _ _ _ _ eq_refl eq_refl eq_refl eq_refl
    (ack_members_perm ack_members) ack_members_distinct).
Defined.
