(* ===== verification/KrakenSubscribe.v ===== *)
(** * The subscribe message is the JSON it means to be

    [BuildSubscribeMessage] splices its values in without escaping them. For the
    symbols of an accepted configuration and a token of ordinary characters the
    text is what a JSON writer prints for the request. *)

From S2P Require Import Prelude Text Config ConfigProofs KrakenRest BookWiring KrakenClient.

(** ** A JSON writer *)

Inductive json_value : Type :=
| JString (text : bytes)
| JNumber (n : Z)
| JBool (b : bool)
| JArray (elements : list json_value)
| JObject (members : list (bytes * json_value)).

Definition hex_char (n : Z) : byte := byte_of (if n <? 10 then 48 + n else 87 + n).

(** RFC 8259: the quotation mark, the reverse solidus and the control
    characters are escaped. *)
Definition json_char (c : byte) : bytes :=
  let n := byte_val c in
  if (n =? 34) || (n =? 92) then [byte_of 92; c]
  else if n <? 32 then [byte_of 92] ++ B "u00" ++ [hex_char (n / 16); hex_char (n mod 16)]
  else [c].
Definition json_string (text : bytes) : bytes := [byte_of 34] ++ concat (map json_char text) ++ [byte_of 34].

Fixpoint separated (sep : bytes) (texts : list bytes) : bytes :=
  match texts with
  | [] => []
  | [text] => text
  | text :: texts => text ++ sep ++ separated sep texts
  end.

Fixpoint json_text (v : json_value) : bytes :=
  match v with
  | JString text => json_string text
  | JNumber n => to_string n
  | JBool b => if b then B "true" else B "false"
  | JArray elements => B "[" ++ separated (B ",") (map json_text elements) ++ B "]"
  | JObject members =>
      B "{" ++ separated (B ",") (map (λ '(key, v), json_string key ++ B ":" ++ json_text v) members) ++ B "}"
  end.

(** ** The request *)

Definition subscribe_request (symbols : list bytes) (depth : Z) (token : bytes) : json_value :=
  JObject [(B "method", JString (B "subscribe"));
           (B "params", JObject [(B "channel", JString (B "level3")); (B "symbol", JArray (map JString symbols));
                                 (B "depth", JNumber depth); (B "snapshot", JBool true); (B "token", JString token)])].

(** A byte that stands for itself in a JSON string. *)
Definition plain (c : byte) : Prop := 32 <= byte_val c ∧ byte_val c ≠ 34 ∧ byte_val c ≠ 92.

Lemma json_string_plain text : Forall plain text → json_string text = in_quotes text.
Proof.
  intros H. unfold json_string, in_quotes, dq. do 2 f_equal. induction H as [|c text (H1 & H2 & H3) _ IH]; [done|].
  cbn [map concat]. rewrite IH. unfold json_char.
  replace ((byte_val c =? 34) || (byte_val c =? 92)) with false by lia. replace (byte_val c <? 32) with false by lia. done.
Qed.

Lemma splice_symbols_more symbols :
  splice_symbols false symbols = concat (map (λ s, B "," ++ in_quotes s) symbols).
Proof. induction symbols as [|s symbols IH]; cbn [splice_symbols map concat]; [done|]. by rewrite IH, <-(assoc app). Qed.

Lemma separated_cons sep text texts :
  separated sep (text :: texts) = text ++ concat (map (λ t, sep ++ t) texts).
Proof.
  revert text. induction texts as [|t texts IH]; intros text; [cbn; by rewrite app_nil_r|].
  change (separated sep (text :: t :: texts)) with (text ++ sep ++ separated sep (t :: texts)). rewrite IH.
  cbn [map concat]. by rewrite <-(assoc app).
Qed.

Lemma splice_symbols_separated symbols :
  Forall (Forall plain) symbols →
  splice_symbols true symbols = separated (B ",") (map json_text (map JString symbols)).
Proof.
  intros H. assert (map json_text (map JString symbols) = map in_quotes symbols) as ->.
  { rewrite map_map. induction H as [|s symbols Hs _ IH]; [done|]. cbn [map]. rewrite IH. cbn [json_text].
    by rewrite json_string_plain. }
  destruct symbols as [|s symbols]; [done|]. cbn [splice_symbols]. rewrite splice_symbols_more.
  cbn [map]. by rewrite separated_cons, map_map.
Qed.

Lemma valid_symbol_plain symbol : valid_symbol symbol → Forall plain symbol.
Proof.
  intros [_ H]. unfold text_over in H. eapply Forall_impl; [exact H|]. cbv beta. intros c Hc.
  assert (∀ c, c ∈ letters_digits ++ B "_-./" → plain c) as Hall; [|by apply Hall].
  apply Forall_forall. unfold plain. apply (bool_decide_eq_true_1 _). vm_compute. reflexivity.
Qed.

(** C36: for the symbols of a connection the configuration accepted and a token
    without quotation marks, reverse solidi and control characters, the message
    sent to subscribe is exactly the text of the JSON request: a subscription
    of those symbols, at the connection's depth, with that token. *)
Theorem subscribe_message_is_json c token :
  valid_connection c → Forall plain token →
  BuildSubscribeMessage (c_symbols c) (c_depth c) token =
  json_text (subscribe_request (c_symbols c) (c_depth c) token).
Proof.
  intros Hc Htoken. unfold BuildSubscribeMessage, subscribe_request. cbn [json_text map separated].
  rewrite (json_string_plain token Htoken).
  rewrite <-splice_symbols_separated by (eapply Forall_impl; [apply (vc_symbols _ Hc)|apply valid_symbol_plain]).
  generalize (splice_symbols true (c_symbols c)) (to_string (c_depth c)) (in_quotes token). intros a b d.
  unfold in_quotes, dq. by rewrite <-!(assoc app).
Qed.

Definition demo_token : bytes := B "WW91ciBhdXRoZW50aWNhdGlvbg+/=".

Lemma demo_token_plain : Forall plain demo_token.
Proof. unfold plain. apply (bool_decide_eq_true_1 _). vm_compute. reflexivity. Qed.

Lemma subscribe_message_is_json_witness :
  BuildSubscribeMessage [B "BTC/USD"; B "ETH/USD"] 100 demo_token =
  json_text (subscribe_request [B "BTC/USD"; B "ETH/USD"] 100 demo_token).
Proof. exact (subscribe_message_is_json demo_entry demo_token demo_entry_valid demo_token_plain). Defined.

(** The symbol check is what makes this so: spliced in, a symbol with a
    quotation mark would change the request. *)
Example quotation_mark_changes_request :
  let symbol := B "A" ++ [byte_of 34] ++ B "," ++ [byte_of 34] ++ B "B" in
  IsValidSymbol symbol = false ∧
  BuildSubscribeMessage [symbol] 10 [] = json_text (subscribe_request [B "A"; B "B"] 10 []).
Proof. vm_compute. done. Qed.
