(* ===== verification/Capture.v ===== *)
(** * Capture connections and the set of them

    [capture_connection.h], [client_capture.h], [deribit/deribit_capture.cpp],
    [kraken/kraken_capture.cpp] and [capture_set.{h,cpp}]: a client with its
    session behind one control interface, and the connections of a process.
    Also the control plane of the Deribit client ([deribit_fix_client.cpp]),
    whose thread is [FixClient.Run]. *)

From S2P Require Import Prelude Text Feed Ring Journal JournalThread CaptureSession ClientBase FixMessage FixSession FixClient KrakenSigning KrakenRest KrakenClient BookAdapter BookService BookWiring Config ConfigSafety Selection.

Section capture.
Variable zlib_crc32 : Z → bytes → Z.
Context {Q : Type} `{!ReaderWriterQueue Q JournalEvent}.

(** ** The control plane of the Deribit client

    [dr_started]: the thread exists. *)
Record DeribitClient := mkDeribitClient {
  dr_client : FixClient Q;
  dr_started : bool;
  dr_joined : bool;
}.

Definition new_DeribitClient (c : FixClient Q) : DeribitClient := mkDeribitClient c false false.
Definition DeribitStart (d : DeribitClient) : DeribitClient := mkDeribitClient (dr_client d) true (dr_joined d).
Definition DeribitRequestStop (d : DeribitClient) : DeribitClient :=
  mkDeribitClient (FixClient.set_stop_signal (RequestStop (fc_stop_signal (dr_client d))).1 (dr_client d))
    (dr_started d) (dr_joined d).
(** Once the thread has ended, where there is one. *)
Definition DeribitJoin (d : DeribitClient) : DeribitClient :=
  let d := DeribitRequestStop d in
  if dr_joined d then d else mkDeribitClient (dr_client d) (dr_started d) true.

Definition DeribitStop (d : DeribitClient) : DeribitClient := DeribitJoin (DeribitRequestStop d).
Definition destroy_DeribitClient (d : DeribitClient) : DeribitClient :=
  let d := DeribitStop d in
  mkDeribitClient (set_capture (SetFatalHandler None (fc_capture (dr_client d))) (dr_client d)) (dr_started d)
    (dr_joined d).

(** ** What [ClientCapture] asks of a client *)

Class CaptureClient (C : Type) := {
  Client_Start : C → C;
  Client_RequestStop : C → C;
  Client_Join : C → C;
  Client_Fatal : C → bool;
  Client_session : C → CaptureSession Q;
  Client_set_session : CaptureSession Q → C → C;
  Client_Summary : C → bytes;
}.

(** Joining requests the stop, twice is as good as once, and nothing of the
    control plane touches the session or the latch. *)
Class CaptureClientLaws (C : Type) `{!CaptureClient C} := {
  Join_Join : ∀ c : C, Client_Join (Client_Join c) = Client_Join c;
  RequestStop_Join : ∀ c : C, Client_Join (Client_RequestStop c) = Client_Join c;
  RequestStop_Fatal : ∀ c : C, Client_Fatal (Client_RequestStop c) = Client_Fatal c;
  Start_session : ∀ c : C, Client_session (Client_Start c) = Client_session c;
  Join_session : ∀ c : C, Client_session (Client_Join c) = Client_session c;
  set_session_session : ∀ (c : C) s, Client_session (Client_set_session s c) = s;
  set_session_twice : ∀ (c : C) s s', Client_set_session s (Client_set_session s' c) = Client_set_session s c;
  Join_set_session : ∀ (c : C) s, Client_Join (Client_set_session s c) = Client_set_session s (Client_Join c);
}.

Definition DeribitCapture_Summary (d : DeribitClient) : bytes :=
  let c := fc_counters (dr_client d) in
  let session := fc_capture (dr_client d) in
  B " captured " ++ to_string (ct_messages_received c) ++ B " messages (" ++ to_string (ct_snapshots_received c) ++
  B " snapshot(s), " ++ to_string (ct_incrementals_received c) ++ B " incremental(s)) across " ++
  to_string (cs_connect_id session) ++ B " connect(s), " ++ to_string (TotalRecordsWritten session) ++
  B " journal records, " ++ to_string (ct_connection_attempts c) ++ B " connection attempt(s), " ++
  to_string (ct_forced_reconnects c) ++ B " watchdog-forced reconnect(s)".

Definition KrakenCapture_Summary (w : WsClient Q) : bytes :=
  B " captured " ++ to_string (ws_messages_received w) ++ B " messages across " ++
  to_string (cs_connect_id (ws_capture w)) ++ B " connect(s), " ++
  to_string (TotalRecordsWritten (ws_capture w)) ++ B " journal records, " ++
  to_string (ws_forced_reconnects w) ++ B " watchdog-forced reconnect(s)".

#[export] Instance deribit_client : CaptureClient DeribitClient := {|
  Client_Start := DeribitStart;
  Client_RequestStop := DeribitRequestStop;
  Client_Join := DeribitJoin;
  Client_Fatal := λ d, Fatal (dr_client d);
  Client_session := λ d, fc_capture (dr_client d);
  Client_set_session := λ s d, mkDeribitClient (set_capture s (dr_client d)) (dr_started d) (dr_joined d);
  Client_Summary := DeribitCapture_Summary;
|}.
#[export] Instance kraken_client : CaptureClient (WsClient Q) := {|
  Client_Start := WsStart;
  Client_RequestStop := WsRequestStop;
  Client_Join := WsJoin;
  Client_Fatal := ws_Fatal;
  Client_session := ws_capture;
  Client_set_session := ws_set_capture;
  Client_Summary := KrakenCapture_Summary;
|}.

#[export] Instance deribit_client_laws : CaptureClientLaws DeribitClient.
Proof.
  constructor; intros c; try done; destruct c as [[] started joined]; cbn; unfold DeribitJoin, DeribitRequestStop;
    cbn; by destruct joined.
Qed.

#[export] Instance kraken_client_laws : CaptureClientLaws (WsClient Q).
Proof.
  constructor; intros c; try done; destruct c as [? ? ? ? ? [[] ?] [] []]; done.
Qed.

(** ** A connection, whichever exchange it is for *)

Inductive any_client : Type :=
| DeribitCapture (client : DeribitClient)
| KrakenCapture (client : WsClient Q).

#[export] Instance any_capture_client : CaptureClient any_client := {|
  Client_Start := λ c, match c with DeribitCapture d => DeribitCapture (Client_Start d) | KrakenCapture w => KrakenCapture (Client_Start w) end;
  Client_RequestStop := λ c, match c with DeribitCapture d => DeribitCapture (Client_RequestStop d) | KrakenCapture w => KrakenCapture (Client_RequestStop w) end;
  Client_Join := λ c, match c with DeribitCapture d => DeribitCapture (Client_Join d) | KrakenCapture w => KrakenCapture (Client_Join w) end;
  Client_Fatal := λ c, match c with DeribitCapture d => Client_Fatal d | KrakenCapture w => Client_Fatal w end;
  Client_session := λ c, match c with DeribitCapture d => Client_session d | KrakenCapture w => Client_session w end;
  Client_set_session := λ s c, match c with DeribitCapture d => DeribitCapture (Client_set_session s d) | KrakenCapture w => KrakenCapture (Client_set_session s w) end;
  Client_Summary := λ c, match c with DeribitCapture d => Client_Summary d | KrakenCapture w => Client_Summary w end;
|}.
#[export] Instance any_capture_client_laws : CaptureClientLaws any_client.
Proof.
  constructor; intros [d|w]; intros; cbn [Client_Start Client_RequestStop Client_Join Client_Fatal Client_session
    Client_set_session any_capture_client]; rewrite ?Join_Join, ?RequestStop_Join, ?RequestStop_Fatal,
    ?Start_session, ?Join_session, ?set_session_session, ?set_session_twice, ?Join_set_session; done.
Qed.

(** [ClientCapture]: [id_], and the client with its session. *)
Record capture := mkCapture { ca_id : bytes; ca_client : any_client }.

Definition Capture_AddSink (c : capture) : capture :=
  mkCapture (ca_id c) (Client_set_session (AddSink (Client_session (ca_client c))) (ca_client c)).
Definition Capture_Start (c : capture) : capture := mkCapture (ca_id c) (Client_Start (ca_client c)).
Definition Capture_RequestStop (c : capture) : capture := mkCapture (ca_id c) (Client_RequestStop (ca_client c)).
(** [None]: the barrier of [Close] is not reached. *)
Definition Capture_Join (env : close_env) (c : capture) : option capture :=
  let client := Client_Join (ca_client c) in
  session ← Close zlib_crc32 env (Client_session client);
  Some (mkCapture (ca_id c) (Client_set_session session client)).
Definition Capture_Fatal (c : capture) : bool := Client_Fatal (ca_client c).
Definition Capture_Summary (c : capture) : bytes := B "[" ++ ca_id c ++ B "]" ++ Client_Summary (ca_client c).

(** Closing what is closed does nothing. *)
Lemma Close_Close env env' (s s' : CaptureSession Q) :
  Close zlib_crc32 env s = Some s' → Close zlib_crc32 env' s' = Some s'.
Proof.
  unfold Close at 1. set (s0 := match cs_writer s with Some _ => _ | None => _ end).
  assert (cs_writer s0 = None) as Hw by (unfold s0; by destruct (cs_writer s) as [[]|] eqn:?).
  clearbody s0. intros (s1 & H1 & H2)%bind_Some.
  assert (cs_writer s1 = None ∧ (is_Some (cs_journal s1) → cs_journal_open s1 = false)) as [Hw1 Ho1].
  { destruct (cs_journal s0) as [t|] eqn:Hj; [|simplify_eq; split; [done|]; rewrite Hj; by intros []].
    destruct (cs_journal_open s0) eqn:Ho; [|by simplify_eq].
    destruct (JournalThread_Disconnect _ _ t) as [t' r]. apply bind_Some in H1 as (r' & _ & [= <-]).
    split; [|done]. cbn. unfold journal_moved. clear -Hw. generalize (jt_fatal t'). intros l.
    match goal with |- cs_writer (foldl _ ?s _) = None => assert (cs_writer s = None) as Hs by done;
      generalize dependent s end.
    induction l as [|x l IH]; intros s Hs; [done|]. cbn. apply IH. unfold NotifyFatal.
    by destruct (cs_fatal_handler s) as [[]|]. }
  assert (cs_writer s' = None ∧ cs_announced s' = false ∧ cs_journal s' = cs_journal s1 ∧
          cs_journal_open s' = cs_journal_open s1) as (Hw' & Ha' & Hj' & Ho').
  { destruct (cs_announced s1) eqn:Ha; cbn in H2; injection H2 as <-; done. }
  unfold Close. rewrite Hw', Hj', Ho'.
  assert ((match cs_journal s1 with Some t => if cs_journal_open s1 then _ else Some s' | None => Some s' end) =
          Some s') as ->.
  { destruct (cs_journal s1); [|done]. by rewrite Ho1. }
  cbn. by rewrite Ha'.
Qed.

(** The destructor joins again, in vain. *)
Lemma Capture_Join_Join env env' c c' : Capture_Join env c = Some c' → Capture_Join env' c' = Some c'.
Proof.
  unfold Capture_Join. intros (session & Hc & Heq)%bind_Some. apply (inj Some) in Heq. subst c'.
  cbn [ca_client ca_id].
  rewrite Join_set_session, Join_Join, set_session_session, (Close_Close _ env' _ _ Hc).
  cbn [mbind option_bind]. by rewrite set_session_twice.
Qed.

(** ** Building them *)

Definition deribit_session (credential : Credential) : SessionConfig :=
  mkSessionConfig (cr_key credential) (cr_secret credential) kTargetCompId kHeartbeatIntervalSeconds.
Definition deribit_config (connection : Connection) : FixClientConfig :=
  mkFixClientConfig (c_id connection) (hp_host (c_host_port connection)) (hp_port (c_host_port connection))
    (c_symbols connection) (B "ct-md-1") 10000 1000 90000000000 1000 30000.
Definition MakeDeribitCapture (config : FeedHandlerConfig) (connection : Connection) (credential : Credential) :
    capture :=
  mkCapture (c_id connection) (DeribitCapture (new_DeribitClient
    (new_FixClient (deribit_session credential) (new_CaptureSession (session_config config connection))
       (deribit_config connection)))).

Definition kraken_config (connection : Connection) : WsClientConfig :=
  mkWsClientConfig (c_endpoint connection) (c_id connection) (c_symbols connection) (c_depth connection) 20
    30000000000 500 1000 30000.
Definition MakeKrakenCapture (config : FeedHandlerConfig) (connection : Connection) (credential : Credential)
    (rest : RestClient) : capture :=
  mkCapture (c_id connection) (KrakenCapture
    (new_WsClient rest (mkCredentials (cr_key credential) (cr_secret credential))
       (new_CaptureSession (session_config config connection)) (kraken_config connection))).

(** ** The set

    The clients hold a copy of [rest_]: they use its nonces only, and what other
    connections do to those is a step of theirs ([OtherToken]). *)
Record CaptureSet := mkCaptureSet {
  set_rest : option RestClient;
  set_connections : list capture;
  set_entries : list Connection;
}.

Definition new_CaptureSet : CaptureSet := mkCaptureSet None [] [].

(** [file]: the nonce's state file. *)
Definition build_one (file : option state_file) (config : FeedHandlerConfig) (set : CaptureSet)
    (resolved : ResolvedConnection) : CaptureSet :=
  let connection := rc_connection resolved in
  match c_exchange connection with
  | kKraken =>
      let rest := default (new_RestClient kDefaultBaseUrl true file) (set_rest set) in
      mkCaptureSet (Some rest)
        (set_connections set ++ [MakeKrakenCapture config connection (rc_credential resolved) rest])
        (set_entries set ++ [connection])
  | kDeribit =>
      mkCaptureSet (set_rest set)
        (set_connections set ++ [MakeDeribitCapture config connection (rc_credential resolved)])
        (set_entries set ++ [connection])
  end.

Definition CaptureSet_Build (file : option state_file) (config : FeedHandlerConfig)
    (connections : list ResolvedConnection) : expected bytes CaptureSet :=
  Expected (foldl (build_one file config) new_CaptureSet connections).

(** ** The instrument reference *)

Section lookup.
Context {value : Type} `{!OnDemand value}.

Definition describe_pair (symbol : bytes) (found : AssetPair) : bytes :=
  symbol ++ B " is " ++ ap_rest_name found ++ B " tick_size=" ++ ap_tick_size found ++
  B " price_decimals=" ++ to_string (ap_price_decimals found) ++
  B " lot_decimals=" ++ to_string (ap_qty_decimals found).

Definition reference_lines (t : PairTable) (c : Connection) : list (LogLevel * bytes) :=
  map (λ symbol,
    match FindAssetPair symbol t with
    | None => (kWarn, tagged (c_id c) (B "no AssetPairs entry for " ++ symbol ++
                                       B ", continuing without reference data"))
    | Some found => (kInfo, tagged (c_id c) (describe_pair symbol found))
    end) (c_symbols c).

(** The client with its table, and the lines logged. *)
Definition LogInstrumentReference (http : HttpRequest → option HttpResponse) (entries : list Connection)
    (rest : RestClient) : RestClient * list (LogLevel * bytes) :=
  let '(rest, loaded) := LoadAssetPairs (value:=value) http [] rest in
  match loaded with
  | Unexpected e =>
      (rest, [(kWarn, B "AssetPairs lookup failed, continuing without reference data: " ++ e)])
  | Expected n =>
      (rest, (kInfo, B "loaded " ++ to_string n ++ B " asset pairs") ::
             concat (map (reference_lines (rest_table rest))
                       (filter (λ c, c_exchange c = kKraken) entries)))
  end.
End lookup.

(** ** What is built *)

Definition made (config : FeedHandlerConfig) (file : option state_file) (r : ResolvedConnection) : capture :=
  match c_exchange (rc_connection r) with
  | kKraken => MakeKrakenCapture config (rc_connection r) (rc_credential r) (new_RestClient kDefaultBaseUrl true file)
  | kDeribit => MakeDeribitCapture config (rc_connection r) (rc_credential r)
  end.

(** One connection per entry, in order, each with its own credential; the
    Kraken connections have one REST client, made only if there is one of
    them. *)
Lemma Build_spec file config rs :
  CaptureSet_Build file config rs = Expected (mkCaptureSet
    (if decide (Exists (λ r, c_exchange (rc_connection r) = kKraken) rs)
     then Some (new_RestClient kDefaultBaseUrl true file) else None)
    (map (made config file) rs) (map rc_connection rs)).
Proof.
  unfold CaptureSet_Build. f_equal. induction rs as [|r rs IH] using rev_ind; [done|].
  rewrite foldl_app, !map_app, IH. cbn [foldl]. unfold build_one.
  cbn [map set_rest set_connections set_entries]. set (rest := new_RestClient _ _ _).
  assert (∀ P `{!Decision P}, default rest (if decide P then Some rest else None) = rest) as Hrest
    by (intros P ?; by destruct (decide P)).
  destruct (c_exchange (rc_connection r)) eqn:Hx.
  - rewrite Hrest. rewrite (decide_True (P:=Exists _ (rs ++ [r]))) by (apply Exists_app; right; by constructor).
    unfold made. rewrite Hx. done.
  - assert (¬ Exists (λ r, c_exchange (rc_connection r) = kKraken) [r]) as Hn.
    { intros [H|H]%Exists_cons; [congruence|by inversion H]. }
    f_equal; [|unfold made; rewrite Hx; done].
    apply decide_ext. rewrite Exists_app. naive_solver.
Qed.
End capture.
