(* ===== verification/Process.v ===== *)
(** * The capture process

    [feed_handler_main.cpp], [runner.{h,cpp}] and [CaptureSet::StartAll]: from
    the command line to the exit code. Between any two steps of the main thread
    the connections' threads, the journal threads and the book thread do what
    they like; what they did is an argument ([world]). *)

From S2P Require Import Prelude Text Scale KrakenWire Feed Ring Journal JournalThread CaptureSession ClientBase FixClient KrakenSigning KrakenRest KrakenClient BookAdapter BookService BookWiring Config ConfigProofs ConfigSafety Selection SelectionProofs Capture.
Open Scope io_scope.

(** ** Startup *)

Section startup.
Variable toml_parse : bytes → bytes → expected parse_error toml_table.
Variable read_file : bytes → option (bytes * bool).
Variable env : bytes → option bytes.

(** The part of [main] before anything is built. *)
Definition startup (argv : list bytes) : expected bytes (FeedHandlerConfig * list ResolvedConnection) :=
  let? cl := ParseCommandLine argv in
  let? config := LoadConfigFile toml_parse read_file (cl_config_path cl) in
  let? selected := SelectConnections config cl in
  let? _ := CheckLiveBookConfig config selected in
  let? resolved := ResolveCredentials selected env in
  Expected (config, resolved).
End startup.

(** ** The running process *)

Definition kExitCleanShutdown : Z := 0.
Definition kExitCaptureFailed : Z := 1.
Definition kExitStartupError : Z := 2.

(** The calls the main thread makes of the connections and the books, once they
    have returned; connections by their place, [CHook] the callback of
    [StartAll]. *)
Inductive control : Type :=
| CHook (i : nat)
| CStart (i : nat)
| CLookup
| CBooksStart
| CRequestStop (i : nat)
| CJoin (i : nat)
| CBooksStop.

Inductive main_deed : Type :=
| MLog (level : LogLevel) (line : bytes)
| MControl (c : control).

Section process.
Variable zlib_crc32 : Z → bytes → Z.
Context {Q : Type} `{!ReaderWriterQueue Q JournalEvent}.
Context {json : Type} `{!Json json}.
Context {QB : Type} `{!ReaderWriterQueue QB RingEntry}.
Context {value : Type} `{!OnDemand value}.
Variable llround_unspecified : double → Z.
Variable hash : bytes → Z.
Variable asserts : bool.
Variable now : nat → Z.
Variable toml_parse : bytes → bytes → expected parse_error toml_table.
Variable read_file : bytes → option (bytes * bool).
Variable env : bytes → option bytes.
Variable file : option state_file.

Abbreviation books := (BookService (Q:=QB)).

(** What the main thread finds: what the threads of each connection and of the
    books did meanwhile, the answer to the instrument lookup, [should_stop],
    whether the threads of the connection being joined have ended, and the
    disk under its [Close]. *)
Record main_moment := mkMainMoment {
  mm_life : nat → any_client (Q:=Q) → any_client (Q:=Q);
  mm_books : books → books;
  mm_http : HttpRequest → option HttpResponse;
  mm_stop : bool;
  mm_ended : bool;
  mm_close : close_env;
}.
Variable world : nat → main_moment.

Record process := mkProcess {
  pr_set : CaptureSet (Q:=Q);
  pr_books : books;
  pr_tick : nat;
  pr_trace : list main_deed;
}.

Definition connections (s : process) : list (capture (Q:=Q)) := set_connections (pr_set s).
Definition entries (s : process) : list Connection := set_entries (pr_set s).

Definition with_connections (f : list capture → list capture) (s : process) : process :=
  mkProcess (mkCaptureSet (set_rest (pr_set s)) (f (connections s)) (entries s)) (pr_books s) (pr_tick s)
    (pr_trace s).
Definition with_rest (r : option RestClient) (s : process) : process :=
  mkProcess (mkCaptureSet r (connections s) (entries s)) (pr_books s) (pr_tick s) (pr_trace s).
Definition with_books (sv : books) (s : process) : process :=
  mkProcess (pr_set s) sv (pr_tick s) (pr_trace s).
Definition with_set (set : CaptureSet) (s : process) : process :=
  mkProcess set (pr_books s) (pr_tick s) (pr_trace s).
Definition main_did (ds : list main_deed) (s : process) : process :=
  mkProcess (pr_set s) (pr_books s) (pr_tick s) (pr_trace s ++ ds).

Definition live (m : main_moment) (s : process) : process :=
  with_books (mm_books m (pr_books s))
    (with_connections (imap (λ i c, mkCapture (ca_id c) (mm_life m i (ca_client c)))) s).

Definition main_ask : io process main_moment := λ s,
  let m := world (pr_tick s) in
  let s := live m s in
  (mkProcess (pr_set s) (pr_books s) (S (pr_tick s)) (pr_trace s), Returned m).

Definition main_log (level : LogLevel) (line : bytes) : io process unit := io_update (main_did [MLog level line]).
Definition main_control (c : control) : io process unit := io_update (main_did [MControl c]).

Fixpoint io_each {S} (f : nat → io S unit) (indices : list nat) : io S unit :=
  match indices with
  | [] => io_ret tt
  | i :: indices => do* f i ;; io_each f indices
  end.

(** *** [StartAll] *)

(** [before_start], when there is one. It does not throw and does nothing
    undefined ([hook_defined]). *)
Definition run_hook (config : FeedHandlerConfig) (kraken : bool) (i : nat) (entry : Connection) : io process unit :=
  match LiveBooksHook asserts config with
  | None => io_ret tt
  | Some hook =>
      let* r := io_gets (λ s, hook entry (if kraken then rest_table <$> set_rest (pr_set s) else None) (pr_books s)) in
      do* io_update (with_books r.1) ;;
      match r.2 with
      | Done (BooksOn _) =>
          do* io_update (with_connections (alter Capture_AddSink i)) ;;
          do* main_log kInfo (tagged (c_id entry) (B "order books on")) ;;
          main_control (CHook i)
      | Done (BooksOff e) =>
          do* main_log kError (tagged (c_id entry)
            (B "order books off for this connection, capture continues without them: " ++ e)) ;;
          main_control (CHook i)
      | Throws _ | Undef _ => io_raise
      end
  end.

Definition start_one (config : FeedHandlerConfig) (kraken : bool) (i : nat) : io process unit :=
  do* main_ask ;;
  let* entry := io_gets (λ s, entries s !! i) in
  match entry with
  | None => io_ret tt
  | Some entry =>
      if negb (eqb (bool_decide (c_exchange entry = kKraken)) kraken) then io_ret tt
      else
        do* run_hook config kraken i entry ;;
        do* io_update (with_connections (alter Capture_Start i)) ;;
        main_control (CStart i)
  end.

Definition indices (s : process) : list nat := seq 0 (length (connections s)).

Definition look_up : io process unit :=
  let* m := main_ask in
  let* rest := io_gets (λ s, set_rest (pr_set s)) in
  match rest with
  | None => io_ret tt
  | Some rest =>
      let* entries := io_gets entries in
      let '(rest, lines) := LogInstrumentReference (value:=value) (mm_http m) entries rest in
      do* io_update (with_rest (Some rest)) ;;
      do* io_update (main_did (map (λ l, MLog l.1 l.2) lines)) ;;
      main_control CLookup
  end.

Definition StartAll (config : FeedHandlerConfig) : io process unit :=
  let* all := io_gets indices in
  do* io_each (start_one config false) all ;;
  do* look_up ;;
  io_each (start_one config true) all.

(** *** [Run] *)

(** [HandleSignal]; [None]: the process exits at once, with
    [kExitAfterSecondSignal]. *)
Definition kExitAfterSecondSignal : Z := 130.
Definition HandleSignal (signals_received : Z) : option Z :=
  if negb (signals_received =? 0) then None else Some 1.
Definition ShutdownRequested (signals_received : Z) : bool := negb (signals_received =? 0).

(** The polls, at most [fuel] of them; the id of the connection that failed, or
    nothing. *)
Fixpoint poll_loop (fuel : nat) : io process bytes :=
  match fuel with
  | O => io_wait
  | S fuel =>
      let* m := main_ask in
      let* failed := io_gets (λ s, find Capture_Fatal (connections s)) in
      match failed with
      | Some c =>
          do* main_log kError (B "[" ++ ca_id c ++ B "] capture failed, stopping every connection") ;;
          io_ret (ca_id c)
      | None =>
          if mm_stop m then do* main_log kInfo (B "shutdown requested") ;; io_ret []
          else poll_loop fuel
      end
  end.

Definition request_stop (i : nat) : io process unit :=
  do* main_ask ;;
  do* io_update (with_connections (alter Capture_RequestStop i)) ;;
  main_control (CRequestStop i).

Definition join_one (i : nat) : io process unit :=
  let* m := main_ask in
  let* c := io_gets (λ s, connections s !! i) in
  match c with
  | None => io_ret tt
  | Some c =>
      if negb (mm_ended m) then io_wait
      else
        match Capture_Join zlib_crc32 (mm_close m) c with
        | None => io_wait
        | Some c =>
            do* io_update (with_connections (<[i := c]>)) ;;
            main_control (CJoin i)
        end
  end.

Definition wind_down : io process unit :=
  let* all := io_gets indices in
  do* io_each request_stop all ;;
  io_each join_one all.

(** *** [main] *)

Definition start_books : io process unit :=
  do* main_ask ;;
  do* io_update (λ s, with_books (BookService.Start (pr_books s)) s) ;;
  main_control CBooksStart.

Definition stop_books (fuel : nat) : io process unit :=
  do* main_ask ;;
  let* r := io_gets (λ s, BookService.Stop llround_unspecified hash asserts now fuel (pr_books s)) in
  do* io_update (with_books r.1) ;;
  match r.2 with
  | Done true => main_control CBooksStop
  | Done false => io_wait
  | Throws _ | Undef _ => io_raise
  end.

Definition bring_up (config : FeedHandlerConfig) : io process unit := do* StartAll config ;; start_books.

Definition run_capture (fuel : nat) (config : FeedHandlerConfig) : io process Z :=
  do* bring_up config ;;
  let* fatal_id := poll_loop fuel in
  do* wind_down ;;
  do* stop_books fuel ;;
  do* main_ask ;;
  do* io_update (λ s, main_did (map (λ c, MLog kInfo (Capture_Summary c)) (connections s)) s) ;;
  io_ret (if decide (fatal_id = []) then kExitCleanShutdown else kExitCaptureFailed).

Definition main (fuel : nat) (argv : list bytes) : io process Z :=
  match startup toml_parse read_file env argv with
  | Unexpected e => do* main_log kError e ;; io_ret kExitStartupError
  | Expected (config, resolved) =>
      match CaptureSet_Build file config resolved with
      | Unexpected e => do* main_log kError e ;; io_ret kExitStartupError
      | Expected set =>
          do* io_update (with_set set) ;;
          run_capture fuel config
      end
  end.

(** [BookService::Config{}]. *)
Definition new_process : process :=
  mkProcess new_CaptureSet (new_BookService (Z.to_nat (2 ^ 16)) false) 0 [].
End process.
