(* ===== verification/ProcessProofs.v ===== *)
(** * What the capture process promises

    It starts exactly when everything it needs is there, and what it says then
    does not depend on a secret; once started, the calls on its connections and
    books are made in one order, each once, and the exit code tells how the run
    ended. *)

From S2P Require Import Prelude Text Scale KrakenWire Feed Ring Journal JournalThread CaptureSession ClientBase FixClient KrakenSigning KrakenRest KrakenClient BookAdapter BookService BookWiring Config ConfigProofs ConfigSafety Selection SelectionProofs KrakenRestProofs AdapterReady JournalCrash Capture Process.

(** ** Startup *)

Lemma CheckLiveBookConfig_iff config selected :
  CheckLiveBookConfig config selected = Expected tt ↔
  (fhc_order_books config = true →
   Forall (λ c, c_exchange c = kDeribit → is_Some (c_price_decimals c) ∧ is_Some (c_quantity_decimals c)) selected).
Proof.
  unfold CheckLiveBookConfig. destruct (fhc_order_books config); cbn [negb]; [|naive_solver].
  rewrite check_entries_spec. assert (∀ P : Prop, (true = true → P) ↔ P) as -> by naive_solver.
  apply Forall_iff. intros c. unfold decimals_of. split.
  - intros H Hx. destruct (H Hx None) as (p & q & Hpq). rewrite Hx in Hpq. destruct Hpq. by eauto.
  - intros H Hx rest. rewrite Hx. destruct (H Hx) as [[p Hp] [q Hq]]. by exists p, q.
Qed.

Lemma missing_names_nil env cs :
  missing_names env cs = [] ↔
  Forall (λ c, ¬ lacking env (c_api_key_env c) ∧ ¬ lacking env (c_api_secret_env c)) cs.
Proof.
  unfold missing_names. induction cs as [|c cs IH]; [by split|]. cbn [fmap list_fmap mjoin list_join].
  rewrite app_nil, IH, Forall_cons. apply and_iff_compat_r. unfold missing_of.
  rewrite !filter_cons. repeat case_decide; cbn; naive_solver.
Qed.

Lemma ResolveCredentials_iff cs env resolved :
  ResolveCredentials cs env = Expected resolved ↔
  Forall (λ c, ¬ lacking env (c_api_key_env c) ∧ ¬ lacking env (c_api_secret_env c)) cs ∧
  resolved = resolved_with env <$> cs.
Proof.
  rewrite <-missing_names_nil, (proj1 (ResolveCredentials_spec cs env env)).
  destruct (missing_names env cs); naive_solver.
Qed.

Lemma expected_bind_iff {E A C} (r : expected E A) (k : A → expected E C) b :
  expected_bind r k = Expected b ↔ ∃ a, r = Expected a ∧ k a = Expected b.
Proof. destruct r as [a|e]; cbn; naive_solver. Qed.

Section startup.
Variable toml_parse : bytes → bytes → expected parse_error toml_table.
Variable read_file : bytes → option (bytes * bool).

Abbreviation startup := (startup toml_parse read_file).

Lemma startup_iff env argv config resolved :
  startup env argv = Expected (config, resolved) ↔
  ∃ cl, ParseCommandLine argv = Expected cl ∧
    LoadConfigFile toml_parse read_file (cl_config_path cl) = Expected config ∧
    Forall (λ id, ∃ c, c ∈ fhc_connections config ∧ c_id c = id) (cl_only_ids cl) ∧
    let selected := filter (admitted cl) (fhc_connections config) in
    selected ≠ [] ∧
    (fhc_order_books config = true →
     Forall (λ c, c_exchange c = kDeribit → is_Some (c_price_decimals c) ∧ is_Some (c_quantity_decimals c))
       selected) ∧
    Forall (λ c, ¬ lacking env (c_api_key_env c) ∧ ¬ lacking env (c_api_secret_env c)) selected ∧
    resolved = resolved_with env <$> selected.
Proof.
  unfold Process.startup. rewrite expected_bind_iff. apply exist_proper. intros cl.
    apply and_iff_compat_l. rewrite expected_bind_iff. split.
    + intros (config' & Hload & H). rewrite expected_bind_iff in H. destruct H as (selected & Hsel & H).
      rewrite expected_bind_iff in H. destruct H as ([] & Hbooks & H). rewrite expected_bind_iff in H.
      destruct H as (resolved' & Hres & [= <- <-]). apply SelectConnections_spec in Hsel as (Hids & -> & Hne).
      pose proof (proj1 (CheckLiveBookConfig_iff _ _) Hbooks) as Hb. apply ResolveCredentials_iff in Hres as [Hl ->]. by split_and!.
    + intros (Hload & Hids & Hne & Hbooks & Hl & ->). exists config. split; [done|].
      rewrite (proj2 (SelectConnections_spec config cl _) (conj Hids (conj eq_refl Hne))). cbn [expected_bind].
      rewrite (proj2 (CheckLiveBookConfig_iff _ _) Hbooks). cbn [expected_bind].
      by rewrite (proj2 (ResolveCredentials_iff _ _ _) (conj Hl eq_refl)).
Qed.

(** C35: the process starts exactly when the command line is well formed, the
    file holds a configuration, every id asked for is one of its connections,
    some connection passes every filter, the books asked for can be built and
    no variable is missing; it then opens exactly the connections that pass, in
    file order, each with its two secrets. And with other secrets it starts
    too, or refuses with the very same error. *)
Theorem startup_spec env env' argv :
  (∀ config resolved,
    startup env argv = Expected (config, resolved) ↔
    ∃ cl, ParseCommandLine argv = Expected cl ∧
      LoadConfigFile toml_parse read_file (cl_config_path cl) = Expected config ∧
      Forall (λ id, ∃ c, c ∈ fhc_connections config ∧ c_id c = id) (cl_only_ids cl) ∧
      let selected := filter (admitted cl) (fhc_connections config) in
      selected ≠ [] ∧
      (fhc_order_books config = true →
       Forall (λ c, c_exchange c = kDeribit → is_Some (c_price_decimals c) ∧ is_Some (c_quantity_decimals c))
         selected) ∧
      Forall (λ c, ¬ lacking env (c_api_key_env c) ∧ ¬ lacking env (c_api_secret_env c)) selected ∧
      resolved = resolved_with env <$> selected) ∧
  ((∀ name, lacking env name ↔ lacking env' name) →
   match startup env argv, startup env' argv with
   | Expected (config, resolved), Expected (config', resolved') =>
       config = config' ∧ map rc_connection resolved = map rc_connection resolved'
   | Unexpected e, Unexpected e' => e = e'
   | _, _ => False
   end).
Proof.
  split; [apply startup_iff|]. unfold Process.startup.
  intros Henv. destruct (ParseCommandLine argv) as [cl|e]; [|done]. cbn [expected_bind].
    destruct (LoadConfigFile _ _ _) as [config|e]; [|done]. cbn [expected_bind].
    destruct (SelectConnections config cl) as [selected|e]; [|done]. cbn [expected_bind].
    destruct (CheckLiveBookConfig config selected) as [[]|e]; [|done]. cbn [expected_bind].
    rewrite (proj1 (ResolveCredentials_spec selected env env)), (proj1 (ResolveCredentials_spec selected env' env')).
    rewrite (proj2 (ResolveCredentials_spec selected env env') Henv).
    destruct (missing_names env selected); [|done]. cbn. split; [done|].
    change (map rc_connection (map (resolved_with env) selected) = map rc_connection (map (resolved_with env') selected)).
    by rewrite !map_map.
Qed.
End startup.

(** ** The order of the calls *)

Definition controls (trace : list main_deed) : list control :=
  omap (λ d, match d with MControl c => Some c | MLog _ _ => None end) trace.

Definition is_kraken (e : Connection) : bool := bool_decide (c_exchange e = kKraken).

(** What [StartAll] does about the [i]-th entry in one of its two passes. *)
Definition start_calls (config : FeedHandlerConfig) (kraken : bool) (i : nat) (entry : option Connection) :
    list control :=
  match entry with
  | Some e => if eqb (is_kraken e) kraken
              then (if fhc_order_books config then [CHook i] else []) ++ [CStart i] else []
  | None => []
  end.
Definition starts (config : FeedHandlerConfig) (kraken : bool) (es : list Connection) : list control :=
  concat (map (λ i, start_calls config kraken i (es !! i)) (seq 0 (length es))).

(** The Deribit connections, the lookup, the Kraken connections, each after its
    hook; the books; every stop request; every join; the books. *)
Definition plan (config : FeedHandlerConfig) (es : list Connection) : list control :=
  starts config false es ++ (if existsb is_kraken es then [CLookup] else []) ++ starts config true es ++
  [CBooksStart] ++ map CRequestStop (seq 0 (length es)) ++ map CJoin (seq 0 (length es)) ++ [CBooksStop].

Lemma controls_app l l' : controls (l ++ l') = controls l ++ controls l'.
Proof. apply omap_app. Qed.
Lemma controls_logs {A} (f : A → LogLevel) (g : A → bytes) l : controls (map (λ x, MLog (f x) (g x)) l) = [].
Proof. by induction l. Qed.

Section process.
Variable zlib_crc32 : Z → bytes → Z.
Context {Q : Type} `{!ReaderWriterQueue Q JournalEvent}.
Context {json : Type} `{!Json json}.
Context {QB : Type} `{!ReaderWriterQueue QB RingEntry}.
Context {value : Type} `{!OnDemand value}.
Variable llround_unspecified : double → Z.
Variable hash : bytes → Z.
Variable asserts : bool.
Variable now : nat → Z.
Variable world : nat → main_moment (Q:=Q) (QB:=QB).

Abbreviation process := (process (Q:=Q) (QB:=QB)).
Abbreviation ask := (main_ask world).
Abbreviation stop_service := (BookService.Stop llround_unspecified hash asserts now).

Section planned.
Variable config : FeedHandlerConfig.
Variable es : list Connection.
Hypothesis entries_valid : Forall valid_connection es.

(** [l] was called so far; the set is the one that was built. *)
Record called (l : list control) (s : process) : Prop := {
  cd_controls : controls (pr_trace s) = l;
  cd_entries : entries s = es;
  cd_ids : map ca_id (connections s) = map c_id es;
  cd_rest : is_Some (set_rest (pr_set s)) ↔ existsb is_kraken es = true;
}.

Lemma called_length l s : called l s → length (connections s) = length es.
Proof. intros H. rewrite <-(length_map ca_id), (cd_ids _ _ H). apply length_map. Qed.

Lemma called_ask l s : called l s → returns ask s (λ m s', called l s' ∧ m = world (pred (pr_tick s'))).
Proof.
  intros [H1 H2 H3 H4]. unfold returns, triple, main_ask. split; [|done]. constructor; try done. cbn.
  rewrite <-H3. generalize (connections s). intros cs. clear.
  apply list_eq. intros i. by rewrite !list_lookup_fmap, list_lookup_imap; destruct (cs !! i).
Qed.
Lemma called_log l level line s :
  called l s → returns (main_log level line) s (λ _ s', called l s' ∧ pr_tick s' = pr_tick s ∧ connections s' = connections s).
Proof.
  intros [H1 H2 H3 H4]. split; [|done]. constructor; try done. cbn. by rewrite controls_app, H1, app_nil_r.
Qed.
Lemma called_control l l' c s : l' = l ++ [c] → called l s → returns (main_control c) s (λ _, called l').
Proof. intros -> [H1 H2 H3 H4]. constructor; try done. cbn. by rewrite controls_app, H1. Qed.

(** A change of one connection that keeps its id. *)
Lemma called_alter l f i s :
  (∀ c, ca_id (f c) = ca_id c) → called l s → called l (with_connections (alter f i) s).
Proof.
  intros Hf [H1 H2 H3 H4]. constructor; try done. rewrite <-H3.
  change (map ca_id (alter f i (connections s)) = map ca_id (connections s)).
  generalize (connections s). intros cs. clear -Hf. revert i.
  induction cs as [|c cs IH]; intros [|i]; cbn; [done|done|by rewrite Hf|f_equal; apply IH].
Qed.
Lemma called_books l sv s : called l s → called l (with_books sv s).
Proof. intros []. by constructor. Qed.

Lemma triple_ask_called {C} (k : main_moment → io process C) l s Q' R :
  called l s → (∀ s', called l s' → triple (k (world (pred (pr_tick s')))) s' Q' R) →
  triple (io_bind ask k) s Q' R.
Proof.
  intros Hs Hk. apply triple_bind. eapply triple_mono; [by apply called_ask| |done].
  cbv beta. intros m s' [Hs' ->]. by apply Hk.
Qed.

(** A pass over the indices, each adding its calls. *)
Lemma each_called f (calls : nat → list control) (R : nat → process → Prop) todo l s :
  (∀ i l s, i ∈ todo → called l s →
     triple (f i) s (λ _, called (l ++ calls i)) (λ s', called l s' ∧ R i s')) →
  called l s →
  triple (io_each f todo) s (λ _, called (l ++ concat (map calls todo)))
    (λ s', ∃ before i after, todo = before ++ i :: after ∧ called (l ++ concat (map calls before)) s' ∧ R i s').
Proof.
  revert l s. induction todo as [|i todo IH]; intros l s Hf Hs; cbn [io_each map concat].
  { apply triple_ret. by rewrite app_nil_r. }
  apply triple_bind. eapply triple_mono; [apply Hf; [set_solver|exact Hs]| |].
  - cbv beta. intros [] s1 Hs1. eapply triple_mono; [apply IH; [|exact Hs1]| |].
    + intros j l' s' Hj. apply Hf. set_solver.
    + cbv beta. intros _ s' H. by rewrite (assoc app).
    + cbv beta. intros s' (before & j & after & -> & H & HR). exists (i :: before), j, after.
      cbn [map concat]. by rewrite (assoc app).
  - cbv beta. intros s' [H HR]. exists [], i, todo. cbn. by rewrite app_nil_r.
Qed.

(** *** Starting *)

(** The hook of an accepted entry comes to a result. *)
Lemma hook_defined e rest (sv : BookService) :
  valid_connection e → ∃ sv' r, books_hook (Q:=QB) asserts e rest sv = (sv', Done r).
Proof.
  intros Hv. unfold books_hook, exec_bind, exec_lift.
  destruct (ResolveBookSettings_cases asserts e rest Hv) as [(p & q & sc & _ & _ & _ & _ & ->)|[_ [err ->]]].
  - destruct (Service_AddConnection _ _ sv) as [sv' ring]. by eexists _, _.
  - by eexists _, _.
Qed.

Lemma run_hook_called kraken i e l s :
  valid_connection e → called l s →
  returns (run_hook asserts config kraken i e) s
    (λ _, called (l ++ if fhc_order_books config then [CHook i] else [])).
Proof.
  intros Hv Hs. unfold run_hook, LiveBooksHook. destruct (fhc_order_books config); cbn [negb].
  2: { apply triple_ret. by rewrite app_nil_r. }
  apply triple_bind, triple_gets.
  destruct (hook_defined e (if kraken then rest_table <$> set_rest (pr_set s) else None) (pr_books s) Hv)
    as (sv & r & ->). cbn [fst snd].
  apply triple_bind, triple_update. apply (called_books _ sv) in Hs.
  destruct r as [ring|err].
  - apply triple_bind, triple_update. apply triple_bind.
    eapply triple_mono; [by apply called_log, called_alter| |done]. cbv beta. intros _ s1 [Hs1 _].
    by apply (called_control l).
  - apply triple_bind. eapply triple_mono; [by apply called_log| |done]. cbv beta. intros _ s1 [Hs1 _].
    by apply (called_control l).
Qed.

Lemma start_one_called kraken i l s :
  called l s →
  returns (start_one asserts world config kraken i) s (λ _, called (l ++ start_calls config kraken i (es !! i))).
Proof.
  intros Hs. unfold start_one. eapply triple_ask_called; [exact Hs|]. intros s1 Hs1.
  apply triple_bind, triple_gets. rewrite (cd_entries _ _ Hs1). unfold start_calls, is_kraken.
  destruct (es !! i) as [e|] eqn:He; [|apply triple_ret; cbv beta; by rewrite app_nil_r].
  destruct (eqb _ kraken); cbn [negb]; [|apply triple_ret; cbv beta; by rewrite app_nil_r].
  pose proof (Forall_lookup_1 _ _ _ _ entries_valid He) as Hv.
  apply triple_bind. eapply triple_mono; [by apply run_hook_called| |done]. cbv beta. intros _ s2 Hs2.
  apply triple_bind, triple_update. eapply called_control; [by rewrite (assoc app)|]. by apply called_alter.
Qed.

Lemma look_up_called l s :
  called l s →
  returns (look_up (value:=value) world) s (λ _, called (l ++ if existsb is_kraken es then [CLookup] else [])).
Proof.
  intros Hs. unfold look_up. eapply triple_ask_called; [exact Hs|]. intros s1 Hs1.
  apply triple_bind, triple_gets. pose proof (cd_rest _ _ Hs1) as Hrest.
  destruct (set_rest (pr_set s1)) as [rest|].
  - rewrite (proj1 Hrest) by eauto. apply triple_bind, triple_gets.
    destruct (LogInstrumentReference _ _ rest) as [rest' lines].
    apply triple_bind, triple_update, triple_bind, triple_update. eapply called_control; [done|].
    destruct Hs1 as [H1 H2 H3 H4]. constructor; try done.
    + cbn. by rewrite controls_app, controls_logs, app_nil_r.
    + cbn. rewrite (proj1 Hrest) by eauto. split; [done|by eauto].
  - destruct (existsb is_kraken es); [by destruct (proj2 Hrest eq_refl)|]. apply triple_ret. by rewrite app_nil_r.
Qed.

Definition brought_up : list control :=
  starts config false es ++ (if existsb is_kraken es then [CLookup] else []) ++ starts config true es ++ [CBooksStart].

Lemma bring_up_called s :
  called [] s → returns (bring_up (value:=value) asserts world config) s (λ _, called brought_up).
Proof.
  intros Hs. unfold bring_up, StartAll. apply triple_bind, triple_bind, triple_gets.
  unfold indices. rewrite (called_length _ _ Hs).
  assert (∀ kraken l s, called l s →
    returns (io_each (start_one asserts world config kraken) (seq 0 (length es))) s
      (λ _, called (l ++ starts config kraken es))) as Hpass.
  { intros kraken l s' Hs'. eapply triple_mono; [apply (each_called _ (λ i, start_calls config kraken i (es !! i))
      (λ _ _, False)); [|exact Hs']|done|].
    - intros i l' s'' _ H. eapply triple_mono; [by apply start_one_called|done|done].
    - by intros s'' (? & ? & ? & ? & ? & []). }
  apply triple_bind. eapply triple_mono; [by apply Hpass| |done]. cbv beta. intros _ s1 Hs1.
  apply triple_bind. eapply triple_mono; [by apply look_up_called| |done]. cbv beta. intros _ s2 Hs2.
  eapply triple_mono; [by apply Hpass| |done]. cbv beta. intros _ s3 Hs3. clear Hs Hs1 Hs2.
  unfold start_books. eapply triple_ask_called; [exact Hs3|]. intros s4 Hs4.
  apply triple_bind, triple_update. eapply called_control; [unfold brought_up; by rewrite !(assoc app)|].
  by apply (called_books _ (BookService.Start (pr_books s4))).
Qed.

(** *** Polling *)

(** What [Run] found when it stopped polling. *)
Definition verdict (id : bytes) (s : process) : Prop :=
  match find Capture_Fatal (connections s) with
  | Some c => id = ca_id c ∧ id ≠ []
  | None => id = [] ∧ mm_stop (world (pred (pr_tick s))) = true
  end.

Lemma ids_not_empty l s c : called l s → c ∈ connections s → ca_id c ≠ [].
Proof.
  intros Hs Hc Hid. assert ([] ∈ map ca_id (connections s)) as Hin by (rewrite <-Hid; by apply list_elem_of_fmap_2).
  rewrite (cd_ids _ _ Hs) in Hin. apply list_elem_of_fmap in Hin as (e & He & Hin).
  rewrite Forall_forall in entries_valid. specialize (entries_valid e Hin).
  pose proof (vc_id _ entries_valid) as Hv. rewrite <-He in Hv. unfold valid_id in Hv. cbn in Hv. lia.
Qed.

Lemma poll_called fuel l s :
  called l s →
  triple (poll_loop world fuel) s (λ id s', called l s' ∧ verdict id s')
    (λ s', called l s' ∧ (fuel = O ∨ find Capture_Fatal (connections s') = None ∧
                                     mm_stop (world (pred (pr_tick s'))) = false)).
Proof.
  assert (∀ fuel l s, called l s → triple (poll_loop world fuel) s (λ id s', called l s' ∧ verdict id s')
    (λ s', called l s' ∧ (fuel = O ∧ s' = s ∨ find Capture_Fatal (connections s') = None ∧
                                     mm_stop (world (pred (pr_tick s'))) = false))) as H.
  { clear s l fuel. intros fuel. induction fuel as [|fuel IH]; intros l s Hs; [apply triple_wait; by auto|].
    cbn [poll_loop]. eapply triple_ask_called; [exact Hs|]. intros s1 Hs1. apply triple_bind, triple_gets.
    destruct (find _ _) as [c|] eqn:Hf.
    - apply triple_bind. eapply triple_mono; [by apply called_log| |done]. cbv beta. intros _ s2 (Hs2 & _ & Hc).
      apply triple_ret. split; [done|]. unfold verdict. rewrite Hc, Hf. split; [done|].
      eapply (ids_not_empty _ _ _ Hs1), list_elem_of_In, find_some, Hf.
    - destruct (mm_stop _) eqn:Hstop.
      + apply triple_bind. eapply triple_mono; [by apply called_log| |done]. cbv beta. intros _ s2 (Hs2 & Ht & Hc).
        apply triple_ret. split; [done|]. unfold verdict. by rewrite Hc, Hf, Ht.
      + eapply triple_mono; [by apply IH|done|]. cbv beta. intros s2 [Hs2 [[_ ->]|H]]; by auto. }
  intros Hs. eapply triple_mono; [by apply H|done|]. cbv beta. intros s' [H1 [[H2 _]|H2]]; by auto.
Qed.

(** *** Winding down *)

Lemma request_called i l s : called l s → returns (request_stop world i) s (λ _, called (l ++ [CRequestStop i])).
Proof.
  intros Hs. unfold request_stop. eapply triple_ask_called; [exact Hs|]. intros s1 Hs1.
  apply triple_bind, triple_update. eapply called_control; [done|]. by apply called_alter.
Qed.

(** Why the join of the [i]-th connection has not returned. *)
Definition join_blocked (i : nat) (s : process) : Prop :=
  mm_ended (world (pred (pr_tick s))) = false ∨
  ∃ c, connections s !! i = Some c ∧ Capture_Join zlib_crc32 (mm_close (world (pred (pr_tick s)))) c = None.

Lemma join_called i l s :
  (i < length es)%nat → called l s →
  triple (join_one zlib_crc32 world i) s (λ _, called (l ++ [CJoin i])) (λ s', called l s' ∧ join_blocked i s').
Proof.
  intros Hi Hs. unfold join_one. eapply triple_ask_called; [exact Hs|]. intros s1 Hs1.
  apply triple_bind, triple_gets.
  destruct (connections s1 !! i) as [c|] eqn:Hc.
  2: { apply lookup_ge_None in Hc. rewrite (called_length _ _ Hs1) in Hc. lia. }
  destruct (mm_ended _) eqn:Hended; cbn [negb]; [|apply triple_wait; split; [done|by left]].
  destruct (Capture_Join _ _ c) as [c'|] eqn:Hj; [|apply triple_wait; split; [done|right; by eauto]].
  apply triple_bind, triple_update. eapply called_control; [done|].
  assert (ca_id c' = ca_id c) as Hid by (unfold Capture_Join in Hj; by apply bind_Some in Hj as (? & _ & [= <-])).
  assert (with_connections (<[i := c']>) s1 = with_connections (alter (λ c0, mkCapture (ca_id c0) (ca_client c')) i) s1)
    as ->; [|by apply called_alter].
  unfold with_connections. f_equal. f_equal. apply list_eq. intros j. destruct (decide (i = j)) as [<-|Hne].
  - rewrite list_lookup_insert_eq by (by apply lookup_lt_Some in Hc). rewrite list_lookup_alter_eq, Hc. cbn.
    rewrite <-Hid. by destruct c'.
  - by rewrite list_lookup_insert_ne, list_lookup_alter_ne.
Qed.

Lemma concat_singletons {A} (f : nat → A) l : concat (map (λ i, [f i]) l) = map f l.
Proof. induction l as [|i l IH]; cbn; [done|by rewrite IH]. Qed.

(** Where a run stands that has not returned. *)
Definition blocked (fuel : nat) (c : control) (s : process) : Prop :=
  match c with
  | CRequestStop i => i = O ∧ (fuel = O ∨ find Capture_Fatal (connections s) = None ∧
                                          mm_stop (world (pred (pr_tick s))) = false)
  | CJoin i => join_blocked i s
  | CBooksStop => ∃ sv, stop_service fuel sv = (pr_books s, (stop_service fuel sv).2) ∧
                        (stop_service fuel sv).2 ≠ Done true
  | CHook _ | CStart _ | CLookup | CBooksStart => False
  end.

Definition waits (fuel : nat) (all : list control) (s : process) : Prop :=
  ∃ before c after, all = before ++ c :: after ∧ called before s ∧ blocked fuel c s.

Abbreviation requests := (map CRequestStop (seq 0 (length es))).
Abbreviation joins := (map CJoin (seq 0 (length es))).

Lemma wind_down_called fuel l tail s :
  called l s →
  triple (wind_down zlib_crc32 world) s (λ _, called (l ++ requests ++ joins))
    (waits fuel (l ++ requests ++ joins ++ tail)).
Proof.
  intros Hs. unfold wind_down. apply triple_bind, triple_gets. unfold indices. rewrite (called_length _ _ Hs).
  apply triple_bind. eapply triple_mono.
  { apply (each_called _ (λ i, [CRequestStop i]) (λ _ _, False)); [|exact Hs].
    intros i l' s' _ H. eapply triple_mono; [by apply request_called|done|done]. }
  - cbv beta. intros _ s1 Hs1. rewrite concat_singletons in Hs1. eapply triple_mono.
    { apply (each_called _ (λ i, [CJoin i]) join_blocked); [|exact Hs1].
      intros i l' s' Hi H. apply join_called; [|done]. apply elem_of_seq in Hi. lia. }
    + cbv beta. intros _ s2 Hs2. by rewrite concat_singletons, <-(assoc app) in Hs2.
    + cbv beta. intros s2 (before & i & after & Hseq & Hs2 & Hb). rewrite concat_singletons in Hs2.
      exists (l ++ requests ++ map CJoin before), (CJoin i), (map CJoin after ++ tail).
      rewrite <-(assoc app) in Hs2. split_and!; [|done|done].
      rewrite Hseq at 2. rewrite map_app. cbn [map]. by rewrite <-!(assoc app).
  - by intros s1 (? & ? & ? & ? & ? & []).
Qed.

Lemma stop_books_called fuel l s :
  called l s →
  triple (stop_books llround_unspecified hash asserts now world fuel) s (λ _, called (l ++ [CBooksStop]))
    (waits fuel (l ++ [CBooksStop])).
Proof.
  intros Hs. unfold stop_books. eapply triple_ask_called; [exact Hs|]. intros s1 Hs1.
  apply triple_bind, triple_gets, triple_bind, triple_update. set (r := stop_service fuel (pr_books s1)).
  assert (∀ s', s' = with_books r.1 s1 → r.2 ≠ Done true → waits fuel (l ++ [CBooksStop]) s') as Hwait.
  { intros s' -> Hr. exists l, CBooksStop, []. split_and!; [done|by apply called_books|].
    exists (pr_books s1). fold r. split; [by destruct r|done]. }
  destruct r.2 as [[]| |] eqn:Hr; [|apply triple_wait; by apply Hwait|apply triple_raise; by apply Hwait..].
  eapply called_control; [done|]. by apply called_books.
Qed.
End planned.

(** ** The whole run *)

Variable toml_parse : bytes → bytes → expected parse_error toml_table.
Variable read_file : bytes → option (bytes * bool).
Variable env : bytes → option bytes.
Variable file : option state_file.

Lemma built_called config rs set :
  CaptureSet_Build (Q:=Q) file config rs = Expected set →
  called (map rc_connection rs) [] (with_set set (new_process (QB:=QB))).
Proof.
  rewrite Build_spec. intros [= <-]. constructor; [done|done| |].
  - unfold connections. cbn. rewrite !map_map. apply map_ext. intros r. unfold made.
    by destruct (c_exchange (rc_connection r)).
  - cbn. case_decide as Hd; rewrite existsb_exists.
    + split; [intros _|by eauto]. apply Exists_exists in Hd as (r & Hr & Hk).
      exists (rc_connection r). split; [by apply in_map, list_elem_of_In|]. unfold is_kraken. by rewrite Hk.
    + split; [by intros []|]. intros (e & He & Hk). exfalso. apply Hd, Exists_exists.
      apply in_map_iff in He as (r & <- & Hr). exists r. split; [by apply list_elem_of_In|].
      by apply bool_decide_eq_true in Hk.
Qed.

Lemma started_valid argv config rs :
  startup toml_parse read_file env argv = Expected (config, rs) →
  Forall valid_connection (map rc_connection rs) ∧ map rc_connection rs ≠ [].
Proof.
  intros H. apply startup_iff in H as (cl & _ & Hload & _ & Hne & _ & _ & ->).
  assert (valid_config config) as Hv.
  { unfold LoadConfigFile in Hload. destruct (read_file _) as [[text []]|]; [done| |done].
    by eapply ParseConfig_valid_config. }
  assert (map rc_connection (resolved_with env <$> filter (admitted cl) (fhc_connections config)) =
    filter (admitted cl) (fhc_connections config)) as ->.
  { change (resolved_with env <$> filter (admitted cl) (fhc_connections config))
      with (map (resolved_with env) (filter (admitted cl) (fhc_connections config))).
    rewrite map_map. apply map_id. }
  split; [|done].
  apply Forall_forall. intros e [_ He]%list_elem_of_filter. pose proof (vf_connections _ Hv) as Hall.
  rewrite Forall_forall in Hall. by apply Hall.
Qed.

Abbreviation run_main := (main zlib_crc32 (value:=value) llround_unspecified hash asserts now toml_parse
  read_file env file world).

(** The run up to the end of the polls. *)
Definition polled (fuel : nat) (config : FeedHandlerConfig) (set : CaptureSet) (id : bytes) (s : process) : Prop :=
  (do* bring_up (value:=value) asserts world config ;; poll_loop world fuel)%io (with_set set new_process) =
  (s, Returned id).

Lemma run_capture_called config es fuel set :
  es ≠ [] → Forall valid_connection es → called es [] (with_set set new_process) →
  triple (run_capture zlib_crc32 (value:=value) llround_unspecified hash asserts now world fuel config)
    (with_set set new_process)
    (λ code s, controls (pr_trace s) = plan config es ∧
       ∃ sp id, polled fuel config set id sp ∧ verdict id sp ∧ code = (if decide (id = []) then 0 else 1))
    (waits es fuel (plan config es)).
Proof.
  intros Hne Hvalid Hs0. set (up := brought_up config es).
  assert (plan config es = up ++ map CRequestStop (seq 0 (length es)) ++ map CJoin (seq 0 (length es)) ++ [CBooksStop])
    as -> by (unfold plan, up, brought_up; by rewrite <-!(assoc app)).
  pose proof (bring_up_called config es Hvalid _ Hs0) as Hup. unfold returns, triple in Hup.
  unfold run_capture. apply triple_bind. unfold triple at 1.
  destruct (bring_up _ _ _ _) as [s1 [[]| |]] eqn:Hbring; [|done..].
  apply triple_bind. unfold triple at 1.
  pose proof (poll_called es Hvalid fuel _ _ Hup) as Hpoll. unfold triple in Hpoll.
  assert (∀ sp id, poll_loop world fuel s1 = (sp, Returned id) → polled fuel config set id sp) as Hpolled
    by (intros sp id H; unfold polled, io_bind; by rewrite Hbring).
  assert (∀ sp, called es up sp ∧ (fuel = O ∨ find Capture_Fatal (connections sp) = None ∧
      mm_stop (world (pred (pr_tick sp))) = false) →
    waits es fuel (up ++ map CRequestStop (seq 0 (length es)) ++ map CJoin (seq 0 (length es)) ++ [CBooksStop]) sp)
    as Hwait.
  { intros sp [Hsp Hb]. eexists up, (CRequestStop 0), (map CRequestStop (seq 1 (pred (length es))) ++ _).
    split_and!; [|done|done]. by destruct es. }
  destruct (poll_loop world fuel s1) as [sp [id| |]]; [|by apply Hwait..].
  destruct Hpoll as [Hsp Hv]. specialize (Hpolled sp id eq_refl).
  apply triple_bind. eapply triple_mono; [by apply (wind_down_called es Hvalid fuel up [CBooksStop])| |done].
  cbv beta. intros _ s2 Hs2. apply triple_bind.
  eapply triple_mono; [by apply stop_books_called| |intros s' H; by rewrite <-!(assoc app) in H].
  cbv beta. intros _ s3 Hs3. eapply triple_ask_called; [exact Hs3|]. intros s4 [Hs4 _ _ _].
  apply triple_bind, triple_update, triple_ret. split; [|by exists sp, id].
  cbn. by rewrite controls_app, controls_logs, app_nil_r, Hs4, <-!(assoc app).
Qed.

(** C3: a run of the process. An error at startup is logged, nothing is built,
    and the exit code is 2. Otherwise the connections are those of the
    selection; whatever they, their threads and the books do, the calls made of
    them are the plan's, in order and each once: Deribit's connections, the
    instrument lookup, Kraken's connections, each right after its hook when
    books are on, the books, every stop request, every join, the books. It
    exits with 1 exactly when a connection was found fatal, even if a stop was
    requested at the same time, and with 0 when a stop was requested. A run
    that has not returned has made a prefix of those calls and polls while
    there is neither, or waits for threads that have not ended, a journal that
    is not closed or books that are not drained. *)
Theorem main_runs_its_plan fuel argv :
  match startup toml_parse read_file env argv with
  | Unexpected e => run_main fuel argv new_process = (main_did [MLog kError e] new_process, Returned 2)
  | Expected (config, rs) =>
      ∃ set, CaptureSet_Build file config rs = Expected set ∧ map (made config file) rs = set_connections set ∧
      match run_main fuel argv new_process with
      | (s, Returned code) =>
          controls (pr_trace s) = plan config (map rc_connection rs) ∧
          ∃ sp id, polled fuel config set id sp ∧ verdict id sp ∧ code = (if decide (id = []) then 0 else 1)
      | (s, _) => waits (map rc_connection rs) fuel (plan config (map rc_connection rs)) s
      end
  end.
Proof.
  unfold main. destruct (startup _ _ _ argv) as [[config rs]|e] eqn:Hstart; [|done].
  apply started_valid in Hstart as [Hvalid Hne]. eexists. split; [apply Build_spec|]. split; [done|].
  pose proof (built_called config rs _ (Build_spec _ _ _)) as Hs0. rewrite Build_spec.
  set (set := mkCaptureSet _ _ _) in *. set (es := map rc_connection rs) in *.
  exact (run_capture_called config es fuel set Hne Hvalid Hs0).
Qed.
End process.

(** ** An example: both connections, books on, a stop request at the third poll

    The environment holds the four variables; the lookup answers with
    [demo_pairs]. *)

Definition demo_main_world (n : nat) : main_moment (Q:=bounded_queue JournalEvent) (QB:=bounded_queue RingEntry) :=
  mkMainMoment (λ _ c, c) (λ sv, sv) (λ _, Some (mkHttpResponse 200 [] [])) (8 <=? n)%nat true
    (mkCloseEnv true (λ _, mkDisk 1000 true)).
Definition demo_main (fuel : nat) (argv : list bytes) : process * ClientBase.progress Z :=
  main demo_crc (Json0:=refusing_json) (OnDemand0:=tree_json demo_pairs) (λ _, 0) (λ _, 0) true (λ _, 0)
    (λ _ _, Expected demo_root) (λ _, Some ([], false)) (λ name, Some name) None demo_main_world fuel argv new_process.

Example demo_main_stops :
  let r := demo_main 10 [B "feed_handler"; B "--config"; B "feed.toml"] in
  r.2 = Returned 0 ∧
  controls (pr_trace r.1) =
    [CHook 1; CStart 1; CLookup; CHook 0; CStart 0; CBooksStart; CRequestStop 0; CRequestStop 1; CJoin 0; CJoin 1;
     CBooksStop].
Proof. vm_compute. done. Qed.

Example demo_main_refuses :
  let r := demo_main 10 [B "feed_handler"; B "--config"; B "feed.toml"; B "--only"; B "nobody"] in
  r.2 = Returned 2 ∧ controls (pr_trace r.1) = [] ∧ length (pr_trace r.1) = 1%nat.
Proof. vm_compute. done. Qed.
